(** * LiveTraffic airport graph ([LTApt.cpp]): a shallow embedding

    The airport model of [LTApt.cpp]: taxi nodes, runway endpoints and
    edges held in vectors and addressed by index, the graph builder
    ([AddTaxiNode], [AddTaxiEdge], [SplitEdge], [AddRwyEnds]), the
    heading-sorted edge index ([SortTaxiEdges], [FindEdgesForHeading],
    [FindClosestEdge]), the bounded path search ([ShortestPath]),
    snapping ([SnapToTaxiway]) and runway selection ([LTAptFindRwy]).

    Conventions.
    - [size_t] is [N]; [ULONG_MAX] is [2^64-1].
    - [double] is modelled by extended rationals with a NaN: comparisons
      with NaN are false, [inf - inf] is NaN.  Sum, difference, product
      and quotient are rounded to binary64 ([fl]: to nearest, ties to even,
      with subnormals and overflow to an infinity); the sign of zero is not
      modelled.  An [int] is a [Z] with the wrap-around of 32 bits written
      out where the source multiplies.
    - [std::vector] is [list]; [v.at(i)] out of range throws
      ([OutOfRange]), [v[i]] out of range is undefined behaviour ([UB]).
    - Functions of the geometry library ([CoordAngle], [DistLatLon], ...)
      and constants of [Constants.h] are not part of this file's source;
      they are fields of the classes [GeoLib] and [Config]. *)

From Stdlib Require Import QArith Qabs Qround Qpower Lqa.
From stdpp Require Import base decidable option list numbers strings sorting.

Local Open Scope N_scope.

(** ** Numbers *)

Abbreviation size_t := N (only parsing).
Definition ULONG_MAX : size_t := 18446744073709551615.

(** [double]: NaN, the two infinities and the rationals. *)
Inductive double : Type :=
| DNaN
| DNegInf
| DFin (q : Q)
| DPosInf.

Definition NAN : double := DNaN.
Definition HUGE_VAL : double := DPosInf.
Definition dbl (q : Q) : double := DFin q.

Definition Qlt_bool (x y : Q) : bool := negb (Qle_bool y x).

Definition isnan (x : double) : bool :=
  match x with DNaN => true | _ => false end.

Definition is_finite (x : double) : Prop :=
  match x with DFin _ => True | _ => False end.

(** [x < y] *)
Definition dlt (x y : double) : bool :=
  match x, y with
  | DNaN, _ | _, DNaN => false
  | DPosInf, _ => false
  | _, DNegInf => false
  | DNegInf, _ => true
  | DFin _, DPosInf => true
  | DFin p, DFin q => Qlt_bool p q
  end.

(** [x <= y] *)
Definition dle (x y : double) : bool :=
  match x, y with
  | DNaN, _ | _, DNaN => false
  | DNegInf, _ => true
  | _, DPosInf => true
  | DPosInf, _ => false
  | _, DNegInf => false
  | DFin p, DFin q => Qle_bool p q
  end.

Definition dgt (x y : double) : bool := dlt y x.
Definition dge (x y : double) : bool := dle y x.

Definition dneg (x : double) : double :=
  match x with
  | DNaN => DNaN
  | DNegInf => DPosInf
  | DFin q => DFin (- q)
  | DPosInf => DNegInf
  end.

(** *** Rounding to binary64

    [rne q] is the integer nearest to [q], the even one of two that are
    equally near. *)
Definition rne (q : Q) : Z :=
  let f := Qfloor q in
  match (q - inject_Z f ?= 1 # 2)%Q with
  | Lt => f
  | Gt => (f + 1)%Z
  | Eq => if Z.even f then f else (f + 1)%Z
  end.

(** [ilog2 q], for [q] other than zero, is the exponent [e] with
    [2^e <= |q| < 2^(e+1)]. *)
Definition ilog2 (q : Q) : Z :=
  let e0 := (Z.log2 (Z.abs (Qnum q)) - Z.log2 (Zpos (Qden q)))%Z in
  if Qle_bool (2 ^ e0) (Qabs q) then e0 else (e0 - 1)%Z.

(** [fl q] is the binary64 value of [q]: with [e] the exponent of [q], the
    multiple of [2^(e-52)] (of [2^-1074] for subnormals) that is nearest to
    [q], ties going to the even multiple; an infinity if that is [2^1024]
    or beyond. *)
Definition fl (q : Q) : double :=
  if Qeq_bool q 0 then DFin 0
  else
    let e := ilog2 q in
    let k := Z.max (e - 52) (-1074) in
    let m := rne (q / 2 ^ k) in
    if (1024 <=? e)%Z || ((e =? 1023)%Z && (Z.abs m =? 2 ^ 53)%Z)
    then (if Qle_bool 0 q then DPosInf else DNegInf)
    else DFin (Qred (inject_Z m * 2 ^ k)).

Arguments fl : simpl never.

Definition dadd (x y : double) : double :=
  match x, y with
  | DNaN, _ | _, DNaN => DNaN
  | DPosInf, DNegInf | DNegInf, DPosInf => DNaN
  | DPosInf, _ | _, DPosInf => DPosInf
  | DNegInf, _ | _, DNegInf => DNegInf
  | DFin p, DFin q => fl (p + q)
  end.

Definition dsub (x y : double) : double := dadd x (dneg y).

Definition dabs (x : double) : double :=
  match x with
  | DNaN => DNaN
  | DNegInf | DPosInf => DPosInf
  | DFin q => DFin (Qabs q)
  end.

(** Sign of a double: [Lt] (negative), [Eq] (zero) or [Gt] (positive); NaN
    has none. *)
Definition dsign (x : double) : option comparison :=
  match x with
  | DNaN => None
  | DNegInf => Some Lt
  | DPosInf => Some Gt
  | DFin q => Some (q ?= 0)%Q
  end.

Definition dmul (x y : double) : double :=
  match x, y with
  | DFin p, DFin q => fl (p * q)
  | _, _ =>
      match dsign x, dsign y with
      | Some Eq, _ | _, Some Eq => DNaN
      | Some Lt, Some Lt | Some Gt, Some Gt => DPosInf
      | Some Lt, Some Gt | Some Gt, Some Lt => DNegInf
      | _, _ => DNaN
      end
  end.

(** A zero is the positive zero: a quotient by zero has the sign of the
    dividend. *)
Definition ddiv (x y : double) : double :=
  match x, y with
  | DNaN, _ | _, DNaN => DNaN
  | DFin p, DFin q =>
      match (q ?= 0)%Q with
      | Eq => match (p ?= 0)%Q with
              | Eq => DNaN
              | Gt => DPosInf
              | Lt => DNegInf
              end
      | _ => fl (p / q)
      end
  | DFin _, _ => DFin 0
  | _, DFin q =>
      match dsign x, (q ?= 0)%Q with
      | Some Lt, Lt | Some Gt, (Eq | Gt) => DPosInf
      | _, _ => DNegInf
      end
  | _, _ => DNaN
  end.

(** [sqr] of an [int]: the product in 32 bits, as the processor computes
    it; it wraps around from 46341 on. *)
Definition wrap_int (z : Z) : Z :=
  ((z + 2 ^ 31) mod 2 ^ 32 - 2 ^ 31)%Z.

Definition sqr_int (m : Z) : Z := wrap_int (m * m).

(** [std::max(a,b)] is [(a < b) ? b : a]; [std::min(a,b)] is [(b < a) ? b : a]. *)
Definition dmax (x y : double) : double := if dlt x y then y else x.
Definition dmin (x y : double) : double := if dlt y x then y else x.

(** ** Results of fallible code *)

Inductive error : Type :=
| OutOfRange   (** [std::out_of_range] thrown by [vector::at] *)
| UB           (** [operator[]] used out of range *)
| BadCast      (** [std::bad_cast] thrown by [dynamic_cast] to a reference *)
| OutOfFuel.   (** the model's loop bound was reached *)

Inductive res (A : Type) : Type :=
| Ok (x : A)
| Err (e : error).
Arguments Ok {A} x.
Arguments Err {A} e.

#[global] Instance res_bind : MBind res := λ A B f m,
  match m with
  | Ok x => f x
  | Err e => Err e
  end.

#[global] Instance res_ret : MRet res := λ A x, Ok x.

#[global] Instance res_fmap : FMap res := λ A B f m,
  match m with
  | Ok x => Ok (f x)
  | Err e => Err e
  end.

(** [v.at(i)] and [v[i]]. The guard keeps [N.to_nat] away from sentinels. *)
Definition vlookup {A} (v : list A) (i : size_t) : option A :=
  if decide (i < N.of_nat (length v)) then v !! N.to_nat i else None.

Definition vat {A} (v : list A) (i : size_t) : res A :=
  match vlookup v i with Some x => Ok x | None => Err OutOfRange end.

Definition vidx {A} (v : list A) (i : size_t) : res A :=
  match vlookup v i with Some x => Ok x | None => Err UB end.

Definition vsize {A} (v : list A) : size_t := N.of_nat (length v).

(** [v[i] = x] for an index known to be in range. *)
Definition vset {A} (v : list A) (i : size_t) (x : A) : list A :=
  <[N.to_nat i := x]> v.

(** ** Data model *)

(** Vector of indexes into another vector. *)
Abbreviation vecIdxTy := (list size_t) (only parsing).

(** A node of a taxiway.  The constructors of the source leave the three
    Dijkstra attributes uninitialised; [ShortestPath] resets them before it
    reads them.  The model fills them with fixed values. *)
Record TaxiNode : Type := mkNode {
  lat : double;
  lon : double;
  vecEdges : vecIdxTy;
  pathLen : double;
  prevIdx : size_t;
  bVisited : bool;
}.

Definition TaxiNode_default : TaxiNode :=
  mkNode NAN NAN [] NAN 0 false.
Definition TaxiNode_at (_lat _lon : double) : TaxiNode :=
  mkNode _lat _lon [] NAN 0 false.

Definition InitDijkstraAttr (n : TaxiNode) : TaxiNode :=
  mkNode (lat n) (lon n) (vecEdges n) HUGE_VAL ULONG_MAX false.

Definition HasGeoCoords (n : TaxiNode) : bool :=
  negb (isnan (lat n)) && negb (isnan (lon n)).

Abbreviation vecTaxiNodesTy := (list TaxiNode) (only parsing).

(** A runway endpoint: a [TaxiNode] with an id, an altitude and the taxi
    nodes that leave the runway in this direction. *)
Record RwyEndPt : Type := mkRwyEndPt {
  rwyNode : TaxiNode;
  rwyId : string;
  alt_m : double;
  vecTaxiNodes_of : vecIdxTy;
}.

Definition RwyEndPt_at (_id : string) (_lat _lon : double) : RwyEndPt :=
  mkRwyEndPt (TaxiNode_at _lat _lon) _id NAN [].

Abbreviation vecRwyEndPtTy := (list RwyEndPt) (only parsing).

Inductive nodeTy : Type :=
| UNKNOWN_WAY
| RUN_WAY
| TAXI_WAY.

#[global] Instance nodeTy_eq_dec : EqDecision nodeTy.
Proof. solve_decision. Defined.

(** An edge of the taxi / runway network, connecting two nodes by index. *)
Record TaxiEdge : Type := mkEdge {
  type : nodeTy;
  a : size_t;
  b : size_t;
  angle : double;
  dist_m : double;
}.

(** Normalize myself to 0 <= angle < 180 *)
Definition Normalize (e : TaxiEdge) : TaxiEdge :=
  if dge (angle e) (dbl 180)
  then mkEdge (type e) (b e) (a e) (dsub (angle e) (dbl 180)) (dist_m e)
  else e.

(** The constructor of [TaxiEdge]. *)
Definition TaxiEdge_new (_t : nodeTy) (_a _b : size_t) (_angle _dist_m : double)
  : TaxiEdge :=
  Normalize (mkEdge _t _a _b _angle _dist_m).

Definition GetType (e : TaxiEdge) : nodeTy := type e.
Definition startNode (e : TaxiEdge) : size_t := a e.
Definition endNode (e : TaxiEdge) : size_t := b e.
Definition otherNode (e : TaxiEdge) (n : size_t) : size_t :=
  if decide (n = a e) then b e else a e.
Definition GetAngleFrom (e : TaxiEdge) (n : size_t) : double :=
  if decide (n = a e) then angle e else dadd (angle e) (dbl 180).

(** sets a new end node, usually when splitting edges *)
Definition SetEndNode (e : TaxiEdge) (_b : size_t) (_angle _dist_m : double)
  : TaxiEdge :=
  Normalize (mkEdge (type e) (a e) _b _angle _dist_m).

Abbreviation vecTaxiEdgeTy := (list TaxiEdge) (only parsing).

(** Modelled from its uses in this file: a box given by its north-west and
    south-east corners ([boundingBoxTy] is declared in [CoordCalc.h]). *)
Record boundingBoxTy : Type := mkBox {
  nw_lat : double; nw_lon : double;
  se_lat : double; se_lon : double;
}.

(** Represents an airport as read from apt.dat *)
Record Apt : Type := mkApt {
  id : string;
  bounds : boundingBoxTy;
  apt_alt_m : double;
  vecTaxiNodes : vecTaxiNodesTy;
  vecRwyEndPts : vecRwyEndPtTy;
  vecTaxiEdges : vecTaxiEdgeTy;
  vecTaxiEdgesIdxHead : vecIdxTy;
}.

Definition Apt_new (_id : string) : Apt :=
  mkApt _id (mkBox NAN NAN NAN NAN) NAN [] [] [] [].

Definition set_bounds (apt : Apt) (bb : boundingBoxTy) : Apt :=
  mkApt (id apt) bb (apt_alt_m apt) (vecTaxiNodes apt) (vecRwyEndPts apt)
        (vecTaxiEdges apt) (vecTaxiEdgesIdxHead apt).
Definition set_nodes (apt : Apt) (v : vecTaxiNodesTy) : Apt :=
  mkApt (id apt) (bounds apt) (apt_alt_m apt) v (vecRwyEndPts apt)
        (vecTaxiEdges apt) (vecTaxiEdgesIdxHead apt).
Definition set_rwyEndPts (apt : Apt) (v : vecRwyEndPtTy) : Apt :=
  mkApt (id apt) (bounds apt) (apt_alt_m apt) (vecTaxiNodes apt) v
        (vecTaxiEdges apt) (vecTaxiEdgesIdxHead apt).
Definition set_edges (apt : Apt) (v : vecTaxiEdgeTy) : Apt :=
  mkApt (id apt) (bounds apt) (apt_alt_m apt) (vecTaxiNodes apt)
        (vecRwyEndPts apt) v (vecTaxiEdgesIdxHead apt).
Definition set_idxHead (apt : Apt) (v : vecIdxTy) : Apt :=
  mkApt (id apt) (bounds apt) (apt_alt_m apt) (vecTaxiNodes apt)
        (vecRwyEndPts apt) (vecTaxiEdges apt) v.

Definition HasId (apt : Apt) : bool := negb (String.eqb (id apt) "").
Definition HasTaxiWays (apt : Apt) : bool :=
  match vecTaxiEdges apt with [] => false | _ => true end.
Definition HasRwyEndpoints (apt : Apt) : bool :=
  match vecRwyEndPts apt with [] => false | _ => true end.
Definition IsValid (apt : Apt) : bool :=
  HasId apt && HasTaxiWays apt && HasRwyEndpoints apt.

(** Poor man's polymorphism: runway endpoints are stored at a different
    place than taxiway nodes; the edge's type selects the vector. *)
Definition GetA (e : TaxiEdge) (apt : Apt) : res TaxiNode :=
  if decide (type e = RUN_WAY)
  then rwyNode <$> vidx (vecRwyEndPts apt) (a e)
  else vidx (vecTaxiNodes apt) (a e).

Definition GetB (e : TaxiEdge) (apt : Apt) : res TaxiNode :=
  if decide (type e = RUN_WAY)
  then rwyNode <$> vidx (vecRwyEndPts apt) (b e)
  else vidx (vecTaxiNodes apt) (b e).

(** ** Positions and aircraft

    [positionTy], [LTAircraft] and [LTFlightData] are declared in other
    files; the records hold the members that this file reads and writes. *)

(** Modelled from the spec: the flight phases of
    [LTAPIAircraft::LTFlightPhase], an enumeration declared in another
    file. *)
Inductive flightPhaseE : Type :=
| FPH_UNKNOWN
| FPH_TAXI
| FPH_TAKE_OFF
| FPH_TO_ROLL
| FPH_ROTATE
| FPH_LIFT_OFF
| FPH_INITIAL_CLIMB
| FPH_CLIMB
| FPH_CRUISE
| FPH_DESCEND
| FPH_APPROACH
| FPH_FINAL
| FPH_LANDING
| FPH_FLARE
| FPH_TOUCH_DOWN
| FPH_ROLL_OUT
| FPH_STOPPED_ON_RWY.

Inductive onGrndE : Type :=
| GND_UNKNOWN
| GND_OFF
| GND_ON.

(** Modelled from its uses in this file: a position report. *)
Record positionTy : Type := mkPos {
  pos_lat : double;
  pos_lon : double;
  pos_alt_m : double;
  pos_ts : double;
  pos_heading : double;
  pos_pitch : double;
  pos_roll : double;
  pos_onGrnd : onGrndE;
  pos_flightPhase : flightPhaseE;
  pos_edgeIdx : size_t;
}.

Definition set_pos_base (p : positionTy) (_lat _lon : double) (eIdx : size_t)
  : positionTy :=
  mkPos _lat _lon (pos_alt_m p) (pos_ts p) (pos_heading p) (pos_pitch p)
        (pos_roll p) (pos_onGrnd p) (pos_flightPhase p) eIdx.
Definition set_pos_edgeIdx (p : positionTy) (eIdx : size_t) : positionTy :=
  set_pos_base p (pos_lat p) (pos_lon p) eIdx.
Definition set_pos_flightPhase (p : positionTy) (ph : flightPhaseE)
  : positionTy :=
  mkPos (pos_lat p) (pos_lon p) (pos_alt_m p) (pos_ts p) (pos_heading p)
        (pos_pitch p) (pos_roll p) (pos_onGrnd p) ph (pos_edgeIdx p).

(** Modelled from its uses in this file: the members of the flight model
    that are read here. *)
Record FlightModel : Type := mkFlightModel {
  VSI_FINAL : double;
  FLAPS_DOWN_SPEED : double;
  PITCH_FLARE : double;
  MAX_TAXI_SPEED : double;
}.

(** Modelled from its uses in this file: an aircraft with its flight
    model, its current target position and its speed. *)
Record LTAircraft : Type := mkAircraft {
  mdl : FlightModel;
  GetToPos : positionTy;
  GetSpeed_m_s : double;
}.

(** Modelled from its uses in this file: flight data with the positions
    waiting to be flown, the aircraft if there is one, and the aircraft
    type. *)
Record LTFlightData : Type := mkFlightData {
  posDeque : list positionTy;
  pAc : option LTAircraft;
  acTypeIcao : string;
}.

Definition hasAc (fd : LTFlightData) : bool :=
  match pAc fd with Some _ => true | None => false end.

Definition set_posDeque (fd : LTFlightData) (d : list positionTy)
  : LTFlightData :=
  mkFlightData d (pAc fd) (acTypeIcao fd).

(** ** Collaborators that are not part of this source file *)

(** Modelled from its uses in this file: result of the point-to-line
    distance computation ([distToLineTy] is declared in [CoordCalc.h]). *)
Record distToLineTy : Type := mkDistToLine {
  dist2 : double;
  len2 : double;
  leg1_len2 : double;
  leg2_len2 : double;
}.

(** Modelled from its uses in this file: a vector between two positions
    ([vectorTy] is declared in [CoordCalc.h]). *)
Record vectorTy : Type := mkVector {
  vec_angle : double;
  vec_dist : double;
}.

(** The geometry utilities of [CoordCalc.h]: conversions between
    latitude/longitude and local meters, angles, distances. *)
Class GeoLib : Type := {
  CoordAngle : double → double → double → double → double;
  CoordDistance : double → double → double → double → double;
  DistLatLon : double → double → double → double → double;
  DistLatLonSqr : double → double → double → double → double;
  HeadingDiff : double → double → double;
  HeadingNormalize : double → double;
  Dist2Lat : double → double;
  Dist2Lon : double → double → double;
  Lat2Dist : double → double;
  Lon2Dist : double → double → double;
  dequal : double → double → bool;
  DistPointToLineSqr :
    double → double → double → double → double → double → distToLineTy;
  DistSqrOfBaseBeyondLine : distToLineTy → double;
  DistResultToBaseLoc :
    double → double → double → double → distToLineTy → double * double;
  (** [boundingBoxTy::enlarge_pos], [enlarge_m] and [contains] *)
  enlarge_pos : boundingBoxTy → double → double → boundingBoxTy;
  enlarge_m : boundingBoxTy → double → boundingBoxTy;
  bb_contains : boundingBoxTy → double → double → bool;
  (** [positionTy::between] and [positionTy::operator+=] on lat/lon *)
  pos_between : double → double → double → double → vectorTy;
  pos_plus : double * double → vectorTy → double * double;
  (** [LTAircraft::FlightModel::FindFlightModel] *)
  FindFlightModel : string → FlightModel;
}.

(** The constants of [Constants.h] and the settings read from [dataRefs]. *)
Class Config : Type := {
  APT_MAX_SIMILAR_NODE_DIST_M : double;
  APT_JOIN_MAX_DIST_M : Z;
  APT_JOIN_ANGLE_TOLERANCE : double;
  APT_JOIN_ANGLE_TOLERANCE_EXT : double;
  ART_EDGE_ANGLE_TOLERANCE : double;
  ART_EDGE_ANGLE_TOLERANCE_EXT : double;
  ART_EDGE_ANGLE_EXT_DIST : double;
  ART_RWY_TD_POINT_F : double;
  ART_RWY_MAX_HEAD_DIFF : double;
  ART_RWY_MAX_VSI_F : double;
  ART_APPR_SPEED_F : double;
  Ms_per_FTm : double;
  KT_per_M_per_S : double;
  SIMILAR_TS_INTVL : double;
  EDGE_UNKNOWN : size_t;
  EDGE_UNAVAIL : size_t;
  GetFdSnapTaxiDist_m : Z;
}.

(** ** Graph builder *)

Section Builder.
Context `{GeoLib} `{Config}.

(** [std::find_if] over a vector, the predicate seeing index and element;
    [None] is the end iterator. *)
Fixpoint find_if_from {A} (i : nat) (p : nat → A → bool) (v : list A)
  : option nat :=
  match v with
  | [] => None
  | x :: v' => if p i x then Some i else find_if_from (S i) p v'
  end.

Definition find_if {A} (p : nat → A → bool) (v : list A) : option nat :=
  find_if_from 0 p v.

(** return taxi node with "close-by" location *)
Definition GetSimilarTaxiNode (apt : Apt) (_lat _lon : double)
    (dontCombineWith : size_t) : res (option nat) :=
  let latDiff := Dist2Lat APT_MAX_SIMILAR_NODE_DIST_M in
  let lonDiff := Dist2Lon APT_MAX_SIMILAR_NODE_DIST_M _lat in
  pNotThis ←
    (if decide (dontCombineWith = ULONG_MAX) then Ok None
     else _ ← vat (vecTaxiNodes apt) dontCombineWith;
          Ok (Some (N.to_nat dontCombineWith)));
  Ok (find_if
        (λ i n,
           match pNotThis with
           | None => true
           | Some j => negb (Nat.eqb j i)
           end
           && dle (dabs (dsub (lat n) _lat)) latDiff
           && dle (dabs (dsub (lon n) _lon)) lonDiff)
        (vecTaxiNodes apt)).

(** Add a new taxi network node; returns its index in [vecTaxiNodes]. *)
Definition AddTaxiNode (apt : Apt) (_lat _lon : double)
    (dontCombineWith : size_t) : res (Apt * size_t) :=
  cbIter ← GetSimilarTaxiNode apt _lat _lon dontCombineWith;
  match cbIter with
  | Some i => Ok (apt, N.of_nat i)
  | None =>
      let apt1 := set_bounds apt (enlarge_pos (bounds apt) _lat _lon) in
      let apt2 := set_nodes apt1 (vecTaxiNodes apt1 ++ [TaxiNode_at _lat _lon]) in
      Ok (apt2, vsize (vecTaxiNodes apt2) - 1)
  end.

(** [vector::resize]: truncate or fill with default-constructed nodes. *)
Definition resize (v : vecTaxiNodesTy) (n : size_t) : vecTaxiNodesTy :=
  take (N.to_nat n) v ++ replicate (N.to_nat n - length v) TaxiNode_default.

(** Add a new taxi network node at a given index position *)
Definition AddTaxiNodeFixed (apt : Apt) (_lat _lon : double) (idx : size_t)
  : res Apt :=
  let apt1 := set_bounds apt (enlarge_pos (bounds apt) _lat _lon) in
  if decide (idx = vsize (vecTaxiNodes apt1))
  then Ok (set_nodes apt1 (vecTaxiNodes apt1 ++ [TaxiNode_at _lat _lon]))
  else
    let v :=
      if decide (vsize (vecTaxiNodes apt1) < idx)
      then resize (vecTaxiNodes apt1) ((idx + 1) mod 2 ^ 64)
      else vecTaxiNodes apt1 in
    _ ← vidx v idx;
    Ok (set_nodes apt1 (vset v idx (TaxiNode_at _lat _lon))).

Definition push_edge (n : TaxiNode) (eIdx : size_t) : TaxiNode :=
  mkNode (lat n) (lon n) (vecEdges n ++ [eIdx])
         (pathLen n) (prevIdx n) (bVisited n).

(** Add a new taxi network edge, which must connect 2 existing nodes;
    returns the index into [vecTaxiEdges], or [ULONG_MAX] if unsuccessful. *)
Definition AddTaxiEdge (apt : Apt) (n1 n2 : size_t) (_dist : double)
  : res (Apt * size_t) :=
  na ← vat (vecTaxiNodes apt) n1;
  nb ← vat (vecTaxiNodes apt) n2;
  if negb (HasGeoCoords na) || negb (HasGeoCoords nb)
  then Ok (apt, ULONG_MAX)
  else
    let _dist :=
      if isnan _dist then DistLatLon (lat na) (lon na) (lat nb) (lon nb)
      else _dist in
    let edges :=
      vecTaxiEdges apt ++
      [TaxiEdge_new TAXI_WAY n1 n2
         (CoordAngle (lat na) (lon na) (lat nb) (lon nb)) _dist] in
    let eIdx := vsize edges - 1 in
    (* a.vecEdges.push_back(eIdx); b.vecEdges.push_back(eIdx);
       a and b are the same object when n1 = n2 *)
    let nodes1 := vset (vecTaxiNodes apt) n1 (push_edge na eIdx) in
    let nodes2 :=
      match vlookup nodes1 n2 with
      | Some nb' => vset nodes1 n2 (push_edge nb' eIdx)
      | None => nodes1
      end in
    Ok (set_nodes (set_edges apt edges) nodes2, vsize edges - 1).

(** Recalc heading and angle of a given edge *)
Definition RecalcTaxiEdge (apt : Apt) (e : TaxiEdge) : res TaxiEdge :=
  na ← GetA e apt;
  nb ← GetB e apt;
  Ok (Normalize
        (mkEdge (type e) (a e) (b e)
           (CoordAngle (lat na) (lon na) (lat nb) (lon nb))
           (DistLatLon (lat na) (lon na) (lat nb) (lon nb)))).

Definition erase_edge (n : TaxiNode) (eIdx : size_t) : TaxiNode :=
  mkNode (lat n) (lon n) (filter (λ x, x ≠ eIdx) (vecEdges n))
         (pathLen n) (prevIdx n) (bVisited n).

(** Split an edge by inserting a given node *)
Definition SplitEdge (apt : Apt) (eIdx insNode : size_t) : res Apt :=
  e ← vat (vecTaxiEdges apt) eIdx;
  if decide (insNode = startNode e ∨ insNode = endNode e) then Ok apt
  else
    let joinOrigB := endNode e in
    origB ← vidx (vecTaxiNodes apt) joinOrigB;
    na ← GetA e apt;
    nb ← vat (vecTaxiNodes apt) insNode;
    let e' := SetEndNode e insNode
                (CoordAngle (lat na) (lon na) (lat nb) (lon nb))
                (DistLatLon (lat na) (lon na) (lat nb) (lon nb)) in
    let edges := vset (vecTaxiEdges apt) eIdx e' in
    let nodes1 := vset (vecTaxiNodes apt) insNode (push_edge nb eIdx) in
    let nodes2 := vset nodes1 joinOrigB (erase_edge origB eIdx) in
    '(apt', _) ← AddTaxiEdge (set_nodes (set_edges apt edges) nodes2)
                   insNode joinOrigB NAN;
    Ok apt'.

(** Adds both rwy ends from apt.dat information fields *)
Definition AddRwyEnds (apt : Apt)
    (lat1 lon1 displaced1 : double) (id1 : string)
    (lat2 lon2 displaced2 : double) (id2 : string) : Apt :=
  let vecRwy := pos_between lat1 lon1 lat2 lon2 in
  let d := dsub (dsub (vec_dist vecRwy) displaced1) displaced2 in
  let re1 := pos_plus (lat1, lon1)
    (mkVector (vec_angle vecRwy) (dadd displaced1 (dmul d ART_RWY_TD_POINT_F))) in
  let re2 := pos_plus (lat2, lon2)
    (mkVector (vec_angle vecRwy)
       (dneg (dadd displaced2 (dmul d ART_RWY_TD_POINT_F)))) in
  let d' := dmul d (dsub (dbl 1) (dmul (dbl 2) ART_RWY_TD_POINT_F)) in
  let bb1 := enlarge_pos (bounds apt) (fst re1) (snd re1) in
  let eps1 := vecRwyEndPts apt ++ [RwyEndPt_at id1 (fst re1) (snd re1)] in
  let bb2 := enlarge_pos bb1 (fst re2) (snd re2) in
  let eps2 := eps1 ++ [RwyEndPt_at id2 (fst re2) (snd re2)] in
  let edges :=
    vecTaxiEdges apt ++
    [TaxiEdge_new RUN_WAY (vsize eps2 - 2) (vsize eps2 - 1)
       (vec_angle vecRwy) d'] in
  set_edges (set_rwyEndPts (set_bounds apt bb2) eps2) edges.

End Builder.

(** ** The heading-sorted edge index *)

Section EdgeIndex.
Context `{GeoLib} `{Config}.

(** Fails with [UB] unless every index of the list is an edge index: the
    comparator of [std::sort] reads [vecTaxiEdges[a].angle]. *)
Fixpoint check_indexes (edges : vecTaxiEdgeTy) (l : vecIdxTy) : res unit :=
  match l with
  | [] => Ok ()
  | i :: l' => _ ← vidx edges i; check_indexes edges l'
  end.

(** The angle of edge [idx], for use once the index has been checked. *)
Definition edge_angle (edges : vecTaxiEdgeTy) (idx : size_t) : double :=
  match vlookup edges idx with
  | Some e => angle e
  | None => NAN
  end.

(** Insertion by [a.angle < b.angle]. *)
Fixpoint insert_by_angle (edges : vecTaxiEdgeTy) (x : size_t) (l : vecIdxTy)
  : vecIdxTy :=
  match l with
  | [] => [x]
  | y :: l' =>
      if dlt (edge_angle edges y) (edge_angle edges x)
      then y :: insert_by_angle edges x l'
      else x :: y :: l'
  end.

(** Fill the indirect vector, which sorts edges by heading.  [std::sort]
    does not fix the order of edges of equal angle, and with a NaN among
    the angles its effect is undefined; the model sorts by insertion from
    the right, which keeps the relative order of equal angles. *)
Definition SortTaxiEdges (apt : Apt) : res Apt :=
  let idx :=
    if decide (length (vecTaxiEdges apt) ≠ length (vecTaxiEdgesIdxHead apt))
    then N.of_nat <$> seq 0 (length (vecTaxiEdges apt))
    else vecTaxiEdgesIdxHead apt in
  _ ← check_indexes (vecTaxiEdges apt) idx;
  Ok (set_idxHead apt
        (foldr (insert_by_angle (vecTaxiEdges apt)) [] idx)).

(** [std::lower_bound]: binary search for the first position whose element
    does not compare less; [first] and [len] delimit the part still to be
    searched. *)
Fixpoint lower_bound_loop (comp : size_t → res bool) (v : vecIdxTy)
    (fuel first len : nat) : res nat :=
  match len with
  | O => Ok first
  | _ =>
      match fuel with
      | O => Err OutOfFuel
      | S fuel' =>
          let half := (len / 2)%nat in
          let middle := (first + half)%nat in
          match v !! middle with
          | None => Err UB
          | Some x =>
              c ← comp x;
              if c : bool
              then lower_bound_loop comp v fuel' (middle + 1) (len - half - 1)
              else lower_bound_loop comp v fuel' first half
          end
      end
  end.

Definition lower_bound (comp : size_t → res bool) (v : vecIdxTy) : res nat :=
  lower_bound_loop comp v (length v) 0 (length v).

(** The loop over the sorted index from the lower bound on, while the
    edge's angle is [<=] the upper end of the range. *)
Fixpoint scan_range (edges : vecTaxiEdgeTy) (hi : double)
    (_restrictType : nodeTy) (l : vecIdxTy) (lst : vecIdxTy) : res vecIdxTy :=
  match l with
  | [] => Ok lst
  | i :: l' =>
      e ← vidx edges i;
      if dle (angle e) hi
      then scan_range edges hi _restrictType l'
             (if decide (_restrictType = UNKNOWN_WAY ∨ _restrictType = GetType e)
              then lst ++ [i] else lst)
      else Ok lst
  end.

(** One heading range: within that range, add all matching edges. *)
Definition search_range (apt : Apt) (rngPair : double * double)
    (_restrictType : nodeTy) (lst : vecIdxTy) : res vecIdxTy :=
  iter ← lower_bound
            (λ idx, e ← vidx (vecTaxiEdges apt) idx;
                    Ok (dlt (angle e) (fst rngPair)))
            (vecTaxiEdgesIdxHead apt);
  scan_range (vecTaxiEdges apt) (snd rngPair) _restrictType
             (drop iter (vecTaxiEdgesIdxHead apt)) lst.

(** The one or two search ranges for a heading and a tolerance. *)
Definition heading_ranges (_headSearch _angleTolerance : double)
  : list (double * double) :=
  let _headSearch :=
    if dge _headSearch (dbl 180) then dsub _headSearch (dbl 180)
    else _headSearch in
  let headBegin := dsub _headSearch _angleTolerance in
  let headEnd := dadd _headSearch _angleTolerance in
  if dle (dbl 0) headBegin && dlt headEnd (dbl 180)
  then [(headBegin, headEnd)]
  else if dlt headBegin (dbl 0)
  then [(dbl 0, headEnd); (dadd headBegin (dbl 180), dbl 180)]
  else [(dbl 0, dsub headEnd (dbl 180)); (headBegin, dbl 180)].

Fixpoint search_ranges (apt : Apt) (vecRanges : list (double * double))
    (_restrictType : nodeTy) (lst : vecIdxTy) : res vecIdxTy :=
  match vecRanges with
  | [] => Ok lst
  | rngPair :: rest =>
      lst' ← search_range apt rngPair _restrictType lst;
      search_ranges apt rest _restrictType lst'
  end.

(** Returns a list of taxiways matching a given heading range: matching
    edges are added to [lst]; the flag is [!lst.empty()]. *)
Definition FindEdgesForHeading (apt : Apt) (_headSearch _angleTolerance : double)
    (lst : vecIdxTy) (_restrictType : nodeTy) : res (bool * vecIdxTy) :=
  lst' ← search_ranges apt (heading_ranges _headSearch _angleTolerance)
            _restrictType lst;
  Ok (match lst' with [] => false | _ => true end, lst').

End EdgeIndex.

(** ** Bounded shortest path *)

Definition set_path (n : TaxiNode) (_pathLen : double) (_prevIdx : size_t)
  : TaxiNode :=
  mkNode (lat n) (lon n) (vecEdges n) _pathLen _prevIdx (bVisited n).

Definition set_visited (n : TaxiNode) : TaxiNode :=
  mkNode (lat n) (lon n) (vecEdges n) (pathLen n) (prevIdx n) true.

(** Modelled from its name and its use in [ShortestPath]
    ([push_back_unique] is a template of [Constants.h]): append unless the
    value is in the vector already. *)
Definition push_back_unique (v : vecIdxTy) (x : size_t) : vecIdxTy :=
  if decide (x ∈ v) then v else v ++ [x].

(** The search state: the nodes with their Dijkstra attributes and the
    nodes to visit. *)
Definition dijkstra_state : Type := list TaxiNode * list N.

(** Seeds all taxiway nodes of a runway endpoint at distance zero. *)
Fixpoint seed_nodes (l : vecIdxTy) (st : dijkstra_state) : res dijkstra_state :=
  match l with
  | [] => Ok st
  | n :: l' =>
      nd ← vidx st.1 n;
      seed_nodes l' (vset st.1 n (set_path nd (dbl 0) (ULONG_MAX - 1)),
                     st.2 ++ [n])
  end.

(** fetch node with shortest yet known distance: position in the visit
    vector and distance; the strict comparison keeps the first of equals. *)
Fixpoint select_shortest (nodes : list TaxiNode) (rest : list N)
    (pos shortestIter : nat) (shortestDist : double) : res (nat * double) :=
  match rest with
  | [] => Ok (shortestIter, shortestDist)
  | i :: rest' =>
      nd ← vidx nodes i;
      if dlt (pathLen nd) shortestDist
      then select_shortest nodes rest' (S pos) pos (pathLen nd)
      else select_shortest nodes rest' (S pos) shortestIter shortestDist
  end.

(** Update all connected nodes with best possible distance; the loop is
    left when the end node has been given a distance. *)
Fixpoint relax_edges (edges : list TaxiEdge) (_endN : size_t) (_maxLen : double)
    (shortestNIdx : size_t) (shortestDist : double) (es : vecIdxTy)
    (st : dijkstra_state) : res dijkstra_state :=
  match es with
  | [] => Ok st
  | eIdx :: es' =>
      e ← vidx edges eIdx;
      let updNIdx := otherNode e shortestNIdx in
      updN ← vidx st.1 updNIdx;
      if bVisited updN
      then relax_edges edges _endN _maxLen shortestNIdx shortestDist es' st
      else
        let lenToUpd := dadd shortestDist (dist_m e) in
        if dgt lenToUpd _maxLen || dle (pathLen updN) lenToUpd
        then relax_edges edges _endN _maxLen shortestNIdx shortestDist es' st
        else
          let nodes' := vset st.1 updNIdx (set_path updN lenToUpd shortestNIdx) in
          if decide (updNIdx = _endN) then Ok (nodes', st.2)
          else relax_edges edges _endN _maxLen shortestNIdx shortestDist es'
                 (nodes', push_back_unique st.2 updNIdx)
  end.

(** One turn of the outer loop: take the nearest node to visit, mark it
    visited, and relax its edges. *)
Definition visit_shortest (edges : list TaxiEdge) (_endN : size_t)
    (_maxLen : double) (st : dijkstra_state) : res dijkstra_state :=
  match st.2 with
  | [] => Ok st
  | first :: rest =>
      n0 ← vidx st.1 first;
      '(shortestIter, shortestDist) ← select_shortest st.1 rest 1 0 (pathLen n0);
      match st.2 !! shortestIter with
      | None => Err UB
      | Some shortestNIdx =>
          shortestN ← vidx st.1 shortestNIdx;
          relax_edges edges _endN _maxLen shortestNIdx shortestDist
            (vecEdges shortestN)
            (vset st.1 shortestNIdx (set_visited shortestN),
             delete shortestIter st.2)
      end
  end.

(** [while (!vecVisit.empty() && endN.prevIdx == ULONG_MAX)] *)
Fixpoint dijkstra_loop (fuel : nat) (edges : list TaxiEdge) (_endN : size_t)
    (_maxLen : double) (st : dijkstra_state) : res dijkstra_state :=
  match st.2 with
  | [] => Ok st
  | _ =>
      endN ← vidx st.1 _endN;
      if decide (prevIdx endN = ULONG_MAX)
      then
        match fuel with
        | O => Err OutOfFuel
        | S fuel' =>
            st' ← visit_shortest edges _endN _maxLen st;
            dijkstra_loop fuel' edges _endN _maxLen st'
        end
      else Ok st
  end.

(** put together the nodes between start and end: from the end node along
    the predecessors until a node is marked as a start node. *)
Fixpoint collect_path (fuel : nat) (nodes : list TaxiNode) (nIdx : size_t)
    (vecVisit : vecIdxTy) : res vecIdxTy :=
  nd ← vat nodes nIdx;
  if decide (prevIdx nd = ULONG_MAX - 1) then Ok vecVisit
  else
    match fuel with
    | O => Err OutOfFuel
    | S fuel' => collect_path fuel' nodes (prevIdx nd) (vecVisit ++ [nIdx])
    end.

(** Initialize the Dijkstra values in the nodes array; the start place(s)
    is either the given taxiway node, or all taxiway nodes connected to the
    given runway endpoint. *)
Definition seed_start (apt : Apt) (_startN : size_t) (bStartIsRwy : bool)
  : res dijkstra_state :=
  let nodes0 := InitDijkstraAttr <$> vecTaxiNodes apt in
  if bStartIsRwy
  then startRwyEP ← vat (vecRwyEndPts apt) _startN;
       seed_nodes (vecTaxiNodes_of startRwyEP) (nodes0, [])
  else nd ← vat nodes0 _startN;
       Ok (vset nodes0 _startN (set_path nd (dbl 0) (ULONG_MAX - 1)),
           [_startN]).

(** The number of turns that the outer loop can take at most: every turn
    takes a node from the visit vector, and a node enters it once. *)
Definition search_fuel (st : dijkstra_state) : nat :=
  (length st.2 + length st.1)%nat.

(** Find shortest path in taxi network with a maximum length between 2
    nodes.  Returns the airport with the Dijkstra attributes as the search
    left them, and the list of node indexes. *)
Definition ShortestPath (apt : Apt) (_startN : size_t) (bStartIsRwy : bool)
    (_endN : size_t) (_maxLen : double) : res (Apt * vecIdxTy) :=
  if negb bStartIsRwy && bool_decide (_startN = _endN) then Ok (apt, [])
  else
    st0 ← seed_start apt _startN bStartIsRwy;
    _ ← vidx st0.1 _endN;
    st ← dijkstra_loop (search_fuel st0) (vecTaxiEdges apt) _endN _maxLen st0;
    endN ← vidx st.1 _endN;
    if decide (prevIdx endN = ULONG_MAX) then Ok (set_nodes apt st.1, [])
    else
      path ← collect_path (search_fuel st0) st.1 _endN [];
      Ok (set_nodes apt st.1, path).

(** ** Nearest edge and snapping *)

Section Snap.
Context `{GeoLib} `{Config}.

(** Modelled from its uses in this file: the default position, with no
    coordinates and no edge. *)
Definition positionTy_default : positionTy :=
  mkPos NAN NAN NAN NAN NAN NAN NAN GND_UNKNOWN FPH_UNKNOWN EDGE_UNKNOWN.

(** Modelled from the spec: [positionTy::HasTaxiEdge], declared in another
    file ("an edge-association tag: unset, resolved to edge E, or no edge
    available"); the position is on an edge. *)
Definition HasTaxiEdge (p : positionTy) : bool :=
  negb (bool_decide (pos_edgeIdx p = EDGE_UNKNOWN))
  && negb (bool_decide (pos_edgeIdx p = EDGE_UNAVAIL)).

(** Is the edge's angle the one closest to the heading, or its reverse? *)
Definition along (e : TaxiEdge) (heading : double) : bool :=
  dlt (dabs (HeadingDiff heading (angle e))) (dbl 90).

Definition GetAngleByHead (e : TaxiEdge) (heading : double) : double :=
  if along e heading then angle e else dadd (angle e) (dbl 180).
Definition startByHeading_node (e : TaxiEdge) (apt : Apt) (heading : double)
  : res TaxiNode :=
  if along e heading then GetA e apt else GetB e apt.
Definition endByHeading_node (e : TaxiEdge) (apt : Apt) (heading : double)
  : res TaxiNode :=
  if along e heading then GetB e apt else GetA e apt.
Definition startByHeading (e : TaxiEdge) (heading : double) : size_t :=
  if along e heading then a e else b e.
Definition endByHeading (e : TaxiEdge) (heading : double) : size_t :=
  if along e heading then b e else a e.

(** The runway endpoint at an end of the edge: a [dynamic_cast] of the
    node to [RwyEndPt], which fails for a taxiway node. *)
Definition GetRwyEP_A (e : TaxiEdge) (apt : Apt) : res RwyEndPt :=
  if decide (type e = RUN_WAY) then vidx (vecRwyEndPts apt) (a e)
  else _ ← vidx (vecTaxiNodes apt) (a e); Err BadCast.
Definition GetRwyEP_B (e : TaxiEdge) (apt : Apt) : res RwyEndPt :=
  if decide (type e = RUN_WAY) then vidx (vecRwyEndPts apt) (b e)
  else _ ← vidx (vecTaxiNodes apt) (b e); Err BadCast.

(** The best match of [FindClosestEdge] so far. *)
Record closestTy : Type := mkClosest {
  bestEdge : option (size_t * TaxiEdge);
  best_from_x : double;
  best_from_y : double;
  best_to_x : double;
  best_to_y : double;
  bestPrioDist : double;
  bestDist : distToLineTy;
}.

Definition closest_none : closestTy :=
  mkClosest None NAN NAN NAN NAN NAN (mkDistToLine NAN NAN NAN NAN).

(** Analyze one edge of the list of candidates. *)
Definition closest_edge_step (apt : Apt) (pos : positionTy)
    (headSearch maxDist2 _angleTolerance : double) (pSkipEdge : option size_t)
    (best : closestTy) (eIdx : size_t) : res closestTy :=
  e ← vidx (vecTaxiEdges apt) eIdx;
  if bool_decide (pSkipEdge = Some eIdx) then Ok best
  else
    from ← startByHeading_node e apt headSearch;
    to ← endByHeading_node e apt headSearch;
    let edgeAngle := GetAngleByHead e headSearch in
    let from_x := Lon2Dist (dsub (lon from) (pos_lon pos)) (pos_lat pos) in
    let from_y := Lat2Dist (dsub (lat from) (pos_lat pos)) in
    let to_x := Lon2Dist (dsub (lon to) (pos_lon pos)) (pos_lat pos) in
    let to_y := Lat2Dist (dsub (lat to) (pos_lat pos)) in
    let dist := DistPointToLineSqr (dbl 0) (dbl 0) from_x from_y to_x to_y in
    if dgt (dist2 dist) maxDist2 then Ok best
    else
      let prioDist :=
        if dgt (dabs (HeadingDiff edgeAngle headSearch)) _angleTolerance
        then dadd (dist2 dist)
               (dadd (dmul (dbl 3) ART_EDGE_ANGLE_EXT_DIST)
                     (dmul ART_EDGE_ANGLE_EXT_DIST ART_EDGE_ANGLE_EXT_DIST))
        else dist2 dist in
      if dge prioDist (bestPrioDist best) then Ok best
      else if dgt (DistSqrOfBaseBeyondLine dist) maxDist2 then Ok best
      else Ok (mkClosest (Some (eIdx, e)) from_x from_y to_x to_y prioDist dist).

Fixpoint closest_edge_loop (apt : Apt) (pos : positionTy)
    (headSearch maxDist2 _angleTolerance : double) (pSkipEdge : option size_t)
    (lstEdges : vecIdxTy) (best : closestTy) : res closestTy :=
  match lstEdges with
  | [] => Ok best
  | eIdx :: rest =>
      best' ← closest_edge_step apt pos headSearch maxDist2 _angleTolerance
                 pSkipEdge best eIdx;
      closest_edge_loop apt pos headSearch maxDist2 _angleTolerance pSkipEdge
        rest best'
  end.

(** Find closest taxi edge matching the passed position including its
    heading.  Returns the edge found with its index, and [basePt] with
    latitude, longitude and edge index set to the base point on that
    edge.  Both callers pass the same object as [pos] and as [basePt];
    what is read from [pos] after the first write to [basePt] is the
    latitude, which is written last. *)
Definition FindClosestEdge (apt : Apt) (pos basePt : positionTy)
    (_maxDist_m : Z) (_angleTolerance _angleToleranceExt : double)
    (pSkipEdge : option size_t)
  : res (option (size_t * TaxiEdge) * positionTy) :=
  let maxDist2 := DFin (inject_Z (sqr_int _maxDist_m)) in
  let headSearch := HeadingNormalize (pos_heading pos) in
  '(found, lstEdges) ←
    FindEdgesForHeading apt headSearch
      (dmax _angleTolerance _angleToleranceExt) [] UNKNOWN_WAY;
  if negb found then Ok (None, basePt)
  else
    best ← closest_edge_loop apt pos headSearch maxDist2 _angleTolerance
              pSkipEdge lstEdges closest_none;
    match bestEdge best with
    | None => Ok (None, basePt)
    | Some (bestEdgeIdx, e) =>
        let base := DistResultToBaseLoc (best_from_x best) (best_from_y best)
                      (best_to_x best) (best_to_y best) (bestDist best) in
        Ok (Some (bestEdgeIdx, e),
            set_pos_base basePt
              (dadd (pos_lat pos) (Dist2Lat (snd base)))
              (dadd (pos_lon pos) (Dist2Lon (fst base) (pos_lat pos)))
              bestEdgeIdx)
    end.

(** The position synthesized for node [n] of a path. *)
Definition path_position (n : TaxiNode) (startTS pathTime pathLen_ : double)
  : positionTy :=
  mkPos (lat n) (lon n) NAN
        (dadd startTS (ddiv (dmul pathTime (pathLen n)) pathLen_))
        NAN (dbl 0) (dbl 0) GND_ON FPH_TAXI EDGE_UNAVAIL.

(** Inserts the positions of the path's nodes before the position at
    [posIter]; the iterator then points to that position again. *)
Fixpoint insert_path (nodes : list TaxiNode) (path : vecIdxTy)
    (startTS pathTime pathLen_ : double)
    (deque : list positionTy) (posIter : nat)
  : res (list positionTy * nat) :=
  match path with
  | [] => Ok (deque, posIter)
  | nIdx :: rest =>
      n ← vidx nodes nIdx;
      let insPos := path_position n startTS pathTime pathLen_ in
      insert_path nodes rest startTS pathTime pathLen_
        (take posIter deque ++ insPos :: drop posIter deque) (S posIter)
  end.

(** Find best matching taxi edge based on passed-in position/heading
    info.  Returns the flag, the flight data, the iterator and the
    airport, whose Dijkstra attributes a path search overwrites. *)
Definition SnapToTaxiway (apt : Apt) (fd : LTFlightData) (posIter : nat)
  : res (bool * LTFlightData * nat * Apt) :=
  match posDeque fd !! posIter with
  | None => Err UB
  | Some pos0 =>
      '(found, pos) ←
        FindClosestEdge apt pos0 pos0 GetFdSnapTaxiDist_m
          ART_EDGE_ANGLE_TOLERANCE ART_EDGE_ANGLE_TOLERANCE_EXT None;
      match found with
      | None =>
          Ok (false,
              set_posDeque fd
                (<[posIter := set_pos_edgeIdx pos EDGE_UNAVAIL]> (posDeque fd)),
              posIter, apt)
      | Some (eIdx, pEdge) =>
          if decide (GetType pEdge = RUN_WAY)
          then
            (* Edge actually is on a runway: exit here *)
            Ok (true, set_posDeque fd (<[posIter := pos]> (posDeque fd)),
                posIter, apt)
          else
            let pos := set_pos_flightPhase pos FPH_TAXI in
            let fd1 := set_posDeque fd (<[posIter := pos]> (posDeque fd)) in
            let done := Ok (true, fd1, posIter, apt) in
            if negb (hasAc fd) && bool_decide (posIter = 0%nat) then done
            else
              prevPos ←
                (if bool_decide (posIter = 0%nat)
                 then match pAc fd with
                      | Some ac => Ok (GetToPos ac)
                      | None => Err UB
                      end
                 else match posDeque fd1 !! (posIter - 1)%nat with
                      | Some p => Ok p
                      | None => Err UB
                      end);
              if negb (HasTaxiEdge prevPos) then done
              else if bool_decide (eIdx = pos_edgeIdx prevPos) then done
              else
                prevE ← vidx (vecTaxiEdges apt) (pos_edgeIdx prevPos);
                let prevIsRwy := bool_decide (GetType prevE = RUN_WAY) in
                let prevErelN :=
                  if prevIsRwy then startByHeading prevE (pos_heading prevPos)
                  else endByHeading prevE (pos_heading prevPos) in
                let currEstartN := startByHeading pEdge (pos_heading pos) in
                let mdl_ := match pAc fd with
                            | Some ac => mdl ac
                            | None => FindFlightModel (acTypeIcao fd)
                            end in
                let maxLen :=
                  dmul (dmul (dsub (pos_ts pos) (pos_ts prevPos))
                             (MAX_TAXI_SPEED mdl_)) (dbl (3 # 2)) in
                '(apt', vecPath) ←
                  ShortestPath apt prevErelN prevIsRwy currEstartN maxLen;
                if decide (2 ≤ length vecPath)%nat
                then
                  endNode_ ← vidx (vecTaxiNodes apt') currEstartN;
                  front ← (match head vecPath with
                           | Some i => vidx (vecTaxiNodes apt') i
                           | None => Err UB
                           end);
                  let pathLen_ :=
                    dadd (pathLen endNode_)
                         (DistLatLon (lat front) (lon front)
                                     (pos_lat pos) (pos_lon pos)) in
                  startTS ←
                    (if prevIsRwy
                     then
                       let taxiTime := ddiv pathLen_ (MAX_TAXI_SPEED mdl_) in
                       let startTS := dsub (pos_ts pos) taxiTime in
                       Ok (if dlt startTS (dadd (pos_ts prevPos) SIMILAR_TS_INTVL)
                           then dadd (pos_ts prevPos) SIMILAR_TS_INTVL
                           else startTS)
                     else
                       back ← (match last vecPath with
                               | Some i => vidx (vecTaxiNodes apt') i
                               | None => Err UB
                               end);
                       let prevToStartDist :=
                         DistLatLon (pos_lat prevPos) (pos_lon prevPos)
                                    (lat back) (lon back) in
                       let speed :=
                         ddiv (dadd prevToStartDist pathLen_)
                              (dsub (pos_ts pos) (pos_ts prevPos)) in
                       Ok (dadd (pos_ts prevPos) (ddiv prevToStartDist speed)));
                  let pathTime := dsub (pos_ts pos) startTS in
                  '(deque', posIter') ←
                    insert_path (vecTaxiNodes apt') (reverse vecPath)
                      startTS pathTime pathLen_ (posDeque fd1) posIter;
                  Ok (true, set_posDeque fd1 deque', posIter', apt')
                else Ok (true, fd1, posIter, apt')
      end
  end.

End Snap.

(** ** Runway selection *)

Section FindRwy.
Context `{GeoLib} `{Config}.

(** Map of airports, key is the id; the list is in the order of the keys,
    which is the order in which [std::map] is iterated. *)
Definition mapAptTy : Type := list (string * Apt).

(** The variables holding the best match. *)
Record bestRwyTy : Type := mkBestRwy {
  bestApt : option Apt;
  bestRwy : option TaxiEdge;
  bestRwyEndPt : option RwyEndPt;
  bestHeadingDiff : double;
  bestArrivalTS : double;
}.

(** One runway found for the heading: the body of the inner loop. *)
Definition consider_rwy (from : positionTy) (bHeadInverted : bool)
    (speed_m_s vsi_min vsi_max : double) (apt : Apt)
    (best : bestRwyTy) (eIdx : size_t) : res bestRwyTy :=
  e ← vidx (vecTaxiEdges apt) eIdx;
  rwyEP ← (if bHeadInverted then GetRwyEP_B e apt else GetRwyEP_A e apt);
  if isnan (alt_m rwyEP) then Ok best
  else
    let bearing := CoordAngle (pos_lat from) (pos_lon from)
                     (lat (rwyNode rwyEP)) (lon (rwyNode rwyEP)) in
    let headingDiff := dabs (HeadingDiff (pos_heading from) bearing) in
    if dgt headingDiff (bestHeadingDiff best) then Ok best
    else
      let dist := CoordDistance (pos_lat from) (pos_lon from)
                    (lat (rwyNode rwyEP)) (lon (rwyNode rwyEP)) in
      let d_ts := ddiv dist speed_m_s in
      let vsi := ddiv (dsub (alt_m rwyEP) (pos_alt_m from)) d_ts in
      if dlt vsi vsi_min || dgt vsi vsi_max then Ok best
      else Ok (mkBestRwy (Some apt) (Some e) (Some rwyEP) headingDiff
                         (dadd (pos_ts from) d_ts)).

Fixpoint consider_rwys (from : positionTy) (bHeadInverted : bool)
    (speed_m_s vsi_min vsi_max : double) (apt : Apt)
    (lstRwys : vecIdxTy) (best : bestRwyTy) : res bestRwyTy :=
  match lstRwys with
  | [] => Ok best
  | eIdx :: rest =>
      best' ← consider_rwy from bHeadInverted speed_m_s vsi_min vsi_max apt
                 best eIdx;
      consider_rwys from bHeadInverted speed_m_s vsi_min vsi_max apt rest best'
  end.

(** The loop over the airports. *)
Fixpoint consider_apts (from : positionTy) (headSearch : double)
    (bHeadInverted : bool) (speed_m_s vsi_min vsi_max : double)
    (gmapApt : mapAptTy) (best : bestRwyTy) : res bestRwyTy :=
  match gmapApt with
  | [] => Ok best
  | (_, apt) :: rest =>
      '(found, lstRwys) ←
        FindEdgesForHeading apt headSearch ART_RWY_MAX_HEAD_DIFF [] RUN_WAY;
      best' ← (if found : bool
               then consider_rwys from bHeadInverted speed_m_s vsi_min vsi_max
                      apt lstRwys best
               else Ok best);
      consider_apts from headSearch bHeadInverted speed_m_s vsi_min vsi_max
        rest best'
  end.

(** The search of [LTAptFindRwy] up to the best match. *)
Definition find_best_rwy (gmapApt : mapAptTy) (_ac : LTAircraft)
  : res (bool * bestRwyTy) :=
  let vsi_min :=
    dmul (dmul (VSI_FINAL (mdl _ac)) ART_RWY_MAX_VSI_F) Ms_per_FTm in
  let vsi_max :=
    dmul (ddiv (VSI_FINAL (mdl _ac)) ART_RWY_MAX_VSI_F) Ms_per_FTm in
  let from := GetToPos _ac in
  let headSearch0 := HeadingNormalize (pos_heading from) in
  let bHeadInverted := dge headSearch0 (dbl 180) in
  let headSearch :=
    if bHeadInverted then dsub headSearch0 (dbl 180) else headSearch0 in
  let speed_m_s :=
    dmin (GetSpeed_m_s _ac)
         (ddiv (dmul (FLAPS_DOWN_SPEED (mdl _ac)) ART_APPR_SPEED_F)
               KT_per_M_per_S) in
  best ← consider_apts from headSearch bHeadInverted speed_m_s vsi_min vsi_max
            gmapApt
            (mkBestRwy None None None ART_RWY_MAX_HEAD_DIFF NAN);
  Ok (bHeadInverted, best).

(** Return the best possible runway to auto-land at: the touch-down
    position, or the default position if there is none. *)
Definition LTAptFindRwy (gmapApt : mapAptTy) (_ac : LTAircraft)
  : res positionTy :=
  '(bHeadInverted, best) ← find_best_rwy gmapApt _ac;
  match bestRwyEndPt best, bestApt best, bestRwy best with
  | Some ep, Some _, Some rwy =>
      Ok (mkPos (lat (rwyNode ep)) (lon (rwyNode ep)) (alt_m ep)
                (bestArrivalTS best)
                (dadd (angle rwy) (if bHeadInverted : bool then dbl 180 else dbl 0))
                (PITCH_FLARE (mdl _ac)) (dbl 0) GND_ON FPH_TOUCH_DOWN
                EDGE_UNKNOWN)
  | _, _, _ => Ok positionTy_default
  end.

End FindRwy.

(** * Specification vocabulary *)


(** The normalization of an edge's angle, [0 <= angle < 180]. *)
Definition angle_normalized (e : TaxiEdge) : Prop :=
  dle (dbl 0) (angle e) = true ∧ dlt (angle e) (dbl 180) = true.


(** [within_merge_dist lat lon n]: node [n] is within the merge distance of
    the position, as [GetSimilarTaxiNode] tests it. *)
Definition within_merge_dist `{GeoLib} `{Config} (_lat _lon : double)
    (n : TaxiNode) : bool :=
  dle (dabs (dsub (lat n) _lat)) (Dist2Lat APT_MAX_SIMILAR_NODE_DIST_M)
  && dle (dabs (dsub (lon n) _lon)) (Dist2Lon APT_MAX_SIMILAR_NODE_DIST_M _lat).

(** The edge [AddTaxiEdge] appends for nodes [na] and [nb]. *)
Definition new_taxi_edge `{GeoLib} (n1 n2 : size_t) (na nb : TaxiNode)
    (_dist : double) : TaxiEdge :=
  TaxiEdge_new TAXI_WAY n1 n2
    (CoordAngle (lat na) (lon na) (lat nb) (lon nb))
    (if isnan _dist then DistLatLon (lat na) (lon na) (lat nb) (lon nb)
     else _dist).

(** Node [i] after edge [eIdx] between [n1] and [n2] has been registered. *)
Definition registered (n1 n2 eIdx : size_t) (i : nat) (n : TaxiNode) : TaxiNode :=
  mkNode (lat n) (lon n)
    (vecEdges n ++ (if decide (i = N.to_nat n1) then [eIdx] else [])
                ++ (if decide (i = N.to_nat n2) then [eIdx] else []))
    (pathLen n) (prevIdx n) (bVisited n).

(** Fixtures for [AddTaxiNode]: one node at the origin; the same airport
    after a node has been added 3 m further north. *)
Definition apt_one_node : Apt :=
  set_nodes (Apt_new "TEST") [TaxiNode_at (dbl 0) (dbl 0)].

(** ** Heading queries *)

(** The order of the sorted index: by the angle of the edge indexed. *)
Definition angle_le (edges : vecTaxiEdgeTy) (x y : size_t) : Prop :=
  dle (edge_angle edges x) (edge_angle edges y) = true.

(** The state [FindEdgesForHeading] relies on: the index vector is sorted
    by angle, lists only edges, whose angles are normalized, and lists
    every edge. *)
Definition index_ok (apt : Apt) : Prop :=
  StronglySorted (angle_le (vecTaxiEdges apt)) (vecTaxiEdgesIdxHead apt)
  ∧ Forall (λ idx, ∃ e, vecTaxiEdges apt !! N.to_nat idx = Some e
                        ∧ angle_normalized e)
           (vecTaxiEdgesIdxHead apt)
  ∧ ∀ k e, vecTaxiEdges apt !! k = Some e →
           N.of_nat k ∈ vecTaxiEdgesIdxHead apt.

(** Edge [idx] has an angle in [[lo,hi]] and the type asked for. *)
Definition edge_matches (edges : vecTaxiEdgeTy) (rng : double * double)
    (_restrictType : nodeTy) (idx : size_t) : bool :=
  match vlookup edges idx with
  | Some e =>
      dle (fst rng) (angle e) && dle (angle e) (snd rng)
      && bool_decide (_restrictType = UNKNOWN_WAY ∨ _restrictType = type e)
  | None => false
  end.

(** The matches of one range that does not wrap, in index order. *)
Definition range_matches (apt : Apt) (rng : double * double)
    (_restrictType : nodeTy) : vecIdxTy :=
  filter (λ idx, edge_matches (vecTaxiEdges apt) rng _restrictType idx = true)
         (vecTaxiEdgesIdxHead apt).

(** [a] is within [tol] of [h] modulo 180 degrees. *)
Definition within_mod180 (a h tol : Q) : Prop :=
  ∃ z : Z, (Qabs (a - h + 180 * inject_Z z) <= tol)%Q.

(** The search heading brought into [0,180). *)
Definition head180 (hs : Q) : Q :=
  if Qle_bool 180 hs then (hs - 180)%Q else hs.

(** Fixture for heading queries: a runway at 5 degrees and two taxiways at
    90 and 175 degrees, with the index sorted by angle. *)
Definition apt_three_edges : Apt :=
  mkApt "TEST" (mkBox NAN NAN NAN NAN) NAN
    [TaxiNode_at (dbl 0) (dbl 0); TaxiNode_at (dbl 0) (dbl 100);
     TaxiNode_at (dbl (-100)) (dbl 10)]
    [RwyEndPt_at "01" (dbl 0) (dbl 0); RwyEndPt_at "19" (dbl 1000) (dbl 90)]
    [mkEdge TAXI_WAY 0 1 (dbl 90) (dbl 100);
     mkEdge TAXI_WAY 2 0 (dbl 175) (dbl 101);
     mkEdge RUN_WAY 0 1 (dbl 5) (dbl 1004)]
    [2; 0; 1].

(** ** The builder as a transition system *)

(** The type tag of [e] selects the vector in which both node indexes of
    [e] are valid, as [GetA] and [GetB] dispatch on it. *)
Definition edge_in_store (apt : Apt) (e : TaxiEdge) : Prop :=
  if decide (type e = RUN_WAY)
  then a e < vsize (vecRwyEndPts apt) ∧ b e < vsize (vecRwyEndPts apt)
  else a e < vsize (vecTaxiNodes apt) ∧ b e < vsize (vecTaxiNodes apt).

Definition store_ok (apt : Apt) : Prop :=
  Forall (λ e, edge_in_store apt e ∧ (type e = RUN_WAY ∨ type e = TAXI_WAY))
         (vecTaxiEdges apt).

Definition move_node (n : TaxiNode) (_lat _lon : double) : TaxiNode :=
  mkNode _lat _lon (vecEdges n) (pathLen n) (prevIdx n) (bVisited n).

Definition push_taxi_node (ep : RwyEndPt) (i : size_t) : RwyEndPt :=
  mkRwyEndPt (rwyNode ep) (rwyId ep) (alt_m ep) (vecTaxiNodes_of ep ++ [i]).

(** The operations of the source that write to an airport while it is
    built. *)
Inductive build_op : Type :=
| OpAddTaxiNode
| OpAddTaxiNodeFixed
| OpAddTaxiEdge
| OpAddRwyEnds
| OpSplitEdge
| OpRecalcTaxiEdge
| OpMoveNode
| OpJoinRwy
| OpSortTaxiEdges
| OpEnlargeBounds.

(** [build_step op apt apt']: one call of [op] takes [apt] to [apt'].
    [SplitEdge] is called by [JoinOpenTaxiEdges] only, which also moves the
    open node, recalculates its edge, or registers the node at a runway
    end; [SplitEdge] is called there for an edge found not to be a
    runway. *)
Inductive build_step `{GeoLib} `{Config} : build_op → Apt → Apt → Prop :=
| step_AddTaxiNode apt _lat _lon dontCombineWith apt' i :
    AddTaxiNode apt _lat _lon dontCombineWith = Ok (apt', i) →
    build_step OpAddTaxiNode apt apt'
| step_AddTaxiNodeFixed apt _lat _lon idx apt' :
    AddTaxiNodeFixed apt _lat _lon idx = Ok apt' →
    build_step OpAddTaxiNodeFixed apt apt'
| step_AddTaxiEdge apt n1 n2 _dist apt' i :
    AddTaxiEdge apt n1 n2 _dist = Ok (apt', i) →
    build_step OpAddTaxiEdge apt apt'
| step_AddRwyEnds apt lat1 lon1 displaced1 id1 lat2 lon2 displaced2 id2 :
    build_step OpAddRwyEnds apt
      (AddRwyEnds apt lat1 lon1 displaced1 id1 lat2 lon2 displaced2 id2)
| step_SplitEdge apt eIdx insNode e apt' :
    vecTaxiEdges apt !! N.to_nat eIdx = Some e →
    GetType e ≠ RUN_WAY →
    SplitEdge apt eIdx insNode = Ok apt' →
    build_step OpSplitEdge apt apt'
| step_RecalcTaxiEdge apt (k : nat) e e' :
    vecTaxiEdges apt !! k = Some e →
    RecalcTaxiEdge apt e = Ok e' →
    build_step OpRecalcTaxiEdge apt
      (set_edges apt (<[k := e']> (vecTaxiEdges apt)))
| step_MoveNode apt (i : nat) n _lat _lon :
    vecTaxiNodes apt !! i = Some n →
    build_step OpMoveNode apt
      (set_nodes apt (<[i := move_node n _lat _lon]> (vecTaxiNodes apt)))
| step_JoinRwy apt (k : nat) ep i :
    vecRwyEndPts apt !! k = Some ep →
    build_step OpJoinRwy apt
      (set_rwyEndPts apt (<[k := push_taxi_node ep i]> (vecRwyEndPts apt)))
| step_SortTaxiEdges apt apt' :
    SortTaxiEdges apt = Ok apt' →
    build_step OpSortTaxiEdges apt apt'
| step_EnlargeBounds apt meter :
    build_step OpEnlargeBounds apt
      (set_bounds apt (enlarge_m (bounds apt) meter)).

(** The airports that the builder can produce. *)
Inductive built `{GeoLib} `{Config} : Apt → Prop :=
| built_new _id : built (Apt_new _id)
| built_step op apt apt' : built apt → build_step op apt apt' → built apt'.

(** What an operation appends to the vector of edges, by type. *)
Definition appended_types (op : build_op) : list nodeTy :=
  match op with
  | OpAddTaxiEdge | OpSplitEdge => [TAXI_WAY]
  | OpAddRwyEnds => [RUN_WAY]
  | _ => []
  end.

(** ** Paths *)

(** Fixture: a triangle.  Node 0 is joined to node 2 by an edge of 10 m
    (registered first at node 0) and by way of node 1 by two edges of 1 m. *)
Definition apt_triangle : Apt :=
  mkApt "TEST" (mkBox NAN NAN NAN NAN) NAN
    [mkNode (dbl 0) (dbl 0) [0; 1] NAN 0 false;
     mkNode (dbl 1) (dbl 0) [1; 2] NAN 0 false;
     mkNode (dbl 1) (dbl 9) [0; 2] NAN 0 false]
    []
    [mkEdge TAXI_WAY 0 2 (dbl 45) (dbl 10);
     mkEdge TAXI_WAY 0 1 (dbl 0) (dbl 1);
     mkEdge TAXI_WAY 1 2 (dbl 90) (dbl 1)]
    [1; 0; 2].

(** Fixture: a line of three nodes 0 - 1 - 2, edges of 5 m and 7 m, and a
    runway end to which node 0 is attached. *)
Definition apt_line : Apt :=
  mkApt "TEST" (mkBox NAN NAN NAN NAN) NAN
    [mkNode (dbl 0) (dbl 0) [0] NAN 0 false;
     mkNode (dbl 5) (dbl 0) [0; 1] NAN 0 false;
     mkNode (dbl 12) (dbl 0) [1] NAN 0 false]
    [mkRwyEndPt (TaxiNode_at (dbl 0) (dbl (-3))) "09" NAN [0];
     mkRwyEndPt (TaxiNode_at (dbl 0) (dbl 900)) "27" NAN []]
    [mkEdge TAXI_WAY 0 1 (dbl 0) (dbl 5);
     mkEdge TAXI_WAY 1 2 (dbl 0) (dbl 7);
     mkEdge RUN_WAY 0 1 (dbl 90) (dbl 903)]
    [0; 1; 2].

(** Fixture: a line of three nodes 0 - 1 - 2 with edges of 1 m and of
    [2^-53] m. *)
Definition apt_eps : Apt :=
  mkApt "TEST" (mkBox NAN NAN NAN NAN) NAN
    [mkNode (dbl 0) (dbl 0) [0] NAN 0 false;
     mkNode (dbl 1) (dbl 0) [0; 1] NAN 0 false;
     mkNode (dbl 1) (dbl 0) [1] NAN 0 false]
    []
    [mkEdge TAXI_WAY 0 1 (dbl 0) (dbl 1);
     mkEdge TAXI_WAY 1 2 (dbl 0) (dbl (1 # 9007199254740992))]
    [0; 1].

(** The nodes at which a search starts: the given taxiway node, or all
    taxiway nodes attached to the given runway endpoint. *)
Definition start_nodes (apt : Apt) (_startN : size_t) (bStartIsRwy : bool)
  : list N :=
  if bStartIsRwy
  then match vecRwyEndPts apt !! N.to_nat _startN with
       | Some ep => vecTaxiNodes_of ep
       | None => []
       end
  else [_startN].

(** [walk apt s l n len]: from node [s] the nodes [l], in the order of
    travel and ending in [n], can be reached one by one along edges
    registered at the node left, and the lengths of these edges, added
    up in this order, give [len]. *)
Inductive walk (apt : Apt) : N → list N → N → double → Prop :=
| walk_start s : walk apt s [] s (dbl 0)
| walk_edge s l m n len nm eIdx e :
    walk apt s l m len →
    vecTaxiNodes apt !! N.to_nat m = Some nm →
    eIdx ∈ vecEdges nm →
    vecTaxiEdges apt !! N.to_nat eIdx = Some e →
    otherNode e m = n →
    walk apt s (l ++ [n]) n (dadd len (dist_m e)).

(** [chain edges maxLen nodes n l]: following the predecessors from [n]
    leads through the nodes [l] (starting with [n] itself) to a start
    node, which is not listed; every node of [l] got its distance from a
    visited predecessor along one of the predecessor's edges, within the
    maximum. *)
Inductive chain (edges : list TaxiEdge) (_maxLen : double)
    (nodes : list TaxiNode) : N → list N → Prop :=
| chain_start s ns :
    nodes !! N.to_nat s = Some ns →
    prevIdx ns = ULONG_MAX - 1 →
    pathLen ns = dbl 0 →
    chain edges _maxLen nodes s []
| chain_step n nn np l eIdx e :
    nodes !! N.to_nat n = Some nn →
    prevIdx nn ≠ ULONG_MAX - 1 →
    nodes !! N.to_nat (prevIdx nn) = Some np →
    bVisited np = true →
    chain edges _maxLen nodes (prevIdx nn) l →
    eIdx ∈ vecEdges np →
    edges !! N.to_nat eIdx = Some e →
    otherNode e (prevIdx nn) = n →
    pathLen nn = dadd (pathLen np) (dist_m e) →
    dgt (pathLen nn) _maxLen = false →
    chain edges _maxLen nodes n (n :: l).

(** An indexed edge with a normalized angle. *)
Definition indexed_edge (edges : list TaxiEdge) (idx : N) : Prop :=
  ∃ e, edges !! N.to_nat idx = Some e ∧ angle_normalized e.

(** The invariant of the search after [k] turns of the outer loop. *)
Record search_inv (apt : Apt) (_maxLen : double) (seeds : list N) (k : nat)
    (st : dijkstra_state) : Prop := mkSearchInv {
  inv_length : length st.1 = length (vecTaxiNodes apt);
  inv_static : ∀ i nn, st.1 !! i = Some nn →
    ∃ n0, vecTaxiNodes apt !! i = Some n0 ∧ vecEdges nn = vecEdges n0;
  inv_chain : ∀ n nn, st.1 !! N.to_nat n = Some nn →
    prevIdx nn ≠ ULONG_MAX →
    ∃ l, chain (vecTaxiEdges apt) _maxLen st.1 n l ∧ (length l ≤ k)%nat;
  inv_visit : ∀ n, n ∈ st.2 →
    ∃ nn, st.1 !! N.to_nat n = Some nn ∧ prevIdx nn ≠ ULONG_MAX;
  inv_visited : ∀ i nn, st.1 !! i = Some nn → bVisited nn = true →
    prevIdx nn ≠ ULONG_MAX;
  inv_seed : ∀ n nn, st.1 !! N.to_nat n = Some nn →
    prevIdx nn = ULONG_MAX - 1 → n ∈ seeds;
}.

(** What the loop over the edges of the visited node [s] relies on. *)
Definition relax_pre (apt : Apt) (_maxLen : double) (seeds : list N)
    (k : nat) (s : N) (shortestDist : double) (st : dijkstra_state) : Prop :=
  search_inv apt _maxLen seeds (S k) st
  ∧ ∃ sN ls, st.1 !! N.to_nat s = Some sN ∧ bVisited sN = true
             ∧ pathLen sN = shortestDist
             ∧ chain (vecTaxiEdges apt) _maxLen st.1 s ls
             ∧ (length ls ≤ k)%nat.

(** The state in which the outer loop is entered. *)
Definition seeded (apt : Apt) (seeds : list N) (st : dijkstra_state) : Prop :=
  length st.1 = length (vecTaxiNodes apt)
  ∧ (∀ i nn, st.1 !! i = Some nn →
       bVisited nn = false
       ∧ (∃ n0, vecTaxiNodes apt !! i = Some n0 ∧ vecEdges nn = vecEdges n0)
       ∧ (prevIdx nn = ULONG_MAX
          ∨ (prevIdx nn = ULONG_MAX - 1 ∧ pathLen nn = dbl 0
             ∧ N.of_nat i ∈ seeds)))
  ∧ ∀ x, x ∈ st.2 →
         ∃ nn, st.1 !! N.to_nat x = Some nn ∧ prevIdx nn = ULONG_MAX - 1.

(** The nodes still to enter the visit vector: not visited and not in it. *)
Definition is_pending (st : dijkstra_state) (i : nat) : bool :=
  match st.1 !! i with
  | Some nn => negb (bVisited nn) && bool_decide (N.of_nat i ∉ st.2)
  | None => false
  end.

(** The measure of the outer loop. *)
Definition search_measure (st : dijkstra_state) : nat :=
  (length st.2
   + length (filter (λ i, is_pending st i = true) (seq 0 (length st.1))))%nat.

(** The result is not the model's loop bound. *)
Definition in_time {A} (r : res A) : Prop := r ≠ Err OutOfFuel.

(** The indexes that a search follows are in range: the edges registered
    at the nodes exist and join nodes that exist. *)
Definition graph_wf (apt : Apt) : Prop :=
  ∀ i nn eIdx,
    vecTaxiNodes apt !! i = Some nn → eIdx ∈ vecEdges nn →
    ∃ e, vecTaxiEdges apt !! N.to_nat eIdx = Some e
         ∧ a e < vsize (vecTaxiNodes apt) ∧ b e < vsize (vecTaxiNodes apt).

(** The start of a search exists: the taxiway node, or the runway endpoint
    and the taxiway nodes attached to it. *)
Definition start_ok (apt : Apt) (_startN : N) (bStartIsRwy : bool) : Prop :=
  if bStartIsRwy
  then ∃ ep, vecRwyEndPts apt !! N.to_nat _startN = Some ep
             ∧ ∀ n, n ∈ vecTaxiNodes_of ep → n < vsize (vecTaxiNodes apt)
  else _startN < vsize (vecTaxiNodes apt).

(** ** Snapping *)

(** Fixture: one runway of 1000 m along the equator, endpoints at
    longitudes 0 and 1000. *)
Definition apt_runway : Apt :=
  mkApt "TEST" (mkBox (dbl 15) (dbl (-15)) (dbl (-15)) (dbl 1015)) NAN
    []
    [mkRwyEndPt (TaxiNode_at (dbl 0) (dbl 0)) "09" (dbl 100) [];
     mkRwyEndPt (TaxiNode_at (dbl 0) (dbl 1000)) "27" (dbl 100) []]
    [mkEdge RUN_WAY 0 1 (dbl 90) (dbl 1000)]
    [0].

(** A position report 3 m north of the middle of that runway, heading
    east, in cruise. *)
Definition pos_near_runway : positionTy :=
  mkPos (dbl 3) (dbl 500) (dbl 100) (dbl 60) (dbl 90) (dbl 0) (dbl 0)
        GND_UNKNOWN FPH_CRUISE ULONG_MAX.

Definition fd_near_runway : LTFlightData :=
  mkFlightData [pos_near_runway] None "A320".

(** ** Runway selection *)

(** A candidate: a runway edge of an airport found for the heading, with
    the endpoint that the aircraft is heading for. *)
Record rwyCand : Type := mkCand {
  c_apt : Apt;
  c_edge : TaxiEdge;
  c_ep : RwyEndPt;
}.

Section RwyCandidates.
Context `{GeoLib} `{Config}.

(** The candidates of one airport and of all airports, in search order. *)
Fixpoint apt_candidates (bHeadInverted : bool) (apt : Apt) (lstRwys : list N)
  : res (list rwyCand) :=
  match lstRwys with
  | [] => Ok []
  | eIdx :: rest =>
      e ← vidx (vecTaxiEdges apt) eIdx;
      ep ← (if bHeadInverted then GetRwyEP_B e apt else GetRwyEP_A e apt);
      cs ← apt_candidates bHeadInverted apt rest;
      Ok (mkCand apt e ep :: cs)
  end.

Fixpoint rwy_candidates (headSearch : double) (bHeadInverted : bool)
    (gmapApt : mapAptTy) : res (list rwyCand) :=
  match gmapApt with
  | [] => Ok []
  | (_, apt) :: rest =>
      '(found, lstRwys) ←
        FindEdgesForHeading apt headSearch ART_RWY_MAX_HEAD_DIFF [] RUN_WAY;
      cs ← apt_candidates bHeadInverted apt lstRwys;
      cs' ← rwy_candidates headSearch bHeadInverted rest;
      Ok (cs ++ cs')
  end.

(** Deviation of the bearing to the endpoint from the current heading. *)
Definition cand_dev (from : positionTy) (c : rwyCand) : double :=
  dabs (HeadingDiff (pos_heading from)
          (CoordAngle (pos_lat from) (pos_lon from)
             (lat (rwyNode (c_ep c))) (lon (rwyNode (c_ep c))))).

Definition cand_d_ts (from : positionTy) (speed_m_s : double) (c : rwyCand)
  : double :=
  ddiv (CoordDistance (pos_lat from) (pos_lon from)
          (lat (rwyNode (c_ep c))) (lon (rwyNode (c_ep c)))) speed_m_s.

Definition cand_vsi (from : positionTy) (speed_m_s : double) (c : rwyCand)
  : double :=
  ddiv (dsub (alt_m (c_ep c)) (pos_alt_m from)) (cand_d_ts from speed_m_s c).

(** The altitude of the endpoint is known and the vertical speed needed is
    in the range of the flight model. *)
Definition cand_passes (from : positionTy) (speed_m_s vsi_min vsi_max : double)
    (c : rwyCand) : bool :=
  negb (isnan (alt_m (c_ep c)))
  && negb (dlt (cand_vsi from speed_m_s c) vsi_min
           || dgt (cand_vsi from speed_m_s c) vsi_max).

(** The best match that stands for candidate [c]. *)
Definition best_of (from : positionTy) (speed_m_s : double) (c : rwyCand)
  : bestRwyTy :=
  mkBestRwy (Some (c_apt c)) (Some (c_edge c)) (Some (c_ep c))
            (cand_dev from c)
            (dadd (pos_ts from) (cand_d_ts from speed_m_s c)).

End RwyCandidates.

(** Fixtures: the airport with one runway under two names, the second
    one metre higher, and an aircraft on the extended centreline, 5 km
    out, heading for the runway. *)
Definition apt_runway_A : Apt :=
  mkApt "AAAA" (bounds apt_runway) NAN [] (vecRwyEndPts apt_runway)
        (vecTaxiEdges apt_runway) [0].

Definition apt_runway_B : Apt :=
  mkApt "BBBB" (bounds apt_runway) NAN []
    [mkRwyEndPt (TaxiNode_at (dbl 0) (dbl 0)) "09" (dbl 101) [];
     mkRwyEndPt (TaxiNode_at (dbl 0) (dbl 1000)) "27" (dbl 101) []]
    (vecTaxiEdges apt_runway) [0].

Definition ac_on_final : LTAircraft :=
  mkAircraft (mkFlightModel (dbl (-600)) (dbl 140) (dbl 2) (dbl 15))
    (mkPos (dbl 0) (dbl (-5000)) (dbl 314) (dbl 1000) (dbl 90) (dbl 0) (dbl 0)
           GND_OFF FPH_FINAL ULONG_MAX)
    (dbl 70).

Section RwySelection.
Context `{GeoLib} `{Config}.

(** What [LTAptFindRwy] derives from the aircraft before it searches. *)
Definition rwy_vsi_min (_ac : LTAircraft) : double :=
  dmul (dmul (VSI_FINAL (mdl _ac)) ART_RWY_MAX_VSI_F) Ms_per_FTm.
Definition rwy_vsi_max (_ac : LTAircraft) : double :=
  dmul (ddiv (VSI_FINAL (mdl _ac)) ART_RWY_MAX_VSI_F) Ms_per_FTm.
Definition rwy_speed (_ac : LTAircraft) : double :=
  dmin (GetSpeed_m_s _ac)
       (ddiv (dmul (FLAPS_DOWN_SPEED (mdl _ac)) ART_APPR_SPEED_F)
             KT_per_M_per_S).
Definition rwy_inverted (_ac : LTAircraft) : bool :=
  dge (HeadingNormalize (pos_heading (GetToPos _ac))) (dbl 180).
Definition rwy_headSearch (_ac : LTAircraft) : double :=
  if rwy_inverted _ac
  then dsub (HeadingNormalize (pos_heading (GetToPos _ac))) (dbl 180)
  else HeadingNormalize (pos_heading (GetToPos _ac)).

(** The candidate passes the checks of altitude and vertical speed. *)
Definition passes (_ac : LTAircraft) (c : rwyCand) : bool :=
  cand_passes (GetToPos _ac) (rwy_speed _ac) (rwy_vsi_min _ac)
              (rwy_vsi_max _ac) c.

(** One candidate against the best match so far: it replaces the best
    match unless it fails a check or deviates more. *)
Definition accept (_ac : LTAircraft) (best : bestRwyTy) (c : rwyCand)
  : bestRwyTy :=
  if passes _ac c
     && negb (dgt (cand_dev (GetToPos _ac) c) (bestHeadingDiff best))
  then best_of (GetToPos _ac) (rwy_speed _ac) c
  else best.

End RwySelection.

(** The touch-down position returned for the winning candidate. *)
Definition touch_down `{GeoLib} `{Config} (_ac : LTAircraft) (c : rwyCand)
  : positionTy :=
  mkPos (lat (rwyNode (c_ep c))) (lon (rwyNode (c_ep c))) (alt_m (c_ep c))
        (dadd (pos_ts (GetToPos _ac))
              (cand_d_ts (GetToPos _ac) (rwy_speed _ac) c))
        (dadd (angle (c_edge c))
              (if rwy_inverted _ac then dbl 180 else dbl 0))
        (PITCH_FLARE (mdl _ac)) (dbl 0) GND_ON FPH_TOUCH_DOWN EDGE_UNKNOWN.

(** ** Binary64 values *)



(** The error that the rounding of the bounds of a heading window leaves,
    in degrees. *)
Definition angle_eps : Q := 1 # 4398046511104.

(** The search heading brought below 180, as [FindEdgesForHeading] does
    it. *)
Definition norm180 (x : double) : double :=
  if dge x (dbl 180) then dsub x (dbl 180) else x.

(** [x] lies in the range [rng], both bounds included. *)
Definition angle_in (rng : double * double) (x : double) : bool :=
  dle (fst rng) x && dle x (snd rng).

(** Fixture for a window whose bound is rounded: one taxiway at the
    binary64 value of 179.7 degrees; [tol_03] is the binary64 value of
    0.3. *)
Definition angle_1797 : Q := 3161315832181555 # 17592186044416.
Definition tol_03 : Q := 5404319552844595 # 18014398509481984.
Definition apt_edge_1797 : Apt :=
  mkApt "TEST" (mkBox NAN NAN NAN NAN) NAN
    [TaxiNode_at (dbl 0) (dbl 0); TaxiNode_at (dbl 100) (dbl 1)]
    []
    [mkEdge TAXI_WAY 0 1 (DFin angle_1797) (dbl 100)]
    [0].

(** * Further functions of [LTApt.cpp] *)

(** ** Joining open ends of the taxiway network *)

Section Join.
Context `{GeoLib} `{Config}.

(** The body of the loop of [JoinOpenTaxiEdges] for node [i]: a node with
    just one edge, which is not a runway, is joined to the closest other
    edge of a similar heading.  If that edge is a runway, the node is added
    to the taxiway nodes of the runway endpoint that is the start of the
    runway in the direction of the taxiway; otherwise the node is moved
    onto the edge found, its own edge is recalculated, the edge found is
    split at the node and the index is sorted again.
    The search position is [positionTy(n.lat, n.lon, 0.0, NAN, e.angle)];
    the members that the constructor fills with defaults are not read. *)
Definition join_open_node (apt : Apt) (i : size_t) : res Apt :=
  n ← vidx (vecTaxiNodes apt) i;
  match vecEdges n with
  | [front] =>
      e ← vidx (vecTaxiEdges apt) front;
      if decide (GetType e = RUN_WAY) then Ok apt
      else
        let taxiAngle := GetAngleFrom e i in
        let pos := mkPos (lat n) (lon n) (dbl 0) NAN (angle e) NAN NAN
                         GND_UNKNOWN FPH_UNKNOWN EDGE_UNKNOWN in
        '(found, pos') ←
          FindClosestEdge apt pos pos APT_JOIN_MAX_DIST_M
            APT_JOIN_ANGLE_TOLERANCE APT_JOIN_ANGLE_TOLERANCE_EXT (Some front);
        match found with
        | None => Ok apt
        | Some (joinIdx, pJoinE) =>
            if decide (GetType pJoinE = RUN_WAY)
            then
              let k := startByHeading pJoinE taxiAngle in
              rwyStart ← vidx (vecRwyEndPts apt) k;
              Ok (set_rwyEndPts apt
                    (vset (vecRwyEndPts apt) k (push_taxi_node rwyStart i)))
            else
              let apt1 :=
                set_nodes apt
                  (vset (vecTaxiNodes apt) i
                     (move_node n (pos_lat pos') (pos_lon pos'))) in
              e' ← RecalcTaxiEdge apt1 e;
              let apt2 := set_edges apt1 (vset (vecTaxiEdges apt1) front e') in
              apt3 ← SplitEdge apt2 joinIdx i;
              SortTaxiEdges apt3
        end
  | _ => Ok apt
  end.

(** [for (size_t i=0; i < vecTaxiNodes.size(); ++i)] *)
Fixpoint join_open_loop (fuel : nat) (i : size_t) (apt : Apt) : res Apt :=
  if decide (i < vsize (vecTaxiNodes apt))
  then
    match fuel with
    | O => Err OutOfFuel
    | S fuel' =>
        apt' ← join_open_node apt i;
        join_open_loop fuel' (i + 1) apt'
    end
  else Ok apt.

(** Find open ends in taxiway network (nodes with just one connection) and
    try connecting them to some edge.  The loop runs once per node; the
    number of nodes does not change while it runs. *)
Definition JoinOpenTaxiEdges (apt : Apt) : res Apt :=
  join_open_loop (length (vecTaxiNodes apt)) 0 apt.

End Join.

(** ** The map of airports *)

Section AptMap.
Context `{GeoLib} `{Config}.

(** Does airport contain this point? *)
Definition Contains (apt : Apt) (pos : positionTy) : bool :=
  bb_contains (bounds apt) (pos_lat pos) (pos_lon pos).

(** Enlarge the bounding box by a few meters *)
Definition EnlargeBounds_m (apt : Apt) (meter : double) : Apt :=
  set_bounds apt (enlarge_m (bounds apt) meter).

(** [std::map::emplace]: the airport is put at its place in the order of
    the keys, unless the key is in the map already. *)
Fixpoint emplace (key : string) (apt : Apt) (m : mapAptTy) : mapAptTy :=
  match m with
  | [] => [(key, apt)]
  | (k, x) :: m' =>
      match String.compare key k with
      | Lt => (key, apt) :: m
      | Eq => m
      | Gt => (k, x) :: emplace key apt m'
      end
  end.

(** Add airport to list of airports: the bounds are enlarged by the snap
    distance, the index of edges is sorted, open ends are joined, and the
    airport is put into the map under its id.  The log message that the
    source composes in between is left out. *)
Definition AddApt (gmapApt : mapAptTy) (apt : Apt) : res mapAptTy :=
  let apt1 := EnlargeBounds_m apt (DFin (inject_Z GetFdSnapTaxiDist_m)) in
  apt2 ← SortTaxiEdges apt1;
  apt3 ← JoinOpenTaxiEdges apt2;
  Ok (emplace (id apt3) apt3 gmapApt).

(** Find airport, which contains passed-in position: the first one in the
    order of the keys, with its place in the map. *)
Definition LTAptFind (gmapApt : mapAptTy) (pos : positionTy)
  : option (nat * (string * Apt)) :=
  list_find (λ p, Contains p.2 pos = true) gmapApt.

(** Snaps the passed-in position to the nearest rwy or taxiway if
    appropriate.  Returns the flag, the flight data, the iterator and the
    map, in which the airport found holds the attributes that a path search
    has written. *)
Definition LTAptSnap (gmapApt : mapAptTy) (fd : LTFlightData) (posIter : nat)
  : res (bool * LTFlightData * nat * mapAptTy) :=
  if decide (GetFdSnapTaxiDist_m ≤ 0)%Z then Ok (false, fd, posIter, gmapApt)
  else
    match posDeque fd !! posIter with
    | None => Err UB
    | Some pos =>
        match LTAptFind gmapApt pos with
        | None => Ok (false, fd, posIter, gmapApt)
        | Some (k, (key, apt)) =>
            '(ret, fd', posIter', apt') ← SnapToTaxiway apt fd posIter;
            Ok (ret, fd', posIter', <[k := (key, apt')]> gmapApt)
        end
    end.

End AptMap.

(** ** Reading a taxi line *)

Section TaxiLine.
Context `{GeoLib} `{Config}.

(** Two constants of [Constants.h]: the square of the maximum length of an
    edge, and the maximum turn within one edge. *)
Variables (APT_MAX_EDGE_LEN_M2 APT_MAX_TAXI_SEGM_TURN : double).

(** One turn of the loop over the temporarily stored nodes: [b] is the
    last node that is confirmed to be part of the edge, [c] the next node.
    The state is the airport, [idxA] and [firstAngle]. *)
Definition taxi_line_step (st : Apt * size_t * double) (b c : TaxiNode)
  : res (Apt * size_t * double) :=
  let '(apt, idxA, firstAngle) := st in
  na ← vidx (vecTaxiNodes apt) idxA;
  let bcAngle := CoordAngle (lat b) (lon b) (lat c) (lon c) in
  if isnan firstAngle then Ok (apt, idxA, bcAngle)
  else if dgt (DistLatLonSqr (lat na) (lon na) (lat c) (lon c))
              APT_MAX_EDGE_LEN_M2
          || dgt (dabs (HeadingDiff firstAngle bcAngle)) APT_MAX_TAXI_SEGM_TURN
  then
    '(apt1, idxB) ← AddTaxiNode apt (lat b) (lon b) ULONG_MAX;
    if decide (idxA ≠ idxB)
    then
      '(apt2, _) ← AddTaxiEdge apt1 idxA idxB NAN;
      Ok (apt2, idxB, NAN)
    else Ok (apt1, idxA, firstAngle)
  else Ok (apt, idxA, firstAngle).

(** The loop runs from the first node to the node before the last one. *)
Fixpoint taxi_line_loop (st : Apt * size_t * double)
    (vecNodes : vecTaxiNodesTy) : res (Apt * size_t * double) :=
  match vecNodes with
  | b :: rest =>
      match rest with
      | c :: _ =>
          st' ← taxi_line_step st b c;
          taxi_line_loop st' rest
      | [] => Ok st
      end
  | [] => Ok st
  end.

(** The second part of [ReadOneTaxiLine]: reading the section is done, now
    process the resulting nodes. *)
Definition ReadOneTaxiLine_nodes (apt : Apt) (vecNodes : vecTaxiNodesTy)
  : res Apt :=
  if decide (2 ≤ length vecNodes)%nat
  then
    match head vecNodes, last vecNodes with
    | Some front, Some back =>
        '(apt1, idxA_First) ← AddTaxiNode apt (lat front) (lon front) ULONG_MAX;
        '(apt2, idxA, _) ← taxi_line_loop (apt1, idxA_First, NAN) vecNodes;
        '(apt3, idxB) ← AddTaxiNode apt2 (lat back) (lon back) idxA_First;
        if decide (idxA ≠ idxB)
        then '(apt4, _) ← AddTaxiEdge apt3 idxA idxB NAN; Ok apt4
        else Ok apt3
    | _, _ => Ok apt
    end
  else Ok apt.

End TaxiLine.

(** ** The taxiway graph *)

(** Every edge listed at a taxiway node exists, is a taxiway edge, has the
    node as one of its two ends and joins nodes of the vector of taxiway
    nodes. *)
Definition incident_ok (apt : Apt) : Prop :=
  ∀ i nn eIdx,
    vecTaxiNodes apt !! i = Some nn → eIdx ∈ vecEdges nn →
    ∃ e, vecTaxiEdges apt !! N.to_nat eIdx = Some e
         ∧ type e = TAXI_WAY
         ∧ (a e = N.of_nat i ∨ b e = N.of_nat i)
         ∧ a e < vsize (vecTaxiNodes apt) ∧ b e < vsize (vecTaxiNodes apt).

(** ** What a path search leaves as it is *)

(** Two nodes that differ at most in the attributes of the path search. *)
Definition same_place (n n' : TaxiNode) : Prop :=
  lat n = lat n' ∧ lon n = lon n' ∧ vecEdges n = vecEdges n'.

(** ** The nearest edge *)

Section Closest.
Context `{GeoLib} `{Config}.

(** The match that edge [eIdx] stands for when [FindClosestEdge] looks at
    it: none if it is the edge to skip, if it is farther away than the
    maximum, or if the base point lies farther than the maximum beyond its
    ends; otherwise the edge with its end points relative to the position,
    its distance and its priorised distance, which is the squared distance,
    increased if the angle is within the second tolerance only. *)
Definition edge_candidate (apt : Apt) (pos : positionTy)
    (headSearch maxDist2 _angleTolerance : double) (pSkipEdge : option size_t)
    (eIdx : size_t) : res (option closestTy) :=
  e ← vidx (vecTaxiEdges apt) eIdx;
  if bool_decide (pSkipEdge = Some eIdx) then Ok None
  else
    from ← startByHeading_node e apt headSearch;
    to ← endByHeading_node e apt headSearch;
    let edgeAngle := GetAngleByHead e headSearch in
    let from_x := Lon2Dist (dsub (lon from) (pos_lon pos)) (pos_lat pos) in
    let from_y := Lat2Dist (dsub (lat from) (pos_lat pos)) in
    let to_x := Lon2Dist (dsub (lon to) (pos_lon pos)) (pos_lat pos) in
    let to_y := Lat2Dist (dsub (lat to) (pos_lat pos)) in
    let dist := DistPointToLineSqr (dbl 0) (dbl 0) from_x from_y to_x to_y in
    let prioDist :=
      if dgt (dabs (HeadingDiff edgeAngle headSearch)) _angleTolerance
      then dadd (dist2 dist)
             (dadd (dmul (dbl 3) ART_EDGE_ANGLE_EXT_DIST)
                   (dmul ART_EDGE_ANGLE_EXT_DIST ART_EDGE_ANGLE_EXT_DIST))
      else dist2 dist in
    if dgt (dist2 dist) maxDist2
       || dgt (DistSqrOfBaseBeyondLine dist) maxDist2
    then Ok None
    else Ok (Some (mkClosest (Some (eIdx, e)) from_x from_y to_x to_y
                             prioDist dist)).

(** The candidates among the edges of a list, in the order of the list. *)
Fixpoint edge_candidates (apt : Apt) (pos : positionTy)
    (headSearch maxDist2 _angleTolerance : double) (pSkipEdge : option size_t)
    (lstEdges : vecIdxTy) : res (list closestTy) :=
  match lstEdges with
  | [] => Ok []
  | eIdx :: rest =>
      c ← edge_candidate apt pos headSearch maxDist2 _angleTolerance
             pSkipEdge eIdx;
      cs ← edge_candidates apt pos headSearch maxDist2 _angleTolerance
              pSkipEdge rest;
      Ok (match c with Some c' => c' :: cs | None => cs end)
  end.

(** One candidate against the best match so far: it replaces the best
    match unless its priorised distance is greater or equal. *)
Definition closer (best c : closestTy) : closestTy :=
  if dge (bestPrioDist c) (bestPrioDist best) then best else c.

End Closest.

(** ** Snapping *)

(** Fixture: a taxiway of five nodes in a line, 10 m apart, heading
    north. *)
Definition apt_line5 : Apt :=
  mkApt "TEST" (mkBox (dbl 55) (dbl (-15)) (dbl (-15)) (dbl 15)) NAN
    [mkNode (dbl 0) (dbl 0) [0] NAN 0 false;
     mkNode (dbl 10) (dbl 0) [0; 1] NAN 0 false;
     mkNode (dbl 20) (dbl 0) [1; 2] NAN 0 false;
     mkNode (dbl 30) (dbl 0) [2; 3] NAN 0 false;
     mkNode (dbl 40) (dbl 0) [3] NAN 0 false]
    []
    [mkEdge TAXI_WAY 0 1 (dbl 0) (dbl 10);
     mkEdge TAXI_WAY 1 2 (dbl 0) (dbl 10);
     mkEdge TAXI_WAY 2 3 (dbl 0) (dbl 10);
     mkEdge TAXI_WAY 3 4 (dbl 0) (dbl 10)]
    [0; 1; 2; 3].

(** Flight data of an aircraft taxiing north along that line: a position
    on the first edge and, 100 s later, a report 1 m beside the last
    edge. *)
Definition fd_taxi : LTFlightData :=
  mkFlightData
    [mkPos (dbl 5) (dbl 0) (dbl 0) (dbl 0) (dbl 0) (dbl 0) (dbl 0)
           GND_ON FPH_TAXI 0;
     mkPos (dbl 39) (dbl 1) (dbl 0) (dbl 100) (dbl 0) (dbl 0) (dbl 0)
           GND_ON FPH_UNKNOWN ULONG_MAX]
    None "A320".

(** ** Airports as the search functions expect them *)

(** Every edge is in the store that its type selects, and the index vector
    lists edges of the airport only. *)
Definition apt_indexed (apt : Apt) : Prop :=
  store_ok apt
  ∧ Forall (λ i, is_Some (vecTaxiEdges apt !! N.to_nat i))
           (vecTaxiEdgesIdxHead apt).

(** The index vector is what [SortTaxiEdges] makes of a vector that lists
    every edge of the airport once. *)
Definition freshly_sorted (apt : Apt) : Prop :=
  ∃ idx0,
    idx0 ≡ₚ N.of_nat <$> seq 0 (length (vecTaxiEdges apt))
    ∧ vecTaxiEdgesIdxHead apt
      = foldr (insert_by_angle (vecTaxiEdges apt)) [] idx0.

(** The index vector lists the first edges of the airport once each, as
    many as it is long. *)
Definition idx_prefix (apt : Apt) : Prop :=
  vecTaxiEdgesIdxHead apt
  ≡ₚ N.of_nat <$> seq 0 (length (vecTaxiEdgesIdxHead apt)).

(** Node [i] of the airport has coordinates. *)
Definition coords_ok (apt : Apt) (i : size_t) : Prop :=
  ∃ n, vecTaxiNodes apt !! N.to_nat i = Some n ∧ HasGeoCoords n = true.

(** From [apt] to [apt'] the airport has only grown: its edges are still
    there, followed by new taxiway edges between two different nodes; its
    nodes are at their indexes with their coordinates; what is not a node or
    an edge is the same but for the bounds. *)
Definition grows (apt apt' : Apt) : Prop :=
  (∃ new, vecTaxiEdges apt' = vecTaxiEdges apt ++ new
          ∧ Forall (λ e, type e = TAXI_WAY ∧ a e ≠ b e
                         ∧ a e < vsize (vecTaxiNodes apt')
                         ∧ b e < vsize (vecTaxiNodes apt')) new)
  ∧ (∀ k n, vecTaxiNodes apt !! k = Some n →
       ∃ n', vecTaxiNodes apt' !! k = Some n'
             ∧ lat n' = lat n ∧ lon n' = lon n)
  ∧ id apt' = id apt
  ∧ vecRwyEndPts apt' = vecRwyEndPts apt
  ∧ vecTaxiEdgesIdxHead apt' = vecTaxiEdgesIdxHead apt.

(** Fixture: a taxi line of four nodes with a right turn at the third. *)
Definition taxi_line4 : list TaxiNode :=
  [TaxiNode_at (dbl 0) (dbl 0); TaxiNode_at (dbl 10) (dbl 0);
   TaxiNode_at (dbl 20) (dbl 0); TaxiNode_at (dbl 20) (dbl 10)].

(** * A planar stand-in for the collaborators

    To run the model on concrete airports the classes [GeoLib] and [Config]
    need an instance.  [planarGeo] treats latitude and longitude as planar
    coordinates in meters, measures length by the taxicab metric and
    reads angles off the eight compass points.  It is used for examples
    only; no general property depends on it. *)

Module Planar.

Definition map2 (f : Q → Q → double) (x y : double) : double :=
  match x, y with
  | DFin p, DFin q => f p q
  | _, _ => DNaN
  end.

Definition angle8 (dlat dlon : Q) : Q :=
  match (0 ?= dlat)%Q, (0 ?= dlon)%Q with
  | Eq, Eq => 0
  | Lt, Eq => 0
  | Lt, Lt => 45
  | Eq, Lt => 90
  | Gt, Lt => 135
  | Gt, Eq => 180
  | Gt, Gt => 225
  | Eq, Gt => 270
  | Lt, Gt => 315
  end.

Definition coordAngle (lat1 lon1 lat2 lon2 : double) : double :=
  map2 (λ dlat dlon, DFin (angle8 dlat dlon)) (dsub lat2 lat1) (dsub lon2 lon1).

Definition distLatLon (lat1 lon1 lat2 lon2 : double) : double :=
  dadd (dabs (dsub lat2 lat1)) (dabs (dsub lon2 lon1)).

Definition distLatLonSqr (lat1 lon1 lat2 lon2 : double) : double :=
  let d := distLatLon lat1 lon1 lat2 lon2 in dmul d d.

Definition headingDiff (h1 h2 : double) : double :=
  let d := dsub h2 h1 in
  if dlt (dbl 180) d then dsub d (dbl 360)
  else if dlt d (dbl (-180)) then dadd d (dbl 360)
  else d.

Definition headingNormalize (h : double) : double :=
  if dlt h (dbl 0) then dadd h (dbl 360)
  else if dge h (dbl 360) then dsub h (dbl 360)
  else h.

Definition sqr (x : double) : double := dmul x x.

Definition distPointToLineSqr (px py x1 y1 x2 y2 : double) : distToLineTy :=
  let dx := dsub x2 x1 in
  let dy := dsub y2 y1 in
  let l2 := dadd (sqr dx) (sqr dy) in
  let t := ddiv (dadd (dmul (dsub px x1) dx) (dmul (dsub py y1) dy)) l2 in
  let bx := dadd x1 (dmul t dx) in
  let by_ := dadd y1 (dmul t dy) in
  mkDistToLine
    (dadd (sqr (dsub px bx)) (sqr (dsub py by_)))
    l2
    (dadd (sqr (dsub bx x1)) (sqr (dsub by_ y1)))
    (dadd (sqr (dsub bx x2)) (sqr (dsub by_ y2))).

Definition distSqrOfBaseBeyondLine (d : distToLineTy) : double :=
  dmax (dbl 0) (dsub (dmax (leg1_len2 d) (leg2_len2 d)) (len2 d)).

(** The base point of the origin on the line through the two points. *)
Definition distResultToBaseLoc (x1 y1 x2 y2 : double) (_ : distToLineTy)
  : double * double :=
  let dx := dsub x2 x1 in
  let dy := dsub y2 y1 in
  let l2 := dadd (sqr dx) (sqr dy) in
  let t := ddiv (dadd (dmul (dneg x1) dx) (dmul (dneg y1) dy)) l2 in
  (dadd x1 (dmul t dx), dadd y1 (dmul t dy)).

Definition or_nan (x y : double) : double := if isnan x then y else x.

Definition enlargePos (bb : boundingBoxTy) (_lat _lon : double) : boundingBoxTy :=
  mkBox (dmax (or_nan (nw_lat bb) _lat) _lat) (dmin (or_nan (nw_lon bb) _lon) _lon)
        (dmin (or_nan (se_lat bb) _lat) _lat) (dmax (or_nan (se_lon bb) _lon) _lon).

Definition enlargeM (bb : boundingBoxTy) (m : double) : boundingBoxTy :=
  mkBox (dadd (nw_lat bb) m) (dsub (nw_lon bb) m)
        (dsub (se_lat bb) m) (dadd (se_lon bb) m).

Definition contains (bb : boundingBoxTy) (_lat _lon : double) : bool :=
  dle (se_lat bb) _lat && dle _lat (nw_lat bb)
  && dle (nw_lon bb) _lon && dle _lon (se_lon bb).

Definition posBetween (lat1 lon1 lat2 lon2 : double) : vectorTy :=
  mkVector (coordAngle lat1 lon1 lat2 lon2) (distLatLon lat1 lon1 lat2 lon2).

(** Moves along the four main compass directions only. *)
Definition posPlus (p : double * double) (v : vectorTy) : double * double :=
  match vec_angle v with
  | DFin h =>
      if Qeq_bool h 0 then (dadd (fst p) (vec_dist v), snd p)
      else if Qeq_bool h 90 then (fst p, dadd (snd p) (vec_dist v))
      else if Qeq_bool h 180 then (dsub (fst p) (vec_dist v), snd p)
      else if Qeq_bool h 270 then (fst p, dsub (snd p) (vec_dist v))
      else p
  | _ => p
  end.

#[export] Instance planarGeo : GeoLib := {|
  CoordAngle := coordAngle;
  CoordDistance := distLatLon;
  DistLatLon := distLatLon;
  DistLatLonSqr := distLatLonSqr;
  HeadingDiff := headingDiff;
  HeadingNormalize := headingNormalize;
  Dist2Lat := λ d, d;
  Dist2Lon := λ d _, d;
  Lat2Dist := λ d, d;
  Lon2Dist := λ d _, d;
  dequal := λ x y, dle x y && dle y x;
  DistPointToLineSqr := distPointToLineSqr;
  DistSqrOfBaseBeyondLine := distSqrOfBaseBeyondLine;
  DistResultToBaseLoc := distResultToBaseLoc;
  enlarge_pos := enlargePos;
  enlarge_m := enlargeM;
  bb_contains := contains;
  pos_between := posBetween;
  pos_plus := posPlus;
  FindFlightModel := λ _, mkFlightModel (dbl (-600)) (dbl 140) (dbl 2) (dbl 15);
|}.

#[export] Instance planarConfig : Config := {|
  APT_MAX_SIMILAR_NODE_DIST_M := dbl 2;
  APT_JOIN_MAX_DIST_M := 15%Z;
  APT_JOIN_ANGLE_TOLERANCE := dbl 15;
  APT_JOIN_ANGLE_TOLERANCE_EXT := dbl 45;
  ART_EDGE_ANGLE_TOLERANCE := dbl 30;
  ART_EDGE_ANGLE_TOLERANCE_EXT := dbl 80;
  ART_EDGE_ANGLE_EXT_DIST := dbl 5;
  ART_RWY_TD_POINT_F := dbl (1 # 10);
  ART_RWY_MAX_HEAD_DIFF := dbl 10;
  ART_RWY_MAX_VSI_F := dbl 2;
  ART_APPR_SPEED_F := dbl (17 # 10);
  Ms_per_FTm := dbl (508 # 100000);
  KT_per_M_per_S := dbl (194384 # 100000);
  SIMILAR_TS_INTVL := dbl 3;
  EDGE_UNKNOWN := ULONG_MAX;
  EDGE_UNAVAIL := ULONG_MAX - 1;
  GetFdSnapTaxiDist_m := 15%Z;
|}.

End Planar.

(** An airport put together by the builder on the planar stand-in: two
    taxiway nodes 10 m apart and the edge between them. *)
Definition apt_pair : Apt :=
  Eval vm_compute in
    match
      '(apt1, n1) ← @AddTaxiNode Planar.planarGeo Planar.planarConfig
                      (Apt_new "TEST") (dbl 0) (dbl 0) ULONG_MAX;
      '(apt2, n2) ← @AddTaxiNode Planar.planarGeo Planar.planarConfig
                      apt1 (dbl 10) (dbl 0) ULONG_MAX;
      '(apt3, _) ← @AddTaxiEdge Planar.planarGeo apt2 n1 n2 NAN;
      Ok apt3
    with
    | Ok apt => apt
    | Err _ => Apt_new ""
    end.

(** An airport put together by the builder on the planar stand-in: two
    taxiway segments in a line, heading north, with a gap of 5 m between
    them, and the index sorted. *)
Definition apt_gap : Apt :=
  Eval vm_compute in
    match
      '(apt1, n0) ← @AddTaxiNode Planar.planarGeo Planar.planarConfig
                      (Apt_new "GAPP") (dbl 0) (dbl 0) ULONG_MAX;
      '(apt2, n1) ← @AddTaxiNode Planar.planarGeo Planar.planarConfig
                      apt1 (dbl 10) (dbl 0) ULONG_MAX;
      '(apt3, _) ← @AddTaxiEdge Planar.planarGeo apt2 n0 n1 NAN;
      '(apt4, n2) ← @AddTaxiNode Planar.planarGeo Planar.planarConfig
                      apt3 (dbl 15) (dbl 0) ULONG_MAX;
      '(apt5, n3) ← @AddTaxiNode Planar.planarGeo Planar.planarConfig
                      apt4 (dbl 30) (dbl 0) ULONG_MAX;
      '(apt6, _) ← @AddTaxiEdge Planar.planarGeo apt5 n2 n3 NAN;
      SortTaxiEdges apt6
    with
    | Ok apt => apt
    | Err _ => Apt_new ""
    end.

(** * Rounding to binary64 *)

Lemma pow2_pos (e : Z) : (0 < 2 ^ e)%Q.
Proof. by apply Qpower_0_lt. Qed.

Lemma pow2_add (a b : Z) : (2 ^ (a + b) == 2 ^ a * 2 ^ b)%Q.
Proof. by apply Qpower_plus. Qed.

Lemma pow2_le (a b : Z) : (a ≤ b)%Z → (2 ^ a <= 2 ^ b)%Q.
Proof. intros Hab. by apply Qpower_le_compat_l. Qed.


Lemma pow2_lt_inv (a b : Z) : (2 ^ a < 2 ^ b)%Q → (a < b)%Z.
Proof.
  intros Hlt. destruct (Z_lt_le_dec a b) as [|Hle]; [done|].
  apply pow2_le in Hle. lra.
Qed.

Lemma pow2_Z (n : Z) : (0 ≤ n)%Z → (2 ^ n == inject_Z (2 ^ n))%Q.
Proof. intros Hn. by rewrite Zpower_Qpower. Qed.

Lemma pow2_succ (a : Z) : (2 ^ (a + 1) == 2 * 2 ^ a)%Q.
Proof. rewrite pow2_add. change (2 ^ 1)%Q with 2%Q. lra. Qed.

Lemma Qabs_make (q : Q) :
  (Qabs q == inject_Z (Z.abs (Qnum q)) / inject_Z (Zpos (Qden q)))%Q.
Proof. destruct q as [n d]. simpl. apply Qmake_Qdiv. Qed.

(** [ilog2] is the exponent. *)
Lemma ilog2_spec (q : Q) :
  ¬ (q == 0)%Q →
  (2 ^ ilog2 q <= Qabs q)%Q ∧ (Qabs q < 2 ^ (ilog2 q + 1))%Q.
Proof.
  intros Hq. unfold ilog2.
  set (n := Z.abs (Qnum q)). set (d := Zpos (Qden q)).
  assert (Hn : (0 < n)%Z).
  { destruct q as [[|p|p] dd]; simpl in *; [|done|done].
    exfalso. apply Hq. reflexivity. }
  assert (Hd : (0 < d)%Z) by done.
  destruct (Z.log2_spec n Hn) as [Ha1 Ha2].
  destruct (Z.log2_spec d Hd) as [Hb1 Hb2].
  set (a := Z.log2 n) in *. set (b := Z.log2 d) in *.
  assert (Ha0 : (0 ≤ a)%Z) by apply Z.log2_nonneg.
  assert (Hb0 : (0 ≤ b)%Z) by apply Z.log2_nonneg.
  rewrite <- Z.add_1_r in Ha2, Hb2.
  rewrite Zle_Qle in Ha1, Hb1. rewrite Zlt_Qlt in Ha2, Hb2.
  rewrite <- pow2_Z in Ha1, Hb1, Ha2, Hb2 by lia.
  rewrite pow2_succ in Ha2, Hb2.
  pose proof (pow2_pos a) as HA. pose proof (pow2_pos b) as HB.
  assert (HD : (0 < inject_Z d)%Q).
  { change 0%Q with (inject_Z 0). by rewrite <- Zlt_Qlt. }
  assert (Habs : (Qabs q == inject_Z n / inject_Z d)%Q) by apply Qabs_make.
  assert (Hlow : (2 ^ (a - b - 1) <= Qabs q)%Q).
  { rewrite Habs. apply Qle_shift_div_l; [done|].
    pose proof (pow2_pos (a - b - 1)) as HX.
    assert (Hx : (2 ^ (a - b - 1) * (2 * 2 ^ b) == 2 ^ a)%Q).
    { rewrite <- pow2_succ, <- pow2_add. by replace (a - b - 1 + (b + 1))%Z with a by lia. }
    nra. }
  assert (Hup : (Qabs q < 2 ^ (a - b + 1))%Q).
  { rewrite Habs. apply Qlt_shift_div_r; [done|].
    pose proof (pow2_pos (a - b)) as HX.
    assert (Hx : (2 ^ (a - b) * 2 ^ b == 2 ^ a)%Q).
    { rewrite <- pow2_add. by replace (a - b + b)%Z with a by lia. }
    rewrite pow2_succ. nra. }
  destruct (Qle_bool (2 ^ (a - b)) (Qabs q)) eqn:Htest.
  - apply Qle_bool_iff in Htest. done.
  - split; [done|]. replace (a - b - 1 + 1)%Z with (a - b)%Z by lia.
    apply Qnot_le_lt. intros Hle. apply Qle_bool_iff in Hle. congruence.
Qed.

(** [rne] is within a half of its argument, and the identity on integers. *)
Lemma rne_error (q : Q) : (Qabs (inject_Z (rne q) - q) <= 1 # 2)%Q.
Proof.
  unfold rne. pose proof (Qfloor_le q) as Hlo. pose proof (Qlt_floor q) as Hhi.
  rewrite inject_Z_plus in Hhi. change (inject_Z 1) with 1%Q in Hhi.
  set (f := Qfloor q) in *.
  destruct (Qcompare_spec (q - inject_Z f) (1 # 2)) as [Hc|Hc|Hc].
  - destruct (Z.even f); [|rewrite inject_Z_plus; change (inject_Z 1) with 1%Q];
      apply Qabs_Qle_condition; lra.
  - apply Qabs_Qle_condition. lra.
  - rewrite inject_Z_plus. change (inject_Z 1) with 1%Q.
    apply Qabs_Qle_condition. lra.
Qed.


Lemma fl_zero (q : Q) : (q == 0)%Q → fl q = DFin 0.
Proof. intros Hq. unfold fl. by rewrite (proj2 (Qeq_bool_iff _ _) Hq). Qed.

Lemma Qeq_bool_false (p q : Q) : Qeq_bool p q = false → ¬ (p == q)%Q.
Proof. intros Hf Heq. apply Qeq_bool_iff in Heq. congruence. Qed.

(** The rounding error is at most half a unit in the last place. *)
Lemma fl_error (q : Q) (E : Z) :
  (E ≤ 1022)%Z → (Qabs q < 2 ^ (E + 1))%Q →
  ∃ r, fl q = DFin r
       ∧ (Qabs (r - q) <= 2 ^ (Z.max (E - 52) (-1074) - 1))%Q.
Proof.
  intros HE Hq. unfold fl.
  destruct (Qeq_bool q 0) eqn:H0.
  { apply Qeq_bool_iff in H0. exists 0%Q. split; [done|].
    pose proof (pow2_pos (Z.max (E - 52) (-1074) - 1)).
    apply Qabs_Qle_condition. lra. }
  apply Qeq_bool_false in H0.
  destruct (ilog2_spec q H0) as [Hlo _].
  set (e := ilog2 q) in *.
  assert (He : (e ≤ E)%Z).
  { assert (e < E + 1)%Z; [|lia]. apply pow2_lt_inv. lra. }
  cbv zeta. set (k := Z.max (e - 52) (-1074)).
  rewrite (proj2 (Z.leb_gt 1024 e)) by lia.
  rewrite (proj2 (Z.eqb_neq e 1023)) by lia. cbn [orb andb].
  eexists. split; [reflexivity|].
  rewrite Qred_correct.
  pose proof (pow2_pos k) as HP.
  pose proof (rne_error (q / 2 ^ k)) as Herr.
  assert (Heq : (inject_Z (rne (q / 2 ^ k)) * 2 ^ k - q
                 == (inject_Z (rne (q / 2 ^ k)) - q / 2 ^ k) * 2 ^ k)%Q).
  { field. lra. }
  rewrite Heq, Qabs_Qmult, (Qabs_pos (2 ^ k)) by lra.
  assert (Hk : (2 ^ k <= 2 ^ Z.max (E - 52) (-1074))%Q) by (apply pow2_le; lia).
  assert (Hhalf : (2 ^ Z.max (E - 52) (-1074)
                   == 2 * 2 ^ (Z.max (E - 52) (-1074) - 1))%Q).
  { rewrite <- pow2_succ. by replace (Z.max (E - 52) (-1074) - 1 + 1)%Z
      with (Z.max (E - 52) (-1074)) by lia. }
  pose proof (Qabs_nonneg (inject_Z (rne (q / 2 ^ k)) - q / 2 ^ k)).
  nra.
Qed.


(** Sums and differences below 1024 are finite and off by [2^-44] at
    most. *)
Lemma dadd_error (p q : Q) :
  (Qabs (p + q) < 1024)%Q →
  ∃ r, dadd (DFin p) (DFin q) = DFin r ∧ (Qabs (r - (p + q)) <= 1 # 17592186044416)%Q.
Proof.
  intros Hpq. cbn [dadd].
  destruct (fl_error (p + q) 9) as (r & Hr & Herr); [lia|done|].
  by exists r.
Qed.

Lemma dsub_error (p q : Q) :
  (Qabs (p - q) < 1024)%Q →
  ∃ r, dsub (DFin p) (DFin q) = DFin r ∧ (Qabs (r - (p - q)) <= 1 # 17592186044416)%Q.
Proof. intros Hpq. unfold dsub. cbn [dneg]. by apply dadd_error. Qed.


(** Rounding gives a number or an infinity. *)
Lemma fl_not_nan (q : Q) : isnan (fl q) = false.
Proof.
  unfold fl. destruct (Qeq_bool q 0); [done|]. cbv zeta.
  destruct (_ || _); [by destruct (Qle_bool 0 q)|done].
Qed.

Lemma dadd_not_nan (x : double) (d : Q) :
  isnan x = false → isnan (dadd x (DFin d)) = false.
Proof. destruct x; try done. intros _. apply fl_not_nan. Qed.

(** What is not greater is less or equal, NaN apart. *)
Lemma dgt_false_dle (x y : double) :
  isnan x = false → isnan y = false → dgt x y = false → dle x y = true.
Proof.
  destruct x as [| |p|], y as [| |q|]; try done.
  unfold dgt. cbn [dlt dle]. unfold Qlt_bool.
  by destruct (Qle_bool p q).
Qed.

(** * Properties *)

(** Examples run on the planar stand-in; the general statements bind
    their own [GeoLib] and [Config]. *)
Import Planar.

(** ** Vectors *)

Ltac res_simpl :=
  repeat (progress (unfold mbind, res_bind, fmap, res_fmap, mret, res_ret; simpl)).

Lemma bind_Ok {A B} (x : A) (k : A → res B) : (Ok x ≫= k) = k x.
Proof. reflexivity. Qed.

Lemma bind_Err {A B} (e : error) (k : A → res B) : (Err e ≫= k) = Err e.
Proof. reflexivity. Qed.

Lemma bind_Ok_inv {A B} (m : res A) (k : A → res B) (y : B) :
  (m ≫= k) = Ok y → ∃ x, m = Ok x ∧ k x = Ok y.
Proof. destruct m as [x|e]; [|done]. intros Hk. by exists x. Qed.

Lemma vlookup_lookup {A} (v : list A) (i : size_t) :
  vlookup v i = v !! N.to_nat i.
Proof.
  unfold vlookup. case_decide as Hi; [done|].
  symmetry. apply lookup_ge_None. lia.
Qed.


(** ** Doubles *)

Lemma Qlt_bool_iff (p q : Q) : Qlt_bool p q = true ↔ (p < q)%Q.
Proof.
  unfold Qlt_bool. rewrite negb_true_iff.
  split.
  - intros Hf. apply Qnot_le_lt. intros Hle.
    apply Qle_bool_iff in Hle. congruence.
  - intros Hlt. destruct (Qle_bool q p) eqn:E; [|done].
    apply Qle_bool_iff in E. exfalso. apply (Qlt_not_le _ _ Hlt E).
Qed.

Lemma dle_fin (p q : Q) : dle (DFin p) (DFin q) = true ↔ (p <= q)%Q.
Proof. apply Qle_bool_iff. Qed.

Lemma dlt_fin (p q : Q) : dlt (DFin p) (DFin q) = true ↔ (p < q)%Q.
Proof. apply Qlt_bool_iff. Qed.

Lemma dle_fin_false (p q : Q) : dle (DFin p) (DFin q) = false ↔ (q < p)%Q.
Proof.
  rewrite <- not_true_iff_false, dle_fin. split.
  - apply Qnot_le_lt.
  - intros Hlt Hle. apply (Qlt_not_le _ _ Hlt Hle).
Qed.

Lemma dlt_fin_false (p q : Q) : dlt (DFin p) (DFin q) = false ↔ (q <= p)%Q.
Proof.
  rewrite <- not_true_iff_false, dlt_fin. split.
  - apply Qnot_lt_le.
  - intros Hle Hlt. apply (Qlt_not_le _ _ Hlt Hle).
Qed.

(** Between two finite bounds there are only finite values. *)
Lemma between_fin (x : double) (lo hi : Q) :
  dle (DFin lo) x = true → dlt x (DFin hi) = true →
  ∃ q, x = DFin q ∧ (lo <= q)%Q ∧ (q < hi)%Q.
Proof.
  destruct x as [| |q|]; simpl; try discriminate.
  intros Hlo Hhi. exists q. split; [done|].
  split; [by apply Qle_bool_iff | by apply Qlt_bool_iff].
Qed.


(** ** Edges *)






(** ** Adding nodes and edges *)

Lemma vat_Ok {A} (v : list A) (i : size_t) (x : A) :
  vat v i = Ok x ↔ v !! N.to_nat i = Some x.
Proof.
  unfold vat. rewrite vlookup_lookup.
  destruct (v !! N.to_nat i); split; congruence.
Qed.

Lemma vidx_Ok {A} (v : list A) (i : size_t) (x : A) :
  vidx v i = Ok x ↔ v !! N.to_nat i = Some x.
Proof.
  unfold vidx. rewrite vlookup_lookup.
  destruct (v !! N.to_nat i); split; congruence.
Qed.

Lemma vsize_snoc {A} (v : list A) (x : A) : vsize (v ++ [x]) - 1 = vsize v.
Proof. unfold vsize. rewrite length_app. simpl. lia. Qed.

Lemma push_edge_registered_1 (n1 n2 eIdx : size_t) (i : nat) (n : TaxiNode) :
  i = N.to_nat n1 → i ≠ N.to_nat n2 →
  push_edge n eIdx = registered n1 n2 eIdx i n.
Proof.
  intros -> Hne. unfold push_edge, registered.
  rewrite decide_True by done. rewrite decide_False by done.
  by rewrite app_nil_r.
Qed.

(** The three outcomes of [AddTaxiEdge]. *)
Lemma AddTaxiEdge_outcomes `{GeoLib} (apt : Apt) (n1 n2 : size_t)
    (_dist : double) :
  match vecTaxiNodes apt !! N.to_nat n1, vecTaxiNodes apt !! N.to_nat n2 with
  | Some na, Some nb =>
      if HasGeoCoords na && HasGeoCoords nb
      then ∃ apt',
          AddTaxiEdge apt n1 n2 _dist = Ok (apt', vsize (vecTaxiEdges apt))
          ∧ apt' ≠ apt
          ∧ vecTaxiEdges apt' =
              vecTaxiEdges apt ++ [new_taxi_edge n1 n2 na nb _dist]
          ∧ vecTaxiNodes apt' =
              imap (registered n1 n2 (vsize (vecTaxiEdges apt)))
                   (vecTaxiNodes apt)
          ∧ set_nodes (set_edges apt' (vecTaxiEdges apt)) (vecTaxiNodes apt)
              = apt
      else AddTaxiEdge apt n1 n2 _dist = Ok (apt, ULONG_MAX)
  | _, _ => AddTaxiEdge apt n1 n2 _dist = Err OutOfRange
  end.
Proof.
  unfold AddTaxiEdge, vat. rewrite !vlookup_lookup.
  destruct (vecTaxiNodes apt !! N.to_nat n1) as [na|] eqn:Ha; res_simpl; [|done].
  destruct (vecTaxiNodes apt !! N.to_nat n2) as [nb|] eqn:Hb; res_simpl; [|done].
  rewrite <- negb_andb.
  destruct (HasGeoCoords na && HasGeoCoords nb) eqn:Hgeo; simpl; [|done].
  eexists. split.
  { rewrite vsize_snoc. reflexivity. }
  assert (Hedges : ∀ (v : list TaxiEdge) x, v ++ [x] ≠ v).
  { intros v x Heq. apply (f_equal length) in Heq.
    rewrite length_app in Heq. simpl in Heq. lia. }
  split.
  { intros Heq. apply (f_equal vecTaxiEdges) in Heq. simpl in Heq.
    by apply Hedges in Heq. }
  split; [done|]. split; [|by destruct apt].
  simpl. rewrite ?vsize_snoc, ?vlookup_lookup. unfold vset.
  apply list_eq. intros i.
  rewrite list_lookup_imap.
  pose proof (lookup_lt_Some _ _ _ Ha) as Hlt1.
  pose proof (lookup_lt_Some _ _ _ Hb) as Hlt2.
  destruct (decide (N.to_nat n1 = N.to_nat n2)) as [Heq|Hne].
  - rewrite <- Heq. rewrite list_lookup_insert_eq by done.
    rewrite list_insert_insert_eq.
    destruct (decide (i = N.to_nat n1)) as [->|Hi].
    + rewrite list_lookup_insert_eq by done. rewrite Ha. simpl.
      unfold registered, push_edge. simpl.
      rewrite <- Heq. rewrite decide_True by done.
      by rewrite <- app_assoc.
    + rewrite list_lookup_insert_ne by done.
      destruct (vecTaxiNodes apt !! i) as [n|]; [|done]. simpl.
      unfold registered. rewrite <- Heq. rewrite decide_False by done.
      simpl. rewrite app_nil_r. by destruct n.
  - rewrite list_lookup_insert_ne by done. rewrite Hb.
    destruct (decide (i = N.to_nat n2)) as [->|Hi2].
    + rewrite list_lookup_insert_eq by (by rewrite length_insert).
      rewrite Hb. simpl. unfold registered, push_edge.
      rewrite decide_False by done. by rewrite decide_True.
    + rewrite list_lookup_insert_ne by done.
      destruct (decide (i = N.to_nat n1)) as [->|Hi1].
      * rewrite list_lookup_insert_eq by done. rewrite Ha. simpl.
        by erewrite push_edge_registered_1.
      * rewrite list_lookup_insert_ne by done.
        destruct (vecTaxiNodes apt !! i) as [n|]; [|done]. simpl.
        unfold registered. rewrite !decide_False by done.
        simpl. rewrite app_nil_r. by destruct n.
Qed.

(** C9 (as amended). [AddTaxiEdge] has three outcomes.  An index that is
    not in the node vector makes [at] throw; with both indexes in range it
    returns the sentinel [ULONG_MAX] and leaves the airport as it is when
    one of the two nodes lacks coordinates, and this is the only way the
    sentinel comes with an unchanged airport; otherwise it returns the
    index of the new last edge, which is the normalized taxiway edge
    between the two nodes with the angle computed and the distance
    computed when none was supplied, and that index is appended to the
    edge lists of both nodes (twice when they are the same node), all
    else being unchanged. *)
Theorem C9_AddTaxiEdge_outcomes `{GeoLib} (apt : Apt) (n1 n2 : size_t)
    (_dist : double) :
  match vecTaxiNodes apt !! N.to_nat n1, vecTaxiNodes apt !! N.to_nat n2 with
  | Some na, Some nb =>
      if HasGeoCoords na && HasGeoCoords nb
      then ∃ apt',
          AddTaxiEdge apt n1 n2 _dist = Ok (apt', vsize (vecTaxiEdges apt))
          ∧ apt' ≠ apt
          ∧ vecTaxiEdges apt' =
              vecTaxiEdges apt ++ [new_taxi_edge n1 n2 na nb _dist]
          ∧ vecTaxiNodes apt' =
              imap (registered n1 n2 (vsize (vecTaxiEdges apt)))
                   (vecTaxiNodes apt)
          ∧ set_nodes (set_edges apt' (vecTaxiEdges apt)) (vecTaxiNodes apt)
              = apt
      else AddTaxiEdge apt n1 n2 _dist = Ok (apt, ULONG_MAX)
  | _, _ => AddTaxiEdge apt n1 n2 _dist = Err OutOfRange
  end.
Proof. apply AddTaxiEdge_outcomes. Qed.

Lemma find_if_from_Some {A} (p : nat → A → bool) (v : list A) (k i : nat) :
  find_if_from k p v = Some i →
  (k ≤ i)%nat ∧ (∃ x, v !! (i - k)%nat = Some x ∧ p i x = true)
  ∧ ∀ j x, (j < i - k)%nat → v !! j = Some x → p (k + j)%nat x = false.
Proof.
  revert k. induction v as [|y v IH]; intros k; simpl; [done|].
  destruct (p k y) eqn:Hp.
  - intros [= <-]. split; [lia|]. split.
    + exists y. by rewrite Nat.sub_diag.
    + intros j x Hj. lia.
  - intros Hf. destruct (IH _ Hf) as (Hle & (x & Hx & Hpx) & Hmin).
    split; [lia|]. split.
    + exists x. split; [|done].
      replace (i - k)%nat with (S (i - S k)) by lia. done.
    + intros [|j] x' Hj Hx'.
      * simpl in Hx'. injection Hx' as <-. by rewrite Nat.add_0_r.
      * simpl in Hx'. replace (k + S j)%nat with (S k + j)%nat by lia.
        apply Hmin; [lia|done].
Qed.

Lemma find_if_from_None {A} (p : nat → A → bool) (v : list A) (k : nat) :
  find_if_from k p v = None ↔
  ∀ j x, v !! j = Some x → p (k + j)%nat x = false.
Proof.
  revert k. induction v as [|y v IH]; intros k; simpl.
  - split; [|done]. intros _ j x Hx. by destruct j.
  - destruct (p k y) eqn:Hp.
    + split; [done|]. intros Hall.
      specialize (Hall 0%nat y eq_refl). rewrite Nat.add_0_r in Hall. congruence.
    + rewrite IH. split.
      * intros Hall [|j] x Hx; simpl in Hx.
        -- injection Hx as <-. by rewrite Nat.add_0_r.
        -- replace (k + S j)%nat with (S k + j)%nat by lia. by apply Hall.
      * intros Hall j x Hx.
        replace (S k + j)%nat with (k + S j)%nat by lia. by apply Hall.
Qed.

Lemma find_if_from_ext {A} (p p' : nat → A → bool) (v : list A) (k : nat) :
  (∀ j x, v !! j = Some x → p (k + j)%nat x = p' (k + j)%nat x) →
  find_if_from k p v = find_if_from k p' v.
Proof.
  revert k. induction v as [|y v IH]; intros k Hext; simpl; [done|].
  pose proof (Hext 0%nat y eq_refl) as H0. rewrite Nat.add_0_r in H0.
  rewrite <- H0.
  destruct (p k y); [done|]. apply IH. intros j x Hx.
  replace (S k + j)%nat with (k + S j)%nat by lia. by apply Hext.
Qed.

Lemma find_if_from_snoc {A} (p : nat → A → bool) (v : list A) (x : A) (k : nat) :
  find_if_from k p v = None →
  find_if_from k p (v ++ [x]) =
    if p (k + length v)%nat x then Some (k + length v)%nat else None.
Proof.
  revert k. induction v as [|y v IH]; intros k; simpl.
  - intros _. by rewrite Nat.add_0_r.
  - destruct (p k y); [done|]. intros Hn. rewrite (IH _ Hn).
    by replace (S k + length v)%nat with (k + S (length v))%nat by lia.
Qed.

Lemma find_if_from_exists {A} (p : nat → A → bool) (v : list A) (k j : nat) x :
  v !! j = Some x → p (k + j)%nat x = true →
  ∃ i, find_if_from k p v = Some i ∧ (i ≤ k + j)%nat.
Proof.
  intros Hx Hp. destruct (find_if_from k p v) as [i|] eqn:Hf.
  - exists i. split; [done|].
    destruct (find_if_from_Some _ _ _ _ Hf) as (Hle & _ & Hmin).
    destruct (decide (i ≤ k + j)%nat) as [|Hgt]; [done|].
    specialize (Hmin j x ltac:(lia) Hx). congruence.
  - rewrite find_if_from_None in Hf. specialize (Hf _ _ Hx). congruence.
Qed.

Lemma dabs_dsub_self (q : Q) (t : double) :
  dle (dbl 0) t = true → dle (dabs (dsub (DFin q) (DFin q))) t = true.
Proof.
  assert (dsub (DFin q) (DFin q) = DFin 0) as ->.
  { unfold dsub. cbn [dneg dadd]. apply fl_zero. ring. }
  by destruct t.
Qed.

(** What [GetSimilarTaxiNode] tests on node [n] at index [i]. *)
Lemma AddTaxiNode_unfold `{GeoLib} `{Config} (apt : Apt) (_lat _lon : double)
    (dcw : size_t) :
  AddTaxiNode apt _lat _lon dcw =
  if decide (dcw ≠ ULONG_MAX ∧ vecTaxiNodes apt !! N.to_nat dcw = None)
  then Err OutOfRange
  else
    match find_if (λ i n, negb (bool_decide (dcw ≠ ULONG_MAX ∧ N.to_nat dcw = i))
                          && within_merge_dist _lat _lon n)
                  (vecTaxiNodes apt) with
    | Some i => Ok (apt, N.of_nat i)
    | None =>
        Ok (set_nodes (set_bounds apt (enlarge_pos (bounds apt) _lat _lon))
              (vecTaxiNodes apt ++ [TaxiNode_at _lat _lon]),
            vsize (vecTaxiNodes apt))
    end.
Proof.
  unfold AddTaxiNode, GetSimilarTaxiNode, vat. rewrite vlookup_lookup.
  destruct (decide (dcw = ULONG_MAX)) as [->|Hne]; res_simpl.
  - unfold within_merge_dist. by rewrite vsize_snoc.
  - destruct (vecTaxiNodes apt !! N.to_nat dcw) as [n0|] eqn:Hd; res_simpl.
    + rewrite decide_False by (intros [_ ?]; done).
      unfold find_if.
      erewrite (find_if_from_ext (λ i n, negb (bool_decide _) && _)).
      2:{ intros j x _. simpl.
          assert (bool_decide (dcw ≠ ULONG_MAX ∧ N.to_nat dcw = j)
                  = Nat.eqb (N.to_nat dcw) j) as ->.
          { destruct (Nat.eqb_spec (N.to_nat dcw) j).
            - by apply bool_decide_eq_true_2.
            - apply bool_decide_eq_false_2. by intros [_ ?]. }
          unfold within_merge_dist. rewrite andb_assoc. reflexivity. }
      rewrite vsize_snoc. reflexivity.
    + by rewrite decide_True.
Qed.

(** A node within the merge distance that is not the excluded one makes
    [AddTaxiNode] return the first such node and append nothing. *)
Lemma AddTaxiNode_merges `{GeoLib} `{Config} (apt : Apt) (_lat _lon : double)
    (dcw : size_t) (k : nat) (n : TaxiNode) :
  ¬ (dcw ≠ ULONG_MAX ∧ vecTaxiNodes apt !! N.to_nat dcw = None) →
  vecTaxiNodes apt !! k = Some n →
  ¬ (dcw ≠ ULONG_MAX ∧ N.to_nat dcw = k) →
  within_merge_dist _lat _lon n = true →
  ∃ j nj, AddTaxiNode apt _lat _lon dcw = Ok (apt, N.of_nat j)
          ∧ (j ≤ k)%nat
          ∧ vecTaxiNodes apt !! j = Some nj
          ∧ within_merge_dist _lat _lon nj = true.
Proof.
  intros Hdcw Hk Hex Hw. rewrite AddTaxiNode_unfold.
  rewrite decide_False by done. unfold find_if.
  edestruct (find_if_from_exists
               (λ i n, negb (bool_decide (dcw ≠ ULONG_MAX ∧ N.to_nat dcw = i))
                       && within_merge_dist _lat _lon n)
               (vecTaxiNodes apt) 0 k n Hk) as (j & Hj & Hle).
  { simpl. rewrite bool_decide_eq_false_2 by done. by rewrite Hw. }
  rewrite Hj.
  destruct (find_if_from_Some _ _ _ _ Hj) as (_ & (nj & Hnj & Hp) & _).
  rewrite Nat.sub_0_r in Hnj. apply andb_true_iff in Hp as [_ Hp].
  exists j, nj. repeat split; (done || lia).
Qed.

(** C6 (as amended). With finite coordinates and a merge distance that is
    not negative, calling [AddTaxiNode] a second time with the identical
    latitude and longitude returns the same index and leaves the airport as
    the first call left it.  With other coordinates that are within the
    merge distance of the node the first call returned, the second call
    appends nothing either, but returns the first node of the vector that
    is within the merge distance of the new coordinates; its index is at
    most, and not always equal to, the index of the first call. *)
Theorem C6_AddTaxiNode_idempotent `{GeoLib} `{Config} (apt apt1 : Apt)
    (p q : Q) (dcw i : size_t) :
  dle (dbl 0) (Dist2Lat APT_MAX_SIMILAR_NODE_DIST_M) = true →
  dle (dbl 0) (Dist2Lon APT_MAX_SIMILAR_NODE_DIST_M (DFin p)) = true →
  AddTaxiNode apt (DFin p) (DFin q) dcw = Ok (apt1, i) →
  AddTaxiNode apt1 (DFin p) (DFin q) dcw = Ok (apt1, i)
  ∧ ∀ lat' lon' n,
      vecTaxiNodes apt1 !! N.to_nat i = Some n →
      within_merge_dist lat' lon' n = true →
      ∃ j nj, AddTaxiNode apt1 lat' lon' dcw = Ok (apt1, j)
              ∧ j ≤ i
              ∧ vecTaxiNodes apt1 !! N.to_nat j = Some nj
              ∧ within_merge_dist lat' lon' nj = true.
Proof.
  intros Hlat Hlon Hcall.
  assert (Hnew : within_merge_dist (DFin p) (DFin q)
                   (TaxiNode_at (DFin p) (DFin q)) = true).
  { unfold within_merge_dist, TaxiNode_at. cbn [lat lon].
    by rewrite !dabs_dsub_self. }
  rewrite AddTaxiNode_unfold in Hcall.
  destruct (decide (dcw ≠ ULONG_MAX ∧ vecTaxiNodes apt !! N.to_nat dcw = None))
    as [|Hdcw]; [done|].
  unfold find_if in Hcall.
  destruct (find_if_from 0 _ (vecTaxiNodes apt)) as [k|] eqn:Hfind.
  - (* the first call found node k *)
    injection Hcall as <- <-.
    destruct (find_if_from_Some _ _ _ _ Hfind) as (_ & (nk & Hnk & Hp) & _).
    rewrite Nat.sub_0_r in Hnk. apply andb_true_iff in Hp as [Hex Hwk].
    apply negb_true_iff, bool_decide_eq_false in Hex.
    split.
    + rewrite AddTaxiNode_unfold. rewrite decide_False by done.
      unfold find_if. by rewrite Hfind.
    + intros lat' lon' n Hn Hw. rewrite Nat2N.id in Hn.
      destruct (AddTaxiNode_merges apt lat' lon' dcw k n Hdcw Hn Hex Hw)
        as (j & nj & Hcall' & Hle & Hnj & Hwj).
      exists (N.of_nat j), nj. rewrite Nat2N.id. repeat split; (done || lia).
  - (* the first call appended a node *)
    injection Hcall as <- <-.
    set (nodes := vecTaxiNodes apt) in *.
    set (apt1 := set_nodes _ _).
    assert (Hdcw1 : ¬ (dcw ≠ ULONG_MAX
                       ∧ vecTaxiNodes apt1 !! N.to_nat dcw = None)).
    { intros [Hne Hnone]. apply Hdcw. split; [done|].
      simpl in Hnone. apply lookup_ge_None in Hnone. apply lookup_ge_None.
      rewrite length_app in Hnone. lia. }
    assert (Hlast : vecTaxiNodes apt1 !! length nodes
                    = Some (TaxiNode_at (DFin p) (DFin q))).
    { simpl. fold nodes. rewrite lookup_app_r by lia.
      by rewrite Nat.sub_diag. }
    assert (Hex : ¬ (dcw ≠ ULONG_MAX ∧ N.to_nat dcw = length nodes)).
    { intros [Hne Heq]. apply Hdcw. split; [done|].
      apply lookup_ge_None. fold nodes. lia. }
    split.
    + rewrite AddTaxiNode_unfold. rewrite decide_False by done.
      unfold find_if. simpl vecTaxiNodes. fold nodes.
      rewrite (find_if_from_snoc _ _ _ _ Hfind). simpl.
      rewrite bool_decide_eq_false_2 by done. simpl. rewrite Hnew.
      done.
    + intros lat' lon' n Hn Hw. unfold vsize in Hn. rewrite Nat2N.id in Hn.
      destruct (AddTaxiNode_merges apt1 lat' lon' dcw _ n Hdcw1 Hn Hex Hw)
        as (j & nj & Hcall' & Hle & Hnj & Hwj).
      exists (N.of_nat j), nj. rewrite Nat2N.id. unfold vsize.
      repeat split; (done || lia).
Qed.

Lemma C6_AddTaxiNode_idempotent_witness :
  let apt1 := set_nodes (set_bounds apt_one_node
                           (enlarge_pos (bounds apt_one_node) (dbl 3) (dbl 0)))
                [TaxiNode_at (dbl 0) (dbl 0); TaxiNode_at (dbl 3) (dbl 0)] in
  AddTaxiNode apt_one_node (dbl 3) (dbl 0) ULONG_MAX = Ok (apt1, 1)
  ∧ AddTaxiNode apt1 (dbl 3) (dbl 0) ULONG_MAX = Ok (apt1, 1).
Proof.
  intros apt1.
  assert (Hcall : AddTaxiNode apt_one_node (dbl 3) (dbl 0) ULONG_MAX
                  = Ok (apt1, 1)) by reflexivity.
  split; [exact Hcall|].
  exact (proj1 (C6_AddTaxiNode_idempotent apt_one_node apt1 3 0 ULONG_MAX 1
                  eq_refl eq_refl Hcall)).
Defined.

(** The claim as stated fails for coordinates that differ by less than the
    merge distance (2 m): a node at 3 m north is appended as node 1; a
    second call 1.5 m north, which is 1.5 m from node 1, returns node 0. *)
Lemma C6_counterexample :
  let apt1 := set_nodes (set_bounds apt_one_node
                           (enlarge_pos (bounds apt_one_node) (dbl 3) (dbl 0)))
                [TaxiNode_at (dbl 0) (dbl 0); TaxiNode_at (dbl 3) (dbl 0)] in
  AddTaxiNode apt_one_node (dbl 3) (dbl 0) ULONG_MAX = Ok (apt1, 1)
  ∧ within_merge_dist (dbl (3 # 2)) (dbl 0) (TaxiNode_at (dbl 3) (dbl 0)) = true
  ∧ AddTaxiNode apt1 (dbl (3 # 2)) (dbl 0) ULONG_MAX = Ok (apt1, 0).
Proof. repeat split. Qed.

(** The claim as stated covers every pair of indexes; an index outside the
    node vector gives neither the sentinel nor an edge: [at] throws. *)
Lemma C9_counterexample :
  vecTaxiNodes apt_one_node !! 5%nat = None
  ∧ AddTaxiEdge apt_one_node 0 5 NAN = Err OutOfRange.
Proof. split; reflexivity. Qed.

(** ** Binary search and range scan over the sorted index *)

Section LowerBound.
Context (comp : size_t → res bool) (f : size_t → bool) (v : list N).
Hypothesis comp_f : ∀ i x, v !! i = Some x → comp x = Ok (f x).
Hypothesis partitioned :
  ∀ i j x y, (i ≤ j)%nat → v !! i = Some x → v !! j = Some y →
             f y = true → f x = true.

Lemma lower_bound_loop_S (fuel first len : nat) :
  len ≠ 0%nat →
  lower_bound_loop comp v (S fuel) first len =
  match v !! (first + len / 2)%nat with
  | None => Err UB
  | Some x =>
      c ← comp x;
      if c : bool
      then lower_bound_loop comp v fuel (first + len / 2 + 1)
                            (len - len / 2 - 1)
      else lower_bound_loop comp v fuel first (len / 2)
  end.
Proof. destruct len; [done|reflexivity]. Qed.

Lemma lower_bound_loop_spec (fuel first len : nat) :
  (len ≤ fuel)%nat → (first + len ≤ length v)%nat →
  (∀ i x, (i < first)%nat → v !! i = Some x → f x = true) →
  (∀ i x, (first + len ≤ i)%nat → v !! i = Some x → f x = false) →
  ∃ p, lower_bound_loop comp v fuel first len = Ok p
       ∧ (p ≤ length v)%nat
       ∧ (∀ i x, (i < p)%nat → v !! i = Some x → f x = true)
       ∧ (∀ i x, (p ≤ i)%nat → v !! i = Some x → f x = false).
Proof.
  revert first len. induction fuel as [|fuel IH]; intros first len Hfuel Hlen Hlo Hhi.
  - assert (len = 0)%nat as -> by lia. simpl. exists first.
    rewrite Nat.add_0_r in Hhi, Hlen. eauto.
  - destruct len as [|len'].
    { simpl. exists first. rewrite Nat.add_0_r in Hhi, Hlen. eauto. }
    set (len := S len') in *.
    assert (Hhalf : (len / 2 < len)%nat) by (apply Nat.div_lt; lia).
    rewrite lower_bound_loop_S by done.
    destruct (lookup_lt_is_Some_2 v (first + len / 2)) as [x Hx]; [lia|].
    rewrite Hx, (comp_f _ _ Hx), bind_Ok.
    destruct (f x) eqn:Hfx.
    + apply IH; [lia|lia| |].
      * intros i y Hi Hy.
        destruct (decide (i < first)%nat) as [|Hge]; [by eapply Hlo|].
        eapply (partitioned i (first + len / 2)); [lia|done|done|done].
      * intros i y Hi Hy. eapply Hhi; [|done]. lia.
    + apply IH; [lia|lia|done|].
      intros i y Hi Hy. destruct (f y) eqn:Hfy; [|done].
      rewrite <- Hfx. symmetry.
      eapply (partitioned (first + len / 2) i); [lia|done|done|done].
Qed.

Lemma lower_bound_spec :
  ∃ p, lower_bound comp v = Ok p
       ∧ Forall (λ x, f x = true) (take p v)
       ∧ Forall (λ x, f x = false) (drop p v).
Proof.
  destruct (lower_bound_loop_spec (length v) 0 (length v))
    as (p & Hp & Hle & Hlo & Hhi); [lia|lia| | |].
  - intros i x Hi. lia.
  - intros i x Hi Hx. apply lookup_lt_Some in Hx. lia.
  - exists p. split; [done|]. split.
    + apply Forall_lookup. intros i x Hx.
      apply lookup_take_Some in Hx as [Hx Hi]. by eapply Hlo.
    + apply Forall_lookup. intros i x Hx.
      rewrite lookup_drop in Hx. eapply Hhi; [|done]. lia.
Qed.

End LowerBound.

Lemma StronglySorted_lookup {A} (R : relation A) (l : list A) (i j : nat) x y :
  StronglySorted R l → (i < j)%nat → l !! i = Some x → l !! j = Some y → R x y.
Proof.
  intros Hs. revert i j. induction Hs as [|z l Hs IH Hall]; intros i j Hij Hi Hj.
  - done.
  - destruct j as [|j]; [lia|]. simpl in Hj.
    destruct i as [|i]; simpl in Hi.
    + injection Hi as ->. rewrite Forall_forall in Hall.
      apply Hall. by eapply list_elem_of_lookup_2.
    + eapply IH; [|done|done]. lia.
Qed.

Lemma filter_none {A} (P : A → Prop) `{∀ x, Decision (P x)} (l : list A) :
  Forall (λ x, ¬ P x) l → filter P l = [].
Proof.
  induction 1 as [|x l Hx _ IH]; [done|].
  by rewrite filter_cons_False.
Qed.

Lemma indexed_edge_angle (edges : list TaxiEdge) (idx : N) :
  indexed_edge edges idx →
  ∃ e q, edges !! N.to_nat idx = Some e ∧ vlookup edges idx = Some e
         ∧ angle e = DFin q ∧ edge_angle edges idx = DFin q
         ∧ (0 <= q)%Q ∧ (q < 180)%Q.
Proof.
  intros (e & He & Hlo & Hhi).
  destruct (between_fin _ _ _ Hlo Hhi) as (q & Hq & Hq0 & Hq180).
  exists e, q. unfold edge_angle. rewrite vlookup_lookup, He. done.
Qed.

Lemma scan_range_spec (edges : list TaxiEdge) (lo hi : Q) (t : nodeTy)
    (l lst : list N) :
  Forall (indexed_edge edges) l →
  Forall (λ idx, dle (DFin lo) (edge_angle edges idx) = true) l →
  StronglySorted (angle_le edges) l →
  scan_range edges (DFin hi) t l lst =
  Ok (lst ++ filter (λ idx, edge_matches edges (DFin lo, DFin hi) t idx = true) l).
Proof.
  intros Hval Hlo Hs. revert lst.
  induction Hs as [|idx l Hs IH Hall]; intros lst.
  - simpl. by rewrite app_nil_r.
  - apply Forall_cons in Hval as [Hidx Hval].
    apply Forall_cons in Hlo as [Hlo0 Hlo].
    destruct (indexed_edge_angle _ _ Hidx)
      as (e & q & He & Hv & Hq & Hang & Hq0 & Hq180).
    cbn [scan_range]. unfold vidx. rewrite Hv, bind_Ok, Hq.
    destruct (dle (DFin q) (DFin hi)) eqn:Hhi.
    + rewrite IH by done. rewrite filter_cons.
      assert (Hm : edge_matches edges (DFin lo, DFin hi) t idx
                   = bool_decide (t = UNKNOWN_WAY ∨ t = type e)).
      { unfold edge_matches. rewrite Hv. cbn [fst snd].
        rewrite Hang in Hlo0. by rewrite Hq, Hlo0, Hhi. }
      rewrite Hm. unfold GetType.
      destruct (decide (t = UNKNOWN_WAY ∨ t = type e)) as [Hty|Hty].
      * rewrite bool_decide_eq_true_2 by done.
        rewrite decide_True by done. by rewrite <- app_assoc.
      * rewrite bool_decide_eq_false_2 by done.
        by rewrite decide_False by done.
    + rewrite filter_none; [by rewrite app_nil_r|].
      apply dle_fin_false in Hhi.
      apply Forall_cons. split.
      * unfold edge_matches. rewrite Hv. cbn [fst snd]. rewrite Hq.
        assert (dle (DFin q) (DFin hi) = false) as -> by (by apply dle_fin_false).
        rewrite andb_false_r. simpl. done.
      * rewrite Forall_forall in Hall, Hval. apply Forall_forall.
        intros y Hy.
        destruct (indexed_edge_angle _ _ (Hval y Hy))
          as (ey & qy & _ & Hvy & Hqy & Hangy & _ & _).
        specialize (Hall y Hy). unfold angle_le in Hall.
        rewrite Hang, Hangy in Hall. apply dle_fin in Hall.
        unfold edge_matches. rewrite Hvy. cbn [fst snd]. rewrite Hqy.
        assert (dle (DFin qy) (DFin hi) = false) as ->
          by (apply dle_fin_false; lra).
        rewrite andb_false_r. simpl. done.
Qed.

Lemma search_range_spec (apt : Apt) (lo hi : Q) (t : nodeTy) (lst : list N) :
  StronglySorted (angle_le (vecTaxiEdges apt)) (vecTaxiEdgesIdxHead apt) →
  Forall (indexed_edge (vecTaxiEdges apt)) (vecTaxiEdgesIdxHead apt) →
  search_range apt (DFin lo, DFin hi) t lst =
  Ok (lst ++ range_matches apt (DFin lo, DFin hi) t).
Proof.
  intros Hs Hval. unfold search_range, range_matches. cbn [fst snd].
  set (edges := vecTaxiEdges apt) in *. set (v := vecTaxiEdgesIdxHead apt) in *.
  destruct (lower_bound_spec
              (λ idx, e ← vidx edges idx; Ok (dlt (angle e) (DFin lo)))
              (λ idx, dlt (edge_angle edges idx) (DFin lo)) v)
    as (p & Hp & Hbelow & Hfrom).
  - intros i x Hx. rewrite Forall_forall in Hval.
    destruct (indexed_edge_angle edges x) as (e & q & _ & Hv & Hq & Hang & _).
    { apply Hval. by eapply list_elem_of_lookup_2. }
    unfold vidx. by rewrite Hv, bind_Ok, Hq, Hang.
  - intros i j x y Hij Hx Hy Hfy.
    destruct (decide (i = j)) as [->|Hne]; [congruence|].
    pose proof (StronglySorted_lookup _ _ i j x y Hs ltac:(lia) Hx Hy) as Hle.
    rewrite Forall_forall in Hval.
    destruct (indexed_edge_angle edges x) as (_ & qx & _ & _ & _ & Hangx & _).
    { apply Hval. by eapply list_elem_of_lookup_2. }
    destruct (indexed_edge_angle edges y) as (_ & qy & _ & _ & _ & Hangy & _).
    { apply Hval. by eapply list_elem_of_lookup_2. }
    unfold angle_le in Hle. rewrite Hangx, Hangy in *.
    apply dle_fin in Hle. apply dlt_fin in Hfy. apply dlt_fin. lra.
  - rewrite Hp, bind_Ok.
    rewrite <- (take_drop p v) in Hs, Hval.
    apply Forall_app in Hval as [Hval1 Hval2].
    rewrite (scan_range_spec edges lo hi).
    + f_equal. f_equal. rewrite <- (take_drop p v) at 2.
      rewrite filter_app. rewrite (filter_none _ (take p v)); [done|].
      rewrite Forall_forall in Hbelow, Hval1. apply Forall_forall.
      intros x Hx. specialize (Hbelow x Hx). cbv beta in Hbelow.
      destruct (indexed_edge_angle _ _ (Hval1 x Hx))
        as (e & q & _ & Hv & Hq & Hang & _).
      rewrite Hang in Hbelow. apply dlt_fin in Hbelow.
      unfold edge_matches. rewrite Hv. cbn [fst snd]. rewrite Hq.
      assert (dle (DFin lo) (DFin q) = false) as ->
        by (by apply dle_fin_false).
      simpl. done.
    + done.
    + rewrite Forall_forall in Hfrom, Hval2. apply Forall_forall.
      intros x Hx. specialize (Hfrom x Hx). cbv beta in Hfrom.
      destruct (indexed_edge_angle _ _ (Hval2 x Hx))
        as (e & q & _ & Hv & Hq & Hang & _).
      rewrite Hang in *. apply dlt_fin_false in Hfrom. by apply dle_fin.
    + by eapply StronglySorted_app_1_r.
Qed.

(** ** Windows that wrap past 0 or 180 degrees *)

Lemma inject_Z_le_m1 (z : Z) : (z ≤ -1)%Z → (inject_Z z <= -1)%Q.
Proof. intros Hz. change (-1)%Q with (inject_Z (-1)). by rewrite <- Zle_Qle. Qed.

Lemma inject_Z_ge_0 (z : Z) : (0 ≤ z)%Z → (0 <= inject_Z z)%Q.
Proof. intros Hz. change 0%Q with (inject_Z 0). by rewrite <- Zle_Qle. Qed.

Lemma inject_Z_ge_1 (z : Z) : (1 ≤ z)%Z → (1 <= inject_Z z)%Q.
Proof. intros Hz. change 1%Q with (inject_Z 1). by rewrite <- Zle_Qle. Qed.

Lemma inject_Z_le_0 (z : Z) : (z ≤ 0)%Z → (inject_Z z <= 0)%Q.
Proof. intros Hz. change 0%Q with (inject_Z 0). by rewrite <- Zle_Qle. Qed.

Lemma within_mod180_intro (a h tol : Q) (z : Z) :
  (- tol <= a - h + 180 * inject_Z z)%Q →
  (a - h + 180 * inject_Z z <= tol)%Q →
  within_mod180 a h tol.
Proof. intros H1 H2. exists z. by apply Qabs_Qle_condition. Qed.

Lemma head180_range (hs : Q) :
  (0 <= hs)%Q → (hs < 360)%Q → (0 <= head180 hs)%Q ∧ (head180 hs < 180)%Q.
Proof.
  intros H0 H360. unfold head180.
  destruct (Qle_bool 180 hs) eqn:E.
  - apply Qle_bool_iff in E. lra.
  - apply dle_fin_false in E. lra.
Qed.

Ltac qabs_split :=
  repeat match goal with
         | H : (Qabs _ <= _)%Q |- _ => apply Qabs_Qle_condition in H
         | H : (Qabs _ < _)%Q |- _ => apply Qabs_Qlt_condition in H
         end.

(** The bounds of the window as they are computed: the heading brought
    below 180 is [h], the window is [[b,c]], and [bi] and [ci] are the
    bounds moved by 180; each is off by [2^-44] at most. *)
Lemma heading_window (hs tol : Q) :
  (0 <= hs)%Q → (hs < 360)%Q → (Qabs tol <= 360)%Q →
  ∃ h b c bi ci : Q,
    norm180 (DFin hs) = DFin h
    ∧ dsub (DFin h) (DFin tol) = DFin b
    ∧ dadd (DFin h) (DFin tol) = DFin c
    ∧ dadd (DFin b) (dbl 180) = DFin bi
    ∧ dsub (DFin c) (dbl 180) = DFin ci
    ∧ (Qabs (h - head180 hs) <= 1 # 17592186044416)%Q
    ∧ (Qabs (b - (h - tol)) <= 1 # 17592186044416)%Q
    ∧ (Qabs (c - (h + tol)) <= 1 # 17592186044416)%Q
    ∧ (Qabs (bi - (b + 180)) <= 1 # 17592186044416)%Q
    ∧ (Qabs (ci - (c - 180)) <= 1 # 17592186044416)%Q
    ∧ heading_ranges (DFin hs) (DFin tol) =
        if Qle_bool 0 b && Qlt_bool c 180 then [(DFin b, DFin c)]
        else if Qlt_bool b 0 then [(DFin 0, DFin c); (DFin bi, DFin 180)]
        else [(DFin 0, DFin ci); (DFin b, DFin 180)].
Proof.
  intros Hhs0 Hhs Htol.
  assert (∃ h, norm180 (DFin hs) = DFin h
               ∧ (Qabs (h - head180 hs) <= 1 # 17592186044416)%Q)
    as (h & Hh & Eh).
  { unfold norm180, head180, dge, dbl. cbn [dle].
    destruct (Qle_bool 180 hs) eqn:E.
    - apply Qle_bool_iff in E.
      destruct (dsub_error hs 180) as (h & Hh & Eh).
      { apply Qabs_Qlt_condition. lra. }
      by exists h.
    - exists hs. split; [done|]. apply Qabs_Qle_condition. lra. }
  destruct (head180_range hs Hhs0 Hhs) as [HH0 HH].
  pose proof (proj1 (Qabs_Qle_condition _ _) Eh) as Eh'.
  pose proof (proj1 (Qabs_Qle_condition _ _) Htol) as Htol'.
  destruct (dsub_error h tol) as (b & Hb & Eb).
  { apply Qabs_Qlt_condition. lra. }
  destruct (dadd_error h tol) as (c & Hc & Ec).
  { apply Qabs_Qlt_condition. lra. }
  pose proof (proj1 (Qabs_Qle_condition _ _) Eb) as Eb'.
  pose proof (proj1 (Qabs_Qle_condition _ _) Ec) as Ec'.
  destruct (dadd_error b 180) as (bi & Hbi & Ebi).
  { apply Qabs_Qlt_condition. lra. }
  destruct (dsub_error c 180) as (ci & Hci & Eci).
  { apply Qabs_Qlt_condition. lra. }
  exists h, b, c, bi, ci. repeat (split; [done|]).
  unfold heading_ranges. fold (norm180 (DFin hs)).
  rewrite Hh, Hb, Hc. unfold dbl in *. cbn [dle dlt]. rewrite Hbi, Hci.
  reflexivity.
Qed.

(** A window that spills below 0 is [[0,c]] and [[bi,180]]: what is in it
    is within the tolerance, and what is within the tolerance is in it, up
    to [angle_eps]. *)
Lemma wrap_below_zero (a H T h b c bi : Q) :
  (0 <= a)%Q → (a < 180)%Q → (0 <= H)%Q → (H < 180)%Q →
  (Qabs (h - H) <= 1 # 17592186044416)%Q →
  (Qabs (b - (h - T)) <= 1 # 17592186044416)%Q →
  (Qabs (c - (h + T)) <= 1 # 17592186044416)%Q →
  (Qabs (bi - (b + 180)) <= 1 # 17592186044416)%Q →
  (b < 0)%Q →
  (((0 <= a ∧ a <= c) ∨ (bi <= a ∧ a <= 180))%Q →
   within_mod180 a H (T + angle_eps))
  ∧ (within_mod180 a H (T - angle_eps) →
     ((0 <= a ∧ a <= c) ∨ (bi <= a ∧ a <= 180))%Q).
Proof.
  intros Ha0 Ha HH0 HH Eh Eb Ec Ebi Hspill. unfold angle_eps. qabs_split.
  split.
  - intros [[_ Hle]|[Hge _]].
    + apply (within_mod180_intro _ _ _ 0); unfold inject_Z; lra.
    + apply (within_mod180_intro _ _ _ (-1)); unfold inject_Z; lra.
  - intros [z Hz]. apply Qabs_Qle_condition in Hz as [Hz1 Hz2].
    destruct (Z_le_gt_dec z (-1)) as [Hneg|Hpos].
    + right. pose proof (inject_Z_le_m1 z Hneg). lra.
    + left. pose proof (inject_Z_ge_0 z ltac:(lia)). lra.
Qed.

(** A window that spills above 180 only is [[0,ci]] and [[b,180]]. *)
Lemma wrap_above_180 (a H T h b c ci : Q) :
  (0 <= a)%Q → (a < 180)%Q → (0 <= H)%Q → (H < 180)%Q →
  (Qabs (h - H) <= 1 # 17592186044416)%Q →
  (Qabs (b - (h - T)) <= 1 # 17592186044416)%Q →
  (Qabs (c - (h + T)) <= 1 # 17592186044416)%Q →
  (Qabs (ci - (c - 180)) <= 1 # 17592186044416)%Q →
  (0 <= b)%Q → (180 <= c)%Q →
  (((0 <= a ∧ a <= ci) ∨ (b <= a ∧ a <= 180))%Q →
   within_mod180 a H (T + angle_eps))
  ∧ (within_mod180 a H (T - angle_eps) →
     ((0 <= a ∧ a <= ci) ∨ (b <= a ∧ a <= 180))%Q).
Proof.
  intros Ha0 Ha HH0 HH Eh Eb Ec Eci Hlo Hspill. unfold angle_eps. qabs_split.
  split.
  - intros [[_ Hle]|[Hge _]].
    + apply (within_mod180_intro _ _ _ 1); unfold inject_Z; lra.
    + apply (within_mod180_intro _ _ _ 0); unfold inject_Z; lra.
  - intros [z Hz]. apply Qabs_Qle_condition in Hz as [Hz1 Hz2].
    destruct (Z_le_gt_dec z 0) as [Hneg|Hpos].
    + right. pose proof (inject_Z_le_0 z Hneg). lra.
    + left. pose proof (inject_Z_ge_1 z ltac:(lia)). lra.
Qed.

Lemma search_ranges_two (apt : Apt) (lo1 hi1 lo2 hi2 : Q) (t : nodeTy)
    (lst : list N) :
  StronglySorted (angle_le (vecTaxiEdges apt)) (vecTaxiEdgesIdxHead apt) →
  Forall (indexed_edge (vecTaxiEdges apt)) (vecTaxiEdgesIdxHead apt) →
  search_ranges apt [(DFin lo1, DFin hi1); (DFin lo2, DFin hi2)] t lst =
  Ok (lst ++ range_matches apt (DFin lo1, DFin hi1) t
          ++ range_matches apt (DFin lo2, DFin hi2) t).
Proof.
  intros Hs Hval. cbn [search_ranges].
  rewrite search_range_spec, bind_Ok by done.
  rewrite search_range_spec, bind_Ok by done.
  by rewrite <- app_assoc.
Qed.

Lemma elem_of_range_matches (apt : Apt) (lo hi : Q) (t : nodeTy) (k : nat)
    (e : TaxiEdge) (qa : Q) :
  (∀ k e, vecTaxiEdges apt !! k = Some e →
          N.of_nat k ∈ vecTaxiEdgesIdxHead apt) →
  vecTaxiEdges apt !! k = Some e → angle e = DFin qa →
  N.of_nat k ∈ range_matches apt (DFin lo, DFin hi) t
  ↔ (lo <= qa ∧ qa <= hi)%Q ∧ (t = UNKNOWN_WAY ∨ t = type e).
Proof.
  intros Hall He Hqa. unfold range_matches.
  rewrite list_elem_of_filter. unfold edge_matches.
  rewrite vlookup_lookup, Nat2N.id, He. cbn [fst snd]. rewrite Hqa.
  rewrite !andb_true_iff, bool_decide_eq_true, !dle_fin.
  split; [tauto|]. intros [? ?]. split; [done|]. by eapply Hall.
Qed.

Lemma angle_in_fin (lo hi qa : Q) :
  angle_in (DFin lo, DFin hi) (DFin qa) = true ↔ (lo <= qa ∧ qa <= hi)%Q.
Proof. unfold angle_in. cbn [fst snd]. by rewrite andb_true_iff, !dle_fin. Qed.

(** What [FindEdgesForHeading] does with a window of two ranges. *)
Lemma FindEdgesForHeading_two (apt : Apt) (hs tol : Q) (t : nodeTy)
    (lst0 : list N) (lo1 hi1 lo2 hi2 : Q) :
  index_ok apt →
  heading_ranges (DFin hs) (DFin tol)
  = [(DFin lo1, DFin hi1); (DFin lo2, DFin hi2)] →
  let r1 := (DFin lo1, DFin hi1) in
  let r2 := (DFin lo2, DFin hi2) in
  search_range apt r1 t [] = Ok (range_matches apt r1 t)
  ∧ search_range apt r2 t [] = Ok (range_matches apt r2 t)
  ∧ FindEdgesForHeading apt (DFin hs) (DFin tol) lst0 t =
      Ok (match lst0 ++ range_matches apt r1 t ++ range_matches apt r2 t with
          | [] => false
          | _ => true
          end,
          lst0 ++ range_matches apt r1 t ++ range_matches apt r2 t)
  ∧ (∀ idx, idx ∈ range_matches apt r1 t ++ range_matches apt r2 t →
            is_Some (vecTaxiEdges apt !! N.to_nat idx))
  ∧ ∀ k e qa,
      vecTaxiEdges apt !! k = Some e → angle e = DFin qa →
      ((0 <= qa)%Q ∧ (qa < 180)%Q)
      ∧ (N.of_nat k ∈ range_matches apt r1 t ++ range_matches apt r2 t
         ↔ (t = UNKNOWN_WAY ∨ t = type e)
           ∧ (angle_in r1 (DFin qa) = true ∨ angle_in r2 (DFin qa) = true)).
Proof.
  intros (Hs & Hval & Hall) Hr r1 r2. subst r1 r2.
  split; [by rewrite search_range_spec|].
  split; [by rewrite search_range_spec|].
  split.
  { unfold FindEdgesForHeading. rewrite Hr.
    by rewrite search_ranges_two, bind_Ok. }
  split.
  { intros idx Hin.
    assert (idx ∈ vecTaxiEdgesIdxHead apt) as Hidx.
    { apply elem_of_app in Hin as [Hin|Hin];
        by apply list_elem_of_filter in Hin as [_ Hin]. }
    rewrite Forall_forall in Hval. destruct (Hval _ Hidx) as (e & He & _).
    by exists e. }
  intros k e qa He Hqa. split.
  { rewrite Forall_forall in Hval.
    destruct (Hval _ (Hall _ _ He)) as (e' & He' & Hlo & Hhi).
    rewrite Nat2N.id in He'. assert (e' = e) as -> by congruence.
    rewrite Hqa in Hlo, Hhi. apply dle_fin in Hlo. apply dlt_fin in Hhi. done. }
  rewrite elem_of_app, !(elem_of_range_matches _ _ _ _ k e qa) by done.
  rewrite !angle_in_fin. tauto.
Qed.

(** C5 (as amended). On an index that is sorted by angle and lists every
    edge, all angles being normalized, a search whose window around the
    heading (brought below 180) is split by [FindEdgesForHeading] into two
    ranges has the first range start at 0 and the second end at 180; the
    other bounds are the bounds of the window as they are computed in
    double precision, moved by 180 where they spill over.  Each range on
    its own is resolved by the binary search and yields its matches in
    index order; the matches of the first and then of the second range are
    appended to the list given.  An edge is among them exactly when it has
    the type asked for and its angle lies in one of the two ranges.  Every
    such edge is within the tolerance of the heading modulo 180 degrees up
    to [angle_eps], and every edge of the type that is within the tolerance
    less [angle_eps] is among them; at the very bound of the tolerance the
    rounding of the window decides. *)
Theorem C5_FindEdgesForHeading_wrapped (apt : Apt) (hs tol : Q) (t : nodeTy)
    (lst0 : list N) (r1 r2 : double * double) :
  index_ok apt →
  (0 <= hs)%Q → (hs < 360)%Q → (Qabs tol <= 360)%Q →
  heading_ranges (DFin hs) (DFin tol) = [r1; r2] →
  let hB := dsub (norm180 (DFin hs)) (DFin tol) in
  let hE := dadd (norm180 (DFin hs)) (DFin tol) in
  (r1, r2) = (if dlt hB (dbl 0)
              then ((dbl 0, hE), (dadd hB (dbl 180), dbl 180))
              else ((dbl 0, dsub hE (dbl 180)), (hB, dbl 180)))
  ∧ search_range apt r1 t [] = Ok (range_matches apt r1 t)
  ∧ search_range apt r2 t [] = Ok (range_matches apt r2 t)
  ∧ FindEdgesForHeading apt (DFin hs) (DFin tol) lst0 t =
      Ok (match lst0 ++ range_matches apt r1 t ++ range_matches apt r2 t with
          | [] => false
          | _ => true
          end,
          lst0 ++ range_matches apt r1 t ++ range_matches apt r2 t)
  ∧ (∀ idx, idx ∈ range_matches apt r1 t ++ range_matches apt r2 t →
            is_Some (vecTaxiEdges apt !! N.to_nat idx))
  ∧ ∀ k e qa,
      vecTaxiEdges apt !! k = Some e → angle e = DFin qa →
      (N.of_nat k ∈ range_matches apt r1 t ++ range_matches apt r2 t
       ↔ (t = UNKNOWN_WAY ∨ t = type e)
         ∧ (angle_in r1 (DFin qa) = true ∨ angle_in r2 (DFin qa) = true))
      ∧ (N.of_nat k ∈ range_matches apt r1 t ++ range_matches apt r2 t →
         within_mod180 qa (head180 hs) (tol + angle_eps))
      ∧ ((t = UNKNOWN_WAY ∨ t = type e) →
         within_mod180 qa (head180 hs) (tol - angle_eps) →
         N.of_nat k ∈ range_matches apt r1 t ++ range_matches apt r2 t).
Proof.
  intros Hok Hhs0 Hhs Htol Hr hB hE.
  destruct (heading_window hs tol Hhs0 Hhs Htol)
    as (h & b & c & bi & ci & Hh & Hb & Hc & Hbi & Hci
        & Eh & Eb & Ec & Ebi & Eci & Hranges).
  destruct (head180_range hs Hhs0 Hhs) as [HH0 HH].
  unfold hB, hE. rewrite Hh, Hb, Hc. unfold dbl in *. cbn [dlt].
  rewrite Hbi, Hci. rewrite Hranges in Hr.
  destruct (Qle_bool 0 b && Qlt_bool c 180) eqn:Hnormal; [done|].
  destruct (Qlt_bool b 0) eqn:Hcase; injection Hr as <- <-.
  - apply Qlt_bool_iff in Hcase.
    destruct (FindEdgesForHeading_two apt hs tol t lst0 0 c bi 180 Hok Hranges)
      as (Hs1 & Hs2 & Hfind & Hvalid & Hmem).
    split; [done|]. split; [done|]. split; [done|]. split; [done|].
    split; [done|].
    intros k e qa He Hqa. destruct (Hmem k e qa He Hqa) as [[Hqa0 Hqa180] Hiff].
    destruct (wrap_below_zero qa (head180 hs) tol h b c bi)
      as [Hsound Hcomplete]; try done.
    split; [done|]. rewrite Hiff, !angle_in_fin. split.
    + intros [_ Hin]. apply Hsound. tauto.
    + intros Ht Hw. split; [done|]. apply Hcomplete in Hw. tauto.
  - apply dlt_fin_false in Hcase.
    assert (Hspill : (180 <= c)%Q).
    { apply andb_false_iff in Hnormal as [Hn|Hn].
      - apply dle_fin_false in Hn. lra.
      - by apply dlt_fin_false in Hn. }
    destruct (FindEdgesForHeading_two apt hs tol t lst0 0 ci b 180 Hok Hranges)
      as (Hs1 & Hs2 & Hfind & Hvalid & Hmem).
    split; [done|]. split; [done|]. split; [done|]. split; [done|].
    split; [done|].
    intros k e qa He Hqa. destruct (Hmem k e qa He Hqa) as [[Hqa0 Hqa180] Hiff].
    destruct (wrap_above_180 qa (head180 hs) tol h b c ci)
      as [Hsound Hcomplete]; try done.
    split; [done|]. rewrite Hiff, !angle_in_fin. split.
    + intros [_ Hin]. apply Hsound. tauto.
    + intros Ht Hw. split; [done|]. apply Hcomplete in Hw. tauto.
Qed.

Lemma apt_three_edges_index_ok : index_ok apt_three_edges.
Proof.
  split; [|split].
  - repeat constructor.
  - repeat constructor; eexists; (split; [reflexivity|split; reflexivity]).
  - intros [|[|[|k]]] e He; try done; simpl; repeat constructor.
Qed.

Lemma C5_FindEdgesForHeading_wrapped_witness :
  index_ok apt_three_edges
  ∧ heading_ranges (dbl 358) (dbl 10)
    = [(dbl 0, dbl 8); (dbl 168, dbl 180)]
  ∧ FindEdgesForHeading apt_three_edges (dbl 358) (dbl 10) [] UNKNOWN_WAY
    = Ok (true, [2; 1])
  ∧ within_mod180 5 (head180 358) (10 + angle_eps).
Proof.
  assert (Hr : heading_ranges (dbl 358) (dbl 10)
               = [(dbl 0, dbl 8); (dbl 168, dbl 180)])
    by (vm_compute; reflexivity).
  split; [exact apt_three_edges_index_ok|]. split; [exact Hr|].
  destruct (C5_FindEdgesForHeading_wrapped apt_three_edges 358 10 UNKNOWN_WAY []
              _ _ apt_three_edges_index_ok ltac:(lra) ltac:(lra)
              ltac:(apply Qabs_Qle_condition; lra) Hr)
    as (_ & _ & _ & Hfind & _ & Hmem).
  split; [vm_compute; reflexivity|].
  destruct (Hmem 2%nat (mkEdge RUN_WAY 0 1 (dbl 5) (dbl 1004)) 5%Q
              eq_refl eq_refl) as (_ & Hsound & _).
  apply Hsound. vm_compute. by left.
Defined.

(** At heading 0 with the tolerance 0.3 the lower bound of the window,
    moved by 180, is rounded to the binary64 value of 179.7: the edge with
    that angle is listed, and it is off the heading by more than the
    tolerance, modulo 180 degrees. *)
Lemma C5_counterexample :
  index_ok apt_edge_1797
  ∧ length (heading_ranges (dbl 0) (DFin tol_03)) = 2%nat
  ∧ FindEdgesForHeading apt_edge_1797 (dbl 0) (DFin tol_03) [] UNKNOWN_WAY
    = Ok (true, [0])
  ∧ ¬ within_mod180 angle_1797 (head180 0) tol_03.
Proof.
  split.
  { split; [|split].
    - repeat constructor.
    - repeat constructor; eexists; (split; [reflexivity|split; reflexivity]).
    - intros [|k] e He; try done; simpl; repeat constructor. }
  split; [vm_compute; reflexivity|]. split; [vm_compute; reflexivity|].
  intros [z Hz]. change (head180 0) with 0%Q in Hz.
  unfold angle_1797, tol_03 in Hz.
  apply Qabs_Qle_condition in Hz as [Hz1 Hz2].
  destruct (Z_le_gt_dec z (-2)) as [Hz|Hz].
  - assert (inject_Z z <= -2)%Q.
    { change (-2)%Q with (inject_Z (-2)). by rewrite <- Zle_Qle. }
    lra.
  - destruct (Z_le_gt_dec z (-1)) as [Hz'|Hz'].
    + assert (z = (-1)%Z) as -> by lia. unfold inject_Z in *. lra.
    + pose proof (inject_Z_ge_0 z ltac:(lia)). lra.
Qed.

(** ** The builder keeps every edge in the store its type selects *)

Lemma Normalize_nodes (e : TaxiEdge) :
  type (Normalize e) = type e
  ∧ ((a (Normalize e) = a e ∧ b (Normalize e) = b e)
     ∨ (a (Normalize e) = b e ∧ b (Normalize e) = a e)).
Proof. unfold Normalize. destruct (dge _ _); simpl; auto. Qed.

Lemma type_Normalize (e : TaxiEdge) : type (Normalize e) = type e.
Proof. apply Normalize_nodes. Qed.

Lemma type_TaxiEdge_new (t : nodeTy) (n1 n2 : N) (ang d : double) :
  type (TaxiEdge_new t n1 n2 ang d) = t.
Proof. unfold TaxiEdge_new. by rewrite type_Normalize. Qed.

Lemma type_SetEndNode (e : TaxiEdge) (n : N) (ang d : double) :
  type (SetEndNode e n ang d) = type e.
Proof. unfold SetEndNode. by rewrite type_Normalize. Qed.

Lemma edge_in_store_Normalize (apt : Apt) (e : TaxiEdge) :
  edge_in_store apt e → edge_in_store apt (Normalize e).
Proof.
  unfold edge_in_store.
  destruct (Normalize_nodes e) as (-> & [[-> ->]|[-> ->]]);
    destruct (decide (type e = RUN_WAY)); tauto.
Qed.

Lemma edge_in_store_mono (apt apt' : Apt) (e : TaxiEdge) :
  vsize (vecTaxiNodes apt) ≤ vsize (vecTaxiNodes apt') →
  vsize (vecRwyEndPts apt) ≤ vsize (vecRwyEndPts apt') →
  edge_in_store apt e → edge_in_store apt' e.
Proof.
  unfold edge_in_store. intros Hn Hr.
  destruct (decide (type e = RUN_WAY)); lia.
Qed.

Lemma store_ok_mono (apt apt' : Apt) :
  vecTaxiEdges apt' = vecTaxiEdges apt →
  vsize (vecTaxiNodes apt) ≤ vsize (vecTaxiNodes apt') →
  vsize (vecRwyEndPts apt) ≤ vsize (vecRwyEndPts apt') →
  store_ok apt → store_ok apt'.
Proof.
  unfold store_ok. intros -> Hn Hr Hok. eapply Forall_impl; [exact Hok|].
  intros e [He Ht]. split; [|done]. by eapply edge_in_store_mono.
Qed.

Lemma store_ok_snoc (apt apt' : Apt) (e : TaxiEdge) :
  vecTaxiEdges apt' = vecTaxiEdges apt ++ [e] →
  vsize (vecTaxiNodes apt) ≤ vsize (vecTaxiNodes apt') →
  vsize (vecRwyEndPts apt) ≤ vsize (vecRwyEndPts apt') →
  edge_in_store apt' e → type e = RUN_WAY ∨ type e = TAXI_WAY →
  store_ok apt → store_ok apt'.
Proof.
  unfold store_ok. intros -> Hn Hr He Ht Hok.
  apply Forall_app. split.
  - eapply Forall_impl; [exact Hok|].
    intros e' [He' Ht']. split; [|done]. by eapply edge_in_store_mono.
  - by apply Forall_singleton.
Qed.

Lemma fmap_type_insert (edges : list TaxiEdge) (k : nat) (e e' : TaxiEdge) :
  edges !! k = Some e → type e' = type e →
  type <$> <[k := e']> edges = type <$> edges.
Proof.
  intros He Ht. rewrite list_fmap_insert. apply list_insert_id.
  by rewrite list_lookup_fmap, He, Ht.
Qed.

Lemma vsize_le_length {A B} (v : list A) (w : list B) :
  (length v ≤ length w)%nat → vsize v ≤ vsize w.
Proof. unfold vsize. lia. Qed.

Lemma lookup_lt_vsize {A} (v : list A) (i : N) (x : A) :
  v !! N.to_nat i = Some x → i < vsize v.
Proof. intros Hx. apply lookup_lt_Some in Hx. unfold vsize. lia. Qed.

(** What a successful [AddTaxiEdge] does to store and types. *)
Lemma AddTaxiEdge_store `{GeoLib} (apt apt' : Apt) (n1 n2 i : N) (_dist : double) :
  AddTaxiEdge apt n1 n2 _dist = Ok (apt', i) →
  store_ok apt →
  store_ok apt'
  ∧ ∃ new, type <$> vecTaxiEdges apt' = (type <$> vecTaxiEdges apt) ++ new
           ∧ (new = [] ∨ new = [TAXI_WAY]).
Proof.
  intros Hcall Hok. pose proof (AddTaxiEdge_outcomes apt n1 n2 _dist) as Hout.
  destruct (vecTaxiNodes apt !! N.to_nat n1) as [na|] eqn:Ha;
    [|rewrite Hcall in Hout; by destruct (_ !! _)].
  destruct (vecTaxiNodes apt !! N.to_nat n2) as [nb|] eqn:Hb;
    [|by rewrite Hcall in Hout].
  destruct (HasGeoCoords na && HasGeoCoords nb).
  - destruct Hout as (apt2 & Hcall2 & _ & Hedges & Hnodes & Hrest).
    rewrite Hcall in Hcall2. injection Hcall2 as <- _.
    assert (Hrwy : vecRwyEndPts apt' = vecRwyEndPts apt).
    { apply (f_equal vecRwyEndPts) in Hrest. exact Hrest. }
    split.
    + eapply store_ok_snoc; [exact Hedges| | | | |exact Hok].
      * apply vsize_le_length. rewrite Hnodes, length_imap. done.
      * by rewrite Hrwy.
      * unfold new_taxi_edge, TaxiEdge_new. apply edge_in_store_Normalize.
        unfold edge_in_store. simpl. rewrite Hnodes. unfold vsize.
        rewrite length_imap. apply lookup_lt_Some in Ha, Hb. lia.
      * right. apply type_TaxiEdge_new.
    + exists [TAXI_WAY]. split; [|by right].
      rewrite Hedges, fmap_app. f_equal. simpl. f_equal.
      apply type_TaxiEdge_new.
  - rewrite Hcall in Hout. injection Hout as -> _.
    split; [done|]. exists []. split; [by rewrite app_nil_r|by left].
Qed.

Lemma AddTaxiNodeFixed_sizes `{GeoLib} (apt apt' : Apt) (_lat _lon : double) (idx : N) :
  AddTaxiNodeFixed apt _lat _lon idx = Ok apt' →
  vecTaxiEdges apt' = vecTaxiEdges apt
  ∧ vecRwyEndPts apt' = vecRwyEndPts apt
  ∧ (length (vecTaxiNodes apt) ≤ length (vecTaxiNodes apt'))%nat.
Proof.
  unfold AddTaxiNodeFixed. cbn [vecTaxiNodes set_bounds].
  destruct (decide (idx = vsize (vecTaxiNodes apt))) as [->|Hne].
  - intros [= <-]. simpl. rewrite length_app. repeat split. lia.
  - intros Hcall. apply bind_Ok_inv in Hcall as (n & Hidx & [= <-]).
    apply vidx_Ok, lookup_lt_Some in Hidx.
    simpl. repeat split. unfold vset. rewrite length_insert.
    destruct (decide (vsize (vecTaxiNodes apt) < idx)) as [Hlt|]; [|done].
    unfold vsize in Hlt. lia.
Qed.

Lemma build_step_store `{GeoLib} `{Config} (op : build_op) (apt apt' : Apt) :
  build_step op apt apt' → store_ok apt →
  store_ok apt'
  ∧ ∃ new, type <$> vecTaxiEdges apt' = (type <$> vecTaxiEdges apt) ++ new
           ∧ (new = [] ∨ new = appended_types op).
Proof.
  intros Hstep Hok.
  assert (Hsame : ∀ apt2, vecTaxiEdges apt2 = vecTaxiEdges apt →
            ∃ new, type <$> vecTaxiEdges apt2 = (type <$> vecTaxiEdges apt) ++ new
                   ∧ (new = [] ∨ new = appended_types op)).
  { intros apt2 ->. exists []. split; [by rewrite app_nil_r|by left]. }
  destruct Hstep as
    [apt _lat _lon dcw apt' i Hcall
    |apt _lat _lon idx apt' Hcall
    |apt n1 n2 _dist apt' i Hcall
    |apt lat1 lon1 d1 id1 lat2 lon2 d2 id2
    |apt eIdx insNode e apt' He Hty Hcall
    |apt k e e' He Hcall
    |apt i n _lat _lon Hn
    |apt k ep i Hep
    |apt apt' Hcall
    |apt meter].
  - (* AddTaxiNode *)
    rewrite AddTaxiNode_unfold in Hcall.
    destruct (decide _) in Hcall; [done|].
    destruct (find_if _ _) in Hcall; injection Hcall as <- _.
    + split; [done|by apply Hsame].
    + split; [|by apply Hsame].
      apply (store_ok_mono apt); [| | |exact Hok]; try done.
      apply vsize_le_length. simpl. rewrite length_app. lia.
  - (* AddTaxiNodeFixed *)
    destruct (AddTaxiNodeFixed_sizes _ _ _ _ _ Hcall) as (Hedges & Hrwy & Hlen).
    split; [|by apply Hsame].
    apply (store_ok_mono apt); [done| | |exact Hok].
    + by apply vsize_le_length.
    + by rewrite Hrwy.
  - (* AddTaxiEdge *)
    by eapply AddTaxiEdge_store.
  - (* AddRwyEnds *)
    set (apt' := AddRwyEnds _ _ _ _ _ _ _ _ _).
    assert (Hsz : vsize (vecRwyEndPts apt') = vsize (vecRwyEndPts apt) + 2).
    { unfold vsize. simpl. rewrite !length_app. simpl. lia. }
    split.
    + eapply store_ok_snoc; [reflexivity|done| | | |exact Hok].
      * rewrite Hsz. lia.
      * apply edge_in_store_Normalize. unfold edge_in_store. simpl.
        fold apt'. change (vsize ((vecRwyEndPts apt ++ _) ++ _))
          with (vsize (vecRwyEndPts apt')).
        rewrite Hsz. lia.
      * left. apply type_TaxiEdge_new.
    + exists [RUN_WAY]. split; [|by right].
      simpl. rewrite fmap_app. f_equal. simpl. f_equal.
      apply type_TaxiEdge_new.
  - (* SplitEdge *)
    unfold SplitEdge, vat in Hcall. rewrite !vlookup_lookup, He, bind_Ok in Hcall.
    destruct (decide _) as [|Hins] in Hcall.
    { injection Hcall as <-. split; [done|]. exists []. split; [by rewrite app_nil_r|by left]. }
    apply bind_Ok_inv in Hcall as (origB & HorigB & Hcall).
    apply bind_Ok_inv in Hcall as (na & Hna & Hcall).
    apply bind_Ok_inv in Hcall as (nb & Hnb & Hcall).
    apply bind_Ok_inv in Hcall as ([apt2 j] & Hadd & [= <-]).
    destruct (vecTaxiNodes apt !! N.to_nat insNode) as [nb'|] eqn:Hins'; [|done].
    set (e' := SetEndNode e insNode _ _) in Hadd.
    set (apt1 := set_nodes _ _) in Hadd.
    assert (He' : edge_in_store apt e ∧ (type e = RUN_WAY ∨ type e = TAXI_WAY)).
    { unfold store_ok in Hok. rewrite Forall_lookup in Hok. by eapply Hok. }
    assert (Hok1 : store_ok apt1).
    { unfold store_ok. unfold apt1, vset. simpl. apply Forall_insert.
      - eapply Forall_impl; [exact Hok|]. intros x [Hx Htx]. split; [|done].
        eapply edge_in_store_mono; [| |exact Hx].
        + apply vsize_le_length. simpl. by rewrite !length_insert.
        + done.
      - unfold e', SetEndNode.
        match goal with |- context [Normalize ?r] =>
          destruct (Normalize_nodes r) as [Ht _]; rewrite Ht; simpl;
          split; [apply edge_in_store_Normalize|tauto] end.
        destruct He' as [Hin _]. unfold edge_in_store in *. simpl.
        unfold GetType in Hty. rewrite decide_False in * by done.
        unfold vsize. rewrite !length_insert.
        apply lookup_lt_Some in Hins'. unfold vsize in Hin. lia. }
    destruct (AddTaxiEdge_store _ _ _ _ _ _ Hadd Hok1) as (Hok2 & new & Hnew & Hcases).
    split; [done|]. exists new. split; [|done].
    rewrite Hnew. f_equal. unfold apt1, vset. simpl.
    apply (fmap_type_insert _ _ e); [done|].
    unfold e', SetEndNode.
    match goal with |- type (Normalize ?r) = _ =>
      by destruct (Normalize_nodes r) as [-> _] end.
  - (* RecalcTaxiEdge *)
    unfold RecalcTaxiEdge in Hcall.
    apply bind_Ok_inv in Hcall as (na & Hna & Hcall).
    apply bind_Ok_inv in Hcall as (nb & Hnb & [= <-]).
    assert (He' : edge_in_store apt e ∧ (type e = RUN_WAY ∨ type e = TAXI_WAY)).
    { unfold store_ok in Hok. rewrite Forall_lookup in Hok. by eapply Hok. }
    split.
    + unfold store_ok. simpl. apply Forall_insert; [done|].
      match goal with |- context [Normalize ?r] =>
        destruct (Normalize_nodes r) as [Ht _]; rewrite Ht; simpl;
        split; [apply edge_in_store_Normalize|tauto] end.
      destruct He' as [Hin _]. exact Hin.
    + exists []. split; [|by left]. rewrite app_nil_r. simpl.
      apply (fmap_type_insert _ _ e); [done|].
      match goal with |- type (Normalize ?r) = _ =>
        by destruct (Normalize_nodes r) as [-> _] end.
  - (* MoveNode *)
    split; [|by apply Hsame].
    apply (store_ok_mono apt); [done| |done|exact Hok].
    apply vsize_le_length. simpl. by rewrite length_insert.
  - (* JoinRwy *)
    split; [|by apply Hsame].
    apply (store_ok_mono apt); [done|done| |exact Hok].
    apply vsize_le_length. simpl. by rewrite length_insert.
  - (* SortTaxiEdges *)
    unfold SortTaxiEdges in Hcall.
    apply bind_Ok_inv in Hcall as (_ & _ & [= <-]).
    split; [|by apply Hsame]. by apply (store_ok_mono apt); [| | |exact Hok].
  - (* EnlargeBounds *)
    split; [|by apply Hsame]. by apply (store_ok_mono apt); [| | |exact Hok].
Qed.

Lemma built_store_ok `{GeoLib} `{Config} (apt : Apt) : built apt → store_ok apt.
Proof.
  induction 1 as [_id|op apt apt' _ IH Hstep].
  - by apply Forall_nil.
  - by destruct (build_step_store _ _ _ Hstep IH).
Qed.

Lemma edge_in_store_Get (apt : Apt) (e : TaxiEdge) :
  edge_in_store apt e → ∃ na nb, GetA e apt = Ok na ∧ GetB e apt = Ok nb.
Proof.
  unfold edge_in_store, GetA, GetB, vidx. rewrite !vlookup_lookup.
  destruct (decide (type e = RUN_WAY)); intros [Ha Hb].
  - destruct (lookup_lt_is_Some_2 (vecRwyEndPts apt) (N.to_nat (a e))) as [x ->];
      [unfold vsize in Ha; lia|].
    destruct (lookup_lt_is_Some_2 (vecRwyEndPts apt) (N.to_nat (b e))) as [y ->];
      [unfold vsize in Hb; lia|].
    by eexists _, _.
  - destruct (lookup_lt_is_Some_2 (vecTaxiNodes apt) (N.to_nat (a e))) as [x ->];
      [unfold vsize in Ha; lia|].
    destruct (lookup_lt_is_Some_2 (vecTaxiNodes apt) (N.to_nat (b e))) as [y ->];
      [unfold vsize in Hb; lia|].
    by eexists _, _.
Qed.

(** C10. Whatever operation of the builder takes a built airport to the
    next, the types of the edges already stored do not change, and what is
    appended is nothing, or one taxiway edge ([AddTaxiEdge], and with it
    every 1202 record and the second edge of [SplitEdge]), or, for
    [AddRwyEnds] only, one runway edge; that runway edge connects the two
    runway endpoints appended by the same call.  So every edge is a runway
    or a taxiway edge and both [GetA] and [GetB], which pick the vector by
    the type, find its nodes. *)
Theorem C10_edge_type_selects_store `{GeoLib} `{Config} (op : build_op)
    (apt apt' : Apt) :
  built apt → build_step op apt apt' →
  (∀ e, e ∈ vecTaxiEdges apt' →
        (type e = RUN_WAY ∨ type e = TAXI_WAY)
        ∧ ∃ na nb, GetA e apt' = Ok na ∧ GetB e apt' = Ok nb)
  ∧ (∃ new, type <$> vecTaxiEdges apt' = (type <$> vecTaxiEdges apt) ++ new
            ∧ (new = [] ∨ new = appended_types op))
  ∧ (op = OpAddRwyEnds →
     ∃ e ep1 ep2,
       vecTaxiEdges apt' = vecTaxiEdges apt ++ [e]
       ∧ type e = RUN_WAY
       ∧ vecRwyEndPts apt' = vecRwyEndPts apt ++ [ep1; ep2]
       ∧ ((a e = vsize (vecRwyEndPts apt) ∧ b e = vsize (vecRwyEndPts apt) + 1)
          ∨ (a e = vsize (vecRwyEndPts apt) + 1 ∧ b e = vsize (vecRwyEndPts apt)))).
Proof.
  intros Hbuilt Hstep.
  destruct (build_step_store _ _ _ Hstep (built_store_ok _ Hbuilt)) as [Hok Hnew].
  split; [|split; [done|]].
  - intros e He. unfold store_ok in Hok. rewrite Forall_forall in Hok.
    destruct (Hok e He) as [Hin Hty]. split; [done|].
    by apply edge_in_store_Get.
  - intros ->. inversion Hstep; subst. eexists _, _, _.
    split; [reflexivity|]. split; [apply type_TaxiEdge_new|].
    split; [simpl; by rewrite <- app_assoc|].
    unfold TaxiEdge_new.
    match goal with |- context [Normalize ?r] =>
      destruct (Normalize_nodes r) as (_ & [[-> ->]|[-> ->]]) end;
      [left|right]; simpl; unfold vsize; rewrite !length_app; simpl; lia.
Qed.

Lemma C10_edge_type_selects_store_witness :
  let apt' := AddRwyEnds (Apt_new "TEST")
                (dbl 0) (dbl 0) (dbl 0) "09" (dbl 0) (dbl 1000) (dbl 0) "27" in
  built (Apt_new "TEST")
  ∧ build_step OpAddRwyEnds (Apt_new "TEST") apt'
  ∧ type <$> vecTaxiEdges apt' = [RUN_WAY]
  ∧ ∀ e, e ∈ vecTaxiEdges apt' →
         ∃ na nb, GetA e apt' = Ok na ∧ GetB e apt' = Ok nb.
Proof.
  intros apt'.
  assert (Hb : built (Apt_new "TEST")) by constructor.
  assert (Hs : build_step OpAddRwyEnds (Apt_new "TEST") apt') by constructor.
  split; [exact Hb|]. split; [exact Hs|]. split; [reflexivity|].
  intros e He.
  exact (proj2 (proj1 (C10_edge_type_selects_store _ _ _ Hb Hs) e He)).
Defined.

(** ** Bounded shortest path *)

Example ShortestPath_line :
  snd <$> ShortestPath apt_line 0 false 2 (dbl 100) = Ok [2; 1].
Proof. reflexivity. Qed.

Example ShortestPath_line_rwy :
  snd <$> ShortestPath apt_line 0 true 2 (dbl 100) = Ok [2; 1].
Proof. reflexivity. Qed.

Example ShortestPath_line_short :
  snd <$> ShortestPath apt_line 0 false 2 (dbl 11) = Ok [].
Proof. reflexivity. Qed.

Example ShortestPath_triangle :
  snd <$> ShortestPath apt_triangle 0 false 2 (dbl 100) = Ok [2].
Proof. reflexivity. Qed.

Lemma set_visited_id (n : TaxiNode) : bVisited n = true → set_visited n = n.
Proof. destruct n. simpl. by intros ->. Qed.

(** A chain survives any update that leaves the visited nodes alone and
    keeps predecessor and distance of its first node. *)
Lemma chain_frame (edges : list TaxiEdge) (maxLen : double)
    (nodes nodes' : list TaxiNode) (n : N) (l : list N) :
  chain edges maxLen nodes n l →
  (∀ i np, nodes !! i = Some np → bVisited np = true → nodes' !! i = Some np) →
  (∀ nn, nodes !! N.to_nat n = Some nn →
         ∃ nn', nodes' !! N.to_nat n = Some nn'
                ∧ prevIdx nn' = prevIdx nn ∧ pathLen nn' = pathLen nn) →
  chain edges maxLen nodes' n l.
Proof.
  intros Hc Hvis. induction Hc as
    [s ns Hs Hprev Hlen|n nn np l eIdx e Hn Hnp1 Hp Hv Hc IH HeIdx He Ho Hlen Hmax];
    intros Hhead.
  - destruct (Hhead _ Hs) as (ns' & Hs' & Hprev' & Hlen').
    eapply chain_start; [exact Hs'|congruence|congruence].
  - destruct (Hhead _ Hn) as (nn' & Hn' & Hprev' & Hlen').
    eapply (chain_step _ _ _ n nn' np l eIdx e); rewrite ?Hprev', ?Hlen'; try done.
    + by apply Hvis.
    + apply IH. intros np' Hp'. exists np'.
      assert (np' = np) as -> by congruence.
      split; [by apply Hvis|done].
Qed.

Lemma chain_head (edges : list TaxiEdge) (maxLen : double)
    (nodes : list TaxiNode) (n : N) (l : list N) :
  chain edges maxLen nodes n l →
  ∃ nn, nodes !! N.to_nat n = Some nn
        ∧ (l = [] ↔ prevIdx nn = ULONG_MAX - 1)
        ∧ (l ≠ [] → ∃ l', l = n :: l' ∧ dgt (pathLen nn) maxLen = false).
Proof.
  intros [s ns Hs Hprev Hlen|n' nn np l' eIdx e Hn Hnp1 Hp Hv Hc HeIdx He Ho Hlen Hmax].
  - exists ns. by rewrite Hprev.
  - exists nn. split; [done|]. split; [done|]. intros _. by exists l'.
Qed.

Lemma select_shortest_spec (nodes : list TaxiNode) (rest : list N)
    (pos bi : nat) (bd : double) (i : nat) (d : double) :
  select_shortest nodes rest pos bi bd = Ok (i, d) →
  (i = bi ∧ d = bd)
  ∨ ∃ j x nx, rest !! j = Some x ∧ i = (pos + j)%nat
              ∧ nodes !! N.to_nat x = Some nx ∧ d = pathLen nx.
Proof.
  revert pos bi bd. induction rest as [|x rest IH]; intros pos bi bd; simpl.
  - intros [= <- <-]. by left.
  - intros Hsel. apply bind_Ok_inv in Hsel as (nx & Hx & Hsel).
    apply vidx_Ok in Hx.
    destruct (dlt (pathLen nx) bd).
    + destruct (IH _ _ _ Hsel) as [[-> ->]|(j & y & ny & Hy & -> & Hny & ->)].
      * right. exists 0%nat, x, nx. repeat split; (done || lia).
      * right. exists (S j), y, ny. repeat split; (done || lia).
    + destruct (IH _ _ _ Hsel) as [[-> ->]|(j & y & ny & Hy & -> & Hny & ->)].
      * by left.
      * right. exists (S j), y, ny. repeat split; (done || lia).
Qed.

Section SearchInvariant.
Context (apt : Apt) (_endN : N) (_maxLen : double) (seeds : list N).
Hypothesis Hsize : vsize (vecTaxiNodes apt) < ULONG_MAX.

Let edges := vecTaxiEdges apt.

Lemma node_index_no_sentinel (k : nat) (st : dijkstra_state) (s : N) (sN : TaxiNode) :
  search_inv apt _maxLen seeds k st →
  st.1 !! N.to_nat s = Some sN →
  s ≠ ULONG_MAX ∧ s ≠ ULONG_MAX - 1.
Proof using Hsize.
  intros Hinv Hs. apply lookup_lt_Some in Hs.
  rewrite (inv_length _ _ _ _ _ Hinv) in Hs.
  unfold vsize, ULONG_MAX in *. lia.
Qed.

(** Giving the unvisited node [u] a distance by way of the visited node
    [s] keeps the invariant. *)
Lemma search_inv_update (k : nat) (nodes : list TaxiNode) (visit visit' : list N)
    (s u eIdx : N) (sN updN : TaxiNode) (e : TaxiEdge) (ls : list N) :
  search_inv apt _maxLen seeds (S k) (nodes, visit) →
  nodes !! N.to_nat s = Some sN → bVisited sN = true →
  chain edges _maxLen nodes s ls → (length ls ≤ k)%nat →
  eIdx ∈ vecEdges sN → edges !! N.to_nat eIdx = Some e →
  otherNode e s = u →
  nodes !! N.to_nat u = Some updN → bVisited updN = false →
  dgt (dadd (pathLen sN) (dist_m e)) _maxLen = false →
  (∀ x, x ∈ visit' → x ∈ visit ∨ x = u) →
  search_inv apt _maxLen seeds (S k)
    (vset nodes u (set_path updN (dadd (pathLen sN) (dist_m e)) s), visit').
Proof using Hsize.
  intros Hinv Hs HsV Hls Hlen HeIdx He Ho Hu HuV Hmax Hvisit.
  destruct (node_index_no_sentinel _ _ _ _ Hinv Hs) as [Hs1 Hs2].
  assert (Hsu : N.to_nat s ≠ N.to_nat u).
  { intros Heq. rewrite Heq in Hs. congruence. }
  set (upd := set_path updN _ _).
  set (nodes' := vset nodes u upd).
  assert (Hu' : nodes' !! N.to_nat u = Some upd).
  { unfold nodes', vset. apply list_lookup_insert_eq. by eapply lookup_lt_Some. }
  assert (Hother : ∀ i, i ≠ N.to_nat u → nodes' !! i = nodes !! i).
  { intros i Hi. unfold nodes', vset. by apply list_lookup_insert_ne. }
  assert (Hframe : ∀ i np, nodes !! i = Some np → bVisited np = true →
                           nodes' !! i = Some np).
  { intros i np Hi Hv. rewrite Hother; [done|]. intros ->. congruence. }
  destruct Hinv as [Hl Hstat Hchain Hvis Hvisited Hseed]. simpl in *.
  constructor; simpl.
  - unfold nodes', vset. by rewrite length_insert.
  - intros i nn Hi. destruct (decide (i = N.to_nat u)) as [->|Hne].
    + rewrite Hu' in Hi. injection Hi as <-.
      destruct (Hstat _ _ Hu) as (n0 & Hn0 & Hedges). by exists n0.
    + rewrite Hother in Hi by done. by apply Hstat.
  - intros n nn Hn Hprev. destruct (decide (n = u)) as [->|Hne].
    + rewrite Hu' in Hn. injection Hn as <-.
      exists (u :: ls). split; [|simpl; lia].
      eapply (chain_step _ _ _ u upd sN ls eIdx e); simpl; try done.
      * by rewrite Hother.
      * eapply chain_frame; [exact Hls|exact Hframe|].
        intros nn Hnn. exists nn. by rewrite Hother.
    + assert (Hne' : N.to_nat n ≠ N.to_nat u) by (by intros ?%N2Nat.inj).
      rewrite Hother in Hn by done.
      destruct (Hchain _ _ Hn Hprev) as (l & Hl' & Hlen').
      exists l. split; [|done].
      eapply chain_frame; [exact Hl'|exact Hframe|].
      intros nn' Hnn'. exists nn'. by rewrite Hother.
  - intros x Hx. destruct (decide (x = u)) as [->|Hne].
    + exists upd. by split.
    + destruct (Hvisit _ Hx) as [Hin|]; [|done].
      assert (Hne' : N.to_nat x ≠ N.to_nat u) by (by intros ?%N2Nat.inj).
      rewrite Hother by done. by apply Hvis.
  - intros i nn Hi Hv. destruct (decide (i = N.to_nat u)) as [->|Hne].
    + rewrite Hu' in Hi. injection Hi as <-. simpl in Hv. congruence.
    + rewrite Hother in Hi by done. by eapply Hvisited.
  - intros n nn Hn Hprev. destruct (decide (n = u)) as [->|Hne].
    + rewrite Hu' in Hn. injection Hn as <-. simpl in Hprev. done.
    + assert (Hne' : N.to_nat n ≠ N.to_nat u) by (by intros ?%N2Nat.inj).
      rewrite Hother in Hn by done. by eapply Hseed.
Qed.

Lemma relax_edges_inv (k : nat) (s : N) (shortestDist : double) (n0 : TaxiNode)
    (es : list N) (st st' : dijkstra_state) :
  vecTaxiNodes apt !! N.to_nat s = Some n0 →
  (∀ x, x ∈ es → x ∈ vecEdges n0) →
  relax_pre apt _maxLen seeds k s shortestDist st →
  relax_edges edges _endN _maxLen s shortestDist es st = Ok st' →
  relax_pre apt _maxLen seeds k s shortestDist st'.
Proof using Hsize.
  intros Hn0. revert st. induction es as [|eIdx es IH]; intros st Hes Hpre; simpl.
  - by intros [= <-].
  - intros Hrun. apply bind_Ok_inv in Hrun as (e & He & Hrun).
    apply bind_Ok_inv in Hrun as (updN & Hu & Hrun).
    apply vidx_Ok in He, Hu.
    assert (Hes' : ∀ x, x ∈ es → x ∈ vecEdges n0).
    { intros x Hx. apply Hes. by right. }
    destruct (bVisited updN) eqn:HuV; [by apply (IH st)|].
    destruct (dgt (dadd shortestDist (dist_m e)) _maxLen) eqn:Hmax;
      [by apply (IH st)|].
    destruct (dle (pathLen updN) (dadd shortestDist (dist_m e)));
      [by apply (IH st)|].
    simpl in Hrun.
    destruct Hpre as (Hinv & sN & ls & Hs & HsV & HsD & Hls & Hlen).
    destruct st as [nodes visit]. simpl in *.
    assert (HeIdx : eIdx ∈ vecEdges sN).
    { destruct (inv_static _ _ _ _ _ Hinv _ _ Hs) as (n0' & Hn0' & ->).
      simpl in Hn0'. assert (n0' = n0) as -> by congruence.
      apply Hes. by left. }
    assert (Hsu : N.to_nat s ≠ N.to_nat (otherNode e s)).
    { intros Heq. rewrite Heq in Hs. congruence. }
    assert (Hnext : ∀ visit',
      (∀ x, x ∈ visit' → x ∈ visit ∨ x = otherNode e s) →
      relax_pre apt _maxLen seeds k s shortestDist
        (vset nodes (otherNode e s)
           (set_path updN (dadd shortestDist (dist_m e)) s), visit')).
    { intros visit' Hv'. split.
      - rewrite <- HsD. eapply search_inv_update; try done. by rewrite HsD.
      - exists sN, ls. simpl. unfold vset.
        rewrite list_lookup_insert_ne by done.
        repeat split; try done.
        eapply chain_frame; [exact Hls| |].
        + intros i np Hi Hv. rewrite list_lookup_insert_ne; [done|].
          intros <-. congruence.
        + intros nn Hnn. exists nn. by rewrite list_lookup_insert_ne. }
    destruct (decide (otherNode e s = _endN)) as [Hend|Hend].
    + injection Hrun as <-. apply Hnext. auto.
    + eapply IH; [done| |exact Hrun]. apply Hnext.
      intros x Hx. unfold push_back_unique in Hx.
      destruct (decide (otherNode e s ∈ visit)); [by left|].
      apply elem_of_app in Hx as [?|Hx]; [by left|].
      right. by apply list_elem_of_singleton in Hx.
Qed.

Lemma search_inv_mono (k k' : nat) (st : dijkstra_state) :
  (k ≤ k')%nat → search_inv apt _maxLen seeds k st →
  search_inv apt _maxLen seeds k' st.
Proof.
  intros Hk [Hl Hstat Hchain Hvis Hvisited Hseed].
  constructor; try done.
  intros n nn Hn Hprev. destruct (Hchain _ _ Hn Hprev) as (l & Hc & Hlen).
  exists l. split; [done|lia].
Qed.

Lemma visit_shortest_inv (k : nat) (st st' : dijkstra_state) :
  search_inv apt _maxLen seeds k st →
  visit_shortest edges _endN _maxLen st = Ok st' →
  search_inv apt _maxLen seeds (S k) st'.
Proof using Hsize.
  intros Hinv. unfold visit_shortest. destruct st as [nodes visit]. simpl.
  destruct visit as [|first rest] eqn:Hvisit_eq.
  { intros [= <-]. eapply search_inv_mono; [|exact Hinv]. lia. }
  rewrite <- Hvisit_eq in *.
  intros Hrun. apply bind_Ok_inv in Hrun as (n0 & Hfirst & Hrun).
  apply bind_Ok_inv in Hrun as ([pos d] & Hsel & Hrun).
  apply vidx_Ok in Hfirst.
  destruct (visit !! pos) as [s|] eqn:Hpos; [|done].
  apply bind_Ok_inv in Hrun as (sN & Hs & Hrun). apply vidx_Ok in Hs.
  assert (Hd : d = pathLen sN).
  { destruct (select_shortest_spec _ _ _ _ _ _ _ Hsel)
      as [[-> ->]|(j & x & nx & Hx & -> & Hnx & ->)].
    - rewrite Hvisit_eq in Hpos. simpl in Hpos. congruence.
    - rewrite Hvisit_eq in Hpos. simpl in Hpos. congruence. }
  subst d.
  assert (Hsin : s ∈ visit) by (by eapply list_elem_of_lookup_2).
  destruct (inv_visit _ _ _ _ _ Hinv s Hsin) as (sN' & Hs' & Hsprev).
  simpl in Hs'. assert (sN' = sN) as -> by congruence.
  destruct (inv_chain _ _ _ _ _ Hinv s sN Hs Hsprev) as (ls & Hls & Hlen).
  destruct (inv_static _ _ _ _ _ Hinv _ _ Hs) as (n0' & Hn0' & Hedges).
  simpl in Hls.
  set (nodes1 := vset nodes s (set_visited sN)) in *.
  assert (Hs1 : nodes1 !! N.to_nat s = Some (set_visited sN)).
  { unfold nodes1, vset. apply list_lookup_insert_eq. by eapply lookup_lt_Some. }
  assert (Hother : ∀ i, i ≠ N.to_nat s → nodes1 !! i = nodes !! i).
  { intros i Hi. unfold nodes1, vset. by apply list_lookup_insert_ne. }
  assert (Hframe : ∀ i np, nodes !! i = Some np → bVisited np = true →
                           nodes1 !! i = Some np).
  { intros i np Hi Hv. destruct (decide (i = N.to_nat s)) as [->|Hne].
    - rewrite Hs1. assert (np = sN) as -> by congruence.
      by rewrite set_visited_id.
    - by rewrite Hother. }
  assert (Hhead : ∀ n nn, nodes !! N.to_nat n = Some nn →
            ∃ nn', nodes1 !! N.to_nat n = Some nn'
                   ∧ prevIdx nn' = prevIdx nn ∧ pathLen nn' = pathLen nn).
  { intros n nn Hn. destruct (decide (N.to_nat n = N.to_nat s)) as [Heq|Hne].
    - rewrite Heq in *. exists (set_visited sN).
      assert (nn = sN) as -> by congruence. done.
    - exists nn. by rewrite Hother. }
  assert (Hback : ∀ i nn, nodes1 !! i = Some nn →
            ∃ nn0, nodes !! i = Some nn0 ∧ prevIdx nn = prevIdx nn0
                   ∧ vecEdges nn = vecEdges nn0
                   ∧ (bVisited nn = true → bVisited nn0 = true ∨ i = N.to_nat s)).
  { intros i nn Hi. destruct (decide (i = N.to_nat s)) as [->|Hne].
    - rewrite Hs1 in Hi. injection Hi as <-. exists sN. simpl. auto.
    - rewrite Hother in Hi by done. exists nn. auto. }
  eapply (relax_edges_inv k s (pathLen sN) n0' (vecEdges sN) _ st');
    [done|by rewrite Hedges| |exact Hrun].
  split.
  - destruct Hinv as [Hl Hstat Hchain Hvis Hvisited Hseed]. simpl in *.
    constructor; simpl.
    + unfold nodes1, vset. by rewrite length_insert.
    + intros i nn Hi. destruct (Hback _ _ Hi) as (nn0 & Hnn0 & _ & -> & _).
      by apply Hstat.
    + intros n nn Hn Hprev. destruct (Hback _ _ Hn) as (nn0 & Hnn0 & Hp & _).
      rewrite Hp in Hprev.
      destruct (Hchain _ _ Hnn0 Hprev) as (l & Hl' & Hlen').
      exists l. split; [|lia].
      eapply chain_frame; [exact Hl'|exact Hframe|]. intros nn' Hnn'.
      by apply Hhead.
    + intros x Hx. apply list_elem_of_delete_inv in Hx.
      destruct (Hvis _ Hx) as (nn & Hnn & Hprev).
      destruct (Hhead _ _ Hnn) as (nn' & Hnn' & Hp & _).
      exists nn'. split; [done|]. by rewrite Hp.
    + intros i nn Hi Hv. destruct (Hback _ _ Hi) as (nn0 & Hnn0 & -> & _ & Hcase).
      destruct (Hcase Hv) as [Hv0| ->]; [by eapply Hvisited|].
      assert (nn0 = sN) as -> by congruence. done.
    + intros n nn Hn Hprev. destruct (Hback _ _ Hn) as (nn0 & Hnn0 & Hp & _).
      rewrite Hp in Hprev. by eapply Hseed.
  - exists (set_visited sN), ls. simpl. repeat split; try done.
    eapply chain_frame; [exact Hls|exact Hframe|]. intros nn' Hnn'.
    by apply Hhead.
Qed.

Lemma dijkstra_loop_inv (fuel k : nat) (st st' : dijkstra_state) :
  search_inv apt _maxLen seeds k st →
  dijkstra_loop fuel edges _endN _maxLen st = Ok st' →
  search_inv apt _maxLen seeds (k + fuel) st'.
Proof using Hsize.
  revert k st. induction fuel as [|fuel IH]; intros k st Hinv.
  - simpl. destruct st.2; [intros [= <-]|].
    + eapply search_inv_mono; [|exact Hinv]. lia.
    + intros Hrun. apply bind_Ok_inv in Hrun as (en & _ & Hrun).
      destruct (decide _) in Hrun; [done|]. injection Hrun as <-.
      eapply search_inv_mono; [|exact Hinv]. lia.
  - simpl. destruct st.2; [intros [= <-]|].
    + eapply search_inv_mono; [|exact Hinv]. lia.
    + intros Hrun. apply bind_Ok_inv in Hrun as (en & _ & Hrun).
      destruct (decide _) in Hrun.
      * apply bind_Ok_inv in Hrun as (st1 & Hstep & Hrun).
        replace (k + S fuel)%nat with (S k + fuel)%nat by lia.
        eapply IH; [|exact Hrun]. by eapply visit_shortest_inv.
      * injection Hrun as <-. eapply search_inv_mono; [|exact Hinv]. lia.
Qed.

Lemma collect_path_unfold (fuel : nat) (nodes : list TaxiNode) (nIdx : N)
    (acc : list N) :
  collect_path fuel nodes nIdx acc =
  (nd ← vat nodes nIdx;
   if decide (prevIdx nd = ULONG_MAX - 1) then Ok acc
   else match fuel with
        | O => Err OutOfFuel
        | S fuel' => collect_path fuel' nodes (prevIdx nd) (acc ++ [nIdx])
        end).
Proof. by destruct fuel. Qed.

(** Following the predecessors collects exactly the chain. *)
Lemma collect_path_chain (nodes : list TaxiNode) (n : N) (l : list N) :
  chain edges _maxLen nodes n l →
  ∀ fuel acc, (length l ≤ fuel)%nat →
              collect_path fuel nodes n acc = Ok (acc ++ l).
Proof.
  induction 1 as
    [s ns Hs Hprev Hlen|n nn np l eIdx e Hn Hnp1 Hp Hv Hc IH HeIdx He Ho Hlen Hmax];
    intros fuel acc Hfuel; rewrite collect_path_unfold.
  - apply vat_Ok in Hs. rewrite Hs, bind_Ok.
    rewrite decide_True by done. by rewrite app_nil_r.
  - apply vat_Ok in Hn. rewrite Hn, bind_Ok.
    rewrite decide_False by done.
    destruct fuel as [|fuel]; [simpl in Hfuel; lia|].
    rewrite IH by (simpl in Hfuel; lia). by rewrite <- app_assoc.
Qed.

(** A chain is a walk from a start node, of the length stored at its
    last node. *)
Lemma chain_walk (k : nat) (st : dijkstra_state) (n : N) (l : list N) :
  search_inv apt _maxLen seeds k st →
  chain edges _maxLen st.1 n l →
  ∃ s nn, s ∈ seeds ∧ st.1 !! N.to_nat n = Some nn
          ∧ walk apt s (reverse l) n (pathLen nn).
Proof.
  intros Hinv. induction 1 as
    [s ns Hs Hprev Hlen|n nn np l eIdx e Hn Hnp1 Hp Hv Hc IH HeIdx He Ho Hlen Hmax].
  - exists s, ns. split; [by eapply (inv_seed _ _ _ _ _ Hinv)|].
    split; [done|]. rewrite Hlen. constructor.
  - destruct IH as (s & np' & Hseed & Hp' & Hwalk).
    assert (np' = np) as -> by congruence.
    exists s, nn. split; [done|]. split; [done|].
    rewrite reverse_cons, Hlen.
    destruct (inv_static _ _ _ _ _ Hinv _ _ Hp) as (n0 & Hn0 & Hedges).
    eapply walk_edge; try done. by rewrite <- Hedges.
Qed.

Lemma seeded_init : seeded apt seeds (InitDijkstraAttr <$> vecTaxiNodes apt, []).
Proof.
  split; [simpl; by rewrite length_fmap|]. split.
  - simpl. intros i nn Hi. rewrite list_lookup_fmap in Hi.
    destruct (vecTaxiNodes apt !! i) as [n0|]; [|done].
    injection Hi as <-. simpl. split; [done|]. split; [|by left].
    by exists n0.
  - intros x Hx. by apply elem_of_nil in Hx.
Qed.

Lemma seed_nodes_seeded (l : list N) (st st' : dijkstra_state) :
  (∀ x, x ∈ l → x ∈ seeds) →
  seeded apt seeds st → seed_nodes l st = Ok st' → seeded apt seeds st'.
Proof.
  revert st. induction l as [|n l IH]; intros st Hl Hst; simpl.
  - by intros [= <-].
  - intros Hrun. apply bind_Ok_inv in Hrun as (nd & Hn & Hrun).
    apply vidx_Ok in Hn. eapply IH; [|clear Hrun|exact Hrun].
    { intros x Hx. apply Hl. by right. }
    destruct Hst as (Hlen & Hnodes & Hvisit). destruct st as [nodes visit].
    simpl in *. unfold vset.
    assert (Hlt : (N.to_nat n < length nodes)%nat) by (by eapply lookup_lt_Some).
    split; [simpl; by rewrite length_insert|]. split; simpl.
    + intros i nn Hi. destruct (decide (i = N.to_nat n)) as [->|Hne].
      * rewrite list_lookup_insert_eq in Hi by done. injection Hi as <-.
        destruct (Hnodes _ _ Hn) as (Hv & Hstat & _). simpl.
        split; [done|]. split; [done|]. right.
        rewrite N2Nat.id. repeat split. apply Hl. by left.
      * rewrite list_lookup_insert_ne in Hi by done. by apply Hnodes.
    + intros x Hx. destruct (decide (x = n)) as [->|Hne].
      * eexists. rewrite list_lookup_insert_eq by done. by split.
      * apply elem_of_app in Hx as [Hx|Hx].
        -- assert (N.to_nat n ≠ N.to_nat x) by (by intros ?%N2Nat.inj).
           rewrite list_lookup_insert_ne by done. by apply Hvisit.
        -- by apply list_elem_of_singleton in Hx.
Qed.

Lemma seeded_search_inv (st : dijkstra_state) :
  seeded apt seeds st → search_inv apt _maxLen seeds 0 st.
Proof.
  intros (Hlen & Hnodes & Hvisit). constructor; try done.
  - intros i nn Hi. by destruct (Hnodes _ _ Hi) as (_ & ? & _).
  - intros n nn Hn Hprev.
    destruct (Hnodes _ _ Hn) as (_ & _ & [?|(Hp & Hl & _)]); [done|].
    exists []. split; [|done]. by eapply chain_start.
  - intros x Hx. destruct (Hvisit _ Hx) as (nn & Hnn & Hp).
    exists nn. split; [done|]. by rewrite Hp.
  - intros i nn Hi Hv. destruct (Hnodes _ _ Hi) as (Hv' & _). congruence.
  - intros n nn Hn Hprev.
    destruct (Hnodes _ _ Hn) as (_ & _ & [Hp|(_ & _ & Hin)]).
    + rewrite Hp in Hprev. done.
    + by rewrite N2Nat.id in Hin.
Qed.

End SearchInvariant.

Lemma seed_start_seeded (apt : Apt) (_startN : N) (bStartIsRwy : bool)
    (st0 : dijkstra_state) :
  seed_start apt _startN bStartIsRwy = Ok st0 →
  seeded apt (start_nodes apt _startN bStartIsRwy) st0.
Proof.
  unfold seed_start. intros Hst0.
  set (seeds := start_nodes apt _startN bStartIsRwy).
  destruct bStartIsRwy.
  - apply bind_Ok_inv in Hst0 as (ep & Hep & Hst0). apply vat_Ok in Hep.
    eapply (seed_nodes_seeded apt seeds); [|apply seeded_init|exact Hst0].
    unfold seeds, start_nodes. by rewrite Hep.
  - apply bind_Ok_inv in Hst0 as (nd & Hnd & [= <-]). apply vat_Ok in Hnd.
    eapply (seed_nodes_seeded apt seeds [_startN]);
      [done|apply seeded_init|].
    simpl. unfold vidx. rewrite vlookup_lookup, Hnd. reflexivity.
Qed.

(** What a returning search leaves behind. *)
Lemma ShortestPath_result (apt apt' : Apt) (_startN _endN : N)
    (bStartIsRwy : bool) (_maxLen : double) (path : list N) :
  vsize (vecTaxiNodes apt) < ULONG_MAX →
  ShortestPath apt _startN bStartIsRwy _endN _maxLen = Ok (apt', path) →
  (bStartIsRwy = false ∧ _startN = _endN ∧ apt' = apt ∧ path = [])
  ∨ ∃ k st en,
      apt' = set_nodes apt st.1
      ∧ search_inv apt _maxLen (start_nodes apt _startN bStartIsRwy) k st
      ∧ st.1 !! N.to_nat _endN = Some en
      ∧ ((prevIdx en = ULONG_MAX ∧ path = [])
         ∨ (prevIdx en ≠ ULONG_MAX
            ∧ chain (vecTaxiEdges apt) _maxLen st.1 _endN path)).
Proof.
  intros Hsize. unfold ShortestPath.
  destruct (negb bStartIsRwy && bool_decide (_startN = _endN)) eqn:Hsame.
  { intros [= <- <-]. left. apply andb_true_iff in Hsame as [Hr Heq].
    apply negb_true_iff in Hr. apply bool_decide_eq_true in Heq. done. }
  intros Hrun. right.
  apply bind_Ok_inv in Hrun as (st0 & Hst0 & Hrun).
  apply bind_Ok_inv in Hrun as (en0 & _ & Hrun).
  apply bind_Ok_inv in Hrun as (st & Hloop & Hrun).
  apply bind_Ok_inv in Hrun as (en & Hen & Hrun). apply vidx_Ok in Hen.
  set (seeds := start_nodes apt _startN bStartIsRwy).
  pose proof (seed_start_seeded _ _ _ _ Hst0) as Hseeded. fold seeds in Hseeded.
  pose proof (dijkstra_loop_inv apt _endN _maxLen seeds Hsize _ 0 _ _
                (seeded_search_inv apt _maxLen seeds _ Hseeded) Hloop) as Hinv.
  exists (0 + search_fuel st0)%nat, st, en.
  destruct (decide (prevIdx en = ULONG_MAX)) as [Hprev|Hprev].
  - injection Hrun as <- <-.
    split; [done|]. split; [done|]. split; [done|]. by left.
  - apply bind_Ok_inv in Hrun as (path' & Hcollect & [= <- <-]).
    split; [done|]. split; [done|]. split; [done|]. right. split; [done|].
    destruct (inv_chain _ _ _ _ _ Hinv _ _ Hen Hprev) as (l & Hl & Hlen).
    rewrite (collect_path_chain apt _maxLen Hsize _ _ _ Hl) in Hcollect by lia.
    injection Hcollect as <-. done.
Qed.

Lemma walk_not_nan (apt : Apt) (s n : N) (l : list N) (len : double) :
  Forall (λ e, is_finite (dist_m e)) (vecTaxiEdges apt) →
  walk apt s l n len → isnan len = false.
Proof.
  intros Hfin. induction 1 as [s|s l m n len nm eIdx e Hw IH Hm Hin He Hn];
    [done|].
  rewrite Forall_forall in Hfin.
  pose proof (Hfin e (list_elem_of_lookup_2 _ _ _ He)) as Hd.
  destruct (dist_m e) as [| |d|]; try done. by apply dadd_not_nan.
Qed.

(** C1 (as amended). The list of nodes that a search returns, read from
    its end, is travelled from one of the start nodes along edges
    registered at the nodes; the lengths of these edges, added up in double
    precision from the start node, are the distance stored at the end node,
    and this sum is not greater than the maximum: it is less or equal if
    every edge has a finite length and the maximum is no NaN.  More
    generally no node was given a distance that is greater than the
    maximum: an edge that would lead beyond it is not relaxed.  It is the
    rounded sum that the search compares; the sum of the lengths in exact
    arithmetic can be beyond the maximum. *)
Theorem C1_path_within_max (apt apt' : Apt) (_startN _endN : N)
    (bStartIsRwy : bool) (_maxLen : double) (path : list N) :
  vsize (vecTaxiNodes apt) < ULONG_MAX →
  ShortestPath apt _startN bStartIsRwy _endN _maxLen = Ok (apt', path) →
  path ≠ [] →
  (∃ s en,
     s ∈ start_nodes apt _startN bStartIsRwy
     ∧ vecTaxiNodes apt' !! N.to_nat _endN = Some en
     ∧ walk apt s (reverse path) _endN (pathLen en)
     ∧ dgt (pathLen en) _maxLen = false
     ∧ (Forall (λ e, is_finite (dist_m e)) (vecTaxiEdges apt) →
        isnan _maxLen = false → dle (pathLen en) _maxLen = true))
  ∧ ∀ n nn, vecTaxiNodes apt' !! N.to_nat n = Some nn →
            prevIdx nn < ULONG_MAX - 1 →
            dgt (pathLen nn) _maxLen = false.
Proof.
  intros Hsize Hrun Hpath.
  destruct (ShortestPath_result _ _ _ _ _ _ _ Hsize Hrun)
    as [(_ & _ & _ & ->)|(k & st & en & -> & Hinv & Hen & Hcase)]; [done|].
  destruct Hcase as [[_ ->]|[Hprev Hchain]]; [done|].
  split.
  - destruct (chain_walk _ _ _ _ _ _ _ Hinv Hchain) as (s & en' & Hs & Hen' & Hwalk).
    assert (en' = en) as -> by congruence.
    exists s, en.
    destruct (chain_head _ _ _ _ _ Hchain) as (en' & Hen'' & _ & Hne).
    assert (en' = en) as -> by congruence.
    destruct (Hne Hpath) as (l' & _ & Hmax).
    split; [done|]. split; [done|]. split; [done|]. split; [done|].
    intros Hfin Hnan. apply dgt_false_dle; [|done|done].
    by eapply walk_not_nan.
  - simpl. intros n nn Hn Hlt.
    assert (Hp : prevIdx nn ≠ ULONG_MAX) by (unfold ULONG_MAX in *; lia).
    destruct (inv_chain _ _ _ _ _ Hinv _ _ Hn Hp) as (l & Hl & _).
    destruct (chain_head _ _ _ _ _ Hl) as (nn' & Hnn' & Hnil & Hne).
    assert (nn' = nn) as -> by congruence.
    assert (l ≠ []) as Hl0.
    { intros Heq. apply Hnil in Heq. unfold ULONG_MAX in *. lia. }
    by destruct (Hne Hl0) as (l' & _ & Hmax).
Qed.

Lemma C1_path_within_max_witness :
  ∃ apt' s en,
    ShortestPath apt_line 0 false 2 (dbl 100) = Ok (apt', [2; 1])
    ∧ s ∈ start_nodes apt_line 0 false
    ∧ vecTaxiNodes apt' !! 2%nat = Some en
    ∧ walk apt_line s [1; 2] 2 (pathLen en)
    ∧ dgt (pathLen en) (dbl 100) = false.
Proof.
  assert (∃ apt', ShortestPath apt_line 0 false 2 (dbl 100) = Ok (apt', [2; 1]))
    as [apt' Hrun].
  { vm_compute. eexists. reflexivity. }
  destruct (C1_path_within_max apt_line apt' 0 2 false (dbl 100) [2; 1]
              eq_refl Hrun ltac:(done))
    as [(s & en & Hs & Hen & Hwalk & Hmax & _) _].
  exists apt', s, en.
  exact (conj Hrun (conj Hs (conj Hen (conj Hwalk Hmax)))).
Defined.

(** The edges of 1 m and of [2^-53] m add up to 1 m in double precision:
    with a maximum of 1 m the search returns the way along both, the
    length of which is beyond the maximum. *)
Lemma C1_counterexample :
  ∃ apt' en,
    ShortestPath apt_eps 0 false 2 (dbl 1) = Ok (apt', [2; 1])
    ∧ vecTaxiNodes apt' !! 2%nat = Some en
    ∧ pathLen en = dbl 1
    ∧ walk apt_eps 0 [1; 2] 2 (pathLen en)
    ∧ dist_m <$> vecTaxiEdges apt_eps
      = [DFin 1; DFin (1 # 9007199254740992)]
    ∧ (1 < 1 + (1 # 9007199254740992))%Q.
Proof.
  assert (∃ apt' en,
            ShortestPath apt_eps 0 false 2 (dbl 1) = Ok (apt', [2; 1])
            ∧ vecTaxiNodes apt' !! 2%nat = Some en
            ∧ pathLen en = dbl 1) as (apt' & en & Hrun & Hen & Hlen).
  { vm_compute. eexists _, _. repeat split; reflexivity. }
  exists apt', en. split; [exact Hrun|]. split; [exact Hen|].
  split; [exact Hlen|]. split; [|split; [reflexivity|reflexivity]].
  assert (Hsum : dadd (dadd (dbl 0) (dbl 1)) (dbl (1 # 9007199254740992))
                 = dbl 1) by (vm_compute; reflexivity).
  rewrite Hlen, <- Hsum.
  apply (walk_edge apt_eps 0 [1] 1 2 _
           (mkNode (dbl 1) (dbl 0) [0; 1] NAN 0 false) 1
           (mkEdge TAXI_WAY 1 2 (dbl 0) (dbl (1 # 9007199254740992))));
    try reflexivity.
  - apply (walk_edge apt_eps 0 [] 0 1 _
             (mkNode (dbl 0) (dbl 0) [0] NAN 0 false) 0
             (mkEdge TAXI_WAY 0 1 (dbl 0) (dbl 1))); try reflexivity.
    + constructor.
    + repeat constructor.
  - repeat constructor.
Qed.

(** *** The search ends within the loop bound *)

Lemma in_time_bind {A B} (m : res A) (k : A → res B) :
  in_time m → (∀ x, m = Ok x → in_time (k x)) → in_time (m ≫= k).
Proof.
  destruct m as [x|e]; [intros _ Hk; by apply Hk|].
  intros He _ Hf. apply He. rewrite bind_Err in Hf. by injection Hf as ->.
Qed.

Lemma in_time_vidx {A} (v : list A) (i : N) : in_time (vidx v i).
Proof. unfold vidx. by destruct (vlookup v i). Qed.

Lemma in_time_vat {A} (v : list A) (i : N) : in_time (vat v i).
Proof. unfold vat. by destruct (vlookup v i). Qed.

Lemma in_time_seed_nodes (l : list N) (st : dijkstra_state) :
  in_time (seed_nodes l st).
Proof.
  revert st. induction l as [|n l IH]; intros st; simpl; [done|].
  apply in_time_bind; [apply in_time_vidx|]. intros nd _. apply IH.
Qed.

Lemma in_time_select_shortest (nodes : list TaxiNode) (rest : list N)
    (pos bi : nat) (bd : double) :
  in_time (select_shortest nodes rest pos bi bd).
Proof.
  revert pos bi bd. induction rest as [|x rest IH]; intros pos bi bd; simpl;
    [done|].
  apply in_time_bind; [apply in_time_vidx|]. intros nd _.
  destruct (dlt _ _); apply IH.
Qed.

Lemma in_time_relax_edges (edges : list TaxiEdge) (_endN : N) (_maxLen : double)
    (s : N) (d : double) (es : list N) (st : dijkstra_state) :
  in_time (relax_edges edges _endN _maxLen s d es st).
Proof.
  revert st. induction es as [|eIdx es IH]; intros st; simpl; [done|].
  apply in_time_bind; [apply in_time_vidx|]. intros e _.
  apply in_time_bind; [apply in_time_vidx|]. intros updN _.
  destruct (bVisited updN); [apply IH|].
  destruct (_ || _); [apply IH|].
  destruct (decide _); [done|apply IH].
Qed.

Lemma in_time_visit_shortest (edges : list TaxiEdge) (_endN : N)
    (_maxLen : double) (st : dijkstra_state) :
  in_time (visit_shortest edges _endN _maxLen st).
Proof.
  unfold visit_shortest. destruct st.2 as [|first rest]; [done|].
  apply in_time_bind; [apply in_time_vidx|]. intros n0 _.
  apply in_time_bind; [apply in_time_select_shortest|]. intros [pos d] _.
  destruct (_ !! pos); [|done].
  apply in_time_bind; [apply in_time_vidx|]. intros sN _.
  apply in_time_relax_edges.
Qed.

Lemma filter_length_le {A} (P Q : A → Prop) `{∀ x, Decision (P x)}
    `{∀ x, Decision (Q x)} (l : list A) :
  (∀ x, x ∈ l → P x → Q x) →
  (length (filter P l) ≤ length (filter Q l))%nat.
Proof.
  induction l as [|x l IH]; intros Himp; [done|].
  rewrite !filter_cons.
  assert (IH' : (length (filter P l) ≤ length (filter Q l))%nat).
  { apply IH. intros y Hy. apply Himp. by right. }
  destruct (decide (P x)) as [HP|HP].
  - rewrite decide_True by (apply Himp; [by left|done]). simpl. lia.
  - destruct (decide (Q x)); simpl; lia.
Qed.

Lemma filter_length_lt {A} (P Q : A → Prop) `{∀ x, Decision (P x)}
    `{∀ x, Decision (Q x)} (l : list A) (x0 : A) :
  (∀ x, x ∈ l → P x → Q x) → x0 ∈ l → Q x0 → ¬ P x0 →
  (length (filter P l) < length (filter Q l))%nat.
Proof.
  induction l as [|x l IH]; intros Himp Hin HQ HP; [by apply elem_of_nil in Hin|].
  rewrite !filter_cons.
  assert (Hle : (length (filter P l) ≤ length (filter Q l))%nat).
  { apply filter_length_le. intros y Hy. apply Himp. by right. }
  apply elem_of_cons in Hin as [<-|Hin].
  - rewrite decide_False by done. rewrite decide_True by done. simpl. lia.
  - assert (IH' : (length (filter P l) < length (filter Q l))%nat).
    { apply IH; try done. intros y Hy. apply Himp. by right. }
    destruct (decide (P x)) as [HPx|HPx].
    + rewrite decide_True by (apply Himp; [by left|done]). simpl. lia.
    + destruct (decide (Q x)); simpl; lia.
Qed.

Lemma elem_of_delete_ne {A} (l : list A) (i : nat) (x y : A) :
  l !! i = Some y → x ∈ l → x ≠ y → x ∈ delete i l.
Proof.
  intros Hi Hx Hne. apply list_elem_of_lookup in Hx as [j Hj].
  destruct (decide (j < i)%nat) as [Hlt|Hge].
  - apply list_elem_of_lookup. exists j. by rewrite list_lookup_delete_lt.
  - assert (j ≠ i) by (intros ->; congruence).
    apply list_elem_of_lookup. exists (j - 1)%nat.
    rewrite list_lookup_delete_ge by lia.
    by replace (S (j - 1)) with j by lia.
Qed.

Lemma is_pending_lt (st : dijkstra_state) (i : nat) :
  is_pending st i = true → i ∈ seq 0 (length st.1).
Proof.
  unfold is_pending. destruct (st.1 !! i) eqn:Hi; [|done]. intros _.
  apply elem_of_seq. apply lookup_lt_Some in Hi. lia.
Qed.

(** Taking the node at [pos] from the visit vector and marking it visited
    lowers the measure. *)
Lemma measure_mark_delete (nodes : list TaxiNode) (visit : list N) (pos : nat)
    (s : N) (sN : TaxiNode) :
  visit !! pos = Some s → nodes !! N.to_nat s = Some sN →
  (search_measure (vset nodes s (set_visited sN), delete pos visit)
   < search_measure (nodes, visit))%nat.
Proof.
  intros Hpos Hs. unfold search_measure, vset. simpl.
  rewrite length_insert.
  assert (Hlen : (length (delete pos visit) < length visit)%nat).
  { rewrite length_delete by done. apply lookup_lt_Some in Hpos. lia. }
  enough (length (filter (λ i, is_pending
                     (<[N.to_nat s:=set_visited sN]> nodes, delete pos visit) i = true)
                    (seq 0 (length nodes)))
          ≤ length (filter (λ i, is_pending (nodes, visit) i = true)
                      (seq 0 (length nodes))))%nat by lia.
  apply filter_length_le. intros i _. unfold is_pending. simpl.
  destruct (decide (i = N.to_nat s)) as [->|Hne].
  - rewrite list_lookup_insert_eq by (by eapply lookup_lt_Some). done.
  - rewrite list_lookup_insert_ne by done.
    destruct (nodes !! i) as [nn|]; [|done].
    rewrite !andb_true_iff, !bool_decide_eq_true.
    intros [Hv Hnin]. split; [done|]. intros Hin. apply Hnin.
    eapply elem_of_delete_ne; [done|done|]. intros <-.
    by rewrite Nat2N.id in Hne.
Qed.

(** Giving an unvisited node a distance, and entering it into the visit
    vector, does not raise the measure. *)
Lemma measure_update (nodes : list TaxiNode) (visit : list N) (u : N)
    (updN upd : TaxiNode) :
  nodes !! N.to_nat u = Some updN → bVisited updN = false →
  bVisited upd = false →
  (search_measure (vset nodes u upd, visit) ≤ search_measure (nodes, visit))%nat
  ∧ (search_measure (vset nodes u upd, push_back_unique visit u)
     ≤ search_measure (nodes, visit))%nat.
Proof.
  intros Hu HuV HupdV. unfold search_measure, vset. simpl.
  rewrite !length_insert.
  assert (Hlt : (N.to_nat u < length nodes)%nat) by (by eapply lookup_lt_Some).
  assert (Himp : ∀ visit' i, (∀ x, x ∈ visit → x ∈ visit') →
            is_pending (<[N.to_nat u:=upd]> nodes, visit') i = true →
            is_pending (nodes, visit) i = true).
  { intros visit' i Hsub. unfold is_pending. simpl.
    destruct (decide (i = N.to_nat u)) as [->|Hne].
    - rewrite list_lookup_insert_eq, Hu, HuV, HupdV by done. simpl.
      rewrite !bool_decide_eq_true. auto.
    - rewrite list_lookup_insert_ne by done.
      destruct (nodes !! i) as [nn|]; [|done].
      rewrite !andb_true_iff, !bool_decide_eq_true. intros [? ?]. auto. }
  split.
  - apply Nat.add_le_mono_l. apply filter_length_le. intros i _. by apply Himp.
  - unfold push_back_unique. destruct (decide (u ∈ visit)) as [Hin|Hnin].
    + apply Nat.add_le_mono_l. apply filter_length_le. intros i _. by apply Himp.
    + rewrite length_app. simpl.
      enough (length (filter (λ i, is_pending
                         (<[N.to_nat u:=upd]> nodes, visit ++ [u]) i = true)
                        (seq 0 (length nodes)))
              < length (filter (λ i, is_pending (nodes, visit) i = true)
                          (seq 0 (length nodes))))%nat by lia.
      apply (filter_length_lt _ _ _ (N.to_nat u)).
      * intros i _. apply Himp. intros x Hx. apply elem_of_app. by left.
      * apply elem_of_seq. lia.
      * unfold is_pending. simpl. rewrite Hu, HuV, N2Nat.id. simpl.
        by apply bool_decide_eq_true.
      * unfold is_pending. simpl.
        rewrite list_lookup_insert_eq, HupdV, N2Nat.id by done. simpl.
        rewrite bool_decide_eq_false_2; [done|].
        intros Hn. apply Hn. apply elem_of_app. right. by left.
Qed.

Lemma measure_relax_edges (edges : list TaxiEdge) (_endN : N) (_maxLen : double)
    (s : N) (d : double) (es : list N) (st st' : dijkstra_state) :
  relax_edges edges _endN _maxLen s d es st = Ok st' →
  (search_measure st' ≤ search_measure st)%nat.
Proof.
  revert st. induction es as [|eIdx es IH]; intros st; simpl.
  - by intros [= <-].
  - intros Hrun. apply bind_Ok_inv in Hrun as (e & He & Hrun).
    apply bind_Ok_inv in Hrun as (updN & Hu & Hrun). apply vidx_Ok in Hu.
    destruct (bVisited updN) eqn:HuV; [by apply IH|].
    destruct (_ || _); [by apply IH|].
    destruct st as [nodes visit]. simpl in *.
    destruct (measure_update nodes visit (otherNode e s) updN
                (set_path updN (dadd d (dist_m e)) s) Hu HuV HuV) as [H1 H2].
    destruct (decide _).
    + by injection Hrun as <-.
    + apply IH in Hrun. lia.
Qed.

Lemma measure_visit_shortest (edges : list TaxiEdge) (_endN : N)
    (_maxLen : double) (st st' : dijkstra_state) :
  st.2 ≠ [] →
  visit_shortest edges _endN _maxLen st = Ok st' →
  (search_measure st' < search_measure st)%nat.
Proof.
  unfold visit_shortest. destruct st as [nodes visit]. simpl.
  destruct visit as [|first rest] eqn:Hv; [done|]. intros _.
  rewrite <- Hv. intros Hrun.
  apply bind_Ok_inv in Hrun as (n0 & _ & Hrun).
  apply bind_Ok_inv in Hrun as ([pos d] & _ & Hrun).
  destruct (visit !! pos) as [s|] eqn:Hpos; [|done].
  apply bind_Ok_inv in Hrun as (sN & Hs & Hrun). apply vidx_Ok in Hs.
  apply measure_relax_edges in Hrun.
  pose proof (measure_mark_delete nodes visit pos s sN Hpos Hs). lia.
Qed.

Lemma in_time_dijkstra_loop (edges : list TaxiEdge) (_endN : N)
    (_maxLen : double) (fuel : nat) (st : dijkstra_state) :
  (search_measure st ≤ fuel)%nat →
  in_time (dijkstra_loop fuel edges _endN _maxLen st).
Proof.
  revert st. induction fuel as [|fuel IH]; intros st Hm.
  - unfold search_measure in Hm. simpl.
    destruct st.2 as [|x v]; [done|]. simpl in Hm. lia.
  - simpl. destruct st.2 as [|x v] eqn:Hv; [done|].
    apply in_time_bind; [apply in_time_vidx|]. intros en _.
    destruct (decide _); [|done].
    apply in_time_bind; [apply in_time_visit_shortest|]. intros st1 Hstep.
    apply IH. apply measure_visit_shortest in Hstep; [lia|].
    by rewrite Hv.
Qed.

Lemma search_measure_fuel (st : dijkstra_state) :
  (search_measure st ≤ search_fuel st)%nat.
Proof.
  unfold search_measure, search_fuel. apply Nat.add_le_mono_l.
  etrans; [apply length_filter|]. by rewrite length_seq.
Qed.

(** The loop bound of the model is never reached: every search returns
    or fails on an index that is out of range. *)
Lemma ShortestPath_in_time (apt : Apt) (_startN _endN : N)
    (bStartIsRwy : bool) (_maxLen : double) :
  vsize (vecTaxiNodes apt) < ULONG_MAX →
  in_time (ShortestPath apt _startN bStartIsRwy _endN _maxLen).
Proof.
  intros Hsize. unfold ShortestPath. destruct (_ && _); [done|].
  apply in_time_bind.
  { unfold seed_start. destruct bStartIsRwy.
    - apply in_time_bind; [apply in_time_vat|]. intros ep _.
      apply in_time_seed_nodes.
    - apply in_time_bind; [apply in_time_vat|]. by intros nd _. }
  intros st0 Hst0. apply in_time_bind; [apply in_time_vidx|]. intros _ _.
  apply in_time_bind.
  { apply in_time_dijkstra_loop, search_measure_fuel. }
  intros st Hloop. apply in_time_bind; [apply in_time_vidx|].
  intros en Hen. apply vidx_Ok in Hen.
  destruct (decide _) as [|Hprev]; [done|].
  pose proof (dijkstra_loop_inv apt _endN _maxLen _ Hsize _ 0 _ _
    (seeded_search_inv apt _maxLen _ _ (seed_start_seeded _ _ _ _ Hst0)) Hloop)
    as Hinv.
  destruct (inv_chain _ _ _ _ _ Hinv _ _ Hen Hprev) as (l & Hl & Hlen).
  rewrite (collect_path_chain apt _maxLen Hsize _ _ _ Hl) by lia.
  done.
Qed.

(** *** On a well-formed graph the search returns *)

Lemma lookup_vsize {A} (v : list A) (i : N) :
  i < vsize v → ∃ x, v !! N.to_nat i = Some x.
Proof.
  intros Hi. apply lookup_lt_is_Some_2. unfold vsize in Hi. lia.
Qed.

Lemma seed_nodes_ok (l : list N) (st : dijkstra_state) :
  (∀ n, n ∈ l → n < vsize st.1) → ∃ st', seed_nodes l st = Ok st'.
Proof.
  revert st. induction l as [|n l IH]; intros st Hl; simpl; [by eexists|].
  destruct (lookup_vsize st.1 n) as [nd Hnd]; [apply Hl; by left|].
  apply vidx_Ok in Hnd. rewrite Hnd, bind_Ok. apply IH. simpl.
  intros x Hx. unfold vsize, vset. rewrite length_insert.
  apply Hl. by right.
Qed.

Lemma select_shortest_ok (nodes : list TaxiNode) (rest : list N)
    (pos bi : nat) (bd : double) :
  (∀ x, x ∈ rest → x < vsize nodes) →
  ∃ r, select_shortest nodes rest pos bi bd = Ok r.
Proof.
  revert pos bi bd. induction rest as [|x rest IH]; intros pos bi bd Hr; simpl;
    [by eexists|].
  destruct (lookup_vsize nodes x) as [nd Hnd]; [apply Hr; by left|].
  apply vidx_Ok in Hnd. rewrite Hnd, bind_Ok.
  destruct (dlt _ _); apply IH; intros y Hy; apply Hr; by right.
Qed.

Lemma relax_edges_ok (edges : list TaxiEdge) (_endN : N) (_maxLen : double)
    (s : N) (d : double) (len : N) (es : list N) (st : dijkstra_state) :
  vsize st.1 = len →
  (∀ eIdx, eIdx ∈ es →
     ∃ e, edges !! N.to_nat eIdx = Some e ∧ a e < len ∧ b e < len) →
  ∃ st', relax_edges edges _endN _maxLen s d es st = Ok st'.
Proof.
  revert st. induction es as [|eIdx es IH]; intros st Hlen Hes; simpl;
    [by eexists|].
  destruct (Hes eIdx) as (e & He & Ha & Hb); [by left|].
  assert (Hes' : ∀ x, x ∈ es →
            ∃ e, edges !! N.to_nat x = Some e ∧ a e < len ∧ b e < len).
  { intros x Hx. apply Hes. by right. }
  apply vidx_Ok in He. rewrite He, bind_Ok.
  destruct (lookup_vsize st.1 (otherNode e s)) as [updN Hu].
  { rewrite Hlen. unfold otherNode. by destruct (decide _). }
  apply vidx_Ok in Hu. rewrite Hu, bind_Ok.
  destruct (bVisited updN); [by apply IH|].
  destruct (_ || _); [by apply IH|].
  destruct (decide _); [by eexists|].
  apply IH; [|done]. simpl. unfold vsize, vset in *. by rewrite length_insert.
Qed.

Lemma visit_shortest_ok (apt : Apt) (_endN : N) (_maxLen : double)
    (seeds : list N) (k : nat) (st : dijkstra_state) :
  graph_wf apt →
  search_inv apt _maxLen seeds k st →
  ∃ st', visit_shortest (vecTaxiEdges apt) _endN _maxLen st = Ok st'.
Proof.
  intros Hwf Hinv. unfold visit_shortest.
  destruct st as [nodes visit]. simpl.
  destruct visit as [|first rest] eqn:Hv; [by eexists|]. rewrite <- Hv.
  assert (Hvalid : ∀ x, x ∈ visit → x < vsize nodes).
  { intros x Hx. rewrite Hv in Hx.
    destruct (inv_visit _ _ _ _ _ Hinv x Hx) as (nn & Hnn & _).
    by eapply lookup_lt_vsize. }
  destruct (lookup_vsize nodes first) as [n0 Hn0].
  { apply Hvalid. rewrite Hv. by left. }
  apply vidx_Ok in Hn0. rewrite Hn0, bind_Ok.
  destruct (select_shortest_ok nodes rest 1 0 (pathLen n0)) as [[pos d] Hsel].
  { intros x Hx. apply Hvalid. rewrite Hv. by right. }
  rewrite Hsel, bind_Ok.
  assert (∃ s, visit !! pos = Some s) as [s Hpos].
  { destruct (select_shortest_spec _ _ _ _ _ _ _ Hsel)
      as [[-> ->]|(j & x & nx & Hx & -> & _)]; rewrite Hv; simpl; eauto. }
  rewrite Hpos.
  destruct (lookup_vsize nodes s) as [sN Hs].
  { apply Hvalid. by eapply list_elem_of_lookup_2. }
  pose proof Hs as Hs'. apply vidx_Ok in Hs'. rewrite Hs', bind_Ok.
  destruct (inv_static _ _ _ _ _ Hinv _ _ Hs) as (sN0 & HsN0 & Hedges).
  eapply (relax_edges_ok _ _ _ _ _ (vsize (vecTaxiNodes apt))).
  - simpl. unfold vsize, vset. rewrite length_insert.
    pose proof (inv_length _ _ _ _ _ Hinv) as Hl. simpl in Hl. by rewrite Hl.
  - intros eIdx HeIdx. rewrite Hedges in HeIdx. by eapply Hwf.
Qed.

Lemma dijkstra_loop_ok (apt : Apt) (_endN : N) (_maxLen : double)
    (seeds : list N) (fuel k : nat) (st : dijkstra_state) :
  vsize (vecTaxiNodes apt) < ULONG_MAX →
  graph_wf apt → _endN < vsize (vecTaxiNodes apt) →
  search_inv apt _maxLen seeds k st →
  (search_measure st ≤ fuel)%nat →
  ∃ st', dijkstra_loop fuel (vecTaxiEdges apt) _endN _maxLen st = Ok st'.
Proof.
  intros Hsize Hwf Hend. revert k st.
  induction fuel as [|fuel IH]; intros k st Hinv Hm.
  - unfold search_measure in Hm. simpl.
    destruct st.2 as [|x v]; [by eexists|]. simpl in Hm. lia.
  - simpl. destruct st.2 as [|x v] eqn:Hv; [by eexists|].
    destruct (lookup_vsize st.1 _endN) as [en Hen].
    { unfold vsize. rewrite (inv_length _ _ _ _ _ Hinv). exact Hend. }
    apply vidx_Ok in Hen. rewrite Hen, bind_Ok.
    destruct (decide _); [|by eexists].
    destruct (visit_shortest_ok apt _endN _maxLen seeds k st Hwf Hinv)
      as [st1 Hstep].
    rewrite Hstep, bind_Ok. apply (IH (S k)).
    + by eapply visit_shortest_inv.
    + apply measure_visit_shortest in Hstep; [lia|]. by rewrite Hv.
Qed.

(** On a well-formed graph, and for a start and an end that exist, the
    search returns. *)
Lemma ShortestPath_returns (apt : Apt) (_startN _endN : N)
    (bStartIsRwy : bool) (_maxLen : double) :
  vsize (vecTaxiNodes apt) < ULONG_MAX →
  graph_wf apt →
  start_ok apt _startN bStartIsRwy →
  _endN < vsize (vecTaxiNodes apt) →
  ∃ apt' path,
    ShortestPath apt _startN bStartIsRwy _endN _maxLen = Ok (apt', path).
Proof.
  intros Hsize Hwf Hstart Hend.
  destruct (ShortestPath apt _startN bStartIsRwy _endN _maxLen)
    as [[apt' path]|e] eqn:Hrun; [by eexists _, _|exfalso].
  unfold ShortestPath in Hrun. destruct (_ && _); [done|].
  assert (∃ st0, seed_start apt _startN bStartIsRwy = Ok st0) as [st0 Hst0].
  { unfold seed_start, start_ok in *. destruct bStartIsRwy.
    - destruct Hstart as (ep & Hep & Hall). apply vat_Ok in Hep.
      rewrite Hep, bind_Ok. apply seed_nodes_ok. simpl.
      unfold vsize. rewrite length_fmap. exact Hall.
    - destruct (lookup_vsize (InitDijkstraAttr <$> vecTaxiNodes apt) _startN)
        as [nd Hnd]; [unfold vsize; by rewrite length_fmap|].
      apply vat_Ok in Hnd. rewrite Hnd, bind_Ok. by eexists. }
  rewrite Hst0, bind_Ok in Hrun.
  pose proof (seeded_search_inv apt _maxLen _ _ (seed_start_seeded _ _ _ _ Hst0))
    as Hinv0.
  destruct (lookup_vsize st0.1 _endN) as [en0 Hen0].
  { unfold vsize. by rewrite (inv_length _ _ _ _ _ Hinv0). }
  apply vidx_Ok in Hen0. rewrite Hen0, bind_Ok in Hrun.
  destruct (dijkstra_loop_ok apt _endN _maxLen _ (search_fuel st0) 0 st0
              Hsize Hwf Hend Hinv0 (search_measure_fuel st0)) as [st Hloop].
  rewrite Hloop, bind_Ok in Hrun.
  pose proof (dijkstra_loop_inv apt _endN _maxLen _ Hsize _ 0 _ _ Hinv0 Hloop)
    as Hinv.
  destruct (lookup_vsize st.1 _endN) as [en Hen].
  { unfold vsize. by rewrite (inv_length _ _ _ _ _ Hinv). }
  pose proof Hen as Hen'. apply vidx_Ok in Hen'. rewrite Hen', bind_Ok in Hrun.
  destruct (decide _) as [|Hprev]; [done|].
  destruct (inv_chain _ _ _ _ _ Hinv _ _ Hen Hprev) as (l & Hl & Hlen).
  rewrite (collect_path_chain apt _maxLen Hsize _ _ _ Hl) in Hrun by lia.
  done.
Qed.

(** C2, the search run on the triangle: the loop over the edges of node 0
    gives the end node its first distance, 10 m, along the direct edge and
    leaves both loops at once; the node list returned stands for that
    edge, although the way by node 1 is 2 m long and within the maximum. *)
Theorem C2_first_reached_not_shortest :
  ∃ apt' en,
    ShortestPath apt_triangle 0 false 2 (dbl 100) = Ok (apt', [2])
    ∧ vecTaxiNodes apt' !! 2%nat = Some en
    ∧ pathLen en = dadd (dbl 0) (dbl 10)
    ∧ bVisited en = false
    ∧ walk apt_triangle 0 [1; 2] 2 (dadd (dadd (dbl 0) (dbl 1)) (dbl 1))
    ∧ dlt (dadd (dadd (dbl 0) (dbl 1)) (dbl 1)) (pathLen en) = true
    ∧ dgt (dadd (dadd (dbl 0) (dbl 1)) (dbl 1)) (dbl 100) = false.
Proof.
  eexists _, _. split; [vm_compute; reflexivity|].
  split; [reflexivity|]. split; [reflexivity|]. split; [reflexivity|].
  split; [|split; reflexivity].
  apply (walk_edge apt_triangle 0 [1] 1 2 _
           (mkNode (dbl 1) (dbl 0) [1; 2] NAN 0 false) 2
           (mkEdge TAXI_WAY 1 2 (dbl 90) (dbl 1))); try reflexivity.
  - apply (walk_edge apt_triangle 0 [] 0 1 _
             (mkNode (dbl 0) (dbl 0) [0; 1] NAN 0 false) 1
             (mkEdge TAXI_WAY 0 1 (dbl 0) (dbl 1))); try reflexivity.
    + constructor.
    + repeat constructor.
  - repeat constructor.
Qed.

(** No node of a chain is marked as a start node. *)
Lemma chain_not_start (edges : list TaxiEdge) (maxLen : double)
    (nodes : list TaxiNode) (n : N) (l : list N) :
  chain edges maxLen nodes n l →
  ∀ x, x ∈ l →
       ∃ nx, nodes !! N.to_nat x = Some nx ∧ prevIdx nx ≠ ULONG_MAX - 1.
Proof.
  induction 1 as
    [s ns Hs Hprev Hlen|n nn np l eIdx e Hn Hnp1 Hp Hv Hc IH HeIdx He Ho Hlen Hmax];
    intros x Hx.
  - by apply elem_of_nil in Hx.
  - apply elem_of_cons in Hx as [->|Hx]; [by exists nn|by apply IH].
Qed.

(** Whatever the airport and the nodes asked for: no node of the list that
    a search returns carries the mark of a start node when the search
    ends, since the collecting loop stops at the first node that does. *)
Lemma ShortestPath_lists_no_start_node (apt apt' : Apt) (_startN _endN : N)
    (bStartIsRwy : bool) (_maxLen : double) (path : list N) :
  vsize (vecTaxiNodes apt) < ULONG_MAX →
  ShortestPath apt _startN bStartIsRwy _endN _maxLen = Ok (apt', path) →
  ∀ x, x ∈ path →
       ∃ nx, vecTaxiNodes apt' !! N.to_nat x = Some nx
             ∧ prevIdx nx ≠ ULONG_MAX - 1.
Proof.
  intros Hsize Hrun x Hx.
  destruct (ShortestPath_result _ _ _ _ _ _ _ Hsize Hrun)
    as [(_ & _ & _ & ->)|(k & st & en & -> & Hinv & Hen & Hcase)].
  { by apply elem_of_nil in Hx. }
  destruct Hcase as [[_ ->]|[Hprev Hchain]].
  { by apply elem_of_nil in Hx. }
  simpl. by eapply chain_not_start.
Qed.

(** C3, the search run on the line 0 - 1 - 2 from node 0 to node 2, once
    started at the taxiway node 0 and once at the runway end to which node
    0 is attached: the list returned is [2; 1] both times.  The loop that
    collects the nodes stops at the start node before adding it. *)
Theorem C3_start_node_not_listed :
  snd <$> ShortestPath apt_line 0 false 2 (dbl 100) = Ok [2; 1]
  ∧ snd <$> ShortestPath apt_line 0 true 2 (dbl 100) = Ok [2; 1]
  ∧ start_nodes apt_line 0 false = [0]
  ∧ start_nodes apt_line 0 true = [0].
Proof. repeat split. Qed.

(** ** Snapping to a runway or taxiway *)

Lemma closest_edge_step_edge `{GeoLib} `{Config} (apt : Apt) (pos : positionTy)
    (hs md tol : double) (skip : option N) (best best' : closestTy) (eIdx : N) :
  closest_edge_step apt pos hs md tol skip best eIdx = Ok best' →
  (∀ i e, bestEdge best = Some (i, e) →
          vecTaxiEdges apt !! N.to_nat i = Some e) →
  ∀ i e, bestEdge best' = Some (i, e) → vecTaxiEdges apt !! N.to_nat i = Some e.
Proof.
  unfold closest_edge_step. intros Hstep Hbest.
  apply bind_Ok_inv in Hstep as (e0 & He0 & Hstep). apply vidx_Ok in He0.
  destruct (bool_decide _); [by injection Hstep as <-|].
  apply bind_Ok_inv in Hstep as (from & _ & Hstep).
  apply bind_Ok_inv in Hstep as (to & _ & Hstep).
  destruct (dgt _ _); [by injection Hstep as <-|].
  destruct (dge _ _); [by injection Hstep as <-|].
  destruct (dgt _ _); [by injection Hstep as <-|].
  injection Hstep as <-. simpl. intros i e [= <- <-]. done.
Qed.

Lemma closest_edge_loop_edge `{GeoLib} `{Config} (apt : Apt) (pos : positionTy)
    (hs md tol : double) (skip : option N) (l : list N) (best best' : closestTy) :
  closest_edge_loop apt pos hs md tol skip l best = Ok best' →
  (∀ i e, bestEdge best = Some (i, e) →
          vecTaxiEdges apt !! N.to_nat i = Some e) →
  ∀ i e, bestEdge best' = Some (i, e) → vecTaxiEdges apt !! N.to_nat i = Some e.
Proof.
  revert best. induction l as [|eIdx l IH]; intros best; simpl.
  - by intros [= <-].
  - intros Hrun Hbest. apply bind_Ok_inv in Hrun as (best1 & Hstep & Hrun).
    eapply IH; [exact Hrun|]. by eapply closest_edge_step_edge.
Qed.

(** What [FindClosestEdge] writes: nothing without a match; with a match
    the latitude, the longitude and the index of the edge found. *)
Lemma FindClosestEdge_basePt `{GeoLib} `{Config} (apt : Apt)
    (pos basePt : positionTy) (md : Z) (tol tolExt : double) (skip : option N)
    (found : option (N * TaxiEdge)) (p' : positionTy) :
  FindClosestEdge apt pos basePt md tol tolExt skip = Ok (found, p') →
  match found with
  | None => p' = basePt
  | Some (eIdx, e) =>
      p' = set_pos_base basePt (pos_lat p') (pos_lon p') eIdx
      ∧ vecTaxiEdges apt !! N.to_nat eIdx = Some e
  end.
Proof.
  unfold FindClosestEdge. intros Hrun.
  apply bind_Ok_inv in Hrun as ([fnd lst] & _ & Hrun).
  destruct (negb fnd); [by injection Hrun as <- <-|].
  apply bind_Ok_inv in Hrun as (best & Hloop & Hrun).
  destruct (bestEdge best) as [[i e]|] eqn:Hbest; [|by injection Hrun as <- <-].
  injection Hrun as <- <-. split; [done|].
  eapply closest_edge_loop_edge; [exact Hloop| |exact Hbest]. done.
Qed.

Lemma insert_path_length (nodes : list TaxiNode) (path : list N)
    (startTS pathTime pathLen_ : double) (deque deque' : list positionTy)
    (i i' : nat) :
  (i ≤ length deque)%nat →
  insert_path nodes path startTS pathTime pathLen_ deque i = Ok (deque', i') →
  length deque' = (length deque + length path)%nat.
Proof.
  revert deque i. induction path as [|n path IH]; intros deque i Hi; simpl.
  - intros [= <- <-]. lia.
  - intros Hrun. apply bind_Ok_inv in Hrun as (nd & _ & Hrun).
    apply IH in Hrun.
    + rewrite Hrun, length_app. simpl. rewrite length_take, length_drop. lia.
    + rewrite length_app. simpl. rewrite length_take, length_drop. lia.
Qed.

(** C8 (as amended). When the snap resolves the position to a runway
    edge, the position gets the latitude and longitude of the base point
    and the index of that edge, while flight phase, ground flag and all
    else stay as they were: the position is not marked.  The call returns
    true at once: the position vector keeps its length, the iterator its
    place, and no path is searched, so the airport is untouched.
    Positions are inserted only when the edge found is not a runway, in
    which case the snapped position has been marked as taxiing. *)
Theorem C8_snap_runway_match `{GeoLib} `{Config} (apt apt' : Apt)
    (fd fd' : LTFlightData) (posIter posIter' : nat) (ret : bool) :
  SnapToTaxiway apt fd posIter = Ok (ret, fd', posIter', apt') →
  ∃ pos0 found pos,
    posDeque fd !! posIter = Some pos0
    ∧ FindClosestEdge apt pos0 pos0 GetFdSnapTaxiDist_m
        ART_EDGE_ANGLE_TOLERANCE ART_EDGE_ANGLE_TOLERANCE_EXT None
      = Ok (found, pos)
    ∧ (∀ eIdx pEdge,
         found = Some (eIdx, pEdge) → GetType pEdge = RUN_WAY →
         ret = true ∧ posIter' = posIter ∧ apt' = apt
         ∧ fd' = set_posDeque fd (<[posIter := pos]> (posDeque fd))
         ∧ length (posDeque fd') = length (posDeque fd)
         ∧ pos = set_pos_base pos0 (pos_lat pos) (pos_lon pos) eIdx
         ∧ pos_flightPhase pos = pos_flightPhase pos0
         ∧ pos_onGrnd pos = pos_onGrnd pos0)
    ∧ (length (posDeque fd') ≠ length (posDeque fd) →
       ∃ eIdx pEdge,
         found = Some (eIdx, pEdge) ∧ GetType pEdge ≠ RUN_WAY
         ∧ (pos_flightPhase <$> posDeque fd' !! posIter') = Some FPH_TAXI).
Proof.
  unfold SnapToTaxiway. intros Hrun.
  destruct (posDeque fd !! posIter) as [pos0|] eqn:Hpos0; [|done].
  apply bind_Ok_inv in Hrun as ([found pos] & Hfind & Hrun).
  exists pos0, found, pos. split; [done|]. split; [done|].
  pose proof (FindClosestEdge_basePt _ _ _ _ _ _ _ _ _ Hfind) as Hbase.
  assert (Hlt : (posIter < length (posDeque fd))%nat) by (by eapply lookup_lt_Some).
  destruct found as [[eIdx pEdge]|].
  2:{ injection Hrun as <- <- <- <-. split; [done|].
      simpl. rewrite length_insert. done. }
  destruct Hbase as [Hpos _].
  destruct (decide (GetType pEdge = RUN_WAY)) as [Hrwy|Hrwy].
  { injection Hrun as <- <- <- <-. split.
    - intros ? ? [= <- <-] _. simpl. rewrite length_insert.
      repeat split; try done; by rewrite Hpos.
    - simpl. rewrite length_insert. done. }
  split; [intros ? ? [= <- <-] ?; done|].
  intros Hlen. exists eIdx, pEdge. split; [done|]. split; [done|].
  set (pos1 := set_pos_flightPhase pos FPH_TAXI) in *.
  set (fd1 := set_posDeque fd (<[posIter := pos1]> (posDeque fd))) in *.
  assert (Hfd1 : length (posDeque fd1) = length (posDeque fd)).
  { simpl. by rewrite length_insert. }
  assert (Hat : (pos_flightPhase <$> posDeque fd1 !! posIter) = Some FPH_TAXI).
  { simpl. by rewrite list_lookup_insert_eq. }
  assert (Hdone : ∀ a0, Ok (true, fd1, posIter, a0) = Ok (ret, fd', posIter', apt') →
            (pos_flightPhase <$> posDeque fd' !! posIter') = Some FPH_TAXI).
  { intros a0 [= <- <- <- <-]. done. }
  destruct (_ && _); [by eapply Hdone|].
  apply bind_Ok_inv in Hrun as (prevPos & _ & Hrun).
  destruct (negb _); [by eapply Hdone|].
  destruct (bool_decide _); [by eapply Hdone|].
  apply bind_Ok_inv in Hrun as (prevE & _ & Hrun).
  apply bind_Ok_inv in Hrun as ([apt2 vecPath] & _ & Hrun).
  destruct (decide _); [|by eapply Hdone].
  apply bind_Ok_inv in Hrun as (endNode_ & _ & Hrun).
  apply bind_Ok_inv in Hrun as (front & _ & Hrun).
  apply bind_Ok_inv in Hrun as (startTS & _ & Hrun).
  apply bind_Ok_inv in Hrun as ([deque' it'] & Hins & [= <- <- <- <-]).
  simpl. clear Hlen Hdone.
  (* the snapped position has moved up by the number of inserted ones *)
  revert Hins Hat. generalize (posDeque fd1) as deque. generalize posIter as i.
  generalize (reverse vecPath) as path.
  induction path as [|n path IH]; intros i deque; simpl.
  - by intros [= <- <-].
  - intros Hins Hat. apply bind_Ok_inv in Hins as (nd & _ & Hins).
    eapply IH; [exact Hins|].
    destruct (deque !! i) as [p|] eqn:Hp; [|done].
    assert (Hi : (i < length deque)%nat) by (by eapply lookup_lt_Some).
    rewrite lookup_app_r by (rewrite length_take; lia).
    rewrite length_take. replace (S i - i `min` length deque)%nat with 1%nat by lia.
    simpl. rewrite lookup_drop, Nat.add_0_r. by rewrite Hp.
Qed.

Lemma C8_snap_runway_match_witness :
  ∃ fd' pos,
    SnapToTaxiway apt_runway fd_near_runway 0 = Ok (true, fd', 0%nat, apt_runway)
    ∧ posDeque fd' = [pos]
    ∧ pos_edgeIdx pos = 0
    ∧ pos_flightPhase pos = pos_flightPhase pos_near_runway.
Proof.
  assert (∃ fd', SnapToTaxiway apt_runway fd_near_runway 0
                 = Ok (true, fd', 0%nat, apt_runway)) as [fd' Hrun].
  { vm_compute. eexists. reflexivity. }
  destruct (C8_snap_runway_match _ _ _ _ _ _ _ Hrun)
    as (pos0 & found & pos & Hpos0 & Hfind & Hrwy & _).
  assert (Hfound : found = Some (0, mkEdge RUN_WAY 0 1 (dbl 90) (dbl 1000))).
  { injection Hpos0 as <-. vm_compute in Hfind. by injection Hfind as <- _. }
  destruct (Hrwy _ _ Hfound eq_refl)
    as (_ & _ & _ & Hfd' & _ & Hpos & Hphase & _).
  exists fd', pos. split; [exact Hrun|]. split; [by rewrite Hfd'|].
  split; [by rewrite Hpos|]. injection Hpos0 as <-. exact Hphase.
Defined.

(** The claim as stated has the position marked as on a runway.  A report
    in cruise, 3 m beside the runway, is moved onto the runway edge 0 and
    comes back with the flight phase and the ground flag it came with. *)
Lemma C8_counterexample :
  ∃ _lat _lon,
    SnapToTaxiway apt_runway fd_near_runway 0
    = Ok (true,
          mkFlightData
            [mkPos _lat _lon (dbl 100) (dbl 60) (dbl 90) (dbl 0) (dbl 0)
                   GND_UNKNOWN FPH_CRUISE 0]
            None "A320",
          0%nat, apt_runway)
    ∧ dle _lat (dbl 0) && dle (dbl 0) _lat = true
    ∧ dle _lon (dbl 500) && dle (dbl 500) _lon = true.
Proof. vm_compute. eexists _, _. repeat split. Qed.

(** ** Runway selection *)

Example LTAptFindRwy_A :
  pos_alt_m <$> LTAptFindRwy [("AAAA"%string, apt_runway_A)] ac_on_final
  = Ok (dbl 100).
Proof. reflexivity. Qed.

Example LTAptFindRwy_B :
  pos_alt_m <$> LTAptFindRwy [("BBBB"%string, apt_runway_B)] ac_on_final
  = Ok (dbl 101).
Proof. reflexivity. Qed.

Example LTAptFindRwy_AB :
  pos_alt_m <$> LTAptFindRwy [("AAAA"%string, apt_runway_A);
                              ("BBBB"%string, apt_runway_B)] ac_on_final
  = Ok (dbl 101).
Proof. reflexivity. Qed.

Lemma consider_rwy_accept `{GeoLib} `{Config} (_ac : LTAircraft) (apt : Apt)
    (best best' : bestRwyTy) (eIdx : N) :
  consider_rwy (GetToPos _ac) (rwy_inverted _ac) (rwy_speed _ac)
    (rwy_vsi_min _ac) (rwy_vsi_max _ac) apt best eIdx = Ok best' →
  ∃ c, apt_candidates (rwy_inverted _ac) apt [eIdx] = Ok [c]
       ∧ best' = accept _ac best c.
Proof.
  unfold consider_rwy. intros Hrun.
  apply bind_Ok_inv in Hrun as (e & He & Hrun).
  apply bind_Ok_inv in Hrun as (ep & Hep & Hrun).
  exists (mkCand apt e ep). split.
  { simpl. by rewrite He, bind_Ok, Hep, !bind_Ok. }
  unfold accept, passes, cand_passes, cand_vsi, cand_d_ts, cand_dev, best_of.
  simpl.
  destruct (isnan (alt_m ep)); [by injection Hrun as <-|]. simpl.
  destruct (dgt _ (bestHeadingDiff best));
    [injection Hrun as <-; by rewrite andb_false_r|].
  destruct (_ || _); [by injection Hrun as <-|].
  by injection Hrun as <-.
Qed.

Lemma consider_rwys_accept `{GeoLib} `{Config} (_ac : LTAircraft) (apt : Apt)
    (lst : list N) (best best' : bestRwyTy) :
  consider_rwys (GetToPos _ac) (rwy_inverted _ac) (rwy_speed _ac)
    (rwy_vsi_min _ac) (rwy_vsi_max _ac) apt lst best = Ok best' →
  ∃ cs, apt_candidates (rwy_inverted _ac) apt lst = Ok cs
        ∧ best' = fold_left (accept _ac) cs best.
Proof.
  revert best. induction lst as [|eIdx lst IH]; intros best.
  - intros [= <-]. by exists [].
  - cbn [consider_rwys]. intros Hrun.
    apply bind_Ok_inv in Hrun as (best1 & Hstep & Hrun).
    destruct (consider_rwy_accept _ _ _ _ _ Hstep) as (c & Hc & ->).
    destruct (IH _ Hrun) as (cs & Hcs & ->).
    exists (c :: cs). split; [|done].
    cbn [apt_candidates] in *.
    apply bind_Ok_inv in Hc as (e & He & Hc).
    apply bind_Ok_inv in Hc as (ep & Hep & Hc).
    rewrite He, bind_Ok, Hep, bind_Ok, Hcs, bind_Ok.
    rewrite bind_Ok in Hc. by injection Hc as <-.
Qed.

Lemma consider_apts_accept `{GeoLib} `{Config} (_ac : LTAircraft)
    (gmapApt : mapAptTy) (best best' : bestRwyTy) :
  consider_apts (GetToPos _ac) (rwy_headSearch _ac) (rwy_inverted _ac)
    (rwy_speed _ac) (rwy_vsi_min _ac) (rwy_vsi_max _ac) gmapApt best
  = Ok best' →
  ∃ cs, rwy_candidates (rwy_headSearch _ac) (rwy_inverted _ac) gmapApt = Ok cs
        ∧ best' = fold_left (accept _ac) cs best.
Proof.
  revert best. induction gmapApt as [|[key apt] rest IH]; intros best.
  - intros [= <-]. by exists [].
  - cbn [consider_apts rwy_candidates]. intros Hrun.
    apply bind_Ok_inv in Hrun as ([found lst] & Hfind & Hrun).
    apply bind_Ok_inv in Hrun as (best1 & Hrwys & Hrun).
    assert (∃ cs, apt_candidates (rwy_inverted _ac) apt lst = Ok cs
                  ∧ best1 = fold_left (accept _ac) cs best)
      as (cs & Hcs & ->).
    { destruct found.
      - by apply consider_rwys_accept.
      - injection Hrwys as <-. unfold FindEdgesForHeading in Hfind.
        apply bind_Ok_inv in Hfind as (lst' & _ & Hfind).
        destruct lst'; [|done]. injection Hfind as <-. by exists []. }
    destruct (IH _ Hrun) as (cs' & Hcs' & ->).
    exists (cs ++ cs'). rewrite Hfind, bind_Ok, Hcs, bind_Ok, Hcs', bind_Ok.
    split; [done|]. by rewrite fold_left_app.
Qed.

(** The best match after a run over the candidates [cs], all deviations
    of passing candidates being numbers: either none was accepted, or
    the one accepted last, which deviates no more than any before it and
    less than any after it. *)
Lemma fold_accept_spec `{GeoLib} `{Config} (_ac : LTAircraft)
    (cs : list rwyCand) (best : bestRwyTy) (d0 : Q) :
  bestHeadingDiff best = DFin d0 →
  (∀ c, c ∈ cs → passes _ac c = true → is_finite (cand_dev (GetToPos _ac) c)) →
  (fold_left (accept _ac) cs best = best
   ∧ ∀ c, c ∈ cs → passes _ac c = true →
          dgt (cand_dev (GetToPos _ac) c) (DFin d0) = true)
  ∨ ∃ l1 c l2 q,
      cs = l1 ++ c :: l2
      ∧ fold_left (accept _ac) cs best
        = best_of (GetToPos _ac) (rwy_speed _ac) c
      ∧ passes _ac c = true
      ∧ cand_dev (GetToPos _ac) c = DFin q ∧ (q <= d0)%Q
      ∧ (∀ c', c' ∈ l1 → passes _ac c' = true →
               dle (DFin q) (cand_dev (GetToPos _ac) c') = true)
      ∧ (∀ c', c' ∈ l2 → passes _ac c' = true →
               dlt (DFin q) (cand_dev (GetToPos _ac) c') = true).
Proof.
  revert best d0. induction cs as [|c cs IH]; intros best d0 Hd0 Hfin.
  - left. split; [done|]. intros c Hc. by apply elem_of_nil in Hc.
  - cbn [fold_left].
    assert (Hfin' : ∀ c', c' ∈ cs → passes _ac c' = true →
                          is_finite (cand_dev (GetToPos _ac) c')).
    { intros c' Hc'. apply Hfin. by right. }
    assert (Hb1 : accept _ac best c =
              if passes _ac c
                 && negb (dgt (cand_dev (GetToPos _ac) c) (DFin d0))
              then best_of (GetToPos _ac) (rwy_speed _ac) c else best).
    { unfold accept. by rewrite Hd0. }
    rewrite Hb1. clear Hb1.
    destruct (passes _ac c) eqn:Hpass; cbn [andb].
    + pose proof (Hfin c ltac:(by left) Hpass) as Hq.
      destruct (cand_dev (GetToPos _ac) c) as [| |q|] eqn:Hdev; try done.
      destruct (dgt (DFin q) (DFin d0)) eqn:Hcmp; cbn [negb].
      * (* deviates more than the best: rejected *)
        destruct (IH best d0 Hd0 Hfin')
          as [[Hsame Hall]|(l1 & c2 & l2 & q2 & -> & Hres & Hp2 & Hq2 & Hle & H1 & H2)].
        -- left. split; [done|]. intros c' Hc' Hp'.
           apply elem_of_cons in Hc' as [->|Hc']; [|by apply Hall].
           by rewrite Hdev.
        -- right. exists (c :: l1), c2, l2, q2.
           split; [done|]. split; [done|]. split; [done|]. split; [done|].
           split; [done|]. split; [|done].
           intros c' Hc' Hp'. apply elem_of_cons in Hc' as [->|Hc']; [|by apply H1].
           rewrite Hdev. apply dlt_fin in Hcmp. apply dle_fin. lra.
      * (* accepted *)
        apply dlt_fin_false in Hcmp.
        destruct (IH (best_of (GetToPos _ac) (rwy_speed _ac) c) q)
          as [[Hsame Hall]|(l1 & c2 & l2 & q2 & -> & Hres & Hp2 & Hq2 & Hle & H1 & H2)];
          [by unfold best_of|done| |].
        -- right. exists [], c, cs, q.
           split; [done|]. split; [done|]. split; [done|]. split; [done|].
           split; [done|]. split; [|done].
           intros c' Hc'. by apply elem_of_nil in Hc'.
        -- right. exists (c :: l1), c2, l2, q2.
           split; [done|]. split; [done|]. split; [done|]. split; [done|].
           split; [lra|]. split; [|done].
           intros c' Hc' Hp'. apply elem_of_cons in Hc' as [->|Hc']; [|by apply H1].
           rewrite Hdev. by apply dle_fin.
    + destruct (IH best d0 Hd0 Hfin')
        as [[Hsame Hall]|(l1 & c2 & l2 & q2 & -> & Hres & Hp2 & Hq2 & Hle & H1 & H2)].
      * left. split; [done|]. intros c' Hc' Hp'.
        apply elem_of_cons in Hc' as [->|Hc']; [congruence|by apply Hall].
      * right. exists (c :: l1), c2, l2, q2.
        split; [done|]. split; [done|]. split; [done|]. split; [done|].
        split; [done|]. split; [|done].
        intros c' Hc' Hp'. apply elem_of_cons in Hc' as [->|Hc']; [congruence|].
        by apply H1.
Qed.

(** C7 (as amended). The search runs over the candidates (the runway
    edges found for the heading, airport by airport, each with the
    endpoint faced) in order; a candidate replaces the best match when
    its altitude is known, its vertical speed is in range and its
    deviation does not exceed that of the best match, which starts at the
    maximum heading difference.  So, deviations being numbers: if no
    passing candidate deviates at most the maximum, nothing is found;
    otherwise the winner is a passing candidate that deviates no more
    than any passing candidate before it and less than any after it:
    the smallest deviation wins and, among equal deviations, the
    candidate found last. *)
Theorem C7_best_runway `{GeoLib} `{Config} (gmapApt : mapAptTy)
    (_ac : LTAircraft) (inv : bool) (best : bestRwyTy) (m : Q) :
  find_best_rwy gmapApt _ac = Ok (inv, best) →
  ART_RWY_MAX_HEAD_DIFF = DFin m →
  ∃ cs,
    rwy_candidates (rwy_headSearch _ac) (rwy_inverted _ac) gmapApt = Ok cs
    ∧ ((∀ c, c ∈ cs → passes _ac c = true →
             is_finite (cand_dev (GetToPos _ac) c)) →
       (bestRwyEndPt best = None
        ∧ LTAptFindRwy gmapApt _ac = Ok positionTy_default
        ∧ ∀ c, c ∈ cs → passes _ac c = true →
               dgt (cand_dev (GetToPos _ac) c) (DFin m) = true)
       ∨ ∃ l1 c l2 q,
           cs = l1 ++ c :: l2
           ∧ best = best_of (GetToPos _ac) (rwy_speed _ac) c
           ∧ LTAptFindRwy gmapApt _ac = Ok (touch_down _ac c)
           ∧ passes _ac c = true
           ∧ cand_dev (GetToPos _ac) c = DFin q ∧ (q <= m)%Q
           ∧ (∀ c', c' ∈ l1 → passes _ac c' = true →
                    dle (DFin q) (cand_dev (GetToPos _ac) c') = true)
           ∧ (∀ c', c' ∈ l2 → passes _ac c' = true →
                    dlt (DFin q) (cand_dev (GetToPos _ac) c') = true)).
Proof.
  intros Hrun Hmax. pose proof Hrun as Hrun0. unfold find_best_rwy in Hrun.
  apply bind_Ok_inv in Hrun as (best0 & Hloop & [= <- <-]).
  destruct (consider_apts_accept _ac gmapApt _ _ Hloop) as (cs & Hcs & Hbest).
  exists cs. split; [done|]. intros Hfin.
  destruct (fold_accept_spec _ac cs
              (mkBestRwy None None None ART_RWY_MAX_HEAD_DIFF NAN) m Hmax Hfin)
    as [[Hsame Hall]|(l1 & c & l2 & q & Hsplit & Hres & Hp & Hq & Hle & H1 & H2)].
  - left. rewrite Hbest, Hsame. split; [done|]. split; [|done].
    unfold LTAptFindRwy. rewrite Hrun0, bind_Ok, Hbest, Hsame. done.
  - right. exists l1, c, l2, q. rewrite Hbest, Hres.
    split; [done|]. split; [done|]. split; [|done].
    unfold LTAptFindRwy. rewrite Hrun0, bind_Ok, Hbest, Hres. done.
Qed.

Lemma C7_best_runway_witness :
  ∃ best,
    find_best_rwy [("AAAA"%string, apt_runway_A); ("BBBB"%string, apt_runway_B)]
                  ac_on_final = Ok (false, best)
    ∧ bestApt best = Some apt_runway_B
    ∧ LTAptFindRwy [("AAAA"%string, apt_runway_A); ("BBBB"%string, apt_runway_B)]
                   ac_on_final
      = Ok (touch_down ac_on_final
              (mkCand apt_runway_B (mkEdge RUN_WAY 0 1 (dbl 90) (dbl 1000))
                 (mkRwyEndPt (TaxiNode_at (dbl 0) (dbl 0)) "09" (dbl 101) []))).
Proof.
  set (gmap := [("AAAA"%string, apt_runway_A); ("BBBB"%string, apt_runway_B)]).
  set (cA := mkCand apt_runway_A (mkEdge RUN_WAY 0 1 (dbl 90) (dbl 1000))
               (mkRwyEndPt (TaxiNode_at (dbl 0) (dbl 0)) "09" (dbl 100) [])).
  set (cB := mkCand apt_runway_B (mkEdge RUN_WAY 0 1 (dbl 90) (dbl 1000))
               (mkRwyEndPt (TaxiNode_at (dbl 0) (dbl 0)) "09" (dbl 101) [])).
  assert (∃ best, find_best_rwy gmap ac_on_final = Ok (false, best)
                  ∧ bestApt best = Some apt_runway_B
                  ∧ bestRwyEndPt best = Some (c_ep cB))
    as (best & Hrun & Hapt & Hbest0).
  { vm_compute. eexists. repeat split; reflexivity. }
  exists best. split; [exact Hrun|]. split; [exact Hapt|].
  destruct (C7_best_runway gmap ac_on_final false best 10 Hrun eq_refl)
    as (cs & Hcs & Hspec).
  assert (Hcs' : cs = [cA; cB]).
  { vm_compute in Hcs. by injection Hcs as <-. }
  subst cs.
  assert (Hfin : ∀ c, c ∈ [cA; cB] → passes ac_on_final c = true →
                      is_finite (cand_dev (GetToPos ac_on_final) c)).
  { intros c Hc _.
    apply elem_of_cons in Hc as [->|Hc]; [by vm_compute|].
    apply elem_of_cons in Hc as [->|Hc]; [by vm_compute|].
    inversion Hc. }
  destruct (Hspec Hfin)
    as [(Hnone & _)|(l1 & c & l2 & q & Hsplit & Hbest & Hpos & _)].
  - rewrite Hbest0 in Hnone. discriminate Hnone.
  - rewrite Hpos. f_equal. f_equal.
    rewrite Hbest in Hapt. injection Hapt as Hc_apt.
    destruct l1 as [|c1 [|c2 l1]].
    + injection Hsplit as <- _. discriminate Hc_apt.
    + injection Hsplit as _ <- _. reflexivity.
    + injection Hsplit as _ _ Hnil. destruct l1; discriminate Hnil.
Defined.

(** The claim as stated has the first of equal candidates win.  The two
    airports offer runway ends at the same place, so the deviation is the
    same, and both pass the checks; the search returns the end of the
    second airport, the one found last. *)
Lemma C7_counterexample :
  let cA := mkCand apt_runway_A (mkEdge RUN_WAY 0 1 (dbl 90) (dbl 1000))
              (mkRwyEndPt (TaxiNode_at (dbl 0) (dbl 0)) "09" (dbl 100) []) in
  let cB := mkCand apt_runway_B (mkEdge RUN_WAY 0 1 (dbl 90) (dbl 1000))
              (mkRwyEndPt (TaxiNode_at (dbl 0) (dbl 0)) "09" (dbl 101) []) in
  let gmap := [("AAAA"%string, apt_runway_A); ("BBBB"%string, apt_runway_B)] in
  rwy_candidates (rwy_headSearch ac_on_final) (rwy_inverted ac_on_final) gmap
  = Ok [cA; cB]
  ∧ passes ac_on_final cA = true ∧ passes ac_on_final cB = true
  ∧ cand_dev (GetToPos ac_on_final) cA = cand_dev (GetToPos ac_on_final) cB
  ∧ dle (cand_dev (GetToPos ac_on_final) cA) ART_RWY_MAX_HEAD_DIFF = true
  ∧ LTAptFindRwy gmap ac_on_final = Ok (touch_down ac_on_final cB)
  ∧ touch_down ac_on_final cB ≠ touch_down ac_on_final cA.
Proof. repeat split. intros Heq. discriminate Heq. Qed.

(** * Further properties of the airport model *)

(** ** Adding nodes *)

Lemma AddTaxiNode_cases `{GeoLib} `{Config} (apt apt' : Apt)
    (_lat _lon : double) (dcw i : size_t) :
  AddTaxiNode apt _lat _lon dcw = Ok (apt', i) →
  let eligible (k : nat) (n : TaxiNode) :=
    ¬ (dcw ≠ ULONG_MAX ∧ N.to_nat dcw = k)
    ∧ within_merge_dist _lat _lon n = true in
  (dcw ≠ ULONG_MAX → i ≠ dcw ∧ dcw < vsize (vecTaxiNodes apt))
  ∧ ((apt' = apt
      ∧ ∃ n, vecTaxiNodes apt !! N.to_nat i = Some n
             ∧ eligible (N.to_nat i) n
             ∧ ∀ k m, (k < N.to_nat i)%nat →
                      vecTaxiNodes apt !! k = Some m → ¬ eligible k m)
     ∨ (apt' = set_nodes (set_bounds apt (enlarge_pos (bounds apt) _lat _lon))
                 (vecTaxiNodes apt ++ [TaxiNode_at _lat _lon])
        ∧ i = vsize (vecTaxiNodes apt)
        ∧ ∀ k m, vecTaxiNodes apt !! k = Some m → ¬ eligible k m)).
Proof.
  rewrite AddTaxiNode_unfold. intros Hcall eligible.
  destruct (decide (dcw ≠ ULONG_MAX ∧ _)) as [|Hin]; [done|].
  assert (Hdcw : dcw ≠ ULONG_MAX → dcw < vsize (vecTaxiNodes apt)).
  { intros Hne. destruct (vecTaxiNodes apt !! N.to_nat dcw) as [n0|] eqn:Hd.
    - by eapply lookup_lt_vsize.
    - destruct Hin. done. }
  unfold find_if in Hcall.
  destruct (find_if_from 0 _ (vecTaxiNodes apt)) as [j|] eqn:Hfind.
  - injection Hcall as <- <-.
    destruct (find_if_from_Some _ _ _ _ Hfind) as (_ & (n & Hn & Hp) & Hfirst).
    rewrite Nat.sub_0_r in Hn. rewrite Nat.sub_0_r in Hfirst.
    apply andb_true_iff in Hp as [Hex Hw].
    apply negb_true_iff, bool_decide_eq_false in Hex.
    split.
    + intros Hne. split; [|by apply Hdcw].
      intros <-. apply Hex. split; [done|]. by rewrite Nat2N.id.
    + left. split; [done|]. rewrite Nat2N.id. exists n.
      split; [done|]. split; [done|].
      intros k m Hk Hm [Hex' Hw']. specialize (Hfirst k m Hk Hm).
      simpl in Hfirst. rewrite Hw', andb_true_r in Hfirst.
      apply negb_false_iff, bool_decide_eq_true in Hfirst. done.
  - injection Hcall as <- <-. split.
    + intros Hne. split; [|by apply Hdcw]. specialize (Hdcw Hne). lia.
    + right. split; [done|]. split; [done|].
      intros k m Hm [Hex' Hw'].
      pose proof (proj1 (find_if_from_None _ _ _) Hfind k m Hm) as Hp.
      simpl in Hp. rewrite Hw', andb_true_r in Hp.
      apply negb_false_iff, bool_decide_eq_true in Hp. done.
Qed.

(** X1. [AddTaxiNode] either returns the first node of the vector that is
    within the merge distance and is not the excluded node, leaving the
    airport as it is, or, when there is no such node, appends a node with
    the given coordinates, enlarges the bounds and returns the index of the
    new node.  The excluded index is never returned. *)
Theorem AddTaxiNode_result `{GeoLib} `{Config} (apt apt' : Apt)
    (_lat _lon : double) (dcw i : size_t) :
  AddTaxiNode apt _lat _lon dcw = Ok (apt', i) →
  let eligible (k : nat) (n : TaxiNode) :=
    ¬ (dcw ≠ ULONG_MAX ∧ N.to_nat dcw = k)
    ∧ within_merge_dist _lat _lon n = true in
  (dcw ≠ ULONG_MAX → i ≠ dcw ∧ dcw < vsize (vecTaxiNodes apt))
  ∧ ((apt' = apt
      ∧ ∃ n, vecTaxiNodes apt !! N.to_nat i = Some n
             ∧ eligible (N.to_nat i) n
             ∧ ∀ k m, (k < N.to_nat i)%nat →
                      vecTaxiNodes apt !! k = Some m → ¬ eligible k m)
     ∨ (apt' = set_nodes (set_bounds apt (enlarge_pos (bounds apt) _lat _lon))
                 (vecTaxiNodes apt ++ [TaxiNode_at _lat _lon])
        ∧ i = vsize (vecTaxiNodes apt)
        ∧ ∀ k m, vecTaxiNodes apt !! k = Some m → ¬ eligible k m)).
Proof. apply AddTaxiNode_cases. Qed.

Lemma AddTaxiNode_result_witness :
  AddTaxiNode apt_one_node (dbl 3) (dbl 0) ULONG_MAX
  = Ok (set_nodes (set_bounds apt_one_node
                     (enlarge_pos (bounds apt_one_node) (dbl 3) (dbl 0)))
          [TaxiNode_at (dbl 0) (dbl 0); TaxiNode_at (dbl 3) (dbl 0)], 1)
  ∧ within_merge_dist (dbl 3) (dbl 0) (TaxiNode_at (dbl 0) (dbl 0)) = false.
Proof.
  assert (Hcall : AddTaxiNode apt_one_node (dbl 3) (dbl 0) ULONG_MAX
    = Ok (set_nodes (set_bounds apt_one_node
                       (enlarge_pos (bounds apt_one_node) (dbl 3) (dbl 0)))
            [TaxiNode_at (dbl 0) (dbl 0); TaxiNode_at (dbl 3) (dbl 0)], 1))
    by reflexivity.
  split; [exact Hcall|].
  destruct (AddTaxiNode_result _ _ _ _ _ _ Hcall) as [_ [[Heq _]|(_ & _ & Hno)]].
  - discriminate Heq.
  - destruct (within_merge_dist (dbl 3) (dbl 0) (TaxiNode_at (dbl 0) (dbl 0)))
      eqn:Hw; [|done].
    exfalso. apply (Hno 0%nat (TaxiNode_at (dbl 0) (dbl 0)) eq_refl).
    split; [|done]. intros [Hne _]. done.
Defined.

Lemma lookup_resize_lt (v : list TaxiNode) (n : N) (k : nat) :
  (k < length v)%nat → (k < N.to_nat n)%nat → resize v n !! k = v !! k.
Proof.
  intros Hk Hn. unfold resize.
  rewrite lookup_app_l by (rewrite length_take; lia).
  by apply lookup_take_lt.
Qed.

Lemma lookup_resize_ge (v : list TaxiNode) (n : N) (k : nat) :
  (length v ≤ k)%nat → (k < N.to_nat n)%nat →
  resize v n !! k = Some TaxiNode_default.
Proof.
  intros Hk Hn. unfold resize.
  rewrite take_ge by lia. rewrite lookup_app_r by done.
  apply lookup_replicate_2. lia.
Qed.

Lemma length_resize (v : list TaxiNode) (n : N) : length (resize v n) = N.to_nat n.
Proof. unfold resize. rewrite length_app, length_take, length_replicate. lia. Qed.

(** X2. [AddTaxiNodeFixed] with an index other than [ULONG_MAX] puts a node
    with the given coordinates and no edges at that index, whatever was
    there; the vector grows to hold the index if need be, the nodes that
    fill the gap have no coordinates, and no other node changes. *)
Theorem AddTaxiNodeFixed_lookup `{GeoLib} (apt : Apt) (_lat _lon : double)
    (idx : size_t) :
  idx < ULONG_MAX →
  ∃ apt',
    AddTaxiNodeFixed apt _lat _lon idx = Ok apt'
    ∧ vecTaxiNodes apt' !! N.to_nat idx = Some (TaxiNode_at _lat _lon)
    ∧ length (vecTaxiNodes apt')
      = Nat.max (length (vecTaxiNodes apt)) (S (N.to_nat idx))
    ∧ (∀ k, k ≠ N.to_nat idx → (k < length (vecTaxiNodes apt))%nat →
            vecTaxiNodes apt' !! k = vecTaxiNodes apt !! k)
    ∧ (∀ k, (length (vecTaxiNodes apt) ≤ k < N.to_nat idx)%nat →
            vecTaxiNodes apt' !! k = Some TaxiNode_default
            ∧ HasGeoCoords TaxiNode_default = false)
    ∧ apt' = set_nodes (set_bounds apt (enlarge_pos (bounds apt) _lat _lon))
               (vecTaxiNodes apt').
Proof.
  intros Hidx. unfold AddTaxiNodeFixed. cbn [vecTaxiNodes set_bounds].
  destruct (decide (idx = vsize (vecTaxiNodes apt))) as [->|Hne].
  - eexists. split; [reflexivity|]. cbn [vecTaxiNodes set_nodes].
    unfold vsize. rewrite Nat2N.id.
    split; [by rewrite lookup_app_r, Nat.sub_diag|].
    split; [rewrite length_app; simpl; lia|].
    split; [intros k _ Hk; by rewrite lookup_app_l|].
    split; [intros k Hk; lia|done].
  - set (v := if decide (vsize (vecTaxiNodes apt) < idx)
              then resize (vecTaxiNodes apt) ((idx + 1) mod 2 ^ 64)
              else vecTaxiNodes apt).
    assert (Hmod : (idx + 1) mod 2 ^ 64 = idx + 1).
    { apply N.mod_small. unfold ULONG_MAX in Hidx. lia. }
    assert (Hlen : length v = Nat.max (length (vecTaxiNodes apt)) (S (N.to_nat idx))).
    { unfold v. destruct (decide _) as [Hlt|Hge].
      - rewrite length_resize, Hmod. unfold vsize in Hlt. lia.
      - unfold vsize in Hge, Hne. lia. }
    destruct (lookup_lt_is_Some_2 v (N.to_nat idx)) as [n0 Hn0]; [lia|].
    pose proof Hn0 as Hn0'. apply vidx_Ok in Hn0'. rewrite Hn0', bind_Ok.
    eexists. split; [reflexivity|]. cbn [vecTaxiNodes set_nodes]. unfold vset.
    split; [apply list_lookup_insert_eq; lia|].
    split; [by rewrite length_insert|].
    split.
    { intros k Hk Hlt. rewrite list_lookup_insert_ne by done.
      unfold v. destruct (decide _) as [Hgt|_]; [|done].
      apply lookup_resize_lt; [done|]. rewrite Hmod. unfold vsize in Hgt. lia. }
    split; [|done].
    intros k Hk. split; [|reflexivity].
    rewrite list_lookup_insert_ne by lia.
    unfold v. rewrite decide_True by (unfold vsize; lia).
    apply lookup_resize_ge; [lia|]. rewrite Hmod. lia.
Qed.

Lemma AddTaxiNodeFixed_lookup_witness :
  ∃ apt',
    AddTaxiNodeFixed apt_one_node (dbl 7) (dbl 9) 3 = Ok apt'
    ∧ vecTaxiNodes apt'
      = [TaxiNode_at (dbl 0) (dbl 0); TaxiNode_default; TaxiNode_default;
         TaxiNode_at (dbl 7) (dbl 9)].
Proof.
  destruct (AddTaxiNodeFixed_lookup apt_one_node (dbl 7) (dbl 9) 3 eq_refl)
    as (apt' & Hcall & _).
  exists apt'. split; [done|].
  assert (AddTaxiNodeFixed apt_one_node (dbl 7) (dbl 9) 3
          = Ok (set_nodes (set_bounds apt_one_node
                             (enlarge_pos (bounds apt_one_node) (dbl 7) (dbl 9)))
                  [TaxiNode_at (dbl 0) (dbl 0); TaxiNode_default; TaxiNode_default;
                   TaxiNode_at (dbl 7) (dbl 9)])) as Hrun by reflexivity.
  rewrite Hrun in Hcall. by injection Hcall as <-.
Defined.

(** X3. The nodes that [AddTaxiNodeFixed] creates to fill a gap cannot be
    joined to anything: [AddTaxiEdge] with such a node at either end returns
    [ULONG_MAX] and leaves the airport as it is. *)
Theorem AddTaxiEdge_gap_node `{GeoLib} (apt apt1 : Apt) (_lat _lon : double)
    (idx n2 : size_t) (k : nat) (_dist : double) :
  idx < ULONG_MAX →
  AddTaxiNodeFixed apt _lat _lon idx = Ok apt1 →
  (length (vecTaxiNodes apt) ≤ k < N.to_nat idx)%nat →
  n2 < vsize (vecTaxiNodes apt1) →
  AddTaxiEdge apt1 (N.of_nat k) n2 _dist = Ok (apt1, ULONG_MAX)
  ∧ AddTaxiEdge apt1 n2 (N.of_nat k) _dist = Ok (apt1, ULONG_MAX).
Proof.
  intros Hidx Hcall Hk Hn2.
  destruct (AddTaxiNodeFixed_sizes _ _ _ _ _ Hcall) as (_ & _ & Hlen).
  assert (Hgap : vecTaxiNodes apt1 !! k = Some TaxiNode_default).
  { revert Hcall. unfold AddTaxiNodeFixed. cbn [vecTaxiNodes set_bounds].
    rewrite decide_False by (unfold vsize; lia).
    rewrite decide_True by (unfold vsize; lia).
    intros Hcall. apply bind_Ok_inv in Hcall as (n0 & _ & [= <-]).
    cbn [vecTaxiNodes set_nodes]. unfold vset.
    rewrite list_lookup_insert_ne by lia.
    apply lookup_resize_ge; [lia|].
    rewrite N.mod_small by (unfold ULONG_MAX in Hidx; lia). lia. }
  destruct (lookup_vsize _ _ Hn2) as [nb Hnb].
  split.
  - pose proof (AddTaxiEdge_outcomes apt1 (N.of_nat k) n2 _dist) as Hout.
    rewrite Nat2N.id, Hgap, Hnb in Hout. exact Hout.
  - pose proof (AddTaxiEdge_outcomes apt1 n2 (N.of_nat k) _dist) as Hout.
    rewrite Nat2N.id, Hgap, Hnb in Hout.
    by rewrite andb_false_r in Hout.
Qed.

Lemma AddTaxiEdge_gap_node_witness :
  ∃ apt1,
    AddTaxiNodeFixed apt_one_node (dbl 7) (dbl 9) 3 = Ok apt1
    ∧ AddTaxiEdge apt1 1 0 NAN = Ok (apt1, ULONG_MAX)
    ∧ AddTaxiEdge apt1 3 1 NAN = Ok (apt1, ULONG_MAX).
Proof.
  assert (∃ apt1, AddTaxiNodeFixed apt_one_node (dbl 7) (dbl 9) 3 = Ok apt1
                  ∧ 0 < vsize (vecTaxiNodes apt1)
                  ∧ 3 < vsize (vecTaxiNodes apt1))
    as (apt1 & Hcall & H0 & H3).
  { eexists. split; [reflexivity|]. split; reflexivity. }
  exists apt1. split; [done|]. split.
  - apply (AddTaxiEdge_gap_node apt_one_node apt1 (dbl 7) (dbl 9) 3 0 1 NAN
             eq_refl Hcall); [simpl; lia|exact H0].
  - apply (AddTaxiEdge_gap_node apt_one_node apt1 (dbl 7) (dbl 9) 3 3 1 NAN
             eq_refl Hcall); [simpl; lia|exact H3].
Defined.

(** ** The taxiway graph that the builder produces *)

Lemma incident_ok_mono (apt apt' : Apt) :
  incident_ok apt →
  (∀ i nn' eIdx, vecTaxiNodes apt' !! i = Some nn' → eIdx ∈ vecEdges nn' →
     ∃ nn, vecTaxiNodes apt !! i = Some nn ∧ eIdx ∈ vecEdges nn) →
  (∀ k e, vecTaxiEdges apt !! k = Some e →
     ∃ e', vecTaxiEdges apt' !! k = Some e' ∧ type e' = type e
           ∧ ((a e' = a e ∧ b e' = b e) ∨ (a e' = b e ∧ b e' = a e))) →
  (length (vecTaxiNodes apt) ≤ length (vecTaxiNodes apt'))%nat →
  incident_ok apt'.
Proof.
  intros Hok Hnodes Hedges Hlen i nn' eIdx Hi Hin.
  destruct (Hnodes _ _ _ Hi Hin) as (nn & Hnn & Hin').
  destruct (Hok _ _ _ Hnn Hin') as (e & He & Hty & Hinc & Ha & Hb).
  destruct (Hedges _ _ He) as (e' & He' & Hty' & Hab).
  exists e'. split; [done|]. split; [congruence|].
  unfold vsize in *.
  destruct Hab as [[-> ->]|[-> ->]]; (split; [tauto|lia]).
Qed.

Lemma edges_same (apt apt' : Apt) :
  vecTaxiEdges apt' = vecTaxiEdges apt →
  ∀ k e, vecTaxiEdges apt !! k = Some e →
    ∃ e', vecTaxiEdges apt' !! k = Some e' ∧ type e' = type e
          ∧ ((a e' = a e ∧ b e' = b e) ∨ (a e' = b e ∧ b e' = a e)).
Proof. intros -> k e He. exists e. auto. Qed.

Lemma nodes_same (apt apt' : Apt) :
  vecTaxiNodes apt' = vecTaxiNodes apt →
  ∀ i nn' eIdx, vecTaxiNodes apt' !! i = Some nn' → eIdx ∈ vecEdges nn' →
    ∃ nn, vecTaxiNodes apt !! i = Some nn ∧ eIdx ∈ vecEdges nn.
Proof. intros -> i nn eIdx Hi Hin. by exists nn. Qed.

Lemma elem_of_registered (n1 n2 eIdx x : N) (i : nat) (n : TaxiNode) :
  x ∈ vecEdges (registered n1 n2 eIdx i n) →
  x ∈ vecEdges n ∨ (x = eIdx ∧ (i = N.to_nat n1 ∨ i = N.to_nat n2)).
Proof.
  unfold registered. simpl. rewrite !elem_of_app.
  intros [Hx|[Hx|Hx]]; [by left| |].
  - destruct (decide (i = N.to_nat n1)); [|by apply elem_of_nil in Hx].
    apply list_elem_of_singleton in Hx. right. auto.
  - destruct (decide (i = N.to_nat n2)); [|by apply elem_of_nil in Hx].
    apply list_elem_of_singleton in Hx. right. auto.
Qed.

Lemma AddTaxiEdge_incident `{GeoLib} (apt apt' : Apt) (n1 n2 i : N) (_dist : double) :
  AddTaxiEdge apt n1 n2 _dist = Ok (apt', i) →
  incident_ok apt → incident_ok apt'.
Proof.
  intros Hcall Hok. pose proof (AddTaxiEdge_outcomes apt n1 n2 _dist) as Hout.
  destruct (vecTaxiNodes apt !! N.to_nat n1) as [na|] eqn:Ha;
    [|rewrite Hcall in Hout; by destruct (_ !! _)].
  destruct (vecTaxiNodes apt !! N.to_nat n2) as [nb|] eqn:Hb;
    [|by rewrite Hcall in Hout].
  destruct (HasGeoCoords na && HasGeoCoords nb);
    [|rewrite Hcall in Hout; by injection Hout as -> _].
  destruct Hout as (apt2 & Hcall2 & _ & Hedges & Hnodes & _).
  rewrite Hcall in Hcall2. injection Hcall2 as <- _.
  intros k nn' x Hk Hx. rewrite Hnodes in Hk.
  rewrite list_lookup_imap in Hk.
  destruct (vecTaxiNodes apt !! k) as [nn|] eqn:Hnn; [|done].
  injection Hk as <-.
  assert (Hsz : vsize (vecTaxiNodes apt') = vsize (vecTaxiNodes apt)).
  { unfold vsize. by rewrite Hnodes, length_imap. }
  rewrite Hsz, Hedges.
  apply elem_of_registered in Hx as [Hx|[-> Hx]].
  - destruct (Hok _ _ _ Hnn Hx) as (e & He & Hrest).
    exists e. split; [|done]. by apply lookup_app_l_Some.
  - exists (new_taxi_edge n1 n2 na nb _dist).
    split.
    { unfold vsize. rewrite Nat2N.id, lookup_app_r, Nat.sub_diag; done. }
    split; [apply type_TaxiEdge_new|].
    apply lookup_lt_Some in Ha, Hb.
    unfold new_taxi_edge, TaxiEdge_new.
    match goal with |- context [Normalize ?r] =>
      destruct (Normalize_nodes r) as [_ [[-> ->]|[-> ->]]] end;
      simpl; unfold vsize; (split; [|lia]); destruct Hx as [->| ->];
      rewrite N2Nat.id; auto.
Qed.

Lemma SplitEdge_incident `{GeoLib} (apt apt' : Apt) (eIdx insNode : N) (e : TaxiEdge) :
  vecTaxiEdges apt !! N.to_nat eIdx = Some e →
  GetType e ≠ RUN_WAY →
  SplitEdge apt eIdx insNode = Ok apt' →
  store_ok apt → incident_ok apt → incident_ok apt'.
Proof.
  intros He Hty Hcall Hst Hok.
  unfold SplitEdge, vat in Hcall. rewrite !vlookup_lookup, He, bind_Ok in Hcall.
  destruct (decide _) as [|Hins] in Hcall; [by injection Hcall as <-|].
  apply bind_Ok_inv in Hcall as (origB & HorigB & Hcall).
  apply bind_Ok_inv in Hcall as (na & Hna & Hcall).
  apply bind_Ok_inv in Hcall as (nb & Hnb & Hcall).
  apply bind_Ok_inv in Hcall as ([apt2 j] & Hadd & [= <-]).
  destruct (vecTaxiNodes apt !! N.to_nat insNode) as [nb'|] eqn:Hins'; [|done].
  injection Hnb as <-. apply vidx_Ok in HorigB.
  unfold startNode, endNode in *.
  assert (He' : edge_in_store apt e ∧ (type e = RUN_WAY ∨ type e = TAXI_WAY)).
  { unfold store_ok in Hst. rewrite Forall_lookup in Hst. by eapply Hst. }
  destruct He' as [Hin [Ht|Ht]]; [done|].
  unfold edge_in_store in Hin. rewrite Ht in Hin. simpl in Hin.
  destruct Hin as [Hae Hbe].
  eapply AddTaxiEdge_incident; [exact Hadd|].
  set (e' := SetEndNode e insNode _ _).
  assert (He'' : type e' = TAXI_WAY
                 ∧ ((a e' = a e ∧ b e' = insNode) ∨ (a e' = insNode ∧ b e' = a e))).
  { unfold e', SetEndNode.
    match goal with |- context [Normalize ?r] =>
      destruct (Normalize_nodes r) as [-> Hab] end. simpl in *. tauto. }
  destruct He'' as [Hty' Hab'].
  assert (Hinsz : insNode < vsize (vecTaxiNodes apt)) by by eapply lookup_lt_vsize.
  assert (Hnew : ∃ e1, <[N.to_nat eIdx := e']> (vecTaxiEdges apt) !! N.to_nat eIdx
                       = Some e1 ∧ e1 = e').
  { exists e'. split; [|done]. apply list_lookup_insert_eq.
    by eapply lookup_lt_Some. }
  destruct Hnew as (e1 & He1 & ->).
  intros i nn x Hi Hx. cbn [vecTaxiNodes vecTaxiEdges set_nodes set_edges] in *.
  unfold vset in *.
  assert (Hsz : vsize (<[N.to_nat (b e) := erase_edge origB eIdx]>
                         (<[N.to_nat insNode := push_edge nb' eIdx]>
                            (vecTaxiNodes apt)))
                = vsize (vecTaxiNodes apt)).
  { unfold vsize. by rewrite !length_insert. }
  rewrite Hsz.
  assert (Hold : ∀ nn0, vecTaxiNodes apt !! i = Some nn0 → x ∈ vecEdges nn0 →
            x ≠ eIdx →
            ∃ e0, <[N.to_nat eIdx := e']> (vecTaxiEdges apt) !! N.to_nat x = Some e0
                  ∧ type e0 = TAXI_WAY
                  ∧ (a e0 = N.of_nat i ∨ b e0 = N.of_nat i)
                  ∧ a e0 < vsize (vecTaxiNodes apt)
                  ∧ b e0 < vsize (vecTaxiNodes apt)).
  { intros nn0 Hnn0 Hx0 Hne.
    destruct (Hok _ _ _ Hnn0 Hx0) as (e0 & He0 & Hrest).
    exists e0. split; [|done].
    rewrite list_lookup_insert_ne; [done|]. intros Heq. apply Hne.
    by apply N2Nat.inj. }
  assert (Hthis : (a e = N.of_nat i ∨ insNode = N.of_nat i) →
            ∃ e0, <[N.to_nat eIdx := e']> (vecTaxiEdges apt) !! N.to_nat eIdx = Some e0
                  ∧ type e0 = TAXI_WAY
                  ∧ (a e0 = N.of_nat i ∨ b e0 = N.of_nat i)
                  ∧ a e0 < vsize (vecTaxiNodes apt)
                  ∧ b e0 < vsize (vecTaxiNodes apt)).
  { intros Hi'. exists e'. split; [done|]. split; [done|].
    destruct Hab' as [[-> ->]|[-> ->]]; (split; [tauto|done]). }
  destruct (decide (i = N.to_nat (b e))) as [->|Hnb].
  - rewrite list_lookup_insert_eq in Hi
      by (rewrite length_insert; by eapply lookup_lt_Some).
    injection Hi as <-. simpl in Hx.
    apply list_elem_of_filter in Hx as [Hne Hx]. by eapply Hold.
  - rewrite list_lookup_insert_ne in Hi by done.
    destruct (decide (i = N.to_nat insNode)) as [->|Hni].
    + rewrite list_lookup_insert_eq in Hi by by eapply lookup_lt_Some.
      injection Hi as <-. simpl in Hx.
      destruct (decide (x = eIdx)) as [->|Hne].
      * apply Hthis. right. by rewrite N2Nat.id.
      * apply elem_of_app in Hx as [Hx|Hx];
          [|by apply list_elem_of_singleton in Hx].
        by eapply Hold.
    + rewrite list_lookup_insert_ne in Hi by done.
      destruct (decide (x = eIdx)) as [->|Hne]; [|by eapply Hold].
      apply Hthis. left.
      destruct (Hok _ _ _ Hi Hx) as (e0 & He0 & _ & Hinc & _).
      assert (e0 = e) as -> by congruence.
      destruct Hinc as [Hinc|Hinc]; [done|].
      exfalso. apply Hnb. rewrite Hinc. by rewrite Nat2N.id.
Qed.

Lemma build_step_incident `{GeoLib} `{Config} (op : build_op) (apt apt' : Apt) :
  build_step op apt apt' → store_ok apt → incident_ok apt → incident_ok apt'.
Proof.
  intros Hstep Hst Hok.
  destruct Hstep as
    [apt _lat _lon dcw apt' i Hcall
    |apt _lat _lon idx apt' Hcall
    |apt n1 n2 _dist apt' i Hcall
    |apt lat1 lon1 d1 id1 lat2 lon2 d2 id2
    |apt eIdx insNode e apt' He Hty Hcall
    |apt k e e' He Hcall
    |apt i n _lat _lon Hn
    |apt k ep i Hep
    |apt apt' Hcall
    |apt meter].
  - (* AddTaxiNode *)
    rewrite AddTaxiNode_unfold in Hcall.
    destruct (decide _) in Hcall; [done|].
    destruct (find_if _ _) in Hcall; injection Hcall as <- _; [done|].
    apply (incident_ok_mono apt); [done| |by apply edges_same|].
    + cbn [vecTaxiNodes set_nodes]. intros j nn' x Hi Hx.
      apply lookup_app_Some in Hi as [Hi|[_ Hi]]; [by exists nn'|].
      apply list_lookup_singleton_Some in Hi as [_ <-].
      by apply elem_of_nil in Hx.
    + simpl. rewrite length_app. lia.
  - (* AddTaxiNodeFixed *)
    destruct (AddTaxiNodeFixed_sizes _ _ _ _ _ Hcall) as (Hedges & _ & Hlen).
    apply (incident_ok_mono apt); [done| |by apply edges_same|done].
    revert Hcall. unfold AddTaxiNodeFixed. cbn [vecTaxiNodes set_bounds].
    destruct (decide (idx = vsize (vecTaxiNodes apt))) as [->|Hne].
    + intros [= <-]. cbn [vecTaxiNodes set_nodes]. intros i nn' x Hi Hx.
      apply lookup_app_Some in Hi as [Hi|[_ Hi]]; [by exists nn'|].
      apply list_lookup_singleton_Some in Hi as [_ <-].
      by apply elem_of_nil in Hx.
    + intros Hcall. apply bind_Ok_inv in Hcall as (n0 & Hn0 & [= <-]).
      cbn [vecTaxiNodes set_nodes]. unfold vset. intros i nn' x Hi Hx.
      apply vidx_Ok in Hn0.
      destruct (decide (i = N.to_nat idx)) as [->|Hi'].
      * rewrite list_lookup_insert_eq in Hi by by eapply lookup_lt_Some.
        injection Hi as <-. by apply elem_of_nil in Hx.
      * rewrite list_lookup_insert_ne in Hi by done.
        destruct (decide (vsize (vecTaxiNodes apt) < idx)) as [Hlt|]; [|by exists nn'].
        unfold resize in Hi.
        apply lookup_app_Some in Hi as [Hi|[_ Hi]].
        -- apply lookup_take_Some in Hi as [Hi _]. by exists nn'.
        -- apply lookup_replicate in Hi as [-> _]. by apply elem_of_nil in Hx.
  - by eapply AddTaxiEdge_incident.
  - (* AddRwyEnds *)
    apply (incident_ok_mono apt); [done|by apply nodes_same| |done].
    intros k e He. exists e. simpl. split; [by apply lookup_app_l_Some|auto].
  - by eapply SplitEdge_incident.
  - (* RecalcTaxiEdge *)
    unfold RecalcTaxiEdge in Hcall.
    apply bind_Ok_inv in Hcall as (na & Hna & Hcall).
    apply bind_Ok_inv in Hcall as (nb & Hnb & [= <-]).
    apply (incident_ok_mono apt); [done|by apply nodes_same| |done].
    intros j e0 He0. simpl.
    destruct (decide (j = k)) as [->|Hjk].
    + rewrite list_lookup_insert_eq by by eapply lookup_lt_Some.
      eexists. split; [done|]. assert (e0 = e) as -> by congruence.
      match goal with |- context [Normalize ?r] =>
        destruct (Normalize_nodes r) as [-> Hab] end. simpl in *. tauto.
    + rewrite list_lookup_insert_ne by done. exists e0. auto.
  - (* MoveNode *)
    apply (incident_ok_mono apt); [done| |by apply edges_same|].
    + simpl. intros j nn' x Hj Hx.
      destruct (decide (j = i)) as [->|Hji].
      * rewrite list_lookup_insert_eq in Hj by by eapply lookup_lt_Some.
        injection Hj as <-. by exists n.
      * rewrite list_lookup_insert_ne in Hj by done. by exists nn'.
    + simpl. by rewrite length_insert.
  - apply (incident_ok_mono apt); [done|by apply nodes_same|by apply edges_same|done].
  - unfold SortTaxiEdges in Hcall.
    apply bind_Ok_inv in Hcall as (_ & _ & [= <-]).
    apply (incident_ok_mono apt); [done|by apply nodes_same|by apply edges_same|done].
  - apply (incident_ok_mono apt); [done|by apply nodes_same|by apply edges_same|done].
Qed.

Lemma built_incident `{GeoLib} `{Config} (apt : Apt) : built apt → incident_ok apt.
Proof.
  induction 1 as [_id|op apt apt' Hb IH Hstep].
  - intros i nn x Hi. simpl in Hi. by rewrite lookup_nil in Hi.
  - eapply build_step_incident; [exact Hstep|by apply built_store_ok|exact IH].
Qed.

(** Runs one operation of the builder on the airport of [Hb : built _]. *)
Ltac built_node Hb _lat _lon :=
  lazymatch type of Hb with
  | built ?apt =>
      let v := eval vm_compute in (AddTaxiNode apt _lat _lon ULONG_MAX) in
      lazymatch v with
      | Ok (?apt', ?i) =>
          let Hrun := fresh "Hrun" in
          assert (Hrun : AddTaxiNode apt _lat _lon ULONG_MAX = Ok (apt', i))
            by (vm_compute; reflexivity);
          apply (λ Hb0, built_step _ _ _ Hb0
                          (step_AddTaxiNode _ _ _ _ _ _ Hrun)) in Hb;
          clear Hrun
      end
  end.

Ltac built_edge Hb n1 n2 :=
  lazymatch type of Hb with
  | built ?apt =>
      let v := eval vm_compute in (AddTaxiEdge apt n1 n2 NAN) in
      lazymatch v with
      | Ok (?apt', ?i) =>
          let Hrun := fresh "Hrun" in
          assert (Hrun : AddTaxiEdge apt n1 n2 NAN = Ok (apt', i))
            by (vm_compute; reflexivity);
          apply (λ Hb0, built_step _ _ _ Hb0
                          (step_AddTaxiEdge _ _ _ _ _ _ Hrun)) in Hb;
          clear Hrun
      end
  end.

Ltac built_sort Hb :=
  lazymatch type of Hb with
  | built ?apt =>
      let v := eval vm_compute in (SortTaxiEdges apt) in
      lazymatch v with
      | Ok ?apt' =>
          let Hrun := fresh "Hrun" in
          assert (Hrun : SortTaxiEdges apt = Ok apt')
            by (vm_compute; reflexivity);
          apply (λ Hb0, built_step _ _ _ Hb0
                          (step_SortTaxiEdges _ _ Hrun)) in Hb;
          clear Hrun
      end
  end.

Lemma apt_pair_built : built apt_pair.
Proof.
  pose proof (built_new "TEST") as Hb.
  built_node Hb (dbl 0) (dbl 0). built_node Hb (dbl 10) (dbl 0).
  built_edge Hb 0 1. exact Hb.
Defined.

(** X6. In every airport that the builder can produce, each edge listed at a
    taxiway node exists, is a taxiway edge, has that node as one of its two
    ends, and joins nodes that exist. *)
Theorem built_edges_incident `{GeoLib} `{Config} (apt : Apt) (i : nat)
    (nn : TaxiNode) (eIdx : size_t) :
  built apt →
  vecTaxiNodes apt !! i = Some nn → eIdx ∈ vecEdges nn →
  ∃ e na nb,
    vecTaxiEdges apt !! N.to_nat eIdx = Some e
    ∧ type e = TAXI_WAY
    ∧ (a e = N.of_nat i ∨ b e = N.of_nat i)
    ∧ vecTaxiNodes apt !! N.to_nat (a e) = Some na
    ∧ vecTaxiNodes apt !! N.to_nat (b e) = Some nb.
Proof.
  intros Hb Hi Hx.
  destruct (built_incident apt Hb _ _ _ Hi Hx) as (e & He & Hty & Hinc & Ha & Hb').
  destruct (lookup_vsize _ _ Ha) as [na Hna].
  destruct (lookup_vsize _ _ Hb') as [nb Hnb].
  by exists e, na, nb.
Qed.

Lemma built_edges_incident_witness :
  ∃ e, vecTaxiEdges apt_pair !! 0%nat = Some e
       ∧ type e = TAXI_WAY ∧ (a e = 1 ∨ b e = 1).
Proof.
  destruct (built_edges_incident apt_pair 1
              (mkNode (dbl 10) (dbl 0) [0] NAN 0 false) 0 apt_pair_built
              eq_refl ltac:(repeat constructor))
    as (e & _ & _ & He & Hty & Hinc & _).
  by exists e.
Defined.

Lemma incident_graph_wf (apt : Apt) : incident_ok apt → graph_wf apt.
Proof.
  intros Hok i nn x Hi Hx.
  destruct (Hok _ _ _ Hi Hx) as (e & He & _ & _ & Ha & Hb). by exists e.
Qed.

(** X12. On every airport that the builder can produce, a path search that is
    started at a taxiway node of the airport, or at a runway endpoint whose
    attached taxiway nodes exist, for an end node of the airport returns:
    it reads no node or edge out of range. *)
Theorem ShortestPath_built_returns `{GeoLib} `{Config} (apt : Apt)
    (_startN _endN : size_t) (bStartIsRwy : bool) (_maxLen : double) :
  built apt →
  vsize (vecTaxiNodes apt) < ULONG_MAX →
  start_ok apt _startN bStartIsRwy →
  _endN < vsize (vecTaxiNodes apt) →
  ∃ apt' path,
    ShortestPath apt _startN bStartIsRwy _endN _maxLen = Ok (apt', path).
Proof.
  intros Hb Hsize Hstart Hend.
  apply ShortestPath_returns; try done.
  by apply incident_graph_wf, built_incident.
Qed.

Lemma ShortestPath_built_returns_witness :
  ∃ apt', ShortestPath apt_pair 0 false 1 (dbl 100) = Ok (apt', [1]).
Proof.
  destruct (ShortestPath_built_returns apt_pair 0 1 false (dbl 100)
              apt_pair_built eq_refl eq_refl eq_refl) as (apt' & path & Hrun).
  exists apt'. rewrite Hrun. f_equal. f_equal.
  assert (snd <$> ShortestPath apt_pair 0 false 1 (dbl 100) = Ok [1]) as Hp
    by reflexivity.
  rewrite Hrun in Hp. by injection Hp as ->.
Defined.

(** ** Sorting the edge index *)

Lemma Qle_bool_false (p q : Q) : Qle_bool p q = false → (q < p)%Q.
Proof.
  intros Hf. apply Qnot_le_lt. intros Hle.
  apply Qle_bool_iff in Hle. congruence.
Qed.

Lemma dlt_false_dle (x y : double) :
  isnan x = false → isnan y = false → dlt y x = false → dle x y = true.
Proof.
  destruct x as [| |p|], y as [| |q|]; try done. simpl.
  unfold Qlt_bool. intros _ _ Hlt. apply negb_false_iff in Hlt. done.
Qed.

Lemma dlt_dle (x y : double) : dlt x y = true → dle x y = true.
Proof.
  destruct x as [| |p|], y as [| |q|]; try done. simpl.
  rewrite Qlt_bool_iff. intros Hlt. apply Qle_bool_iff. lra.
Qed.

Lemma dle_trans (x y z : double) :
  dle x y = true → dle y z = true → dle x z = true.
Proof.
  destruct x as [| |p|], y as [| |q|], z as [| |r|]; try done. simpl.
  intros H1%Qle_bool_iff H2%Qle_bool_iff. apply Qle_bool_iff. lra.
Qed.

Lemma insert_by_angle_perm (edges : list TaxiEdge) (x : N) (l : list N) :
  insert_by_angle edges x l ≡ₚ x :: l.
Proof.
  induction l as [|y l IH]; simpl; [done|].
  destruct (dlt _ _); [|done]. rewrite IH. apply Permutation_swap.
Qed.

Lemma insert_by_angle_sorted (edges : list TaxiEdge) (x : N) (l : list N) :
  isnan (edge_angle edges x) = false →
  Forall (λ y, isnan (edge_angle edges y) = false) l →
  StronglySorted (angle_le edges) l →
  StronglySorted (angle_le edges) (insert_by_angle edges x l).
Proof.
  intros Hx Hl Hs. induction Hs as [|y l Hs IH Hy]; simpl.
  - repeat constructor.
  - apply Forall_cons in Hl as [Hny Hl].
    destruct (dlt (edge_angle edges y) (edge_angle edges x)) eqn:Hlt.
    + constructor; [by apply IH|].
      rewrite insert_by_angle_perm. constructor; [|done].
      by apply dlt_dle.
    + assert (Hxy : angle_le edges x y) by by apply dlt_false_dle.
      constructor; [by constructor|].
      constructor; [done|].
      eapply Forall_impl; [exact Hy|]. intros z Hz.
      unfold angle_le in *. by eapply dle_trans.
Qed.

Lemma foldr_insert_perm (edges : list TaxiEdge) (l : list N) :
  foldr (insert_by_angle edges) [] l ≡ₚ l.
Proof.
  induction l as [|x l IH]; simpl; [done|].
  by rewrite insert_by_angle_perm, IH.
Qed.

Lemma foldr_insert_sorted (edges : list TaxiEdge) (l : list N) :
  Forall (λ y, isnan (edge_angle edges y) = false) l →
  StronglySorted (angle_le edges) (foldr (insert_by_angle edges) [] l).
Proof.
  induction 1 as [|x l Hx Hl IH]; simpl; [constructor|].
  apply insert_by_angle_sorted; [done| |done].
  by rewrite foldr_insert_perm.
Qed.

Lemma check_indexes_Ok (edges : list TaxiEdge) (l : list N) :
  Forall (λ i, is_Some (edges !! N.to_nat i)) l → check_indexes edges l = Ok ().
Proof.
  induction 1 as [|i l [e He] _ IH]; simpl; [done|].
  apply vidx_Ok in He. by rewrite He, bind_Ok.
Qed.

Lemma elem_of_iota (n : nat) (i : N) :
  i ∈ (N.of_nat <$> seq 0 n) ↔ (N.to_nat i < n)%nat.
Proof.
  rewrite list_elem_of_fmap. split.
  - intros (k & -> & Hk). apply elem_of_seq in Hk. lia.
  - intros Hi. exists (N.to_nat i). split; [by rewrite N2Nat.id|].
    apply elem_of_seq. lia.
Qed.

(** What [SortTaxiEdges] leaves behind when no angle is a NaN and the
    index vector either has another length than the vector of edges or
    lists every edge once. *)
Lemma SortTaxiEdges_spec (apt : Apt) :
  Forall (λ e, isnan (angle e) = false) (vecTaxiEdges apt) →
  length (vecTaxiEdges apt) ≠ length (vecTaxiEdgesIdxHead apt)
  ∨ vecTaxiEdgesIdxHead apt ≡ₚ N.of_nat <$> seq 0 (length (vecTaxiEdges apt)) →
  ∃ idx,
    SortTaxiEdges apt = Ok (set_idxHead apt idx)
    ∧ idx ≡ₚ N.of_nat <$> seq 0 (length (vecTaxiEdges apt))
    ∧ StronglySorted (angle_le (vecTaxiEdges apt)) idx.
Proof.
  intros Hnan Hidx. unfold SortTaxiEdges.
  set (idx0 := if decide _ then _ else _).
  assert (Hperm : idx0 ≡ₚ N.of_nat <$> seq 0 (length (vecTaxiEdges apt))).
  { unfold idx0. destruct (decide _) as [|Heq]; [done|]. by destruct Hidx. }
  assert (Hvalid : Forall (λ i, is_Some (vecTaxiEdges apt !! N.to_nat i)) idx0).
  { rewrite Hperm. apply Forall_forall. intros i Hi.
    apply elem_of_iota in Hi. by apply lookup_lt_is_Some_2. }
  rewrite check_indexes_Ok, bind_Ok by done.
  eexists. split; [reflexivity|]. split; [by rewrite foldr_insert_perm|].
  apply foldr_insert_sorted.
  eapply Forall_impl; [exact Hvalid|]. intros i [e He]. simpl in He.
  unfold edge_angle. rewrite vlookup_lookup, He.
  rewrite Forall_forall in Hnan. apply Hnan. by eapply list_elem_of_lookup_2.
Qed.

(** X7. [SortTaxiEdges], run on edges none of whose angles is a NaN with an
    index vector that has another length than the vector of edges (it is
    rebuilt then) or that lists every edge once, changes the index vector
    only and leaves it listing every edge once, in the order of the
    angles.  If the angles are normalized, this is the state that
    [FindEdgesForHeading] relies on. *)
Theorem SortTaxiEdges_sorted (apt : Apt) :
  Forall (λ e, isnan (angle e) = false) (vecTaxiEdges apt) →
  length (vecTaxiEdges apt) ≠ length (vecTaxiEdgesIdxHead apt)
  ∨ vecTaxiEdgesIdxHead apt ≡ₚ N.of_nat <$> seq 0 (length (vecTaxiEdges apt)) →
  ∃ apt',
    SortTaxiEdges apt = Ok apt'
    ∧ apt' = set_idxHead apt (vecTaxiEdgesIdxHead apt')
    ∧ vecTaxiEdgesIdxHead apt' ≡ₚ N.of_nat <$> seq 0 (length (vecTaxiEdges apt))
    ∧ StronglySorted (angle_le (vecTaxiEdges apt')) (vecTaxiEdgesIdxHead apt')
    ∧ (Forall angle_normalized (vecTaxiEdges apt) → index_ok apt').
Proof.
  intros Hnan Hidx.
  destruct (SortTaxiEdges_spec apt Hnan Hidx) as (idx & Hsort & Hperm & Hs).
  exists (set_idxHead apt idx). split; [done|]. split; [done|].
  split; [done|]. split; [done|].
  intros Hnorm. split; [done|]. cbn [vecTaxiEdges vecTaxiEdgesIdxHead set_idxHead].
  split.
  - apply Forall_forall. intros i Hi. rewrite Hperm in Hi.
    apply elem_of_iota in Hi.
    destruct (lookup_lt_is_Some_2 _ _ Hi) as [e He].
    exists e. split; [done|]. rewrite Forall_forall in Hnorm.
    apply Hnorm. by eapply list_elem_of_lookup_2.
  - intros k e He. rewrite Hperm. apply elem_of_iota.
    rewrite Nat2N.id. by eapply lookup_lt_Some.
Qed.

Lemma SortTaxiEdges_sorted_witness :
  SortTaxiEdges (set_idxHead apt_three_edges []) = Ok apt_three_edges
  ∧ index_ok apt_three_edges.
Proof.
  destruct (SortTaxiEdges_sorted (set_idxHead apt_three_edges []))
    as (apt' & Hsort & _ & _ & _ & Hok).
  { repeat constructor. }
  { left. simpl. lia. }
  assert (SortTaxiEdges (set_idxHead apt_three_edges []) = Ok apt_three_edges)
    as Hrun by reflexivity.
  split; [exact Hrun|].
  rewrite Hrun in Hsort. injection Hsort as <-. apply Hok.
  repeat constructor.
Defined.

(** ** Heading queries *)

(** X8. On an index in the state that [FindEdgesForHeading] relies on, a
    search whose window around the heading (brought below 180) is not
    split has one range, whose bounds are the heading less and plus the
    tolerance as they are computed in double precision.  The search adds to
    the list exactly the edges of the type asked for whose angle lies in
    that range, in the order of the index; the flag returned tells whether
    the list is not empty, also when it was not empty to begin with.  Every
    edge added is within the tolerance of the heading up to [angle_eps],
    and every edge of the type that is within the tolerance less
    [angle_eps] is added; at the very bound of the tolerance the rounding
    of the window decides. *)
Theorem FindEdgesForHeading_unwrapped (apt : Apt) (hs tol : Q) (t : nodeTy)
    (lst0 : list N) (r : double * double) :
  index_ok apt →
  (0 <= hs)%Q → (hs < 360)%Q → (Qabs tol <= 360)%Q →
  heading_ranges (DFin hs) (DFin tol) = [r] →
  r = (dsub (norm180 (DFin hs)) (DFin tol), dadd (norm180 (DFin hs)) (DFin tol))
  ∧ FindEdgesForHeading apt (DFin hs) (DFin tol) lst0 t
    = Ok (match lst0 ++ range_matches apt r t with [] => false | _ => true end,
          lst0 ++ range_matches apt r t)
  ∧ ∀ k e qa,
      vecTaxiEdges apt !! k = Some e → angle e = DFin qa →
      (N.of_nat k ∈ range_matches apt r t
       ↔ (t = UNKNOWN_WAY ∨ t = type e) ∧ angle_in r (DFin qa) = true)
      ∧ (N.of_nat k ∈ range_matches apt r t →
         (Qabs (qa - head180 hs) <= tol + angle_eps)%Q)
      ∧ ((t = UNKNOWN_WAY ∨ t = type e) →
         (Qabs (qa - head180 hs) <= tol - angle_eps)%Q →
         N.of_nat k ∈ range_matches apt r t).
Proof.
  intros (Hs & Hval & Hall) Hhs0 Hhs Htol Hr.
  destruct (heading_window hs tol Hhs0 Hhs Htol)
    as (h & b & c & bi & ci & Hh & Hb & Hc & Hbi & Hci
        & Eh & Eb & Ec & Ebi & Eci & Hranges).
  rewrite Hh, Hb, Hc. rewrite Hranges in Hr.
  destruct (Qle_bool 0 b && Qlt_bool c 180) eqn:Hnormal;
    [|by destruct (Qlt_bool b 0)].
  injection Hr as <-. split; [done|]. split.
  { unfold FindEdgesForHeading. rewrite Hranges.
    cbn [search_ranges]. rewrite search_range_spec by done.
    by rewrite !bind_Ok. }
  intros k e qa He Hqa.
  rewrite (elem_of_range_matches _ _ _ _ k e qa) by done.
  rewrite angle_in_fin. unfold angle_eps. qabs_split.
  split; [tauto|]. split.
  - intros [[H1 H2] _]. apply Qabs_Qle_condition. lra.
  - intros Ht Hw. apply Qabs_Qle_condition in Hw. split; [lra|done].
Qed.

Lemma FindEdgesForHeading_unwrapped_witness :
  heading_ranges (dbl 265) (dbl 10) = [(dbl 75, dbl 95)]
  ∧ FindEdgesForHeading apt_three_edges (dbl 265) (dbl 10) [] UNKNOWN_WAY
    = Ok (true, [0])
  ∧ (Qabs (90 - head180 265) <= 10 + angle_eps)%Q.
Proof.
  assert (Hr : heading_ranges (dbl 265) (dbl 10) = [(dbl 75, dbl 95)])
    by (vm_compute; reflexivity).
  destruct (FindEdgesForHeading_unwrapped apt_three_edges 265 10 UNKNOWN_WAY []
              _ apt_three_edges_index_ok ltac:(lra) ltac:(lra)
              ltac:(apply Qabs_Qle_condition; lra) Hr)
    as (_ & Hfind & Hmem).
  split; [exact Hr|]. split; [vm_compute; reflexivity|].
  destruct (Hmem 0%nat (mkEdge TAXI_WAY 0 1 (dbl 90) (dbl 100)) 90%Q
              eq_refl eq_refl) as (_ & Hsound & _).
  apply Hsound. vm_compute. by left.
Defined.

Lemma lower_bound_loop_total (comp : size_t → res bool) (v : list N)
    (fuel first len : nat) :
  (∀ x, x ∈ v → ∃ c, comp x = Ok c) →
  (len ≤ fuel)%nat → (first + len ≤ length v)%nat →
  ∃ p, lower_bound_loop comp v fuel first len = Ok p ∧ (p ≤ length v)%nat.
Proof.
  intros Hcomp. revert first len.
  induction fuel as [|fuel IH]; intros first len Hfuel Hlen.
  - assert (len = 0%nat) as -> by lia. exists first. split; [done|lia].
  - destruct (decide (len = 0%nat)) as [->|Hne].
    { exists first. split; [done|lia]. }
    rewrite lower_bound_loop_S by done.
    assert (Hhalf : (len / 2 < len)%nat) by (apply Nat.div_lt; lia).
    destruct (lookup_lt_is_Some_2 v (first + len / 2)) as [x Hx]; [lia|].
    rewrite Hx. destruct (Hcomp x) as [c Hc]; [by eapply list_elem_of_lookup_2|].
    rewrite Hc, bind_Ok. destruct c; apply IH; lia.
Qed.

Lemma scan_range_valid (edges : list TaxiEdge) (hi : double) (t : nodeTy)
    (l lst : list N) :
  Forall (λ i, is_Some (edges !! N.to_nat i)) l →
  ∃ l', scan_range edges hi t l lst = Ok (lst ++ l')
        ∧ ∀ i, i ∈ l' →
               i ∈ l ∧ ∃ e, edges !! N.to_nat i = Some e
                            ∧ (t = UNKNOWN_WAY ∨ t = type e).
Proof.
  intros Hval. revert lst.
  induction Hval as [|i l [e He] Hval IH]; intros lst.
  - exists []. split; [simpl; by rewrite app_nil_r|]. intros i Hi.
    by apply elem_of_nil in Hi.
  - cbn [scan_range]. pose proof He as He'. apply vidx_Ok in He'.
    rewrite He', bind_Ok. destruct (dle (angle e) hi).
    + destruct (decide (t = UNKNOWN_WAY ∨ t = GetType e)) as [Hty|Hty].
      * destruct (IH (lst ++ [i])) as (l' & Hscan & Hl').
        exists (i :: l'). split; [by rewrite Hscan, <- app_assoc|].
        intros j Hj. apply elem_of_cons in Hj as [->|Hj].
        -- split; [left|]. by exists e.
        -- destruct (Hl' j Hj) as [Hin Hrest]. split; [by right|done].
      * destruct (IH lst) as (l' & Hscan & Hl').
        exists l'. split; [done|]. intros j Hj.
        destruct (Hl' j Hj) as [Hin Hrest]. split; [by right|done].
    + exists []. split; [by rewrite app_nil_r|]. intros j Hj.
      by apply elem_of_nil in Hj.
Qed.

Lemma search_range_valid (apt : Apt) (rng : double * double) (t : nodeTy)
    (lst : list N) :
  Forall (λ i, is_Some (vecTaxiEdges apt !! N.to_nat i)) (vecTaxiEdgesIdxHead apt) →
  ∃ l', search_range apt rng t lst = Ok (lst ++ l')
        ∧ ∀ i, i ∈ l' →
               i ∈ vecTaxiEdgesIdxHead apt
               ∧ ∃ e, vecTaxiEdges apt !! N.to_nat i = Some e
                      ∧ (t = UNKNOWN_WAY ∨ t = type e).
Proof.
  intros Hval. unfold search_range, lower_bound.
  edestruct (lower_bound_loop_total
               (λ idx, e ← vidx (vecTaxiEdges apt) idx; Ok (dlt (angle e) rng.1))
               (vecTaxiEdgesIdxHead apt) (length (vecTaxiEdgesIdxHead apt)) 0
               (length (vecTaxiEdgesIdxHead apt))) as (p & Hp & _); [|lia|lia|].
  { intros x Hx. rewrite Forall_forall in Hval. destruct (Hval x Hx) as [e He].
    apply vidx_Ok in He. rewrite He, bind_Ok. by eexists. }
  rewrite Hp, bind_Ok.
  destruct (scan_range_valid (vecTaxiEdges apt) rng.2 t
              (drop p (vecTaxiEdgesIdxHead apt)) lst) as (l' & Hscan & Hl').
  { by apply Forall_drop. }
  exists l'. split; [done|]. intros i Hi. destruct (Hl' i Hi) as [Hin Hrest].
  split; [|done]. by eapply subseteq_drop.
Qed.

Lemma search_ranges_valid (apt : Apt) (rngs : list (double * double))
    (t : nodeTy) (lst : list N) :
  Forall (λ i, is_Some (vecTaxiEdges apt !! N.to_nat i)) (vecTaxiEdgesIdxHead apt) →
  ∃ l', search_ranges apt rngs t lst = Ok (lst ++ l')
        ∧ ∀ i, i ∈ l' →
               i ∈ vecTaxiEdgesIdxHead apt
               ∧ ∃ e, vecTaxiEdges apt !! N.to_nat i = Some e
                      ∧ (t = UNKNOWN_WAY ∨ t = type e).
Proof.
  intros Hval. revert lst. induction rngs as [|rng rngs IH]; intros lst.
  - exists []. split; [simpl; by rewrite app_nil_r|]. intros i Hi.
    by apply elem_of_nil in Hi.
  - cbn [search_ranges].
    destruct (search_range_valid apt rng t lst Hval) as (l1 & H1 & Hl1).
    rewrite H1, bind_Ok.
    destruct (IH (lst ++ l1)) as (l2 & H2 & Hl2).
    exists (l1 ++ l2). split; [by rewrite H2, app_assoc|].
    intros i Hi. apply elem_of_app in Hi as [Hi|Hi]; auto.
Qed.

Lemma FindEdgesForHeading_valid (apt : Apt) (_headSearch _angleTolerance : double)
    (lst0 : list N) (t : nodeTy) :
  Forall (λ i, is_Some (vecTaxiEdges apt !! N.to_nat i)) (vecTaxiEdgesIdxHead apt) →
  ∃ lst,
    FindEdgesForHeading apt _headSearch _angleTolerance lst0 t
    = Ok (match lst0 ++ lst with [] => false | _ => true end, lst0 ++ lst)
    ∧ ∀ i, i ∈ lst →
           i ∈ vecTaxiEdgesIdxHead apt
           ∧ ∃ e, vecTaxiEdges apt !! N.to_nat i = Some e
                  ∧ (t = UNKNOWN_WAY ∨ t = type e).
Proof.
  intros Hval. unfold FindEdgesForHeading.
  destruct (search_ranges_valid apt
              (heading_ranges _headSearch _angleTolerance) t lst0 Hval)
    as (l' & Hs & Hl').
  exists l'. by rewrite Hs, bind_Ok.
Qed.

(** X9. Whatever the heading and the tolerance are (a NaN included) and
    whether the index vector is sorted or not: if the index vector lists
    edges of the airport only, [FindEdgesForHeading] returns, and what it
    adds to the list are edges that the index vector lists and that have
    the type asked for. *)
Theorem FindEdgesForHeading_returns (apt : Apt)
    (_headSearch _angleTolerance : double) (lst0 : list N) (t : nodeTy) :
  Forall (λ i, is_Some (vecTaxiEdges apt !! N.to_nat i)) (vecTaxiEdgesIdxHead apt) →
  ∃ lst,
    FindEdgesForHeading apt _headSearch _angleTolerance lst0 t
    = Ok (match lst0 ++ lst with [] => false | _ => true end, lst0 ++ lst)
    ∧ ∀ i, i ∈ lst →
           i ∈ vecTaxiEdgesIdxHead apt
           ∧ ∃ e, vecTaxiEdges apt !! N.to_nat i = Some e
                  ∧ (t = UNKNOWN_WAY ∨ t = type e).
Proof. apply FindEdgesForHeading_valid. Qed.

Lemma FindEdgesForHeading_returns_witness :
  FindEdgesForHeading apt_three_edges NAN (dbl 10) [] TAXI_WAY = Ok (true, [0; 1]).
Proof.
  destruct (FindEdgesForHeading_returns apt_three_edges NAN (dbl 10) [] TAXI_WAY)
    as (lst & Hfind & _).
  { repeat constructor; by eexists. }
  assert (FindEdgesForHeading apt_three_edges NAN (dbl 10) [] TAXI_WAY
          = Ok (true, [0; 1])) as Hrun by reflexivity.
  rewrite Hrun in Hfind. injection Hfind as _ <-. exact Hrun.
Defined.

(** ** The path search *)

Lemma same_place_refl (nodes : list TaxiNode) : Forall2 same_place nodes nodes.
Proof. apply Forall2_same_length_lookup_2; [done|]. intros i x y ? ?. by simplify_eq. Qed.

Lemma same_place_trans (l1 l2 l3 : list TaxiNode) :
  Forall2 same_place l1 l2 → Forall2 same_place l2 l3 → Forall2 same_place l1 l3.
Proof.
  intros H12. revert l3. induction H12 as [|x y l1 l2 Hxy _ IH]; intros l3 H23.
  - by apply Forall2_nil_inv_l in H23 as ->.
  - apply Forall2_cons_inv_l in H23 as (z & l3' & Hyz & H23 & ->).
    constructor; [|by apply IH].
    destruct Hxy as (? & ? & ?), Hyz as (? & ? & ?). unfold same_place.
    repeat split; congruence.
Qed.

Lemma same_place_vset (nodes : list TaxiNode) (i : N) (n n' : TaxiNode) :
  nodes !! N.to_nat i = Some n → same_place n n' →
  Forall2 same_place nodes (vset nodes i n').
Proof.
  intros Hi Hn. unfold vset. apply Forall2_same_length_lookup_2.
  { by rewrite length_insert. }
  intros j x y Hx Hy. destruct (decide (j = N.to_nat i)) as [->|Hne].
  - rewrite list_lookup_insert_eq in Hy by by eapply lookup_lt_Some.
    by simplify_eq.
  - rewrite list_lookup_insert_ne in Hy by done. simplify_eq.
    by repeat split.
Qed.

Lemma same_place_set_path (n : TaxiNode) (d : double) (p : N) :
  same_place n (set_path n d p).
Proof. by repeat split. Qed.

Lemma same_place_set_visited (n : TaxiNode) : same_place n (set_visited n).
Proof. by repeat split. Qed.

Lemma seed_nodes_same_place (l : list N) (st st' : dijkstra_state) :
  seed_nodes l st = Ok st' → Forall2 same_place st.1 st'.1.
Proof.
  revert st. induction l as [|n l IH]; intros st; simpl.
  - intros [= <-]. apply same_place_refl.
  - intros Hrun. apply bind_Ok_inv in Hrun as (nd & Hnd & Hrun).
    apply vidx_Ok in Hnd. apply IH in Hrun. simpl in Hrun.
    eapply same_place_trans; [|exact Hrun].
    eapply same_place_vset; [exact Hnd|apply same_place_set_path].
Qed.

Lemma relax_edges_same_place (edges : list TaxiEdge) (_endN : N)
    (_maxLen : double) (s : N) (d : double) (es : list N)
    (st st' : dijkstra_state) :
  relax_edges edges _endN _maxLen s d es st = Ok st' →
  Forall2 same_place st.1 st'.1.
Proof.
  revert st. induction es as [|eIdx es IH]; intros st; simpl.
  - intros [= <-]. apply same_place_refl.
  - intros Hrun. apply bind_Ok_inv in Hrun as (e & He & Hrun).
    apply bind_Ok_inv in Hrun as (updN & Hupd & Hrun). apply vidx_Ok in Hupd.
    destruct (bVisited updN); [by apply IH|].
    destruct (_ || _); [by apply IH|].
    assert (Hstep : Forall2 same_place st.1
              (vset st.1 (otherNode e s)
                 (set_path updN (dadd d (dist_m e)) s))).
    { eapply same_place_vset; [exact Hupd|apply same_place_set_path]. }
    destruct (decide _).
    + by injection Hrun as <-.
    + apply IH in Hrun. simpl in Hrun. by eapply same_place_trans.
Qed.

Lemma visit_shortest_same_place (edges : list TaxiEdge) (_endN : N)
    (_maxLen : double) (st st' : dijkstra_state) :
  visit_shortest edges _endN _maxLen st = Ok st' →
  Forall2 same_place st.1 st'.1.
Proof.
  unfold visit_shortest. destruct st.2 as [|first rest] eqn:Hv.
  { intros [= <-]. apply same_place_refl. }
  intros Hrun. apply bind_Ok_inv in Hrun as (n0 & _ & Hrun).
  apply bind_Ok_inv in Hrun as ([pos d] & _ & Hrun).
  destruct ((first :: rest) !! pos) as [s|]; [|done].
  apply bind_Ok_inv in Hrun as (sN & Hs & Hrun). apply vidx_Ok in Hs.
  apply relax_edges_same_place in Hrun. simpl in Hrun.
  eapply same_place_trans; [|exact Hrun].
  eapply same_place_vset; [exact Hs|apply same_place_set_visited].
Qed.

Lemma dijkstra_loop_same_place (fuel : nat) (edges : list TaxiEdge) (_endN : N)
    (_maxLen : double) (st st' : dijkstra_state) :
  dijkstra_loop fuel edges _endN _maxLen st = Ok st' →
  Forall2 same_place st.1 st'.1.
Proof.
  revert st. induction fuel as [|fuel IH]; intros st; simpl.
  - destruct st.2; [intros [= <-]; apply same_place_refl|].
    intros Hrun. apply bind_Ok_inv in Hrun as (en & _ & Hrun).
    destruct (decide _); [done|]. injection Hrun as <-. apply same_place_refl.
  - destruct st.2; [intros [= <-]; apply same_place_refl|].
    intros Hrun. apply bind_Ok_inv in Hrun as (en & _ & Hrun).
    destruct (decide _); [|injection Hrun as <-; apply same_place_refl].
    apply bind_Ok_inv in Hrun as (st1 & Hvisit & Hrun).
    apply visit_shortest_same_place in Hvisit. apply IH in Hrun.
    by eapply same_place_trans.
Qed.

Lemma seed_start_same_place (apt : Apt) (_startN : N) (bStartIsRwy : bool)
    (st0 : dijkstra_state) :
  seed_start apt _startN bStartIsRwy = Ok st0 →
  Forall2 same_place (vecTaxiNodes apt) st0.1.
Proof.
  assert (Hinit : Forall2 same_place (vecTaxiNodes apt)
                    (InitDijkstraAttr <$> vecTaxiNodes apt)).
  { apply Forall2_fmap_r, Forall2_same_length_lookup_2; [done|].
    intros i x y ? ?. simplify_eq. by repeat split. }
  unfold seed_start. destruct bStartIsRwy.
  - intros Hrun. apply bind_Ok_inv in Hrun as (ep & _ & Hrun).
    apply seed_nodes_same_place in Hrun. by eapply same_place_trans.
  - intros Hrun. apply bind_Ok_inv in Hrun as (nd & Hnd & [= <-]).
    apply vat_Ok in Hnd. simpl.
    eapply same_place_trans; [exact Hinit|].
    eapply same_place_vset; [exact Hnd|apply same_place_set_path].
Qed.

Lemma ShortestPath_same_place (apt apt' : Apt) (_startN _endN : N)
    (bStartIsRwy : bool) (_maxLen : double) (path : list N) :
  ShortestPath apt _startN bStartIsRwy _endN _maxLen = Ok (apt', path) →
  apt' = set_nodes apt (vecTaxiNodes apt')
  ∧ Forall2 same_place (vecTaxiNodes apt) (vecTaxiNodes apt').
Proof.
  unfold ShortestPath. destruct (_ && _).
  { intros [= <- _]. split; [by destruct apt|apply same_place_refl]. }
  intros Hrun. apply bind_Ok_inv in Hrun as (st0 & Hst0 & Hrun).
  apply bind_Ok_inv in Hrun as (en0 & _ & Hrun).
  apply bind_Ok_inv in Hrun as (st & Hloop & Hrun).
  apply bind_Ok_inv in Hrun as (en & _ & Hrun).
  apply seed_start_same_place in Hst0. apply dijkstra_loop_same_place in Hloop.
  assert (Hall : Forall2 same_place (vecTaxiNodes apt) st.1)
    by by eapply same_place_trans.
  destruct (decide _).
  - by injection Hrun as <- _.
  - apply bind_Ok_inv in Hrun as (p & _ & [= <- _]). done.
Qed.

(** X13. A path search writes to the three attributes of the search only: the
    airport it leaves behind has the same nodes with the same coordinates
    and the same edges listed, and nothing else of the airport is
    changed. *)
Theorem ShortestPath_frame (apt apt' : Apt) (_startN _endN : N)
    (bStartIsRwy : bool) (_maxLen : double) (path : list N) :
  ShortestPath apt _startN bStartIsRwy _endN _maxLen = Ok (apt', path) →
  apt' = set_nodes apt (vecTaxiNodes apt')
  ∧ length (vecTaxiNodes apt') = length (vecTaxiNodes apt)
  ∧ ∀ i n', vecTaxiNodes apt' !! i = Some n' →
            ∃ n, vecTaxiNodes apt !! i = Some n
                 ∧ lat n' = lat n ∧ lon n' = lon n ∧ vecEdges n' = vecEdges n.
Proof.
  intros Hrun. destruct (ShortestPath_same_place _ _ _ _ _ _ _ Hrun) as [Hapt Hsame].
  split; [done|]. split; [symmetry; by eapply Forall2_length|].
  intros i n' Hn'.
  destruct (Forall2_lookup_r _ _ _ _ _ Hsame Hn') as (n & Hn & H1 & H2 & H3).
  by exists n.
Qed.

Lemma ShortestPath_frame_witness :
  ∃ apt', ShortestPath apt_line 0 false 2 (dbl 100) = Ok (apt', [2; 1])
          ∧ (lat <$> vecTaxiNodes apt') = (lat <$> vecTaxiNodes apt_line)
          ∧ vecTaxiEdges apt' = vecTaxiEdges apt_line.
Proof.
  assert (∃ apt', ShortestPath apt_line 0 false 2 (dbl 100) = Ok (apt', [2; 1]))
    as [apt' Hrun].
  { vm_compute. eexists. reflexivity. }
  destruct (ShortestPath_frame _ _ _ _ _ _ _ Hrun) as (Hapt & _ & _).
  exists apt'. split; [done|]. split; [|by rewrite Hapt].
  revert Hrun. vm_compute. by intros [= <-].
Defined.

Lemma chain_det (edges : list TaxiEdge) (maxLen : double) (nodes : list TaxiNode)
    (n : N) (l1 l2 : list N) :
  chain edges maxLen nodes n l1 → chain edges maxLen nodes n l2 → l1 = l2.
Proof.
  intros H1. revert l2.
  induction H1 as
    [s ns Hs Hprev Hlen|n nn np l eIdx e Hn Hnp1 Hp Hv Hc IH HeIdx He Ho Hlen Hmax];
    intros l2 H2.
  - destruct H2 as [s' ns' Hs' _ _|n' nn' ? ? ? ? Hn' Hnp' _ _ _ _ _ _ _ _];
      [done|]. congruence.
  - destruct H2 as [s' ns' Hs' Hprev' _|n' nn' ? l' ? ? Hn' Hnp' _ _ Hc' _ _ _ _ _].
    + congruence.
    + f_equal. apply IH. assert (nn' = nn) as -> by congruence. done.
Qed.

Lemma chain_from_listed (edges : list TaxiEdge) (maxLen : double)
    (nodes : list TaxiNode) (n : N) (l : list N) :
  chain edges maxLen nodes n l →
  ∀ x, x ∈ l →
       ∃ l', chain edges maxLen nodes x l' ∧ (length l' ≤ length l)%nat.
Proof.
  induction 1 as
    [s ns Hs Hprev Hlen|n nn np l eIdx e Hn Hnp1 Hp Hv Hc IH HeIdx He Ho Hlen Hmax];
    intros x Hx.
  - by apply elem_of_nil in Hx.
  - apply elem_of_cons in Hx as [->|Hx].
    + exists (n :: l). split; [|done]. by eapply chain_step.
    + destruct (IH x Hx) as (l' & Hl' & Hlen'). exists l'. split; [done|].
      simpl. lia.
Qed.

Lemma chain_NoDup (edges : list TaxiEdge) (maxLen : double)
    (nodes : list TaxiNode) (n : N) (l : list N) :
  chain edges maxLen nodes n l → NoDup l.
Proof.
  induction 1 as
    [s ns Hs Hprev Hlen|n nn np l eIdx e Hn Hnp1 Hp Hv Hc IH HeIdx He Ho Hlen Hmax].
  - constructor.
  - constructor; [|done]. intros Hin.
    destruct (chain_from_listed _ _ _ _ _ Hc n Hin) as (l' & Hl' & Hlen').
    assert (Hfull : chain edges maxLen nodes n (n :: l)) by by eapply chain_step.
    pose proof (chain_det _ _ _ _ _ _ Hl' Hfull) as ->. simpl in Hlen'. lia.
Qed.

Lemma chain_links (edges : list TaxiEdge) (maxLen : double)
    (nodes : list TaxiNode) (n : N) (l : list N) :
  chain edges maxLen nodes n l →
  ∀ k x, l !! k = Some x →
    ∃ nx, nodes !! N.to_nat x = Some nx
          ∧ match l !! S k with
            | Some y => prevIdx nx = y
            | None => ∃ ns, nodes !! N.to_nat (prevIdx nx) = Some ns
                            ∧ prevIdx ns = ULONG_MAX - 1
            end.
Proof.
  induction 1 as
    [s ns Hs Hprev Hlen|n nn np l eIdx e Hn Hnp1 Hp Hv Hc IH HeIdx He Ho Hlen Hmax];
    intros k x Hk; [done|].
  destruct k as [|k].
  - injection Hk as <-. exists nn. split; [done|]. simpl.
    destruct (chain_head _ _ _ _ _ Hc) as (np' & Hnp' & Hnil & Hcons).
    assert (np' = np) as -> by congruence.
    destruct l as [|y l'].
    + simpl. exists np. split; [done|]. by apply Hnil.
    + simpl. destruct (Hcons ltac:(done)) as (l'' & [= -> _] & _). done.
  - simpl in Hk. by apply IH.
Qed.

Lemma ShortestPath_shape (apt apt' : Apt) (_startN _endN : N)
    (bStartIsRwy : bool) (_maxLen : double) (path : list N) :
  vsize (vecTaxiNodes apt) < ULONG_MAX →
  ShortestPath apt _startN bStartIsRwy _endN _maxLen = Ok (apt', path) →
  NoDup path
  ∧ (path ≠ [] → head path = Some _endN)
  ∧ ∀ k x, path !! k = Some x →
      ∃ nx, vecTaxiNodes apt' !! N.to_nat x = Some nx
            ∧ match path !! S k with
              | Some y => prevIdx nx = y
              | None => prevIdx nx ∈ start_nodes apt _startN bStartIsRwy
                        ∧ prevIdx nx ∉ path
              end.
Proof.
  intros Hsize Hrun.
  destruct (ShortestPath_result _ _ _ _ _ _ _ Hsize Hrun)
    as [(_ & _ & _ & ->)|(k0 & st & en & -> & Hinv & Hen & Hcase)].
  { split; [constructor|]. split; [done|]. intros k x Hk. done. }
  destruct Hcase as [[_ ->]|[Hprev Hchain]].
  { split; [constructor|]. split; [done|]. intros k x Hk. done. }
  split; [by eapply chain_NoDup|]. split.
  - intros Hne. destruct (chain_head _ _ _ _ _ Hchain) as (en' & _ & _ & Hcons).
    by destruct (Hcons Hne) as (l' & -> & _).
  - intros k x Hk. cbn [vecTaxiNodes set_nodes].
    destruct (chain_links _ _ _ _ _ Hchain k x Hk) as (nx & Hnx & Hnext).
    exists nx. split; [done|].
    destruct (path !! S k) as [y|]; [done|].
    destruct Hnext as (ns & Hns & Hstart). split.
    + by eapply (inv_seed _ _ _ _ _ Hinv).
    + intros Hin.
      destruct (chain_not_start _ _ _ _ _ Hchain _ Hin) as (ns' & Hns' & Hno).
      congruence.
Qed.

(** X14. The list that a path search returns names no node twice and, if it is
    not empty, begins with the end node; the predecessor stored at each
    node of the list is the node listed next, and the predecessor stored
    at the last node of the list is one of the start nodes, which is not
    in the list. *)
Theorem ShortestPath_path_shape (apt apt' : Apt) (_startN _endN : N)
    (bStartIsRwy : bool) (_maxLen : double) (path : list N) :
  vsize (vecTaxiNodes apt) < ULONG_MAX →
  ShortestPath apt _startN bStartIsRwy _endN _maxLen = Ok (apt', path) →
  NoDup path
  ∧ (path ≠ [] → head path = Some _endN)
  ∧ ∀ k x, path !! k = Some x →
      ∃ nx, vecTaxiNodes apt' !! N.to_nat x = Some nx
            ∧ match path !! S k with
              | Some y => prevIdx nx = y
              | None => prevIdx nx ∈ start_nodes apt _startN bStartIsRwy
                        ∧ prevIdx nx ∉ path
              end.
Proof. apply ShortestPath_shape. Qed.

Lemma ShortestPath_path_shape_witness :
  ∃ apt' n1,
    ShortestPath apt_line 0 true 2 (dbl 100) = Ok (apt', [2; 1])
    ∧ vecTaxiNodes apt' !! 1%nat = Some n1
    ∧ prevIdx n1 ∈ start_nodes apt_line 0 true.
Proof.
  assert (∃ apt', ShortestPath apt_line 0 true 2 (dbl 100) = Ok (apt', [2; 1]))
    as [apt' Hrun].
  { vm_compute. eexists. reflexivity. }
  destruct (ShortestPath_path_shape apt_line apt' 0 2 true (dbl 100) [2; 1]
              eq_refl Hrun) as (_ & _ & Hlinks).
  destruct (Hlinks 1%nat 1 eq_refl) as (n1 & Hn1 & Hstart & _).
  exists apt', n1. exact (conj Hrun (conj Hn1 Hstart)).
Defined.

Lemma seed_nodes_marks (l : list N) (st st' : dijkstra_state) :
  seed_nodes l st = Ok st' →
  st'.2 = st.2 ++ l
  ∧ ∀ x, (x ∈ l ∨ ∃ nx, st.1 !! N.to_nat x = Some nx
                        ∧ prevIdx nx = ULONG_MAX - 1) →
         ∃ nx', st'.1 !! N.to_nat x = Some nx' ∧ prevIdx nx' = ULONG_MAX - 1.
Proof.
  revert st. induction l as [|n l IH]; intros st; simpl.
  - intros [= <-]. split; [by rewrite app_nil_r|].
    intros x [Hx|Hx]; [by apply elem_of_nil in Hx|done].
  - intros Hrun. apply bind_Ok_inv in Hrun as (nd & Hnd & Hrun).
    apply vidx_Ok in Hnd. destruct (IH _ Hrun) as [Hvisit Hmarks].
    simpl in Hvisit, Hmarks. split; [by rewrite Hvisit, <- app_assoc|].
    intros x Hx. apply Hmarks.
    destruct (decide (x = n)) as [->|Hne].
    + right. exists (set_path nd (dbl 0) (ULONG_MAX - 1)). split; [|done].
      unfold vset. apply list_lookup_insert_eq. by eapply lookup_lt_Some.
    + destruct Hx as [Hx|(nx & Hnx & Hprev)].
      * apply elem_of_cons in Hx as [?|Hx]; [done|by left].
      * right. exists nx. split; [|done]. unfold vset.
        rewrite list_lookup_insert_ne; [done|]. intros Heq. apply Hne.
        by apply N2Nat.inj.
Qed.

(** X15. A search that starts at a runway endpoint for an end node that is one
    of the taxiway nodes attached to that endpoint returns the empty list,
    as a search from a taxiway node to itself does: the loop is not
    entered, and the end node carries the mark of a start node. *)
Theorem ShortestPath_end_is_start (apt : Apt) (_startN _endN : size_t)
    (_maxLen : double) (ep : RwyEndPt) :
  vecRwyEndPts apt !! N.to_nat _startN = Some ep →
  (∀ n, n ∈ vecTaxiNodes_of ep → n < vsize (vecTaxiNodes apt)) →
  _endN ∈ vecTaxiNodes_of ep →
  ∃ apt', ShortestPath apt _startN true _endN _maxLen = Ok (apt', [])
          ∧ ShortestPath apt _endN false _endN _maxLen = Ok (apt, []).
Proof.
  intros Hep Hin Hend. unfold ShortestPath. cbn [negb andb].
  rewrite bool_decide_eq_true_2 by done. cbn [andb].
  unfold seed_start. pose proof Hep as Hep'. apply vat_Ok in Hep'.
  rewrite Hep', bind_Ok.
  destruct (seed_nodes_ok (vecTaxiNodes_of ep)
              (InitDijkstraAttr <$> vecTaxiNodes apt, [])) as [st0 Hst0].
  { intros n Hn. simpl. unfold vsize. rewrite length_fmap. by apply Hin. }
  rewrite Hst0, bind_Ok.
  destruct (seed_nodes_marks _ _ _ Hst0) as [Hvisit Hmarks].
  destruct (Hmarks _endN (or_introl Hend)) as (en & Hen & Hprev).
  pose proof Hen as Hen1. apply vidx_Ok in Hen1.
  pose proof Hen as Hen2. apply vat_Ok in Hen2.
  rewrite Hen1, bind_Ok.
  assert (Hloop : ∀ fuel, dijkstra_loop fuel (vecTaxiEdges apt) _endN _maxLen st0
                          = Ok st0).
  { intros fuel. destruct fuel; simpl; destruct st0.2; try done;
      rewrite Hen1, bind_Ok;
      rewrite decide_False; try done; rewrite Hprev; unfold ULONG_MAX; lia. }
  rewrite Hloop, bind_Ok, Hen1, bind_Ok.
  rewrite decide_False by (rewrite Hprev; unfold ULONG_MAX; lia).
  rewrite collect_path_unfold, Hen2, bind_Ok.
  rewrite decide_True by done. rewrite bind_Ok. by eexists.
Qed.

Lemma ShortestPath_end_is_start_witness :
  snd <$> ShortestPath apt_line 0 true 0 (dbl 100) = Ok [].
Proof.
  destruct (ShortestPath_end_is_start apt_line 0 0 (dbl 100)
              (mkRwyEndPt (TaxiNode_at (dbl 0) (dbl (-3))) "09" NAN [0]) eq_refl)
    as (apt' & Hrun & _).
  - intros n Hn. apply list_elem_of_singleton in Hn as ->. reflexivity.
  - repeat constructor.
  - by rewrite Hrun.
Defined.

(** ** The nearest edge *)

Lemma closest_edge_step_closer `{GeoLib} `{Config} (apt : Apt) (pos : positionTy)
    (hs md tol : double) (skip : option N) (best : closestTy) (eIdx : N) :
  closest_edge_step apt pos hs md tol skip best eIdx
  = (c ← edge_candidate apt pos hs md tol skip eIdx;
     Ok (match c with Some c' => closer best c' | None => best end)).
Proof.
  unfold closest_edge_step, edge_candidate.
  destruct (vidx (vecTaxiEdges apt) eIdx) as [e|err]; [|done].
  rewrite !bind_Ok. destruct (bool_decide _); [done|].
  destruct (startByHeading_node e apt hs) as [from|err]; [|done].
  rewrite !bind_Ok.
  destruct (endByHeading_node e apt hs) as [to|err]; [|done].
  rewrite !bind_Ok. cbv zeta.
  destruct (dgt (dist2 _) md); [done|]. cbn [orb].
  unfold closer. cbn [bestPrioDist].
  destruct (dgt (DistSqrOfBaseBeyondLine _) md); rewrite ?bind_Ok;
    by destruct (dge _ _).
Qed.

Lemma closest_edge_loop_fold `{GeoLib} `{Config} (apt : Apt) (pos : positionTy)
    (hs md tol : double) (skip : option N) (l : list N) (best best' : closestTy) :
  closest_edge_loop apt pos hs md tol skip l best = Ok best' →
  ∃ cs, edge_candidates apt pos hs md tol skip l = Ok cs
        ∧ best' = fold_left closer cs best.
Proof.
  revert best. induction l as [|eIdx l IH]; intros best; simpl.
  - intros [= <-]. by exists [].
  - intros Hrun. apply bind_Ok_inv in Hrun as (best1 & Hstep & Hrun).
    rewrite closest_edge_step_closer in Hstep.
    apply bind_Ok_inv in Hstep as (c & Hc & [= <-]).
    destruct (IH _ Hrun) as (cs & Hcs & ->).
    rewrite Hc, Hcs, !bind_Ok. eexists. split; [reflexivity|].
    by destruct c.
Qed.

Lemma edge_candidate_Some `{GeoLib} `{Config} (apt : Apt) (pos : positionTy)
    (hs md tol : double) (skip : option N) (eIdx : N) (c : closestTy) :
  edge_candidate apt pos hs md tol skip eIdx = Ok (Some c) →
  ∃ e, bestEdge c = Some (eIdx, e)
       ∧ vecTaxiEdges apt !! N.to_nat eIdx = Some e
       ∧ skip ≠ Some eIdx
       ∧ dgt (dist2 (bestDist c)) md = false
       ∧ dgt (DistSqrOfBaseBeyondLine (bestDist c)) md = false.
Proof.
  unfold edge_candidate. intros Hc.
  apply bind_Ok_inv in Hc as (e & He & Hc). apply vidx_Ok in He.
  destruct (bool_decide _) eqn:Hskip; [done|].
  apply bool_decide_eq_false in Hskip.
  apply bind_Ok_inv in Hc as (from & _ & Hc).
  apply bind_Ok_inv in Hc as (to & _ & Hc). cbv zeta in Hc.
  destruct (dgt (dist2 _) md) eqn:Hd; [done|]. cbn [orb] in Hc.
  destruct (dgt (DistSqrOfBaseBeyondLine _) md) eqn:Hb; [done|].
  injection Hc as <-. by exists e.
Qed.

Lemma elem_of_edge_candidates `{GeoLib} `{Config} (apt : Apt) (pos : positionTy)
    (hs md tol : double) (skip : option N) (l : list N) (cs : list closestTy)
    (c : closestTy) :
  edge_candidates apt pos hs md tol skip l = Ok cs → c ∈ cs →
  ∃ eIdx, eIdx ∈ l ∧ edge_candidate apt pos hs md tol skip eIdx = Ok (Some c).
Proof.
  revert cs. induction l as [|eIdx l IH]; intros cs; simpl.
  - intros [= <-] Hc. by apply elem_of_nil in Hc.
  - intros Hrun Hc. apply bind_Ok_inv in Hrun as (c0 & Hc0 & Hrun).
    apply bind_Ok_inv in Hrun as (cs0 & Hcs0 & [= <-]).
    destruct c0 as [c0|].
    + apply elem_of_cons in Hc as [->|Hc].
      * exists eIdx. split; [left|done].
      * destruct (IH _ Hcs0 Hc) as (j & Hj & Hcj). exists j. split; [by right|done].
    + destruct (IH _ Hcs0 Hc) as (j & Hj & Hcj). exists j. split; [by right|done].
Qed.

Lemma fold_closer_cases (cs : list closestTy) (best : closestTy) :
  fold_left closer cs best = best ∨ fold_left closer cs best ∈ cs.
Proof.
  revert best. induction cs as [|c cs IH]; intros best; simpl; [by left|].
  destruct (IH (closer best c)) as [Heq|Hin].
  - rewrite Heq. unfold closer. destruct (dge _ _); [by left|right; left].
  - right. by right.
Qed.

Lemma fold_closer_spec (cs : list closestTy) (best : closestTy) (q0 : Q) :
  bestPrioDist best = DFin q0 →
  Forall (λ c, is_finite (bestPrioDist c)) cs →
  (fold_left closer cs best = best
   ∧ ∀ c, c ∈ cs → dle (DFin q0) (bestPrioDist c) = true)
  ∨ ∃ l1 c l2 q,
      cs = l1 ++ c :: l2
      ∧ fold_left closer cs best = c
      ∧ bestPrioDist c = DFin q ∧ (q < q0)%Q
      ∧ (∀ c', c' ∈ l1 → dlt (DFin q) (bestPrioDist c') = true)
      ∧ (∀ c', c' ∈ l2 → dle (DFin q) (bestPrioDist c') = true).
Proof.
  intros Hq0 Hfin. revert best q0 Hq0.
  induction Hfin as [|c cs Hc Hfin IH]; intros best q0 Hq0.
  - left. split; [done|]. intros c Hc. by apply elem_of_nil in Hc.
  - cbn [fold_left]. unfold closer at 2 4. rewrite Hq0.
    destruct (bestPrioDist c) as [| |q1|] eqn:Hq1; try done.
    unfold dge. destruct (dle (DFin q0) (DFin q1)) eqn:Hcmp.
    + apply dle_fin in Hcmp.
      destruct (IH best q0 Hq0)
        as [[Hsame Hall]|(l1 & c2 & l2 & q2 & -> & Hres & Hq2 & Hlt & H1 & H2)].
      * left. split; [done|]. intros c' Hc'.
        apply elem_of_cons in Hc' as [->|Hc']; [|by apply Hall].
        rewrite Hq1. by apply dle_fin.
      * right. exists (c :: l1), c2, l2, q2.
        split; [done|]. split; [done|]. split; [done|]. split; [done|].
        split; [|done]. intros c' Hc'.
        apply elem_of_cons in Hc' as [->|Hc']; [|by apply H1].
        rewrite Hq1. apply dlt_fin. lra.
    + apply dle_fin_false in Hcmp.
      destruct (IH c q1 Hq1)
        as [[Hsame Hall]|(l1 & c2 & l2 & q2 & -> & Hres & Hq2 & Hlt & H1 & H2)].
      * right. exists [], c, cs, q1.
        split; [done|]. split; [done|]. split; [done|]. split; [done|].
        split; [|done]. intros c' Hc'. by apply elem_of_nil in Hc'.
      * right. exists (c :: l1), c2, l2, q2.
        split; [done|]. split; [done|]. split; [done|]. split; [lra|].
        split; [|done]. intros c' Hc'.
        apply elem_of_cons in Hc' as [->|Hc']; [|by apply H1].
        rewrite Hq1. by apply dlt_fin.
Qed.

Lemma fold_closer_none (cs : list closestTy) :
  Forall (λ c, is_finite (bestPrioDist c)) cs →
  (cs = [] ∧ fold_left closer cs closest_none = closest_none)
  ∨ ∃ l1 c l2 q,
      cs = l1 ++ c :: l2
      ∧ fold_left closer cs closest_none = c
      ∧ bestPrioDist c = DFin q
      ∧ (∀ c', c' ∈ l1 → dlt (DFin q) (bestPrioDist c') = true)
      ∧ (∀ c', c' ∈ l2 → dle (DFin q) (bestPrioDist c') = true).
Proof.
  intros Hfin. destruct Hfin as [|c cs Hc Hfin]; [by left|].
  right. cbn [fold_left].
  assert (closer closest_none c = c) as ->.
  { unfold closer. simpl. by destruct (bestPrioDist c). }
  destruct (bestPrioDist c) as [| |q1|] eqn:Hq1; try done.
  destruct (fold_closer_spec cs c q1 Hq1 Hfin)
    as [[Hsame Hall]|(l1 & c2 & l2 & q2 & -> & Hres & Hq2 & Hlt & H1 & H2)].
  - exists [], c, cs, q1. split; [done|]. split; [done|]. split; [done|].
    split; [|done]. intros c' Hc'. by apply elem_of_nil in Hc'.
  - exists (c :: l1), c2, l2, q2. split; [done|]. split; [done|].
    split; [done|]. split; [|done]. intros c' Hc'.
    apply elem_of_cons in Hc' as [->|Hc']; [|by apply H1].
    rewrite Hq1. by apply dlt_fin.
Qed.

Lemma FindClosestEdge_fold `{GeoLib} `{Config} (apt : Apt)
    (pos basePt : positionTy) (md : Z) (tol tolExt : double) (skip : option N)
    (found : option (N * TaxiEdge)) (p' : positionTy) :
  FindClosestEdge apt pos basePt md tol tolExt skip = Ok (found, p') →
  ∃ b lst cs,
    FindEdgesForHeading apt (HeadingNormalize (pos_heading pos))
      (dmax tol tolExt) [] UNKNOWN_WAY = Ok (b, lst)
    ∧ edge_candidates apt pos (HeadingNormalize (pos_heading pos))
        (DFin (inject_Z (sqr_int md))) tol skip lst = Ok cs
    ∧ found = bestEdge (fold_left closer cs closest_none).
Proof.
  unfold FindClosestEdge. intros Hrun.
  apply bind_Ok_inv in Hrun as ([b lst] & Hfind & Hrun).
  exists b, lst. rewrite Hfind.
  destruct b; cbn [negb] in Hrun.
  - apply bind_Ok_inv in Hrun as (best & Hloop & Hrun).
    destruct (closest_edge_loop_fold _ _ _ _ _ _ _ _ _ Hloop) as (cs & Hcs & ->).
    exists cs. split; [done|]. split; [done|].
    destruct (bestEdge _) as [[i e]|]; by injection Hrun as <- _.
  - injection Hrun as <- _.
    assert (lst = []) as ->.
    { unfold FindEdgesForHeading in Hfind.
      apply bind_Ok_inv in Hfind as (l & _ & [= Hb <-]). by destruct l. }
    by exists [].
Qed.

(** X16. An edge that [FindClosestEdge] returns is an edge of the airport that
    [FindEdgesForHeading] found for the heading of the position; it is not
    the edge to skip, its squared distance from the position does not
    compare greater than the square of the maximum as the source computes
    it, the product of two [int] in 32 bits, nor does the squared distance
    of the base point beyond its ends; of the position handed back nothing
    is changed but latitude, longitude and the index of the edge. *)
Theorem FindClosestEdge_found `{GeoLib} `{Config} (apt : Apt)
    (pos basePt : positionTy) (md : Z) (tol tolExt : double) (skip : option N)
    (i : size_t) (e : TaxiEdge) (p' : positionTy) :
  FindClosestEdge apt pos basePt md tol tolExt skip = Ok (Some (i, e), p') →
  vecTaxiEdges apt !! N.to_nat i = Some e
  ∧ skip ≠ Some i
  ∧ (∃ lst, FindEdgesForHeading apt (HeadingNormalize (pos_heading pos))
              (dmax tol tolExt) [] UNKNOWN_WAY = Ok (true, lst)
            ∧ i ∈ lst)
  ∧ (∃ c, edge_candidate apt pos (HeadingNormalize (pos_heading pos))
            (DFin (inject_Z (sqr_int md))) tol skip i = Ok (Some c)
          ∧ dgt (dist2 (bestDist c)) (DFin (inject_Z (sqr_int md))) = false
          ∧ dgt (DistSqrOfBaseBeyondLine (bestDist c))
                (DFin (inject_Z (sqr_int md))) = false)
  ∧ p' = set_pos_base basePt (pos_lat p') (pos_lon p') i.
Proof.
  intros Hrun.
  destruct (FindClosestEdge_basePt _ _ _ _ _ _ _ _ _ Hrun) as [Hp' He].
  destruct (FindClosestEdge_fold _ _ _ _ _ _ _ _ _ Hrun)
    as (b & lst & cs & Hfind & Hcs & Hbest).
  destruct (fold_closer_cases cs closest_none) as [Heq|Hin].
  { by rewrite Heq in Hbest. }
  destruct (elem_of_edge_candidates _ _ _ _ _ _ _ _ _ Hcs Hin) as (j & Hj & Hc).
  destruct (edge_candidate_Some _ _ _ _ _ _ _ _ Hc) as (e' & Hbe & He' & Hskip & Hd & Hb).
  rewrite Hbe in Hbest. injection Hbest as -> ->.
  split; [done|]. split; [done|]. split.
  - exists lst. split; [|done]. rewrite Hfind. f_equal. f_equal.
    unfold FindEdgesForHeading in Hfind.
    apply bind_Ok_inv in Hfind as (l & _ & [= Hb' <-]).
    destruct l; [by apply elem_of_nil in Hj|done].
  - split; [|done]. by eexists.
Qed.

Lemma FindClosestEdge_found_witness :
  ∃ p', FindClosestEdge apt_runway pos_near_runway pos_near_runway 15
          (dbl 30) (dbl 80) None
        = Ok (Some (0, mkEdge RUN_WAY 0 1 (dbl 90) (dbl 1000)), p')
        ∧ pos_edgeIdx p' = 0
        ∧ pos_ts p' = pos_ts pos_near_runway.
Proof.
  assert (∃ p', FindClosestEdge apt_runway pos_near_runway pos_near_runway 15
                  (dbl 30) (dbl 80) None
                = Ok (Some (0, mkEdge RUN_WAY 0 1 (dbl 90) (dbl 1000)), p'))
    as [p' Hrun].
  { vm_compute. eexists. reflexivity. }
  exists p'. split; [exact Hrun|].
  destruct (FindClosestEdge_found _ _ _ _ _ _ _ _ _ _ Hrun) as (_ & _ & _ & _ & ->).
  split; reflexivity.
Defined.

(** X17. [FindClosestEdge] looks at the edges that [FindEdgesForHeading] found
    for the heading of the position, in their order.  The candidates among
    them are the edges that are not skipped and not farther away than the
    maximum, whose square the source computes as a product of two [int] in
    32 bits.  If the priorised distances of the candidates are numbers,
    then nothing is returned only if there is no candidate, and an edge
    returned is the candidate of the least priorised distance, the first of
    them in that order if several are equally near. *)
Theorem FindClosestEdge_closest `{GeoLib} `{Config} (apt : Apt)
    (pos basePt : positionTy) (md : Z) (tol tolExt : double) (skip : option N)
    (found : option (N * TaxiEdge)) (p' : positionTy) :
  FindClosestEdge apt pos basePt md tol tolExt skip = Ok (found, p') →
  ∃ b lst cs,
    FindEdgesForHeading apt (HeadingNormalize (pos_heading pos))
      (dmax tol tolExt) [] UNKNOWN_WAY = Ok (b, lst)
    ∧ edge_candidates apt pos (HeadingNormalize (pos_heading pos))
        (DFin (inject_Z (sqr_int md))) tol skip lst = Ok cs
    ∧ (Forall (λ c, is_finite (bestPrioDist c)) cs →
       match found with
       | None => cs = [] ∧ p' = basePt
       | Some (i, e) =>
           ∃ l1 c l2 q,
             cs = l1 ++ c :: l2
             ∧ bestEdge c = Some (i, e)
             ∧ bestPrioDist c = DFin q
             ∧ (∀ c', c' ∈ l1 → dlt (DFin q) (bestPrioDist c') = true)
             ∧ (∀ c', c' ∈ l2 → dle (DFin q) (bestPrioDist c') = true)
       end).
Proof.
  intros Hrun.
  pose proof (FindClosestEdge_basePt _ _ _ _ _ _ _ _ _ Hrun) as Hbase.
  destruct (FindClosestEdge_fold _ _ _ _ _ _ _ _ _ Hrun)
    as (b & lst & cs & Hfind & Hcs & Hbest).
  exists b, lst, cs. split; [done|]. split; [done|]. intros Hfin.
  destruct (fold_closer_none cs Hfin)
    as [[-> Hres]|(l1 & c & l2 & q & -> & Hres & Hq & H1 & H2)].
  - rewrite Hres in Hbest. simpl in Hbest. subst found. done.
  - rewrite Hres in Hbest.
    destruct (elem_of_edge_candidates _ _ _ _ _ _ _ _ c Hcs) as (j & Hj & Hc).
    { apply elem_of_app. right. left. }
    destruct (edge_candidate_Some _ _ _ _ _ _ _ _ Hc) as (e' & Hbe & _).
    rewrite Hbe in Hbest. subst found. by exists l1, c, l2, q.
Qed.

Lemma FindClosestEdge_closest_witness :
  ∃ p' cs,
    FindClosestEdge apt_line
      (mkPos (dbl 6) (dbl 1) (dbl 0) (dbl 0) (dbl 0) (dbl 0) (dbl 0)
             GND_ON FPH_TAXI ULONG_MAX)
      positionTy_default 15 (dbl 30) (dbl 80) None
    = Ok (Some (0, mkEdge TAXI_WAY 0 1 (dbl 0) (dbl 5)), p')
    ∧ edge_candidates apt_line
        (mkPos (dbl 6) (dbl 1) (dbl 0) (dbl 0) (dbl 0) (dbl 0) (dbl 0)
               GND_ON FPH_TAXI ULONG_MAX)
        (dbl 0) (dbl 225) (dbl 30) None [0; 1] = Ok cs
    ∧ ((λ c, dle (bestPrioDist c) (dbl 1) && dle (dbl 1) (bestPrioDist c)) <$> cs)
      = [true; true].
Proof.
  set (pos := mkPos (dbl 6) (dbl 1) (dbl 0) (dbl 0) (dbl 0) (dbl 0) (dbl 0)
                    GND_ON FPH_TAXI ULONG_MAX).
  assert (∃ p', FindClosestEdge apt_line pos positionTy_default 15
                  (dbl 30) (dbl 80) None
                = Ok (Some (0, mkEdge TAXI_WAY 0 1 (dbl 0) (dbl 5)), p'))
    as [p' Hrun].
  { vm_compute. eexists. reflexivity. }
  destruct (FindClosestEdge_closest _ _ _ _ _ _ _ _ _ Hrun)
    as (b & lst & cs & Hfind & Hcs & _).
  exists p', cs. split; [exact Hrun|].
  assert (lst = [0; 1]) as ->.
  { revert Hfind. vm_compute. by intros [= _ <-]. }
  split; [exact Hcs|].
  revert Hcs. vm_compute. by intros [= <-].
Defined.

(** From 46341 m on the square of the maximum wraps around: at 50000 m
    it is negative, and no edge is near enough. *)
Example FindClosestEdge_wrapped_maximum :
  sqr_int 50000 = (-1794967296)%Z
  ∧ FindClosestEdge apt_line
      (mkPos (dbl 6) (dbl 1) (dbl 0) (dbl 0) (dbl 0) (dbl 0) (dbl 0)
             GND_ON FPH_TAXI ULONG_MAX)
      positionTy_default 50000 (dbl 30) (dbl 80) None
    = Ok (None, positionTy_default).
Proof. split; vm_compute; reflexivity. Qed.

(** ** Snapping a position *)

Lemma insert_path_spec `{Config} (nodes : list TaxiNode) (path : list N)
    (startTS pathTime pathLen_ : double) (deque deque' : list positionTy)
    (i i' : nat) :
  (i ≤ length deque)%nat →
  insert_path nodes path startTS pathTime pathLen_ deque i = Ok (deque', i') →
  ∃ ins,
    deque' = take i deque ++ ins ++ drop i deque
    ∧ i' = (i + length ins)%nat
    ∧ Forall2 (λ nIdx p, ∃ n, nodes !! N.to_nat nIdx = Some n
                              ∧ p = path_position n startTS pathTime pathLen_)
              path ins.
Proof.
  revert deque i. induction path as [|nIdx path IH]; intros deque i Hi; simpl.
  - intros [= <- <-]. exists []. simpl. rewrite take_drop.
    split; [done|]. split; [lia|constructor].
  - intros Hrun. apply bind_Ok_inv in Hrun as (n & Hn & Hrun).
    apply vidx_Ok in Hn.
    assert (Hlen : length (take i deque) = i) by (rewrite length_take; lia).
    apply IH in Hrun as (ins & -> & -> & Hall).
    2:{ rewrite length_app, Hlen. simpl. lia. }
    exists (path_position n startTS pathTime pathLen_ :: ins).
    split; [|split].
    + assert (Heq : take i deque
                      ++ path_position n startTS pathTime pathLen_ :: drop i deque
                    = (take i deque ++ [path_position n startTS pathTime pathLen_])
                      ++ drop i deque) by (by rewrite <- app_assoc).
      rewrite Heq.
      rewrite take_app_length' by (rewrite length_app, Hlen; simpl; lia).
      rewrite drop_app_length' by (rewrite length_app, Hlen; simpl; lia).
      by rewrite <- app_assoc.
    + simpl. lia.
    + constructor; [by exists n|done].
Qed.

Lemma SnapToTaxiway_spec `{GeoLib} `{Config} (apt apt' : Apt)
    (fd fd' : LTFlightData) (posIter posIter' : nat) (ret : bool) :
  SnapToTaxiway apt fd posIter = Ok (ret, fd', posIter', apt') →
  ∃ pos0 pos' ins,
    posDeque fd !! posIter = Some pos0
    ∧ posDeque fd'
      = take posIter (posDeque fd) ++ ins ++ pos' :: drop (S posIter) (posDeque fd)
    ∧ posIter' = (posIter + length ins)%nat
    ∧ pAc fd' = pAc fd ∧ acTypeIcao fd' = acTypeIcao fd
    ∧ Forall (λ p, pos_onGrnd p = GND_ON ∧ pos_flightPhase p = FPH_TAXI
                   ∧ pos_edgeIdx p = EDGE_UNAVAIL) ins
    ∧ (pos_alt_m pos' = pos_alt_m pos0 ∧ pos_ts pos' = pos_ts pos0
       ∧ pos_heading pos' = pos_heading pos0 ∧ pos_pitch pos' = pos_pitch pos0
       ∧ pos_roll pos' = pos_roll pos0 ∧ pos_onGrnd pos' = pos_onGrnd pos0)
    ∧ (if ret
       then ∃ e, vecTaxiEdges apt !! N.to_nat (pos_edgeIdx pos') = Some e
                 ∧ (ins ≠ [] →
                    (2 ≤ length ins)%nat ∧ type e ≠ RUN_WAY
                    ∧ pos_flightPhase pos' = FPH_TAXI)
       else pos' = set_pos_edgeIdx pos0 EDGE_UNAVAIL ∧ ins = [] ∧ apt' = apt)
    ∧ apt' = set_nodes apt (vecTaxiNodes apt')
    ∧ Forall2 same_place (vecTaxiNodes apt) (vecTaxiNodes apt').
Proof.
  unfold SnapToTaxiway. intros Hrun.
  destruct (posDeque fd !! posIter) as [pos0|] eqn:Hpos0; [|done].
  apply bind_Ok_inv in Hrun as ([found pos] & Hfind & Hrun).
  pose proof (FindClosestEdge_basePt _ _ _ _ _ _ _ _ _ Hfind) as Hbase.
  assert (Hlt : (posIter < length (posDeque fd))%nat) by (by eapply lookup_lt_Some).
  assert (Hsame : apt = set_nodes apt (vecTaxiNodes apt)
                  ∧ Forall2 same_place (vecTaxiNodes apt) (vecTaxiNodes apt)).
  { split; [by destruct apt|apply same_place_refl]. }
  destruct Hsame as [Hs1 Hs2].
  exists pos0.
  destruct found as [[eIdx pEdge]|].
  2:{ injection Hrun as <- <- <- <-. subst pos.
      exists (set_pos_edgeIdx pos0 EDGE_UNAVAIL), [].
      split; [done|]. split; [simpl; by apply insert_take_drop|].
      split; [simpl; lia|]. repeat split; (done || constructor). }
  destruct Hbase as [Hpos He].
  assert (Hkeep : ∀ ph, let p := set_pos_flightPhase pos ph in
            pos_alt_m p = pos_alt_m pos0 ∧ pos_ts p = pos_ts pos0
            ∧ pos_heading p = pos_heading pos0 ∧ pos_pitch p = pos_pitch pos0
            ∧ pos_roll p = pos_roll pos0 ∧ pos_onGrnd p = pos_onGrnd pos0).
  { intros ph. rewrite Hpos. by repeat split. }
  assert (Hidx : pos_edgeIdx pos = eIdx) by by rewrite Hpos.
  destruct (decide (GetType pEdge = RUN_WAY)) as [Hrwy|Hrwy].
  { injection Hrun as <- <- <- <-. exists pos, [].
    split; [done|]. split; [simpl; by apply insert_take_drop|].
    split; [simpl; lia|]. split; [done|]. split; [done|]. split; [done|].
    split; [|split; [|done]].
    - rewrite Hpos. by repeat split.
    - rewrite Hidx. exists pEdge. split; [done|]. done. }
  set (pos1 := set_pos_flightPhase pos FPH_TAXI) in *.
  set (fd1 := set_posDeque fd (<[posIter := pos1]> (posDeque fd))) in *.
  assert (Hdone : ∀ a0,
            a0 = set_nodes apt (vecTaxiNodes a0) →
            Forall2 same_place (vecTaxiNodes apt) (vecTaxiNodes a0) →
            Ok (true, fd1, posIter, a0) = Ok (ret, fd', posIter', apt') →
            ∃ pos' ins,
              Some pos0 = Some pos0
              ∧ posDeque fd'
                = take posIter (posDeque fd) ++ ins
                  ++ pos' :: drop (S posIter) (posDeque fd)
              ∧ posIter' = (posIter + length ins)%nat
              ∧ pAc fd' = pAc fd ∧ acTypeIcao fd' = acTypeIcao fd
              ∧ Forall (λ p, pos_onGrnd p = GND_ON ∧ pos_flightPhase p = FPH_TAXI
                             ∧ pos_edgeIdx p = EDGE_UNAVAIL) ins
              ∧ (pos_alt_m pos' = pos_alt_m pos0 ∧ pos_ts pos' = pos_ts pos0
                 ∧ pos_heading pos' = pos_heading pos0
                 ∧ pos_pitch pos' = pos_pitch pos0
                 ∧ pos_roll pos' = pos_roll pos0
                 ∧ pos_onGrnd pos' = pos_onGrnd pos0)
              ∧ (if ret
                 then ∃ e, vecTaxiEdges apt !! N.to_nat (pos_edgeIdx pos') = Some e
                           ∧ (ins ≠ [] →
                              (2 ≤ length ins)%nat ∧ type e ≠ RUN_WAY
                              ∧ pos_flightPhase pos' = FPH_TAXI)
                 else pos' = set_pos_edgeIdx pos0 EDGE_UNAVAIL ∧ ins = []
                      ∧ apt' = apt)
              ∧ apt' = set_nodes apt (vecTaxiNodes apt')
              ∧ Forall2 same_place (vecTaxiNodes apt) (vecTaxiNodes apt')).
  { intros a0 Ha0 Hsame0 [= <- <- <- <-]. exists pos1, [].
    split; [done|]. split; [simpl; by apply insert_take_drop|].
    split; [simpl; lia|]. split; [done|]. split; [done|]. split; [done|].
    split; [apply Hkeep|]. split; [|done].
    exists pEdge. split; [by rewrite <- Hidx in He|done]. }
  destruct (_ && _); [by eapply Hdone|].
  apply bind_Ok_inv in Hrun as (prevPos & _ & Hrun).
  destruct (negb _); [by eapply Hdone|].
  destruct (bool_decide _); [by eapply Hdone|].
  apply bind_Ok_inv in Hrun as (prevE & _ & Hrun).
  apply bind_Ok_inv in Hrun as ([apt2 vecPath] & Hpath & Hrun).
  destruct (ShortestPath_same_place _ _ _ _ _ _ _ Hpath) as [Hapt2 Hsame2].
  destruct (decide _) as [Hlen2|]; [|by eapply Hdone].
  apply bind_Ok_inv in Hrun as (endNode_ & _ & Hrun).
  apply bind_Ok_inv in Hrun as (front & _ & Hrun).
  apply bind_Ok_inv in Hrun as (startTS & _ & Hrun).
  apply bind_Ok_inv in Hrun as ([deque' it'] & Hins & [= <- <- <- <-]).
  apply insert_path_spec in Hins as (ins & -> & -> & Hall).
  2:{ simpl. rewrite length_insert. lia. }
  exists pos1, ins. split; [done|]. split.
  { simpl. rewrite insert_take_drop by done.
    assert (Hlen : length (take posIter (posDeque fd)) = posIter)
      by (rewrite length_take; lia).
    rewrite take_app_length' by done. by rewrite drop_app_length' by done. }
  split; [done|]. split; [done|]. split; [done|]. split.
  { clear -Hall. induction Hall as [|x p l l' (n & _ & ->) _ IH]; constructor; done. }
  split; [apply Hkeep|]. split; [|done].
  exists pEdge. split; [by rewrite <- Hidx in He|]. intros _.
  apply Forall2_length in Hall. rewrite length_reverse in Hall.
  split; [lia|done].
Qed.

(** X18. A call of [SnapToTaxiway] changes the vector of positions in two ways
    only: the position at the iterator is replaced, and positions may be
    inserted right before it; all other positions keep their order and the
    iterator handed back points to the replaced position again.  Every
    inserted position is on the ground, marked as taxiing and marked so
    that it is not snapped itself.  Of the position at the iterator only
    latitude, longitude, edge index and flight phase can change.  If the
    call returns false, the position is only marked as having no edge and
    nothing is inserted; if it returns true, the position names an edge
    of the airport, and positions are inserted, at least two then, only
    for an edge that is not a runway, the position being marked as
    taxiing. *)
Theorem SnapToTaxiway_deque `{GeoLib} `{Config} (apt apt' : Apt)
    (fd fd' : LTFlightData) (posIter posIter' : nat) (ret : bool) :
  SnapToTaxiway apt fd posIter = Ok (ret, fd', posIter', apt') →
  ∃ pos0 pos' ins,
    posDeque fd !! posIter = Some pos0
    ∧ posDeque fd'
      = take posIter (posDeque fd) ++ ins ++ pos' :: drop (S posIter) (posDeque fd)
    ∧ posIter' = (posIter + length ins)%nat
    ∧ pAc fd' = pAc fd ∧ acTypeIcao fd' = acTypeIcao fd
    ∧ Forall (λ p, pos_onGrnd p = GND_ON ∧ pos_flightPhase p = FPH_TAXI
                   ∧ pos_edgeIdx p = EDGE_UNAVAIL) ins
    ∧ (pos_alt_m pos' = pos_alt_m pos0 ∧ pos_ts pos' = pos_ts pos0
       ∧ pos_heading pos' = pos_heading pos0 ∧ pos_pitch pos' = pos_pitch pos0
       ∧ pos_roll pos' = pos_roll pos0 ∧ pos_onGrnd pos' = pos_onGrnd pos0)
    ∧ (if ret
       then ∃ e, vecTaxiEdges apt !! N.to_nat (pos_edgeIdx pos') = Some e
                 ∧ (ins ≠ [] →
                    (2 ≤ length ins)%nat ∧ type e ≠ RUN_WAY
                    ∧ pos_flightPhase pos' = FPH_TAXI)
       else pos' = set_pos_edgeIdx pos0 EDGE_UNAVAIL ∧ ins = [] ∧ apt' = apt).
Proof.
  intros Hrun.
  destruct (SnapToTaxiway_spec _ _ _ _ _ _ _ Hrun)
    as (pos0 & pos' & ins & H1 & H2 & H3 & H4 & H5 & H6 & H7 & H8 & _).
  by exists pos0, pos', ins.
Qed.

Lemma SnapToTaxiway_deque_witness :
  ∃ fd' apt' p2 p3 pos',
    SnapToTaxiway apt_line5 fd_taxi 1 = Ok (true, fd', 3%nat, apt')
    ∧ posDeque fd' = take 1 (posDeque fd_taxi) ++ [p2; p3] ++ [pos']
    ∧ pos_edgeIdx pos' = 3
    ∧ pos_edgeIdx p2 = EDGE_UNAVAIL.
Proof.
  assert (∃ fd' apt', SnapToTaxiway apt_line5 fd_taxi 1
                      = Ok (true, fd', 3%nat, apt'))
    as (fd' & apt' & Hrun).
  { vm_compute. eexists _, _. reflexivity. }
  destruct (SnapToTaxiway_deque _ _ _ _ _ _ _ Hrun)
    as (pos0 & pos' & ins & Hpos0 & Hdeque & Hit & _ & _ & Hins & _ & _).
  destruct ins as [|p2 [|p3 [|p4 ins]]]; simpl in Hit; try lia.
  exists fd', apt', p2, p3, pos'. split; [exact Hrun|]. split; [exact Hdeque|].
  split.
  - revert Hrun Hdeque. vm_compute. intros [= <- _] [= _ _ <-]. reflexivity.
  - by apply Forall_cons in Hins as [(_ & _ & ->) _].
Defined.

(** ** Runway selection on well-formed airports *)









(** ** Airports that the builder produces are well-formed *)

Lemma check_indexes_inv (edges : list TaxiEdge) (l : list N) :
  check_indexes edges l = Ok () →
  Forall (λ i, is_Some (edges !! N.to_nat i)) l.
Proof.
  induction l as [|i l IH]; simpl; [constructor|].
  intros Hrun. apply bind_Ok_inv in Hrun as (e & He & Hrun).
  apply vidx_Ok in He. constructor; [by exists e|by apply IH].
Qed.

Lemma SortTaxiEdges_inv (apt apt' : Apt) :
  SortTaxiEdges apt = Ok apt' →
  apt' = set_idxHead apt (vecTaxiEdgesIdxHead apt')
  ∧ Forall (λ i, is_Some (vecTaxiEdges apt !! N.to_nat i))
           (vecTaxiEdgesIdxHead apt').
Proof.
  unfold SortTaxiEdges. intros Hrun.
  apply bind_Ok_inv in Hrun as ([] & Hcheck & [= <-]).
  split; [done|]. apply check_indexes_inv in Hcheck.
  cbn [vecTaxiEdgesIdxHead set_idxHead]. by rewrite foldr_insert_perm.
Qed.

Lemma AddTaxiEdge_frame `{GeoLib} (apt apt' : Apt) (n1 n2 i : N) (_dist : double) :
  AddTaxiEdge apt n1 n2 _dist = Ok (apt', i) →
  apt' = set_nodes (set_edges apt (vecTaxiEdges apt')) (vecTaxiNodes apt')
  ∧ length (vecTaxiNodes apt') = length (vecTaxiNodes apt)
  ∧ (length (vecTaxiEdges apt) ≤ length (vecTaxiEdges apt'))%nat.
Proof.
  intros Hcall. pose proof (AddTaxiEdge_outcomes apt n1 n2 _dist) as Hout.
  assert (Hid : apt = set_nodes (set_edges apt (vecTaxiEdges apt)) (vecTaxiNodes apt))
    by (by destruct apt).
  destruct (vecTaxiNodes apt !! N.to_nat n1) as [na|] eqn:Ha;
    [|rewrite Hcall in Hout; by destruct (_ !! _)].
  destruct (vecTaxiNodes apt !! N.to_nat n2) as [nb|] eqn:Hb;
    [|by rewrite Hcall in Hout].
  destruct (HasGeoCoords na && HasGeoCoords nb).
  - destruct Hout as (apt2 & Hcall2 & _ & Hedges & Hnodes & Hrest).
    rewrite Hcall in Hcall2. injection Hcall2 as <- _.
    split; [|split].
    + rewrite <- Hrest. by destruct apt'.
    + by rewrite Hnodes, length_imap.
    + rewrite Hedges, length_app. lia.
  - rewrite Hcall in Hout. injection Hout as -> _. done.
Qed.

Lemma SplitEdge_frame `{GeoLib} (apt apt' : Apt) (eIdx insNode : N) :
  SplitEdge apt eIdx insNode = Ok apt' →
  apt' = set_nodes (set_edges apt (vecTaxiEdges apt')) (vecTaxiNodes apt')
  ∧ length (vecTaxiNodes apt') = length (vecTaxiNodes apt)
  ∧ (length (vecTaxiEdges apt) ≤ length (vecTaxiEdges apt'))%nat.
Proof.
  unfold SplitEdge. intros Hcall.
  assert (Hid : apt = set_nodes (set_edges apt (vecTaxiEdges apt)) (vecTaxiNodes apt))
    by (by destruct apt).
  apply bind_Ok_inv in Hcall as (e & He & Hcall).
  destruct (decide _) in Hcall; [by injection Hcall as <-|].
  apply bind_Ok_inv in Hcall as (origB & HorigB & Hcall).
  apply bind_Ok_inv in Hcall as (na & Hna & Hcall).
  apply bind_Ok_inv in Hcall as (nb & Hnb & Hcall).
  apply bind_Ok_inv in Hcall as ([apt2 j] & Hadd & [= <-]).
  destruct (AddTaxiEdge_frame _ _ _ _ _ _ Hadd) as (Hapt2 & Hn & He2).
  cbn [vecTaxiNodes vecTaxiEdges set_nodes set_edges] in *. unfold vset in *.
  rewrite !length_insert in Hn. rewrite !length_insert in He2.
  split; [|done]. rewrite Hapt2. by destruct apt.
Qed.

(** What no builder operation changes: the id; the index vector, unless
    the operation is the sort; the lengths of the vectors never shrink. *)
Lemma build_step_frame `{GeoLib} `{Config} (op : build_op) (apt apt' : Apt) :
  build_step op apt apt' →
  id apt' = id apt
  ∧ (op ≠ OpSortTaxiEdges → vecTaxiEdgesIdxHead apt' = vecTaxiEdgesIdxHead apt)
  ∧ (length (vecTaxiNodes apt) ≤ length (vecTaxiNodes apt'))%nat
  ∧ (length (vecTaxiEdges apt) ≤ length (vecTaxiEdges apt'))%nat
  ∧ (length (vecRwyEndPts apt) ≤ length (vecRwyEndPts apt'))%nat.
Proof.
  intros Hstep.
  destruct Hstep as
    [apt _lat _lon dcw apt' i Hcall
    |apt _lat _lon idx apt' Hcall
    |apt n1 n2 _dist apt' i Hcall
    |apt lat1 lon1 d1 id1 lat2 lon2 d2 id2
    |apt eIdx insNode e apt' He Hty Hcall
    |apt k e e' He Hcall
    |apt i n _lat _lon Hn
    |apt k ep i Hep
    |apt apt' Hcall
    |apt meter].
  - rewrite AddTaxiNode_unfold in Hcall.
    destruct (decide _) in Hcall; [done|].
    destruct (find_if _ _) in Hcall; injection Hcall as <- _; [done|].
    simpl. rewrite length_app. repeat split; (done || lia).
  - destruct (AddTaxiNodeFixed_sizes _ _ _ _ _ Hcall) as (Hedges & Hrwy & Hlen).
    rewrite Hedges, Hrwy. split; [|split; [|done]].
    + revert Hcall. unfold AddTaxiNodeFixed. destruct (decide _).
      * by intros [= <-].
      * intros Hcall. by apply bind_Ok_inv in Hcall as (n0 & _ & [= <-]).
    + intros _. revert Hcall. unfold AddTaxiNodeFixed. destruct (decide _).
      * by intros [= <-].
      * intros Hcall. by apply bind_Ok_inv in Hcall as (n0 & _ & [= <-]).
  - destruct (AddTaxiEdge_frame _ _ _ _ _ _ Hcall) as (-> & Hn & He).
    simpl in *. repeat split; (done || lia).
  - simpl. rewrite !length_app. simpl. repeat split; (done || lia).
  - destruct (SplitEdge_frame _ _ _ _ Hcall) as (-> & Hn & He').
    simpl in *. repeat split; (done || lia).
  - simpl. rewrite length_insert. done.
  - simpl. rewrite length_insert. done.
  - simpl. rewrite length_insert. done.
  - destruct (SortTaxiEdges_inv _ _ Hcall) as [-> _]. done.
  - done.
Qed.

Lemma build_step_indexed `{GeoLib} `{Config} (op : build_op) (apt apt' : Apt) :
  build_step op apt apt' → apt_indexed apt → apt_indexed apt'.
Proof.
  intros Hstep [Hst Hidx].
  split; [by destruct (build_step_store _ _ _ Hstep Hst)|].
  destruct (build_step_frame _ _ _ Hstep) as (_ & Hhead & _ & Hlen & _).
  assert (op = OpSortTaxiEdges ∨ op ≠ OpSortTaxiEdges) as [->|Hop]
    by (destruct op; (by left) || (by right)).
  - inversion Hstep as [| | | | | | | |apt0 apt0' Hcall|]; subst.
    destruct (SortTaxiEdges_inv _ _ Hcall) as [Hapt Hvalid].
    assert (vecTaxiEdges apt' = vecTaxiEdges apt) as -> by (by rewrite Hapt).
    done.
  - rewrite (Hhead Hop). eapply Forall_impl; [exact Hidx|].
    intros i Hi. apply lookup_lt_is_Some in Hi. apply lookup_lt_is_Some. lia.
Qed.

Lemma built_indexed `{GeoLib} `{Config} (apt : Apt) : built apt → apt_indexed apt.
Proof.
  induction 1 as [_id|op apt apt' Hb IH Hstep].
  - split; [by apply Forall_nil|by apply Forall_nil].
  - by eapply build_step_indexed.
Qed.

(** ** Joining open ends *)

Lemma store_ok_lookup (apt : Apt) (k : nat) (e : TaxiEdge) :
  store_ok apt → vecTaxiEdges apt !! k = Some e →
  edge_in_store apt e ∧ (type e = RUN_WAY ∨ type e = TAXI_WAY).
Proof. unfold store_ok. rewrite Forall_lookup. intros Hst He. by eapply Hst. Qed.

Lemma RecalcTaxiEdge_ok `{GeoLib} (apt : Apt) (e : TaxiEdge) :
  edge_in_store apt e → ∃ e', RecalcTaxiEdge apt e = Ok e'.
Proof.
  intros Hin. destruct (edge_in_store_Get _ _ Hin) as (na & nb & Ha & Hb).
  unfold RecalcTaxiEdge. rewrite Ha, bind_Ok, Hb, bind_Ok. by eexists.
Qed.

Lemma AddTaxiEdge_ok `{GeoLib} (apt : Apt) (n1 n2 : N) (_dist : double) :
  n1 < vsize (vecTaxiNodes apt) → n2 < vsize (vecTaxiNodes apt) →
  ∃ r, AddTaxiEdge apt n1 n2 _dist = Ok r.
Proof.
  intros H1 H2. pose proof (AddTaxiEdge_outcomes apt n1 n2 _dist) as Hout.
  destruct (lookup_vsize _ _ H1) as [na Hna].
  destruct (lookup_vsize _ _ H2) as [nb Hnb].
  rewrite Hna, Hnb in Hout. destruct (_ && _).
  - destruct Hout as (apt' & Hcall & _). by eexists.
  - by eexists.
Qed.

Lemma SplitEdge_ok `{GeoLib} (apt : Apt) (eIdx insNode : N) (e : TaxiEdge) :
  store_ok apt →
  vecTaxiEdges apt !! N.to_nat eIdx = Some e → type e ≠ RUN_WAY →
  insNode < vsize (vecTaxiNodes apt) →
  ∃ apt', SplitEdge apt eIdx insNode = Ok apt'.
Proof.
  intros Hst He Hty Hins. unfold SplitEdge.
  pose proof He as He'. apply vat_Ok in He'. rewrite He', bind_Ok.
  destruct (decide _); [by eexists|].
  destruct (store_ok_lookup _ _ _ Hst He) as [Hin _].
  unfold edge_in_store in Hin. rewrite decide_False in Hin by done.
  destruct Hin as [Ha Hb]. unfold endNode.
  destruct (lookup_vsize _ _ Hb) as [origB HorigB]. apply vidx_Ok in HorigB.
  rewrite HorigB, bind_Ok. unfold GetA. rewrite decide_False by done.
  destruct (lookup_vsize _ _ Ha) as [na Hna]. apply vidx_Ok in Hna.
  rewrite Hna, bind_Ok.
  destruct (lookup_vsize _ _ Hins) as [nb Hnb]. apply vat_Ok in Hnb.
  rewrite Hnb, bind_Ok.
  edestruct (AddTaxiEdge_ok) as [[apt2 j] Hadd]; [| |rewrite Hadd, bind_Ok; by eexists].
  - cbn [vecTaxiNodes set_nodes]. unfold vsize, vset. by rewrite !length_insert.
  - cbn [vecTaxiNodes set_nodes]. unfold vsize, vset. by rewrite !length_insert.
Qed.

Lemma SortTaxiEdges_ok (apt : Apt) :
  Forall (λ i, is_Some (vecTaxiEdges apt !! N.to_nat i)) (vecTaxiEdgesIdxHead apt) →
  ∃ apt', SortTaxiEdges apt = Ok apt'.
Proof.
  intros Hidx. unfold SortTaxiEdges. rewrite check_indexes_Ok.
  - rewrite bind_Ok. by eexists.
  - destruct (decide _); [|done]. apply Forall_forall. intros i Hi.
    apply elem_of_iota in Hi. by apply lookup_lt_is_Some_2.
Qed.

Lemma closest_edge_loop_ok `{GeoLib} `{Config} (apt : Apt) (pos : positionTy)
    (hs md tol : double) (skip : option N) (l : list N) (best : closestTy) :
  store_ok apt →
  (∀ i, i ∈ l → is_Some (vecTaxiEdges apt !! N.to_nat i)) →
  ∃ best', closest_edge_loop apt pos hs md tol skip l best = Ok best'.
Proof.
  intros Hst. revert best. induction l as [|i l IH]; intros best Hl.
  - by eexists.
  - cbn [closest_edge_loop]. destruct (Hl i ltac:(left)) as [e He].
    destruct (store_ok_lookup _ _ _ Hst He) as [Hin _].
    destruct (edge_in_store_Get _ _ Hin) as (na & nb & Ha & Hb).
    assert (∃ best1, closest_edge_step apt pos hs md tol skip best i = Ok best1)
      as [best1 H1].
    { unfold closest_edge_step. apply vidx_Ok in He. rewrite He, bind_Ok.
      destruct (bool_decide _); [by eexists|].
      unfold startByHeading_node, endByHeading_node.
      destruct (along e hs); rewrite ?Ha, ?Hb, !bind_Ok;
        (destruct (dgt _ md); [by eexists|]);
        (destruct (dge _ _); [by eexists|]);
        (destruct (dgt _ md); by eexists). }
    rewrite H1, bind_Ok. apply IH. intros j Hj. apply Hl. by right.
Qed.

Lemma FindClosestEdge_ok `{GeoLib} `{Config} (apt : Apt)
    (pos basePt : positionTy) (md : Z) (tol tolExt : double) (skip : option N) :
  apt_indexed apt →
  ∃ r, FindClosestEdge apt pos basePt md tol tolExt skip = Ok r.
Proof.
  intros [Hst Hidx]. unfold FindClosestEdge.
  destruct (FindEdgesForHeading_valid apt (HeadingNormalize (pos_heading pos))
              (dmax tol tolExt) [] UNKNOWN_WAY Hidx) as (lst & Hfind & Hlst).
  rewrite Hfind, bind_Ok. simpl. destruct lst as [|i lst]; [by eexists|].
  cbn [negb].
  destruct (closest_edge_loop_ok apt pos (HeadingNormalize (pos_heading pos))
              (DFin (inject_Z (sqr_int md))) tol skip (i :: lst) closest_none Hst)
    as [best Hbest].
  { intros j Hj. destruct (Hlst j Hj) as (_ & e & He & _). by exists e. }
  rewrite Hbest, bind_Ok. destruct (bestEdge best) as [[j e]|]; by eexists.
Qed.

Lemma join_open_node_built `{GeoLib} `{Config} (apt : Apt) (i : N) :
  built apt → i < vsize (vecTaxiNodes apt) →
  ∃ apt',
    join_open_node apt i = Ok apt'
    ∧ built apt'
    ∧ length (vecTaxiNodes apt') = length (vecTaxiNodes apt)
    ∧ length (vecRwyEndPts apt') = length (vecRwyEndPts apt)
    ∧ (length (vecTaxiEdges apt) ≤ length (vecTaxiEdges apt'))%nat
    ∧ id apt' = id apt ∧ bounds apt' = bounds apt.
Proof.
  intros Hb Hi. unfold join_open_node.
  assert (Hself : ∃ apt', Ok apt = Ok apt' ∧ built apt'
            ∧ length (vecTaxiNodes apt') = length (vecTaxiNodes apt)
            ∧ length (vecRwyEndPts apt') = length (vecRwyEndPts apt)
            ∧ (length (vecTaxiEdges apt) ≤ length (vecTaxiEdges apt'))%nat
            ∧ id apt' = id apt ∧ bounds apt' = bounds apt).
  { by exists apt. }
  destruct (lookup_vsize _ _ Hi) as [n Hn].
  pose proof Hn as Hn'. apply vidx_Ok in Hn'. rewrite Hn', bind_Ok.
  destruct (vecEdges n) as [|front [|]] eqn:Hedges; [done| |done].
  destruct (built_incident apt Hb _ _ front Hn) as (e & He & Hty & _).
  { rewrite Hedges. left. }
  pose proof He as He'. apply vidx_Ok in He'. rewrite He', bind_Ok.
  unfold GetType. rewrite decide_False by (by rewrite Hty).
  pose proof (built_indexed apt Hb) as Hidx.
  pose proof (built_store_ok apt Hb) as Hst.
  edestruct (FindClosestEdge_ok apt) as [[found pos'] Hfind]; [exact Hidx|].
  rewrite Hfind, bind_Ok.
  pose proof (FindClosestEdge_basePt _ _ _ _ _ _ _ _ _ Hfind) as Hbase.
  destruct found as [[joinIdx pJoinE]|]; [|done].
  destruct Hbase as [_ Hjoin].
  destruct (store_ok_lookup _ _ _ Hst Hjoin) as [Hjin Hjty].
  destruct (decide (type pJoinE = RUN_WAY)) as [Hrwy|Hrwy].
  - (* joined to a runway *)
    unfold edge_in_store in Hjin. rewrite decide_True in Hjin by done.
    assert (Hk : startByHeading pJoinE (GetAngleFrom e i) < vsize (vecRwyEndPts apt)).
    { unfold startByHeading. destruct (along _ _); tauto. }
    destruct (lookup_vsize _ _ Hk) as [ep Hep].
    pose proof Hep as Hep'. apply vidx_Ok in Hep'. rewrite Hep', bind_Ok.
    eexists. split; [reflexivity|]. split.
    { eapply built_step; [exact Hb|]. unfold vset. by eapply step_JoinRwy. }
    simpl. unfold vset. rewrite length_insert. done.
  - (* joined to a taxiway *)
    set (apt1 := set_nodes apt (vset (vecTaxiNodes apt) i
                                  (move_node n (pos_lat pos') (pos_lon pos')))).
    assert (Hb1 : built apt1).
    { eapply built_step; [exact Hb|]. unfold apt1, vset. by eapply step_MoveNode. }
    assert (He1 : vecTaxiEdges apt1 !! N.to_nat front = Some e) by done.
    destruct (RecalcTaxiEdge_ok apt1 e) as [e' Hrecalc].
    { by destruct (store_ok_lookup _ _ _ (built_store_ok _ Hb1) He1). }
    rewrite Hrecalc, bind_Ok.
    set (apt2 := set_edges apt1 (vset (vecTaxiEdges apt1) front e')).
    assert (Hb2 : built apt2).
    { eapply built_step; [exact Hb1|]. unfold apt2, vset.
      by eapply step_RecalcTaxiEdge. }
    assert (Hty' : type e' = type e).
    { unfold RecalcTaxiEdge in Hrecalc.
      apply bind_Ok_inv in Hrecalc as (na & _ & Hrecalc).
      apply bind_Ok_inv in Hrecalc as (nb & _ & [= <-]).
      by rewrite type_Normalize. }
    assert (Hj2 : ∃ e0, vecTaxiEdges apt2 !! N.to_nat joinIdx = Some e0
                        ∧ type e0 ≠ RUN_WAY) .
    { unfold apt2, apt1, vset. cbn [vecTaxiEdges set_edges set_nodes].
      destruct (decide (N.to_nat joinIdx = N.to_nat front)) as [Heq|Hne].
      - rewrite Heq. exists e'.
        rewrite list_lookup_insert_eq by by eapply lookup_lt_Some.
        split; [done|]. by rewrite Hty', Hty.
      - exists pJoinE. by rewrite list_lookup_insert_ne. }
    destruct Hj2 as (e0 & He0 & Hty0).
    assert (Hi2 : i < vsize (vecTaxiNodes apt2)).
    { unfold apt2, apt1, vsize, vset. cbn [vecTaxiNodes set_edges set_nodes].
      rewrite length_insert. exact Hi. }
    destruct (SplitEdge_ok apt2 joinIdx i e0 (built_store_ok _ Hb2) He0 Hty0 Hi2)
      as [apt3 Hsplit].
    rewrite Hsplit, bind_Ok.
    assert (Hb3 : built apt3).
    { eapply built_step; [exact Hb2|]. by eapply step_SplitEdge. }
    destruct (SortTaxiEdges_ok apt3) as [apt4 Hsort].
    { by destruct (built_indexed _ Hb3). }
    exists apt4. split; [done|]. split.
    { eapply built_step; [exact Hb3|]. by eapply step_SortTaxiEdges. }
    destruct (SortTaxiEdges_inv _ _ Hsort) as [-> _].
    destruct (SplitEdge_frame _ _ _ _ Hsplit) as (-> & Hn3 & He3).
    cbn [vecTaxiNodes vecTaxiEdges vecRwyEndPts id bounds set_idxHead set_nodes
         set_edges] in *.
    assert (Hn2 : length (vecTaxiNodes apt2) = length (vecTaxiNodes apt)).
    { unfold apt2, apt1, vset. simpl. by rewrite length_insert. }
    assert (He2 : length (vecTaxiEdges apt2) = length (vecTaxiEdges apt)).
    { unfold apt2, apt1, vset. simpl. by rewrite length_insert. }
    rewrite Hn3, Hn2. rewrite He2 in He3. done.
Qed.

Lemma join_open_loop_built `{GeoLib} `{Config} (fuel : nat) (i : N) (apt : Apt) :
  built apt → (length (vecTaxiNodes apt) ≤ N.to_nat i + fuel)%nat →
  ∃ apt',
    join_open_loop fuel i apt = Ok apt'
    ∧ built apt'
    ∧ length (vecTaxiNodes apt') = length (vecTaxiNodes apt)
    ∧ length (vecRwyEndPts apt') = length (vecRwyEndPts apt)
    ∧ (length (vecTaxiEdges apt) ≤ length (vecTaxiEdges apt'))%nat
    ∧ id apt' = id apt ∧ bounds apt' = bounds apt.
Proof.
  revert i apt. induction fuel as [|fuel IH]; intros i apt Hb Hfuel.
  - simpl. rewrite decide_False by (unfold vsize; lia). by exists apt.
  - simpl. destruct (decide (i < vsize (vecTaxiNodes apt))) as [Hi|Hi];
      [|by exists apt].
    destruct (join_open_node_built apt i Hb Hi)
      as (apt1 & Hnode & Hb1 & Hn1 & Hr1 & He1 & Hid1 & Hbb1).
    rewrite Hnode, bind_Ok.
    destruct (IH (i + 1) apt1 Hb1) as (apt' & Hloop & Hb' & Hn' & Hr' & He' & Hid' & Hbb').
    { rewrite Hn1. lia. }
    exists apt'. split; [done|]. split; [done|].
    rewrite Hn', Hr', Hid', Hbb'. repeat split; (done || lia).
Qed.

(** X10. [JoinOpenTaxiEdges], run on an airport that the builder has produced,
    returns: it reads no vector out of range, and its loop ends after one
    turn per node.  All it does are operations of the builder (a node is
    moved, its edge recalculated, another edge that is not a runway split,
    the index sorted, or a node attached to a runway endpoint), so the
    airport it leaves behind is again one that the builder can produce; it
    has the same number of nodes and of runway endpoints, no edge less,
    and the same id and bounds. *)
Theorem JoinOpenTaxiEdges_built `{GeoLib} `{Config} (apt : Apt) :
  built apt →
  ∃ apt',
    JoinOpenTaxiEdges apt = Ok apt'
    ∧ built apt'
    ∧ length (vecTaxiNodes apt') = length (vecTaxiNodes apt)
    ∧ length (vecRwyEndPts apt') = length (vecRwyEndPts apt)
    ∧ (length (vecTaxiEdges apt) ≤ length (vecTaxiEdges apt'))%nat
    ∧ id apt' = id apt ∧ bounds apt' = bounds apt.
Proof.
  intros Hb. unfold JoinOpenTaxiEdges. apply join_open_loop_built; [done|lia].
Qed.

Lemma apt_gap_built : built apt_gap.
Proof.
  pose proof (built_new "GAPP") as Hb.
  built_node Hb (dbl 0) (dbl 0). built_node Hb (dbl 10) (dbl 0).
  built_edge Hb 0 1.
  built_node Hb (dbl 15) (dbl 0). built_node Hb (dbl 30) (dbl 0).
  built_edge Hb 2 3. built_sort Hb. exact Hb.
Defined.

Lemma JoinOpenTaxiEdges_built_witness :
  ∃ apt', JoinOpenTaxiEdges apt_gap = Ok apt'
          ∧ length (vecTaxiEdges apt_gap) = 2%nat
          ∧ length (vecTaxiEdges apt') = 4%nat
          ∧ length (vecTaxiNodes apt') = 4%nat.
Proof.
  destruct (JoinOpenTaxiEdges_built apt_gap apt_gap_built)
    as (apt' & Hrun & _ & Hn & _).
  exists apt'. split; [exact Hrun|]. split; [reflexivity|].
  split; [|by rewrite Hn].
  revert Hrun. vm_compute. by intros [= <-].
Defined.

(** ** Adding an airport to the map *)

Lemma SortTaxiEdges_perm (apt apt' : Apt) :
  SortTaxiEdges apt = Ok apt' →
  apt' = set_idxHead apt (vecTaxiEdgesIdxHead apt')
  ∧ ∃ idx0,
      vecTaxiEdgesIdxHead apt' = foldr (insert_by_angle (vecTaxiEdges apt)) [] idx0
      ∧ idx0 = (if decide (length (vecTaxiEdges apt)
                           ≠ length (vecTaxiEdgesIdxHead apt))
                then N.of_nat <$> seq 0 (length (vecTaxiEdges apt))
                else vecTaxiEdgesIdxHead apt).
Proof.
  unfold SortTaxiEdges. intros Hrun.
  apply bind_Ok_inv in Hrun as ([] & _ & [= <-]).
  split; [done|]. by eexists.
Qed.

Lemma build_step_idx_prefix `{GeoLib} `{Config} (op : build_op) (apt apt' : Apt) :
  build_step op apt apt' → idx_prefix apt → idx_prefix apt'.
Proof.
  intros Hstep Hpre.
  destruct (build_step_frame _ _ _ Hstep) as (_ & Hhead & _).
  assert (op = OpSortTaxiEdges ∨ op ≠ OpSortTaxiEdges) as [->|Hop]
    by (destruct op; (by left) || (by right)).
  - inversion Hstep as [| | | | | | | |apt0 apt0' Hcall|]; subst.
    destruct (SortTaxiEdges_perm _ _ Hcall) as (_ & idx0 & Hidx & Hidx0).
    assert (Hlen : length (foldr (insert_by_angle (vecTaxiEdges apt)) [] idx0)
                   = length idx0).
    { apply Permutation_length, foldr_insert_perm. }
    unfold idx_prefix. rewrite Hidx, Hlen, foldr_insert_perm, Hidx0.
    destruct (decide _); [|done].
    by rewrite length_fmap, length_seq.
  - unfold idx_prefix. by rewrite (Hhead Hop).
Qed.

Lemma built_idx_prefix `{GeoLib} `{Config} (apt : Apt) : built apt → idx_prefix apt.
Proof.
  induction 1 as [_id|op apt apt' Hb IH Hstep]; [by unfold idx_prefix|].
  by eapply build_step_idx_prefix.
Qed.

Lemma SortTaxiEdges_fresh `{GeoLib} `{Config} (apt apt' : Apt) :
  built apt → SortTaxiEdges apt = Ok apt' → freshly_sorted apt'.
Proof.
  intros Hb Hsort.
  destruct (SortTaxiEdges_perm _ _ Hsort) as (Hapt & idx0 & Hidx & Hidx0).
  exists idx0. rewrite Hapt. cbn [vecTaxiEdges vecTaxiEdgesIdxHead set_idxHead].
  split; [|done]. rewrite Hidx0. destruct (decide _) as [|Heq]; [done|].
  pose proof (built_idx_prefix apt Hb) as Hpre. unfold idx_prefix in Hpre.
  assert (length (vecTaxiEdges apt) = length (vecTaxiEdgesIdxHead apt)) as -> by lia.
  done.
Qed.

Lemma freshly_sorted_index_ok (apt : Apt) :
  freshly_sorted apt → Forall angle_normalized (vecTaxiEdges apt) →
  index_ok apt.
Proof.
  intros (idx0 & Hperm & Hidx) Hnorm.
  assert (Hp : vecTaxiEdgesIdxHead apt
               ≡ₚ N.of_nat <$> seq 0 (length (vecTaxiEdges apt))).
  { by rewrite Hidx, foldr_insert_perm. }
  split; [|split].
  - rewrite Hidx. apply foldr_insert_sorted. rewrite Hperm.
    apply Forall_forall. intros i Hi. apply elem_of_iota in Hi.
    destruct (lookup_lt_is_Some_2 _ _ Hi) as [e He].
    unfold edge_angle. rewrite vlookup_lookup, He.
    rewrite Forall_forall in Hnorm.
    destruct (Hnorm e) as [Hlo _]; [by eapply list_elem_of_lookup_2|].
    by destruct (angle e).
  - apply Forall_forall. intros i Hi. rewrite Hp in Hi.
    apply elem_of_iota in Hi.
    destruct (lookup_lt_is_Some_2 _ _ Hi) as [e He].
    exists e. split; [done|]. rewrite Forall_forall in Hnorm.
    apply Hnorm. by eapply list_elem_of_lookup_2.
  - intros k e He. rewrite Hp. apply elem_of_iota.
    rewrite Nat2N.id. by eapply lookup_lt_Some.
Qed.

Lemma join_open_node_fresh `{GeoLib} `{Config} (apt apt' : Apt) (i : N) :
  built apt → freshly_sorted apt →
  join_open_node apt i = Ok apt' → freshly_sorted apt'.
Proof.
  intros Hb Hfresh. unfold join_open_node. intros Hrun.
  apply bind_Ok_inv in Hrun as (n & Hn & Hrun). apply vidx_Ok in Hn.
  destruct (vecEdges n) as [|front [|]] eqn:Hedges;
    [by injection Hrun as <-| |by injection Hrun as <-].
  apply bind_Ok_inv in Hrun as (e & He & Hrun). apply vidx_Ok in He.
  destruct (decide _); [by injection Hrun as <-|].
  apply bind_Ok_inv in Hrun as ([found pos'] & Hfind & Hrun).
  destruct found as [[joinIdx pJoinE]|]; [|by injection Hrun as <-].
  pose proof (FindClosestEdge_basePt _ _ _ _ _ _ _ _ _ Hfind) as [_ Hjoin].
  destruct (decide (GetType pJoinE = RUN_WAY)) as [Hrwy|Hrwy].
  - apply bind_Ok_inv in Hrun as (ep & _ & [= <-]). exact Hfresh.
  - apply bind_Ok_inv in Hrun as (e' & Hrecalc & Hrun).
    apply bind_Ok_inv in Hrun as (apt3 & Hsplit & Hsort).
    eapply SortTaxiEdges_fresh; [|exact Hsort].
    set (apt1 := set_nodes apt _) in *.
    set (apt2 := set_edges apt1 _) in *.
    assert (Hb1 : built apt1).
    { eapply built_step; [exact Hb|]. unfold apt1, vset. by eapply step_MoveNode. }
    assert (Hb2 : built apt2).
    { eapply built_step; [exact Hb1|]. unfold apt2, vset.
      by eapply step_RecalcTaxiEdge. }
    assert (Hty' : type e' = type e).
    { unfold RecalcTaxiEdge in Hrecalc.
      apply bind_Ok_inv in Hrecalc as (na & _ & Hrecalc).
      apply bind_Ok_inv in Hrecalc as (nb & _ & [= <-]).
      by rewrite type_Normalize. }
    assert (∃ e0, vecTaxiEdges apt2 !! N.to_nat joinIdx = Some e0
                  ∧ GetType e0 ≠ RUN_WAY) as (e0 & He0 & Hty0).
    { unfold apt2, apt1, vset. cbn [vecTaxiEdges set_edges set_nodes].
      destruct (decide (N.to_nat joinIdx = N.to_nat front)) as [Heq|Hne].
      - rewrite Heq. exists e'.
        rewrite list_lookup_insert_eq by by eapply lookup_lt_Some.
        split; [done|]. unfold GetType in *. by rewrite Hty'.
      - exists pJoinE. by rewrite list_lookup_insert_ne. }
    eapply built_step; [exact Hb2|]. by eapply step_SplitEdge.
Qed.

Lemma join_open_loop_fresh `{GeoLib} `{Config} (fuel : nat) (i : N)
    (apt apt' : Apt) :
  built apt → freshly_sorted apt →
  join_open_loop fuel i apt = Ok apt' → freshly_sorted apt'.
Proof.
  revert i apt. induction fuel as [|fuel IH]; intros i apt Hb Hfresh; simpl.
  - destruct (decide _); [done|]. by intros [= <-].
  - destruct (decide (i < _)) as [Hi|]; [|by intros [= <-]].
    intros Hrun. apply bind_Ok_inv in Hrun as (apt1 & Hnode & Hrun).
    destruct (join_open_node_built apt i Hb Hi) as (apt1' & Hnode' & Hb1 & _).
    rewrite Hnode in Hnode'. injection Hnode' as <-.
    eapply IH; [exact Hb1| |exact Hrun].
    exact (join_open_node_fresh apt apt1 i Hb Hfresh Hnode).
Qed.

Lemma elem_of_emplace (key : string) (apt : Apt) (m : mapAptTy) :
  (∀ p, p ∈ m → p ∈ emplace key apt m)
  ∧ (∀ p, p ∈ emplace key apt m → p ∈ m ∨ p = (key, apt))
  ∧ (key ∉ m.*1 → (key, apt) ∈ emplace key apt m).
Proof.
  induction m as [|[k x] m (IH1 & IH2 & IH3)]; simpl.
  - split; [intros p Hp; by apply elem_of_nil in Hp|]. split.
    + intros p Hp. apply list_elem_of_singleton in Hp. by right.
    + intros _. left.
  - destruct (String.compare key k) eqn:Hcmp.
    + split; [done|]. split; [by left|].
      intros Hnot. exfalso. apply Hnot. apply String.compare_eq_iff in Hcmp.
      subst. left.
    + split; [by right|]. split.
      * intros p Hp. apply elem_of_cons in Hp as [->|Hp]; [by right|by left].
      * intros _. left.
    + split; [|split].
      * intros p Hp. apply elem_of_cons in Hp as [->|Hp]; [left|right; by apply IH1].
      * intros p Hp. apply elem_of_cons in Hp as [->|Hp]; [left; left|].
        destruct (IH2 p Hp) as [?|?]; [left; by right|by right].
      * intros Hnot. right. apply IH3. intros Hin. apply Hnot. by right.
Qed.

Lemma AddApt_spec `{GeoLib} `{Config} (gmapApt : mapAptTy) (apt : Apt) :
  built apt →
  ∃ apt3,
    AddApt gmapApt apt = Ok (emplace (id apt) apt3 gmapApt)
    ∧ built apt3
    ∧ id apt3 = id apt
    ∧ bounds apt3
      = enlarge_m (bounds apt) (DFin (inject_Z GetFdSnapTaxiDist_m))
    ∧ length (vecTaxiNodes apt3) = length (vecTaxiNodes apt)
    ∧ length (vecRwyEndPts apt3) = length (vecRwyEndPts apt)
    ∧ (length (vecTaxiEdges apt) ≤ length (vecTaxiEdges apt3))%nat
    ∧ (Forall angle_normalized (vecTaxiEdges apt3) → index_ok apt3).
Proof.
  intros Hb. unfold AddApt.
  set (apt1 := EnlargeBounds_m apt _).
  assert (Hb1 : built apt1).
  { eapply built_step; [exact Hb|]. apply step_EnlargeBounds. }
  destruct (SortTaxiEdges_ok apt1) as [apt2 Hsort].
  { by destruct (built_indexed _ Hb1). }
  rewrite Hsort, bind_Ok.
  assert (Hb2 : built apt2).
  { eapply built_step; [exact Hb1|]. by eapply step_SortTaxiEdges. }
  pose proof (SortTaxiEdges_fresh _ _ Hb1 Hsort) as Hfresh2.
  destruct (join_open_loop_built (length (vecTaxiNodes apt2)) 0 apt2 Hb2)
    as (apt3 & Hjoin & Hb3 & Hn3 & Hr3 & He3 & Hid3 & Hbb3); [lia|].
  unfold JoinOpenTaxiEdges. rewrite Hjoin, bind_Ok.
  destruct (SortTaxiEdges_inv _ _ Hsort) as [Hapt2 _].
  assert (Hid : id apt3 = id apt) by (by rewrite Hid3, Hapt2).
  exists apt3. rewrite Hid. split; [done|]. split; [done|]. split; [done|].
  rewrite Hbb3, Hn3, Hr3. rewrite Hapt2 in He3 |- *.
  split; [done|]. split; [done|]. split; [done|]. split; [done|].
  intros Hnorm. apply freshly_sorted_index_ok; [|done].
  eapply join_open_loop_fresh; [exact Hb2|exact Hfresh2|exact Hjoin].
Qed.

(** X11. [AddApt], called for an airport that the builder has produced, returns:
    the airport that it puts into the map is again one that the builder can
    produce, with the same id, nodes and runway endpoints in number, no edge
    less, and the bounds enlarged by the snap distance.  If the angles of its
    edges are normalized, its index vector lists every edge once in the order
    of the angles, which is the state that [FindEdgesForHeading] relies on.
    No airport that is in the map is dropped or replaced; the new airport is
    in the map afterwards if its id was not in the map before. *)
Theorem AddApt_adds `{GeoLib} `{Config} (gmapApt : mapAptTy) (apt : Apt) :
  built apt →
  ∃ apt3 gmapApt',
    AddApt gmapApt apt = Ok gmapApt'
    ∧ built apt3
    ∧ id apt3 = id apt
    ∧ bounds apt3
      = enlarge_m (bounds apt) (DFin (inject_Z GetFdSnapTaxiDist_m))
    ∧ length (vecTaxiNodes apt3) = length (vecTaxiNodes apt)
    ∧ length (vecRwyEndPts apt3) = length (vecRwyEndPts apt)
    ∧ (length (vecTaxiEdges apt) ≤ length (vecTaxiEdges apt3))%nat
    ∧ (Forall angle_normalized (vecTaxiEdges apt3) → index_ok apt3)
    ∧ (∀ p, p ∈ gmapApt → p ∈ gmapApt')
    ∧ (∀ p, p ∈ gmapApt' → p ∈ gmapApt ∨ p = (id apt, apt3))
    ∧ (id apt ∉ gmapApt.*1 → (id apt, apt3) ∈ gmapApt').
Proof.
  intros Hb.
  destruct (AddApt_spec gmapApt apt Hb)
    as (apt3 & Hadd & Hb3 & Hid & Hbb & Hn & Hr & He & Hidx).
  destruct (elem_of_emplace (id apt) apt3 gmapApt) as (H1 & H2 & H3).
  exists apt3, (emplace (id apt) apt3 gmapApt).
  do 10 (split; [assumption|]). assumption.
Qed.

Lemma AddApt_adds_witness :
  ∃ apt3, AddApt [] apt_gap = Ok [("GAPP"%string, apt3)]
          ∧ index_ok apt3
          ∧ length (vecTaxiEdges apt3) = 4%nat.
Proof.
  destruct (AddApt_adds [] apt_gap apt_gap_built)
    as (apt3 & m' & Hadd & _ & _ & _ & _ & _ & _ & Hidx & _ & Hin & _).
  assert (∃ a, AddApt [] apt_gap = Ok [("GAPP"%string, a)]
               ∧ Forall angle_normalized (vecTaxiEdges a)
               ∧ length (vecTaxiEdges a) = 4%nat) as (a & Hrun & Hnorm & Hlen).
  { vm_compute. eexists. split; [reflexivity|]. split; [|reflexivity].
    repeat constructor. }
  rewrite Hrun in Hadd. injection Hadd as <-.
  assert (Hmem : ("GAPP"%string, a) ∈ [("GAPP"%string, a)]) by left.
  destruct (Hin _ Hmem) as [Hnil|Heq]; [inversion Hnil|].
  injection Heq as ->.
  exists apt3. split; [exact Hrun|]. split; [by apply Hidx|exact Hlen].
Defined.

(** ** Snapping through the map of airports *)

Lemma SnapToTaxiway_lookup `{GeoLib} `{Config} (apt apt' : Apt)
    (fd fd' : LTFlightData) (posIter posIter' : nat) :
  SnapToTaxiway apt fd posIter = Ok (true, fd', posIter', apt') →
  ∃ pos' e, posDeque fd' !! posIter' = Some pos'
            ∧ vecTaxiEdges apt !! N.to_nat (pos_edgeIdx pos') = Some e.
Proof.
  intros Hrun.
  destruct (SnapToTaxiway_spec _ _ _ _ _ _ _ Hrun)
    as (pos0 & pos' & ins & Hpos0 & Hdeque & Hit & _ & _ & _ & _ & (e & He & _) & _).
  exists pos', e. split; [|done].
  assert (Hlt : (posIter < length (posDeque fd))%nat) by (by eapply lookup_lt_Some).
  rewrite Hdeque, Hit.
  rewrite lookup_app_r by (rewrite length_take; lia).
  rewrite length_take.
  replace (posIter + length ins - posIter `min` length (posDeque fd))%nat
    with (length ins + 0)%nat by lia.
  by rewrite lookup_app_r, Nat.add_comm, Nat.add_sub by lia.
Qed.

(** X19. [LTAptSnap] changes the map of airports in one place at most: the
    airport that changes is the first one in the order of the keys whose
    bounds contain the position, and of it only the Dijkstra attributes of
    its nodes change.  If the call returns true, snapping is switched on,
    and the position that the iterator points to afterwards names an edge of
    that airport.  If it returns false, the map and the iterator are as
    before, and either the flight data is untouched (snapping switched off,
    or no airport contains the position), or the position alone has changed,
    being marked as having no edge. *)
Theorem LTAptSnap_frame `{GeoLib} `{Config} (gmapApt gmapApt' : mapAptTy)
    (fd fd' : LTFlightData) (posIter posIter' : nat) (ret : bool) :
  LTAptSnap gmapApt fd posIter = Ok (ret, fd', posIter', gmapApt') →
  Forall2 (λ p p', p'.1 = p.1
                   ∧ p'.2 = set_nodes p.2 (vecTaxiNodes p'.2)
                   ∧ Forall2 same_place (vecTaxiNodes p.2) (vecTaxiNodes p'.2))
    gmapApt gmapApt'
  ∧ (∀ k p, gmapApt !! k = Some p → gmapApt' !! k ≠ Some p →
       ∃ pos, posDeque fd !! posIter = Some pos
              ∧ Contains p.2 pos = true
              ∧ ∀ j q, (j < k)%nat → gmapApt !! j = Some q →
                       Contains q.2 pos = false)
  ∧ (ret = true →
       (0 < GetFdSnapTaxiDist_m)%Z
       ∧ ∃ pos pos' k key apt e,
           posDeque fd !! posIter = Some pos
           ∧ gmapApt !! k = Some (key, apt)
           ∧ Contains apt pos = true
           ∧ posDeque fd' !! posIter' = Some pos'
           ∧ vecTaxiEdges apt !! N.to_nat (pos_edgeIdx pos') = Some e)
  ∧ (ret = false →
       gmapApt' = gmapApt ∧ posIter' = posIter
       ∧ (fd' = fd
          ∨ ∃ pos, posDeque fd !! posIter = Some pos
                   ∧ posDeque fd'
                     = <[posIter := set_pos_edgeIdx pos EDGE_UNAVAIL]> (posDeque fd)
                   ∧ pAc fd' = pAc fd ∧ acTypeIcao fd' = acTypeIcao fd)).
Proof.
  assert (Hrefl : ∀ m : mapAptTy,
            Forall2 (λ p p', p'.1 = p.1
                      ∧ p'.2 = set_nodes p.2 (vecTaxiNodes p'.2)
                      ∧ Forall2 same_place (vecTaxiNodes p.2) (vecTaxiNodes p'.2))
              m m).
  { intros m. apply Forall2_same_length_lookup_2; [done|].
    intros i x y Hx Hy. rewrite Hx in Hy. injection Hy as <-.
    split; [done|]. split; [by destruct x as [? []]|apply same_place_refl]. }
  unfold LTAptSnap, mapAptTy in *. intros Hrun.
  destruct (decide (GetFdSnapTaxiDist_m ≤ 0)%Z) as [Hoff|Hon].
  { injection Hrun as <- <- <- <-. split; [apply Hrefl|].
    split; [by intros k p Hk Hk'|]. split; [done|]. intros _. by repeat split; [left]. }
  destruct (posDeque fd !! posIter) as [pos|] eqn:Hpos; [|done].
  destruct (LTAptFind gmapApt pos) as [[k [key apt]]|] eqn:Hfind.
  2:{ injection Hrun as <- <- <- <-. split; [apply Hrefl|].
      split; [by intros k p Hk Hk'|]. split; [done|]. intros _.
      by repeat split; [left]. }
  apply bind_Ok_inv in Hrun as ([[[ret0 fd0] it0] apt'] & Hsnap & [= <- <- <- <-]).
  unfold LTAptFind in Hfind. apply list_find_Some in Hfind as (Hk & Hin & Hfirst).
  simpl in Hin.
  pose proof (SnapToTaxiway_spec _ _ _ _ _ _ _ Hsnap)
    as (pos0 & pos' & ins & Hpos0 & Hdeque & Hit & HpAc & Hicao & _ & _ & Hret
        & Hapt' & Hsame).
  split.
  { apply Forall2_same_length_lookup_2; [by rewrite length_insert|].
    intros i x y Hx Hy.
    destruct (decide (i = k)) as [->|Hne].
    - rewrite list_lookup_insert_eq in Hy by by eapply lookup_lt_Some.
      rewrite Hk in Hx. injection Hx as <-. injection Hy as <-. done.
    - rewrite list_lookup_insert_ne in Hy by done.
      rewrite Hx in Hy. injection Hy as <-.
      split; [done|]. split; [by destruct x as [? []]|apply same_place_refl]. }
  split.
  { intros i p Hi Hi'.
    destruct (decide (i = k)) as [->|Hne].
    - rewrite Hk in Hi. injection Hi as <-. exists pos.
      split; [done|]. split; [done|]. intros j q Hj Hq.
      specialize (Hfirst j q Hq Hj). simpl in Hfirst.
      by destruct (Contains q.2 pos).
    - by rewrite list_lookup_insert_ne in Hi' by done. }
  split.
  - intros ->. split; [lia|].
    destruct (SnapToTaxiway_lookup _ _ _ _ _ _ Hsnap) as (p' & e & Hp' & He).
    by exists pos, p', k, key, apt, e.
  - intros ->. destruct Hret as (-> & -> & ->).
    split; [|split; [simpl in Hit; lia|]].
    + by apply list_insert_id.
    + right. exists pos. rewrite Hpos in Hpos0. injection Hpos0 as <-.
      split; [done|]. split; [|done]. rewrite Hdeque. simpl.
      symmetry. apply insert_take_drop. by eapply lookup_lt_Some.
Qed.

Lemma LTAptSnap_frame_witness :
  ∃ pos' e,
    (0 < @GetFdSnapTaxiDist_m Planar.planarConfig)%Z
    ∧ vecTaxiEdges apt_line5 !! N.to_nat (pos_edgeIdx pos') = Some e
    ∧ pos_ts pos' = dbl 100.
Proof.
  assert (∃ fd' m', LTAptSnap [("LINE"%string, apt_line5)] fd_taxi 1
                    = Ok (true, fd', 3%nat, m')) as (fd' & m' & Hrun).
  { vm_compute. eexists _, _. reflexivity. }
  destruct (LTAptSnap_frame _ _ _ _ _ _ _ Hrun) as (_ & _ & Htrue & _).
  destruct (Htrue eq_refl)
    as (Hon & pos & pos' & k & key & apt & e & _ & Hk & _ & Hpos' & He).
  destruct k as [|k]; [|by destruct k]. injection Hk as _ <-.
  exists pos', e. split; [exact Hon|]. split; [exact He|].
  revert Hrun Hpos'. vm_compute. intros [= <- _] [= <-]. reflexivity.
Defined.

(** ** Reading a taxi line *)

Lemma within_merge_coords `{GeoLib} `{Config} (_lat _lon : double) (n : TaxiNode) :
  within_merge_dist _lat _lon n = true → HasGeoCoords n = true.
Proof.
  unfold within_merge_dist, HasGeoCoords. intros Hw.
  apply andb_true_iff in Hw as [H1 H2].
  destruct (lat n); [done| | |]; (destruct (lon n); [done| | |]); done.
Qed.

Lemma grows_refl (apt : Apt) : grows apt apt.
Proof.
  split; [|split; [|done]].
  - exists []. by rewrite app_nil_r.
  - intros k n Hn. by exists n.
Qed.

Lemma grows_vsize (apt apt' : Apt) (i : N) :
  grows apt apt' → i < vsize (vecTaxiNodes apt) → i < vsize (vecTaxiNodes apt').
Proof.
  intros (_ & Hnodes & _) Hi. destruct (lookup_vsize _ _ Hi) as [n Hn].
  destruct (Hnodes _ _ Hn) as (n' & Hn' & _). by eapply lookup_lt_vsize.
Qed.

Lemma grows_coords (apt apt' : Apt) (i : N) :
  grows apt apt' → coords_ok apt i → coords_ok apt' i.
Proof.
  intros (_ & Hnodes & _) (n & Hn & Hgeo).
  destruct (Hnodes _ _ Hn) as (n' & Hn' & Hlat & Hlon).
  exists n'. split; [done|]. unfold HasGeoCoords in *. by rewrite Hlat, Hlon.
Qed.

Lemma grows_trans (apt1 apt2 apt3 : Apt) :
  grows apt1 apt2 → grows apt2 apt3 → grows apt1 apt3.
Proof.
  intros H12 H23.
  pose proof H12 as ((new1 & He1 & Hnew1) & Hn1 & Hid1 & Hr1 & Hh1).
  pose proof H23 as ((new2 & He2 & Hnew2) & Hn2 & Hid2 & Hr2 & Hh2).
  split; [|split; [|by rewrite Hid2, Hr2, Hh2]].
  - exists (new1 ++ new2). split; [by rewrite He2, He1, app_assoc|].
    apply Forall_app. split; [|done].
    eapply Forall_impl; [exact Hnew1|]. intros e (Ht & Hab & Ha & Hb).
    split; [done|]. split; [done|]. split; by eapply grows_vsize.
  - intros k n Hn. destruct (Hn1 _ _ Hn) as (n' & Hn' & Hlat & Hlon).
    destruct (Hn2 _ _ Hn') as (n'' & Hn'' & Hlat' & Hlon').
    exists n''. split; [done|]. by rewrite Hlat', Hlon'.
Qed.

Lemma grows_edges (apt apt' : Apt) :
  grows apt apt' → (length (vecTaxiEdges apt) ≤ length (vecTaxiEdges apt'))%nat.
Proof. intros ((new & -> & _) & _). rewrite length_app. lia. Qed.

Lemma AddTaxiNode_ok `{GeoLib} `{Config} (apt : Apt) (_lat _lon : double)
    (dcw : size_t) :
  dcw = ULONG_MAX ∨ dcw < vsize (vecTaxiNodes apt) →
  ∃ r, AddTaxiNode apt _lat _lon dcw = Ok r.
Proof.
  intros Hdcw. rewrite AddTaxiNode_unfold. rewrite decide_False.
  - destruct (find_if _ _); by eexists.
  - intros [Hne Hnone]. destruct Hdcw as [?|Hlt]; [done|].
    destruct (lookup_vsize _ _ Hlt) as [n Hn]. by rewrite Hn in Hnone.
Qed.

Lemma AddTaxiNode_grows `{GeoLib} `{Config} (apt apt' : Apt)
    (_lat _lon : double) (dcw i : size_t) :
  AddTaxiNode apt _lat _lon dcw = Ok (apt', i) →
  grows apt apt'
  ∧ vecTaxiEdges apt' = vecTaxiEdges apt
  ∧ i < vsize (vecTaxiNodes apt')
  ∧ i ≤ vsize (vecTaxiNodes apt)
  ∧ (length (vecTaxiNodes apt') ≤ length (vecTaxiNodes apt) + 1)%nat
  ∧ (dcw ≠ ULONG_MAX → i ≠ dcw)
  ∧ (HasGeoCoords (TaxiNode_at _lat _lon) = true → coords_ok apt' i).
Proof.
  intros Hcall.
  destruct (AddTaxiNode_cases _ _ _ _ _ _ Hcall)
    as (Hdcw & [(-> & n & Hn & [_ Hw] & _)|(-> & -> & _)]).
  - split; [apply grows_refl|]. split; [done|].
    pose proof (lookup_lt_vsize _ _ _ Hn) as Hlt.
    split; [done|]. split; [lia|]. split; [lia|].
    split; [intros Hne; by apply Hdcw|]. intros _.
    exists n. split; [done|]. by eapply within_merge_coords.
  - cbn [vecTaxiNodes vecTaxiEdges set_nodes set_bounds].
    split; [|split; [done|]].
    + split; [|split; [|done]].
      * exists []. by rewrite app_nil_r.
      * intros k n Hn. exists n. split; [|done].
        cbn [vecTaxiNodes set_nodes set_bounds].
        by apply lookup_app_l_Some.
    + unfold vsize. rewrite length_app. simpl.
      split; [lia|]. split; [lia|]. split; [lia|].
      split; [intros Hne; by apply Hdcw|].
      intros Hgeo. exists (TaxiNode_at _lat _lon). split; [|done].
      cbn [vecTaxiNodes set_nodes set_bounds].
      rewrite Nat2N.id. by rewrite lookup_app_r, Nat.sub_diag by lia.
Qed.

Lemma AddTaxiEdge_grows `{GeoLib} (apt : Apt) (n1 n2 : size_t) (_dist : double) :
  n1 ≠ n2 → n1 < vsize (vecTaxiNodes apt) → n2 < vsize (vecTaxiNodes apt) →
  ∃ apt' i,
    AddTaxiEdge apt n1 n2 _dist = Ok (apt', i)
    ∧ grows apt apt'
    ∧ length (vecTaxiNodes apt') = length (vecTaxiNodes apt)
    ∧ (length (vecTaxiEdges apt') ≤ length (vecTaxiEdges apt) + 1)%nat
    ∧ (coords_ok apt n1 → coords_ok apt n2 →
       length (vecTaxiEdges apt') = (length (vecTaxiEdges apt) + 1)%nat).
Proof.
  intros Hne H1 H2. pose proof (AddTaxiEdge_outcomes apt n1 n2 _dist) as Hout.
  destruct (lookup_vsize _ _ H1) as [na Hna].
  destruct (lookup_vsize _ _ H2) as [nb Hnb].
  rewrite Hna, Hnb in Hout.
  destruct (HasGeoCoords na && HasGeoCoords nb) eqn:Hgeo.
  - destruct Hout as (apt' & Hcall & _ & Hedges & Hnodes & Hrest).
    exists apt', (vsize (vecTaxiEdges apt)). split; [done|].
    assert (Hlen : length (vecTaxiNodes apt') = length (vecTaxiNodes apt)).
    { by rewrite Hnodes, length_imap. }
    split; [|split; [done|]].
    + split; [|split].
      * exists [new_taxi_edge n1 n2 na nb _dist]. split; [done|].
        constructor; [|done]. unfold new_taxi_edge.
        rewrite type_TaxiEdge_new. split; [done|].
        unfold TaxiEdge_new, vsize. rewrite Hlen. fold (vsize (vecTaxiNodes apt)).
        destruct (Normalize_nodes (mkEdge TAXI_WAY n1 n2
                    (CoordAngle (lat na) (lon na) (lat nb) (lon nb))
                    (if isnan _dist
                     then DistLatLon (lat na) (lon na) (lat nb) (lon nb)
                     else _dist)))
          as (_ & [[-> ->]|[-> ->]]); simpl; done.
      * intros k n Hn. rewrite Hnodes, list_lookup_imap, Hn. simpl.
        by eexists.
      * rewrite <- Hrest. by destruct apt'.
    + rewrite Hedges, length_app. simpl. split; [lia|]. intros _ _. lia.
  - exists apt, ULONG_MAX. split; [done|]. split; [apply grows_refl|].
    split; [done|]. split; [lia|].
    intros (na' & Hna' & Hga) (nb' & Hnb' & Hgb).
    rewrite Hna in Hna'. rewrite Hnb in Hnb'.
    injection Hna' as <-. injection Hnb' as <-.
    by rewrite Hga, Hgb in Hgeo.
Qed.

Section TaxiLineProofs.
Context `{GeoLib} `{Config}.
Variables (APT_MAX_EDGE_LEN_M2 APT_MAX_TAXI_SEGM_TURN : double).

Local Abbreviation step := (taxi_line_step APT_MAX_EDGE_LEN_M2 APT_MAX_TAXI_SEGM_TURN).
Local Abbreviation loop := (taxi_line_loop APT_MAX_EDGE_LEN_M2 APT_MAX_TAXI_SEGM_TURN).

Lemma taxi_line_step_spec (apt : Apt) (idxA : size_t) (fa : double)
    (nb nc : TaxiNode) :
  idxA < vsize (vecTaxiNodes apt) →
  ∃ apt' idxA' fa',
    step (apt, idxA, fa) nb nc = Ok (apt', idxA', fa')
    ∧ grows apt apt'
    ∧ idxA' < vsize (vecTaxiNodes apt')
    ∧ (built apt → built apt')
    ∧ (length (vecTaxiNodes apt') ≤ length (vecTaxiNodes apt) + 1)%nat
    ∧ (length (vecTaxiEdges apt') ≤ length (vecTaxiEdges apt) + 1)%nat
    ∧ (isnan fa = true → apt' = apt)
    ∧ (HasGeoCoords nb = true → coords_ok apt idxA →
       coords_ok apt' idxA'
       ∧ (idxA' = idxA
          ∨ (length (vecTaxiEdges apt) < length (vecTaxiEdges apt'))%nat)).
Proof.
  intros HA. unfold taxi_line_step.
  destruct (lookup_vsize _ _ HA) as [na Hna].
  rewrite (proj2 (vidx_Ok _ _ _) Hna), bind_Ok.
  assert (Hsame : ∀ fa' : double,
            ∃ apt' idxA' fa'',
              Ok (apt, idxA, fa') = Ok (apt', idxA', fa'')
              ∧ grows apt apt'
              ∧ idxA' < vsize (vecTaxiNodes apt')
              ∧ (built apt → built apt')
              ∧ (length (vecTaxiNodes apt') ≤ length (vecTaxiNodes apt) + 1)%nat
              ∧ (length (vecTaxiEdges apt') ≤ length (vecTaxiEdges apt) + 1)%nat
              ∧ (isnan fa = true → apt' = apt)
              ∧ (HasGeoCoords nb = true → coords_ok apt idxA →
                 coords_ok apt' idxA'
                 ∧ (idxA' = idxA
                    ∨ (length (vecTaxiEdges apt) < length (vecTaxiEdges apt'))%nat))).
  { intros fa'. exists apt, idxA, fa'. split; [done|].
    split; [apply grows_refl|]. split; [done|]. split; [done|].
    split; [lia|]. split; [lia|]. split; [done|].
    intros _ Hc. split; [done|by left]. }
  destruct (isnan fa) eqn:Hfa; [apply Hsame|].
  destruct (_ || _); [|apply Hsame].
  destruct (AddTaxiNode_ok apt (lat nb) (lon nb) ULONG_MAX) as [[apt1 idxB] Hadd];
    [by left|].
  rewrite Hadd, bind_Ok.
  destruct (AddTaxiNode_grows _ _ _ _ _ _ Hadd)
    as (Hg1 & He1 & HB & _ & Hn1 & _ & Hc1).
  assert (Hb1 : built apt → built apt1).
  { intros Hb. eapply built_step; [exact Hb|]. by eapply step_AddTaxiNode. }
  destruct (decide (idxA ≠ idxB)) as [Hne|Heq].
  - destruct (AddTaxiEdge_grows apt1 idxA idxB NAN Hne)
      as (apt2 & i & Hedge & Hg2 & Hn2 & He2 & Hc2);
      [by eapply grows_vsize|done|].
    rewrite Hedge, bind_Ok. exists apt2, idxB, NAN. split; [done|].
    split; [by eapply grows_trans|].
    split; [unfold vsize in *; by rewrite Hn2|].
    split.
    { intros Hb. eapply built_step; [exact (Hb1 Hb)|]. by eapply step_AddTaxiEdge. }
    split; [lia|]. split; [rewrite <- He1; lia|]. split; [done|].
    intros Hgb Hca.
    assert (Hcb : coords_ok apt1 idxB) by (by apply Hc1).
    split; [by eapply grows_coords|]. right.
    rewrite Hc2; [rewrite He1; lia| |done]. by eapply grows_coords.
  - exists apt1, idxA, fa. split; [done|]. split; [done|].
    split; [by eapply grows_vsize|]. split; [done|]. split; [done|].
    split; [rewrite He1; lia|]. split; [done|].
    intros _ Hca. split; [by eapply grows_coords|by left].
Qed.

Lemma taxi_line_loop_spec (rest : list TaxiNode) :
  ∀ (nb : TaxiNode) (apt : Apt) (idxA : size_t) (fa : double),
  idxA < vsize (vecTaxiNodes apt) →
  ∃ apt' idxA' fa',
    loop (apt, idxA, fa) (nb :: rest) = Ok (apt', idxA', fa')
    ∧ grows apt apt'
    ∧ idxA' < vsize (vecTaxiNodes apt')
    ∧ (built apt → built apt')
    ∧ (length (vecTaxiNodes apt') ≤ length (vecTaxiNodes apt) + length rest)%nat
    ∧ (length (vecTaxiEdges apt') ≤ length (vecTaxiEdges apt) + length rest)%nat
    ∧ (isnan fa = true → rest ≠ [] →
       (length (vecTaxiNodes apt') + 1
        ≤ length (vecTaxiNodes apt) + length rest)%nat
       ∧ (length (vecTaxiEdges apt') + 1
          ≤ length (vecTaxiEdges apt) + length rest)%nat)
    ∧ (Forall (λ n, HasGeoCoords n = true) (nb :: rest) → coords_ok apt idxA →
       coords_ok apt' idxA'
       ∧ (idxA' = idxA
          ∨ (length (vecTaxiEdges apt) < length (vecTaxiEdges apt'))%nat)).
Proof.
  induction rest as [|nc rest IH]; intros nb apt idxA fa HA.
  - exists apt, idxA, fa. split; [done|]. split; [apply grows_refl|].
    split; [done|]. split; [done|]. split; [simpl; lia|]. split; [simpl; lia|].
    split; [done|]. intros _ Hc. split; [done|by left].
  - destruct (taxi_line_step_spec apt idxA fa nb nc HA)
      as (apt1 & idxA1 & fa1 & Hstep & Hg1 & HA1 & Hb1 & Hn1 & He1 & Hnan1 & Hc1).
    destruct (IH nc apt1 idxA1 fa1 HA1)
      as (apt2 & idxA2 & fa2 & Hloop & Hg2 & HA2 & Hb2 & Hn2 & He2 & _ & Hc2).
    exists apt2, idxA2, fa2.
    split.
    { change (loop (apt, idxA, fa) (nb :: nc :: rest))
        with (step (apt, idxA, fa) nb nc ≫= λ st', loop st' (nc :: rest)).
      by rewrite Hstep, bind_Ok. }
    split; [by eapply grows_trans|]. split; [done|].
    split; [intros Hb; by apply Hb2, Hb1|].
    split; [simpl; lia|]. split; [simpl; lia|].
    split.
    { intros Hfa _. rewrite (Hnan1 Hfa) in Hn2, He2. simpl. lia. }
    intros Hall Hca. apply Forall_cons in Hall as [Hgb Hall].
    destruct (Hc1 Hgb Hca) as [Hca1 Hor1].
    destruct (Hc2 Hall Hca1) as [Hca2 Hor2].
    split; [done|].
    pose proof (grows_edges _ _ Hg1). pose proof (grows_edges _ _ Hg2).
    destruct Hor1 as [->|?]; [|right; lia].
    destruct Hor2 as [->|?]; [by left|right; lia].
Qed.

Lemma ReadOneTaxiLine_nodes_spec (apt : Apt) (vecNodes : list TaxiNode) :
  ∃ apt',
    ReadOneTaxiLine_nodes APT_MAX_EDGE_LEN_M2 APT_MAX_TAXI_SEGM_TURN apt vecNodes
    = Ok apt'
    ∧ grows apt apt'
    ∧ (built apt → built apt')
    ∧ ((length vecNodes < 2)%nat → apt' = apt)
    ∧ (length (vecTaxiNodes apt') ≤ length (vecTaxiNodes apt) + length vecNodes)%nat
    ∧ (length (vecTaxiEdges apt')
       ≤ length (vecTaxiEdges apt) + (length vecNodes - 1))%nat
    ∧ ((2 ≤ length vecNodes)%nat →
       Forall (λ n, HasGeoCoords n = true) vecNodes →
       vsize (vecTaxiNodes apt) < ULONG_MAX →
       (length (vecTaxiEdges apt) < length (vecTaxiEdges apt'))%nat).
Proof.
  unfold ReadOneTaxiLine_nodes.
  destruct (decide (2 ≤ length vecNodes)%nat) as [Hlen|Hlen].
  2:{ exists apt. split; [done|]. split; [apply grows_refl|].
      split; [done|]. split; [done|]. split; [lia|]. split; [lia|]. lia. }
  destruct vecNodes as [|front rest]; simpl in Hlen; [lia|].
  destruct (last (front :: rest)) as [back|] eqn:Hlast;
    [|by apply last_None in Hlast].
  cbn [head].
  destruct (AddTaxiNode_ok apt (lat front) (lon front) ULONG_MAX)
    as [[apt1 idxF] Hadd1]; [by left|].
  rewrite Hadd1, bind_Ok.
  destruct (AddTaxiNode_grows _ _ _ _ _ _ Hadd1)
    as (Hg1 & He1 & HF & HFle & Hn1 & _ & Hc1).
  destruct (taxi_line_loop_spec rest front apt1 idxF NAN HF)
    as (apt2 & idxA & fa & Hloop & Hg2 & HA & Hb2 & Hn2 & He2 & Hslack & Hc2).
  rewrite Hloop, bind_Ok.
  assert (Hrest : rest ≠ []) by (intros ->; simpl in Hlen; lia).
  destruct (Hslack eq_refl Hrest) as [Hn2' He2'].
  assert (HF2 : idxF < vsize (vecTaxiNodes apt2)) by (by eapply grows_vsize).
  destruct (AddTaxiNode_ok apt2 (lat back) (lon back) idxF)
    as [[apt3 idxB] Hadd3]; [by right|].
  rewrite Hadd3, bind_Ok.
  destruct (AddTaxiNode_grows _ _ _ _ _ _ Hadd3)
    as (Hg3 & He3 & HB & _ & Hn3 & HneF & Hc3).
  assert (Hb3 : built apt → built apt3).
  { intros Hb. eapply built_step; [|by eapply step_AddTaxiNode].
    apply Hb2. eapply built_step; [exact Hb|]. by eapply step_AddTaxiNode. }
  assert (Hback : Forall (λ n, HasGeoCoords n = true) (front :: rest) →
                  HasGeoCoords back = true).
  { intros Hall. rewrite Forall_forall in Hall. apply Hall.
    apply last_Some in Hlast as [l' ->]. apply elem_of_app. right. left. }
  simpl length.
  pose proof (f_equal length He1) as Hl1.
  pose proof (f_equal length He3) as Hl3.
  pose proof (grows_edges _ _ Hg2) as Hl2.
  destruct (decide (idxA ≠ idxB)) as [Hne|Heq].
  - destruct (AddTaxiEdge_grows apt3 idxA idxB NAN Hne)
      as (apt4 & i & Hedge & Hg4 & Hn4 & He4 & Hc4);
      [by eapply grows_vsize|done|].
    rewrite Hedge, bind_Ok. exists apt4. split; [done|].
    split; [eapply grows_trans; [|exact Hg4];
            eapply grows_trans; [|exact Hg3]; by eapply grows_trans|].
    split.
    { intros Hb. eapply built_step; [exact (Hb3 Hb)|]. by eapply step_AddTaxiEdge. }
    split; [lia|]. split; [lia|]. split; [lia|].
    intros _ Hall _.
    assert (Hcf : coords_ok apt1 idxF).
    { apply Hc1. by apply Forall_cons in Hall as [? _]. }
    destruct (Hc2 Hall Hcf) as [Hca _].
    rewrite Hc4; [lia| |].
    + by eapply grows_coords.
    + apply Hc3. by apply Hback.
  - exists apt3. split; [done|].
    split; [eapply grows_trans; [|exact Hg3]; by eapply grows_trans|].
    split; [done|]. split; [lia|]. split; [lia|]. split; [lia|].
    intros _ Hall Hmax.
    assert (Hcf : coords_ok apt1 idxF).
    { apply Hc1. by apply Forall_cons in Hall as [? _]. }
    destruct (Hc2 Hall Hcf) as [_ [->|Hmore]]; [|lia].
    exfalso. apply Heq. intros <-. apply HneF; [lia|done].
Qed.

(** X4. The node processing of [ReadOneTaxiLine] returns for every airport and
    every list of temporarily stored nodes.  The airport only grows by it:
    its edges are kept, followed by the new ones, which are taxiway edges
    between two different nodes of the airport; its nodes keep their indexes
    and coordinates; id, runway endpoints and index vector are as before.
    With fewer than two stored nodes nothing changes.  At most as many nodes
    are added as were stored, and at most one edge less than that.  If the
    builder can produce the airport, it can produce the result. *)
Theorem ReadOneTaxiLine_nodes_grows (apt : Apt) (vecNodes : list TaxiNode) :
  ∃ apt',
    ReadOneTaxiLine_nodes APT_MAX_EDGE_LEN_M2 APT_MAX_TAXI_SEGM_TURN apt vecNodes
    = Ok apt'
    ∧ grows apt apt'
    ∧ (built apt → built apt')
    ∧ ((length vecNodes < 2)%nat → apt' = apt)
    ∧ (length (vecTaxiNodes apt') ≤ length (vecTaxiNodes apt) + length vecNodes)%nat
    ∧ (length (vecTaxiEdges apt')
       ≤ length (vecTaxiEdges apt) + (length vecNodes - 1))%nat.
Proof.
  destruct (ReadOneTaxiLine_nodes_spec apt vecNodes)
    as (apt' & Hrun & Hg & Hb & Hshort & Hn & He & _).
  by exists apt'.
Qed.

(** X5. If at least two nodes were stored and all of them have coordinates, the
    node processing of [ReadOneTaxiLine] adds at least one edge to the
    airport, as the comment at the last call of [AddTaxiNode] says.  The
    airport has fewer than [ULONG_MAX] nodes, so that the index of the first
    node is not the value that stands for no index. *)
Theorem ReadOneTaxiLine_nodes_adds_edge (apt : Apt) (vecNodes : list TaxiNode) :
  (2 ≤ length vecNodes)%nat →
  Forall (λ n, HasGeoCoords n = true) vecNodes →
  vsize (vecTaxiNodes apt) < ULONG_MAX →
  ∃ apt',
    ReadOneTaxiLine_nodes APT_MAX_EDGE_LEN_M2 APT_MAX_TAXI_SEGM_TURN apt vecNodes
    = Ok apt'
    ∧ (length (vecTaxiEdges apt) < length (vecTaxiEdges apt'))%nat.
Proof.
  intros Hlen Hall Hmax.
  destruct (ReadOneTaxiLine_nodes_spec apt vecNodes)
    as (apt' & Hrun & _ & _ & _ & _ & _ & Hmore).
  exists apt'. split; [done|]. by apply Hmore.
Qed.

End TaxiLineProofs.

Lemma ReadOneTaxiLine_nodes_adds_edge_witness :
  ∃ apt', ReadOneTaxiLine_nodes (dbl 1000000) (dbl 15) (Apt_new "LINE") taxi_line4
          = Ok apt'
          ∧ length (vecTaxiNodes apt') = 3%nat
          ∧ length (vecTaxiEdges apt') = 2%nat.
Proof.
  destruct (ReadOneTaxiLine_nodes_adds_edge (dbl 1000000) (dbl 15)
              (Apt_new "LINE") taxi_line4)
    as (apt' & Hrun & _).
  - simpl. lia.
  - repeat constructor.
  - reflexivity.
  - exists apt'. split; [exact Hrun|].
    revert Hrun. vm_compute. by intros [= <-].
Defined.
